(** * Math Copy Extension: equation detection and extraction core

    A shallow embedding of the content script [content.js]
    (classes [EquationProcessor] and [DOMProcessor]) and of the background
    helper [validateMathML], with the properties of the specification
    stated and settled against it; then of the background script's
    history, statistics and switch lists and of the popup's text
    helpers, with further properties of the code.

    JavaScript strings are sequences of UTF-16 code units; they are kept
    as lists of [N] so that [length], regular-expression classes over
    zero-width characters and [split('')] act on the same units as in the source. *)

From Stdlib Require Import List NArith Lia Bool Arith String Ascii.
Import ListNotations.

Set Implicit Arguments.

(* ================================================================== *)
(** * JavaScript strings *)

Module Js.

Definition jsstring := list N.

(** ASCII literal as a JavaScript string. *)
Definition lit (s : string) : jsstring :=
  List.map N_of_ascii (list_ascii_of_string s).

(** The double quote, written as a code unit. *)
Definition DQ : N := 34%N.
(** The apostrophe. *)
Definition SQ : N := 39%N.

Fixpoint streq (a b : jsstring) : bool :=
  match a, b with
  | [], [] => true
  | x :: a', y :: b' => N.eqb x y && streq a' b'
  | _, _ => false
  end.

Definition inrange (lo hi c : N) : bool := (N.leb lo c && N.leb c hi)%bool.

(** [WhiteSpace] and [LineTerminator] of ECMAScript: the set removed by
    [String.prototype.trim] and matched by the class escape [\s]. *)
Definition is_ws (c : N) : bool :=
  (inrange 9 13 c || N.eqb c 32 || N.eqb c 160 || N.eqb c 5760
   || inrange 8192 8202 c || N.eqb c 8232 || N.eqb c 8233
   || N.eqb c 8239 || N.eqb c 8287 || N.eqb c 12288 || N.eqb c 65279)%N%bool.

Fixpoint trimStart (s : jsstring) : jsstring :=
  match s with
  | c :: s' => if is_ws c then trimStart s' else s
  | [] => []
  end.

Fixpoint trimEnd (s : jsstring) : jsstring :=
  match s with
  | [] => []
  | c :: s' =>
      match trimEnd s' with
      | [] => if is_ws c then [] else [c]
      | t => c :: t
      end
  end.

Definition trim (s : jsstring) : jsstring := trimEnd (trimStart s).

Fixpoint startsWith (s p : jsstring) : bool :=
  match p, s with
  | [], _ => true
  | x :: p', y :: s' => N.eqb x y && startsWith s' p'
  | _ :: _, [] => false
  end.

(** [s.includes(p)] *)
Fixpoint includes (s p : jsstring) : bool :=
  startsWith s p ||
  match s with
  | [] => false
  | _ :: s' => includes s' p
  end.

(** [s.replace(p, r)] for a string pattern [p] and a replacement [r]
    without [$]: the first occurrence only. *)
Fixpoint replaceStr (s p r : jsstring) : jsstring :=
  if startsWith s p then r ++ skipn (List.length p) s
  else match s with
       | [] => []
       | c :: s' => c :: replaceStr s' p r
       end.

(** ASCII case folding, as used by [toLowerCase]/[toUpperCase] on the
    tag names compared in the source and by the [i] flag on ASCII
    pattern characters. *)
Definition lowerA (c : N) : N := if inrange 65 90 c then (c + 32)%N else c.
Definition upperA (c : N) : N := if inrange 97 122 c then (c - 32)%N else c.
Definition toLowerCaseA (s : jsstring) : jsstring := List.map lowerA s.
Definition toUpperCaseA (s : jsstring) : jsstring := List.map upperA s.

(** [Array.prototype.join] *)
Fixpoint join (sep : jsstring) (l : list jsstring) : jsstring :=
  match l with
  | [] => []
  | [x] => x
  | x :: l' => x ++ sep ++ join sep l'
  end.

(** [length] as the number of code units. *)
Definition len (s : jsstring) : N := N.of_nat (List.length s).

End Js.
Import Js.

(* ================================================================== *)
(** * Regular expressions

    A backtracking matcher in continuation-passing style for the fragment
    of ECMAScript patterns the source uses: character classes, greedy
    [*], [+] and [?], alternation, capturing groups (never nested in the
    source) and the anchors [^] and [$] without the [m] flag. *)

Module Regex.

Inductive regex : Type :=
| Chr (p : N -> bool)
| Seq (r1 r2 : regex)
| Alt (r1 r2 : regex)
| Star (p : N -> bool)
| Opt (r : regex)
| Grp (r : regex)
| Bol
| Eol
| Eps.

(** Index in the input, remaining input, groups captured so far. *)
Definition mstate := (nat * jsstring * list jsstring)%type.

Fixpoint star_run (p : N -> bool) (i : nat) (s : jsstring)
         (caps : list jsstring) (k : mstate -> option mstate) : option mstate :=
  match s with
  | c :: s' =>
      if p c then
        match star_run p (S i) s' caps k with
        | Some r => Some r
        | None => k (i, s, caps)
        end
      else k (i, s, caps)
  | [] => k (i, [], caps)
  end.

Fixpoint run (r : regex) (st : mstate) (k : mstate -> option mstate) : option mstate :=
  match r with
  | Chr p =>
      match st with
      | (i, c :: s', caps) => if p c then k (S i, s', caps) else None
      | _ => None
      end
  | Seq r1 r2 => run r1 st (fun st' => run r2 st' k)
  | Alt r1 r2 =>
      match run r1 st k with
      | Some x => Some x
      | None => run r2 st k
      end
  | Star p => let '(i, s, caps) := st in star_run p i s caps k
  | Opt r' =>
      match run r' st k with
      | Some x => Some x
      | None => k st
      end
  | Grp r' =>
      let '(i, s, _) := st in
      run r' st (fun st' => let '(j, s', caps') := st' in
                            k (j, s', caps' ++ [firstn (j - i) s]))
  | Bol => let '(i, _, _) := st in if Nat.eqb i 0 then k st else None
  | Eol => match st with (_, [], _) => k st | _ => None end
  | Eps => k st
  end.

(** One match attempt at index [i], where [s] is the input from [i] on:
    the length of the match and the captured groups. *)
Definition exec (r : regex) (i : nat) (s : jsstring) : option (nat * list jsstring) :=
  match run r (i, s, []) Some with
  | Some (j, _, caps) => Some (j - i, caps)
  | None => None
  end.

(** A literal, case-sensitive and with the [i] flag. *)
Definition chr (c : N) : regex := Chr (N.eqb c).
Definition chrI (c : N) : regex := Chr (fun x => N.eqb (upperA x) (upperA c)).

Fixpoint seqs (l : list regex) : regex :=
  match l with
  | [] => Eps
  | [r] => r
  | r :: l' => Seq r (seqs l')
  end.

Definition str (s : jsstring) : regex := seqs (List.map chr s).
Definition strI (s : jsstring) : regex := seqs (List.map chrI s).
Definition Plus (p : N -> bool) : regex := Seq (Chr p) (Star p).

(** [s.replace(r, f)] with the [g] flag; [f] receives the match and the
    groups.  [skip] counts the code units of the current match still to
    be passed over. *)
Fixpoint replace_from (r : regex) (f : jsstring -> list jsstring -> jsstring)
         (i : nat) (s : jsstring) (skip : nat) : jsstring :=
  match s with
  | [] =>
      match skip with
      | O => match exec r i [] with
             | Some (_, caps) => f [] caps
             | None => []
             end
      | S _ => []
      end
  | c :: s' =>
      match skip with
      | S n => replace_from r f (S i) s' n
      | O =>
          match exec r i s with
          | Some (O, caps) => f [] caps ++ c :: replace_from r f (S i) s' 0
          | Some (S n, caps) => f (firstn (S n) s) caps ++ replace_from r f (S i) s' n
          | None => c :: replace_from r f (S i) s' 0
          end
      end
  end.

Definition replaceAll (r : regex) (f : jsstring -> list jsstring -> jsstring)
           (s : jsstring) : jsstring :=
  replace_from r f 0 s 0.

(** [s.replace(r, f)] without the [g] flag: the first match only. *)
Fixpoint replace_first_from (r : regex) (f : jsstring -> list jsstring -> jsstring)
         (i : nat) (s : jsstring) : jsstring :=
  match exec r i s with
  | Some (n, caps) => f (firstn n s) caps ++ skipn n s
  | None =>
      match s with
      | [] => []
      | c :: s' => c :: replace_first_from r f (S i) s'
      end
  end.

Definition replaceFirst (r : regex) (f : jsstring -> list jsstring -> jsstring)
           (s : jsstring) : jsstring :=
  replace_first_from r f 0 s.

(** [r.test(s)] *)
Fixpoint test_from (r : regex) (i : nat) (s : jsstring) : bool :=
  match exec r i s with
  | Some _ => true
  | None =>
      match s with
      | [] => false
      | _ :: s' => test_from r (S i) s'
      end
  end.

Definition test (r : regex) (s : jsstring) : bool := test_from r 0 s.

(** [(s.match(r) || []).length] with the [g] flag. *)
Fixpoint count_from (r : regex) (i : nat) (s : jsstring) (skip : nat) : nat :=
  match s with
  | [] =>
      match skip with
      | O => match exec r i [] with Some _ => 1 | None => 0 end
      | S _ => 0
      end
  | _ :: s' =>
      match skip with
      | S n => count_from r (S i) s' n
      | O =>
          match exec r i s with
          | Some (n, _) => S (count_from r (S i) s' (Nat.pred n))
          | None => count_from r (S i) s' 0
          end
      end
  end.

Definition matchCount (r : regex) (s : jsstring) : nat := count_from r 0 s 0.

(** Replacement by a constant string, and by group 1 followed by a string. *)
Definition const (x : jsstring) : jsstring -> list jsstring -> jsstring :=
  fun _ _ => x.
Definition group (n : nat) (caps : list jsstring) : jsstring := nth n caps [].

End Regex.
Import Regex.

(* ================================================================== *)
(** * Format conversion: the pure string functions of [EquationProcessor] *)

(** Code units of the characters the source names. *)
Definition LT : N := 60%N.
Definition GT : N := 62%N.
Definition DOLLAR : N := 36%N.
Definition BACKSLASH : N := 92%N.
Definition LF : N := 10%N.

(** The class [[\u200B-\u200D\uFEFF\u2009\u200A]]. *)
Definition is_invisible (c : N) : bool :=
  (inrange 8203 8205 c || N.eqb c 65279 || N.eqb c 8201 || N.eqb c 8202)%N%bool.

(** The class [[ \t\r\n\u200B-\u200D\uFEFF\u2009\u200A]]. *)
Definition is_gap (c : N) : bool :=
  (N.eqb c 32 || N.eqb c 9 || N.eqb c 13 || N.eqb c 10 || is_invisible c)%N%bool.

(** The class [[\s\u200B-\u200D\uFEFF\u2009\u200A]]. *)
Definition is_blank (c : N) : bool := (is_ws c || is_invisible c)%bool.

Definition not_gt (c : N) : bool := negb (N.eqb c GT).
Definition not_lt (c : N) : bool := negb (N.eqb c LT).
Definition is_quote (c : N) : bool := (N.eqb c DQ || N.eqb c SQ)%bool.
Definition not_quote (c : N) : bool := negb (is_quote c).
Definition is_digit (c : N) : bool := inrange 48 57 c.
Definition is_digit_or_dot (c : N) : bool := (is_digit c || N.eqb c 46)%N%bool.
Definition is_alpha (c : N) : bool := (inrange 97 122 c || inrange 65 90 c)%N%bool.
Definition not_rbrace (c : N) : bool := negb (N.eqb c 125%N).
(** [.] without the [s] flag: anything but a line terminator. *)
Definition is_dot (c : N) : bool :=
  negb (N.eqb c 10 || N.eqb c 13 || N.eqb c 8232 || N.eqb c 8233)%N.

(** [latex.replace(/^\$|\$$/, '').trim()] *)
Definition re_dollar : regex := Alt (Seq Bol (chr DOLLAR)) (Seq (chr DOLLAR) Eol).

Definition cleanLatex (latex : jsstring) : jsstring :=
  trim (replaceFirst re_dollar (const []) latex).

Definition MATH_OPEN : jsstring := lit "<math".
Definition XMLNS_EQ : jsstring := lit "xmlns=".
Definition MATHML_NS : jsstring := lit "http://www.w3.org/1998/Math/MathML".
(** The opening of a [math] tag up to and including its namespace
    attribute, the attribute value between double quotes. *)
Definition MATH_OPEN_NS : jsstring :=
  lit "<math xmlns=" ++ [DQ] ++ MATHML_NS ++ [DQ].

(** The step shared by the extractors:
    [if (!s.includes('xmlns=')) s = s.replace('<math', MATH_OPEN_NS)]. *)
Definition addNamespaceIfMissing (s : jsstring) : jsstring :=
  if includes s XMLNS_EQ then s else replaceStr s MATH_OPEN MATH_OPEN_NS.

Definition ensureMathMLNamespace (mathml : jsstring) : jsstring :=
  let out := trim mathml in
  if includes out XMLNS_EQ then out
  else if startsWith out MATH_OPEN then replaceStr out MATH_OPEN MATH_OPEN_NS
  else MATH_OPEN_NS ++ [GT] ++ out ++ lit "</math>".

(** ** [parseFloat] on a group matched by [[0-9.]+]

    The value of the longest prefix that is a decimal literal, as the
    exact fraction [num / 10^places]; [None] is [NaN]. *)
Fixpoint digits_value (acc : N) (s : jsstring) : N * nat * jsstring :=
  match s with
  | c :: s' =>
      if is_digit c then
        let '(v, n, rest) := digits_value (acc * 10 + (c - 48))%N s' in (v, S n, rest)
      else (acc, 0, s)
  | [] => (acc, 0, [])
  end.

Definition parseFloat (w : jsstring) : option (N * nat) :=
  let '(ip, ni, rest) := digits_value 0%N w in
  match rest with
  | 46%N :: frac =>
      let '(v, nf, _) := digits_value ip frac in
      if (Nat.eqb ni 0 && Nat.eqb nf 0)%bool then None else Some (v, nf)
  | _ => if Nat.eqb ni 0 then None else Some (ip, 0)
  end.

(** [parseFloat(width) < 0.05].  The number literal [0.05] is the double
    [7205759403792794 / 2^57], whose significand is even, so a decimal
    value rounds below it exactly when it lies below the midpoint
    [14411518807585587 / 2^58] to its predecessor; [NaN < 0.05] is false. *)
Definition below_threshold (w : jsstring) : bool :=
  match parseFloat w with
  | Some (num, places) =>
      N.ltb (num * 2 ^ 58) (14411518807585587 * 10 ^ N.of_nat places)
  | None => false
  end.

(** ** [cleanMathMLSpacing] *)

(** [/<mspace[^>]*\/?>/gi] *)
Definition re_mspace : regex :=
  seqs [strI (lit "<mspace"); Star not_gt; Opt (chrI 47%N); chrI GT].

(** [/<mtext[^>]*>[\s\u200B-\u200D\uFEFF\u2009\u200A]*<\/mtext>/gi] *)
Definition re_mtext : regex :=
  seqs [strI (lit "<mtext"); Star not_gt; chrI GT; Star is_blank; strI (lit "</mtext>")].

(** [/[\u200B-\u200D\uFEFF\u2009\u200A]/g] *)
Definition re_invisible : regex := Chr is_invisible.

(** [/<mpadded[^>]*width\s*=\s*[Q]0[^Q]*[Q][^>]*>/gi], where [Q] stands
    for the two quote characters of the class in the source. *)
Definition re_mpadded_zero : regex :=
  seqs [strI (lit "<mpadded"); Star not_gt; strI (lit "width"); Star is_ws;
        chrI 61%N; Star is_ws; Chr is_quote; chrI 48%N; Star not_quote;
        Chr is_quote; Star not_gt; chrI GT].

(** [/<mpadded[^>]*width\s*=\s*[Q]([0-9.]+)em[Q][^>]*>/gi] *)
Definition re_mpadded_em : regex :=
  seqs [strI (lit "<mpadded"); Star not_gt; strI (lit "width"); Star is_ws;
        chrI 61%N; Star is_ws; Chr is_quote; Grp (Plus is_digit_or_dot);
        strI (lit "em"); Chr is_quote; Star not_gt; chrI GT].

Definition mpadded_em_replacer (m : jsstring) (caps : list jsstring) : jsstring :=
  if below_threshold (group 0 caps) then [] else m.

(** [/(<mo[^>]*>)([^<]+)(<\/mo>)/gi] *)
Definition re_mo : regex :=
  seqs [Grp (seqs [strI (lit "<mo"); Star not_gt; chrI GT]);
        Grp (Plus not_lt);
        Grp (strI (lit "</mo>"))].

Definition mo_replacer (m : jsstring) (caps : list jsstring) : jsstring :=
  let trimmed := trim (group 1 caps) in
  let cleanedContent := replaceAll re_invisible (const []) trimmed in
  group 0 caps ++ cleanedContent ++ group 2 caps.

(** [/>[ \t\r\n\u200B-\u200D\uFEFF\u2009\u200A]+</g] *)
Definition re_between_tags : regex := seqs [chr GT; Plus is_gap; chr LT].

(** [/<\/mo>[ \t\r\n\u200B-\u200D\uFEFF\u2009\u200A]*</g] *)
Definition re_after_mo : regex := seqs [str (lit "</mo>"); Star is_gap; chr LT].

(** [/(<\/mo>|<\/mi>|<\/mn>|<\/mfrac>|<\/msup>|<\/msub>|<\/munder>|<\/mover>|<\/mrow>)[...]*</g] *)
Definition re_after_close : regex :=
  seqs [Grp (Alt (str (lit "</mo>")) (Alt (str (lit "</mi>")) (Alt (str (lit "</mn>"))
          (Alt (str (lit "</mfrac>")) (Alt (str (lit "</msup>")) (Alt (str (lit "</msub>"))
          (Alt (str (lit "</munder>")) (Alt (str (lit "</mover>")) (str (lit "</mrow>"))))))))));
        Star is_gap; chr LT].

Definition cleanMathMLSpacing (mathmlString : jsstring) : jsstring :=
  let cleaned := mathmlString in
  let cleaned := replaceAll re_mspace (const []) cleaned in
  let cleaned := replaceAll re_mtext (const []) cleaned in
  let cleaned := replaceAll re_invisible (const []) cleaned in
  let cleaned := replaceAll re_mpadded_zero (const []) cleaned in
  let cleaned := replaceAll re_mpadded_em mpadded_em_replacer cleaned in
  let cleaned := replaceAll re_mo mo_replacer cleaned in
  let cleaned := replaceAll re_between_tags (const (lit "><")) cleaned in
  let cleaned := replaceAll re_after_mo (const (lit "</mo><")) cleaned in
  let cleaned := replaceAll re_after_close (fun _ caps => group 0 caps ++ [LT]) cleaned in
  cleaned.

(** ** [convertLatexToMathML] *)

(** [/\\frac\{([^}]+)\}\{([^}]+)\}/g] *)
Definition re_frac : regex :=
  seqs [chr BACKSLASH; str (lit "frac"); chr 123%N; Grp (Plus not_rbrace); chr 125%N;
        chr 123%N; Grp (Plus not_rbrace); chr 125%N].

(** [/\\sqrt\{([^}]+)\}/g] *)
Definition re_sqrt : regex :=
  seqs [chr BACKSLASH; str (lit "sqrt"); chr 123%N; Grp (Plus not_rbrace); chr 125%N].

(** [/\\name/g] *)
Definition re_cmd (name : jsstring) : regex := Seq (chr BACKSLASH) (str name).

Definition mo_of (c : N) : jsstring := lit "<mo>" ++ [c] ++ lit "</mo>".
Definition mi_of (c : N) : jsstring := lit "<mi>" ++ [c] ++ lit "</mi>".

(** The table of named symbols, in the order of the source, each with
    the code unit of its character. *)
Definition latex_symbols : list (jsstring * jsstring) :=
  [ (lit "sum", mo_of 8721%N); (lit "int", mo_of 8747%N); (lit "infty", mo_of 8734%N);
    (lit "alpha", mi_of 945%N); (lit "beta", mi_of 946%N); (lit "gamma", mi_of 947%N);
    (lit "pi", mi_of 960%N); (lit "theta", mi_of 952%N); (lit "lambda", mi_of 955%N);
    (lit "mu", mi_of 956%N); (lit "sigma", mi_of 963%N); (lit "phi", mi_of 966%N);
    (lit "omega", mi_of 969%N) ].

Definition convertLatexToMathML (latex : jsstring) : jsstring :=
  let mathml := latex in
  let mathml := replaceAll re_frac
      (fun _ caps => lit "<mfrac><mrow>" ++ group 0 caps ++ lit "</mrow><mrow>"
                     ++ group 1 caps ++ lit "</mrow></mfrac>") mathml in
  let mathml := replaceAll re_sqrt
      (fun _ caps => lit "<msqrt><mrow>" ++ group 0 caps ++ lit "</mrow></msqrt>") mathml in
  let mathml := fold_left (fun m e => replaceAll (re_cmd (fst e)) (const (snd e)) m)
                          latex_symbols mathml in
  let mathml :=
    if includes mathml MATH_OPEN then mathml
    else MATH_OPEN_NS ++ lit "><mrow>" ++ mathml ++ lit "</mrow></math>" in
  ensureMathMLNamespace mathml.

(** ** Unicode transliteration *)

Definition superscript_map : list (N * N) :=
  [ (48, 8304); (49, 185); (50, 178); (51, 179); (52, 8308); (53, 8309);
    (54, 8310); (55, 8311); (56, 8312); (57, 8313); (43, 8314); (45, 8315);
    (61, 8316); (40, 8317); (41, 8318); (110, 8319); (105, 8305) ]%N.

Definition subscript_map : list (N * N) :=
  [ (48, 8320); (49, 8321); (50, 8322); (51, 8323); (52, 8324); (53, 8325);
    (54, 8326); (55, 8327); (56, 8328); (57, 8329); (43, 8330); (45, 8331);
    (61, 8332); (40, 8333); (41, 8334) ]%N.

Fixpoint lookup (m : list (N * N)) (c : N) : option N :=
  match m with
  | [] => None
  | (k, v) :: m' => if N.eqb k c then Some v else lookup m' c
  end.

(** [text.split('').map(char => map[char] || char).join('')] *)
Definition transliterate (m : list (N * N)) (text : jsstring) : jsstring :=
  List.map (fun c => match lookup m c with Some v => v | None => c end) text.

Definition toSuperscript : jsstring -> jsstring := transliterate superscript_map.
Definition toSubscript : jsstring -> jsstring := transliterate subscript_map.

(** ** [validateMathML] (background script) *)

Definition NS_DECL_DQ : jsstring := lit "xmlns=" ++ [DQ] ++ MATHML_NS ++ [DQ].
Definition NS_DECL_SQ : jsstring := lit "xmlns=" ++ [SQ] ++ MATHML_NS ++ [SQ].
Definition MATH_CLOSE : jsstring := lit "</math>".

Definition validateMathML (mathml : jsstring) : bool :=
  match mathml with
  | [] => false
  | _ =>
      if (N.eqb (len mathml) 0 || N.ltb 1000000 (len mathml))%bool then false
      else if negb (includes mathml MATH_OPEN) then false
      else
        let hasNamespace := (includes mathml NS_DECL_DQ || includes mathml NS_DECL_SQ)%bool in
        let hasClosingTag := includes mathml MATH_CLOSE in
        let openCount := matchCount (str MATH_OPEN) mathml in
        let closeCount := matchCount (str MATH_CLOSE) mathml in
        (hasClosingTag && hasNamespace && Nat.eqb openCount closeCount)%bool
  end.

(* ================================================================== *)
(** * The document

    The page is a tree of element and text nodes.  An element is referred
    to by its path from the root (child indices), which is stable because
    the functions embedded here never move nodes: they change
    attributes and class lists, and the one node that is ever added
    comes after the last child of the root.  Mutations go through the one shared
    tree, so every holder of a path sees them.  Class and attribute
    selectors compare names exactly, as in a document in no-quirks
    mode. *)

Module Dom.

Inductive namespace : Type := HTML | MathML | SVG.

Definition path := list nat.

(** An element without its children: namespace, local name, attributes
    in order (the [class] attribute among them) and the expando property
    [_katexHtmlElement] that [processBatch] stores on KaTeX containers. *)
Record elem : Type := mkElem {
  ns : namespace;
  localName : jsstring;
  attrs : list (jsstring * jsstring);
  katexHtmlElement : option path
}.

#[local] Unset Elimination Schemes.
Inductive node : Type :=
| Text (data : jsstring)
| Element (e : elem) (children : list node).
#[local] Set Elimination Schemes.

Definition children_of (n : node) : list node :=
  match n with
  | Text _ => []
  | Element _ ch => ch
  end.

Fixpoint get (n : node) (p : path) : option node :=
  match p with
  | [] => Some n
  | i :: p' =>
      match nth_error (children_of n) i with
      | Some c => get c p'
      | None => None
      end
  end.

Definition get_elem (n : node) (p : path) : option elem :=
  match get n p with
  | Some (Element e _) => Some e
  | _ => None
  end.

Fixpoint update_nth (A : Type) (f : A -> A) (l : list A) (i : nat) : list A :=
  match l, i with
  | [], _ => []
  | x :: l', O => f x :: l'
  | x :: l', S j => x :: update_nth f l' j
  end.

(** Apply [f] to the element at [p]; nothing happens when [p] is not an
    element of the tree. *)
Fixpoint update (n : node) (p : path) (f : elem -> elem) : node :=
  match n with
  | Text d => Text d
  | Element e ch =>
      match p with
      | [] => Element (f e) ch
      | i :: p' => Element e (update_nth (fun c => update c p' f) ch i)
      end
  end.

(** ** Attributes and class lists *)

Fixpoint assoc (l : list (jsstring * jsstring)) (k : jsstring) : option jsstring :=
  match l with
  | [] => None
  | (k', v) :: l' => if streq k' k then Some v else assoc l' k
  end.

Definition getAttribute (e : elem) (name : jsstring) : option jsstring := assoc (attrs e) name.

Definition hasAttribute (e : elem) (name : jsstring) : bool :=
  match getAttribute e name with Some _ => true | None => false end.

Fixpoint set_assoc (l : list (jsstring * jsstring)) (k v : jsstring) : list (jsstring * jsstring) :=
  match l with
  | [] => [(k, v)]
  | (k', v') :: l' => if streq k' k then (k', v) :: l' else (k', v') :: set_assoc l' k v
  end.

Definition setAttribute (name value : jsstring) (e : elem) : elem :=
  mkElem (ns e) (localName e) (set_assoc (attrs e) name value) (katexHtmlElement e).

Definition set_katexHtmlElement (p : path) (e : elem) : elem :=
  mkElem (ns e) (localName e) (attrs e) (Some p).

(** ASCII whitespace, which separates the tokens of a class attribute. *)
Definition is_ascii_ws (c : N) : bool :=
  (N.eqb c 9 || N.eqb c 10 || N.eqb c 12 || N.eqb c 13 || N.eqb c 32)%N%bool.

Fixpoint split_ws (cur : jsstring) (s : jsstring) : list jsstring :=
  match s with
  | [] => match cur with [] => [] | _ => [rev cur] end
  | c :: s' =>
      if is_ascii_ws c then
        match cur with
        | [] => split_ws [] s'
        | _ => rev cur :: split_ws [] s'
        end
      else split_ws (c :: cur) s'
  end.

Definition mem (t : jsstring) (l : list jsstring) : bool := existsb (streq t) l.

Fixpoint dedup (seen : list jsstring) (l : list jsstring) : list jsstring :=
  match l with
  | [] => []
  | t :: l' => if mem t seen then dedup seen l' else t :: dedup (t :: seen) l'
  end.

(** The token set of [classList]. *)
Definition classList (e : elem) : list jsstring :=
  match getAttribute e (lit "class") with
  | Some v => dedup [] (split_ws [] v)
  | None => []
  end.

Definition classList_contains (e : elem) (token : jsstring) : bool :=
  mem token (classList e).

(** [classList.add(token)]: the token is appended when absent and the
    attribute is rewritten from the token set. *)
Definition classList_add (token : jsstring) (e : elem) : elem :=
  let ts := classList e in
  let ts' := if mem token ts then ts else ts ++ [token] in
  setAttribute (lit "class") (join [32%N] ts') e.

(** [classList.remove(tokens...)]: nothing is written when the element
    has no class attribute and the set stays empty. *)
Definition classList_remove (tokens : list jsstring) (e : elem) : elem :=
  let ts' := filter (fun t => negb (mem t tokens)) (classList e) in
  match getAttribute e (lit "class"), ts' with
  | None, [] => e
  | _, _ => setAttribute (lit "class") (join [32%N] ts') e
  end.

(** [tagName]: upper-cased for an element of the HTML namespace. *)
Definition tagName (e : elem) : jsstring :=
  match ns e with
  | HTML => toUpperCaseA (localName e)
  | _ => localName e
  end.

(** ** Selectors

    The fragment the source uses: type, class and attribute tests,
    negated attribute presence, compounds of these, the descendant
    combinator and comma-separated lists. *)

Inductive simple : Type :=
| SType (name : jsstring)
| SClass (name : jsstring)
| SAttr (name : jsstring)
| SAttrEq (name value : jsstring)
| SNotAttr (name : jsstring).

Definition compound := list simple.
(** A complex selector: the compounds from the outermost ancestor to the
    subject, subject last. *)
Definition complex := list compound.
Definition selector := list complex.

Definition match_simple (s : simple) (e : elem) : bool :=
  match s with
  | SType n => streq (localName e) n
  | SClass c => classList_contains e c
  | SAttr a => hasAttribute e a
  | SAttrEq a v =>
      match getAttribute e a with
      | Some v' => streq v' v
      | None => false
      end
  | SNotAttr a => negb (hasAttribute e a)
  end.

Definition match_compound (c : compound) (e : elem) : bool :=
  forallb (fun s => match_simple s e) c.

(** Ancestors (nearest first) against the remaining compounds, innermost
    first. *)
Fixpoint match_ancestors (cs : list compound) (anc : list elem) : bool :=
  match cs with
  | [] => true
  | c :: cs' =>
      match anc with
      | [] => false
      | e :: anc' =>
          if match_compound c e then
            (match_ancestors cs' anc' || match_ancestors cs anc')%bool
          else match_ancestors cs anc'
      end
  end.

Definition match_complex (cx : complex) (rc : list elem) : bool :=
  match rev cx, rc with
  | subject :: outer, e :: anc => (match_compound subject e && match_ancestors outer anc)%bool
  | _, _ => false
  end.

Definition match_selector (sel : selector) (rc : list elem) : bool :=
  existsb (fun cx => match_complex cx rc) sel.

(** The paths of a path's inclusive ancestors, nearest first. *)
Fixpoint prefixes (p : path) : list path :=
  match p with
  | [] => [[]]
  | i :: p' => List.map (cons i) (prefixes p') ++ [[]]
  end.

Fixpoint all_some (A : Type) (l : list (option A)) : option (list A) :=
  match l with
  | [] => Some []
  | None :: _ => None
  | Some x :: l' =>
      match all_some l' with
      | Some r => Some (x :: r)
      | None => None
      end
  end.

(** The elements from [p] up to the root, nearest first; [None] when [p]
    does not lead to an element. *)
Definition rchain (doc : node) (p : path) : option (list elem) :=
  all_some (List.map (get_elem doc) (prefixes p)).

(** [el.matches(sel)] for the element at [p]. *)
Definition matches (doc : node) (p : path) (sel : selector) : bool :=
  match rchain doc p with
  | Some rc => match_selector sel rc
  | None => false
  end.

(** [el.closest(sel)] *)
Definition closest (doc : node) (p : path) (sel : selector) : option path :=
  find (fun q => matches doc q sel) (prefixes p).

Definition parentElement (p : path) : option path :=
  match p with
  | [] => None
  | _ => Some (removelast p)
  end.

(** The elements of the subtree of [n] in document order, as paths
    relative to [n]; [n] itself first. *)
Fixpoint child_paths (A : Type) (f : A -> list path) (i : nat) (l : list A) : list path :=
  match l with
  | [] => []
  | c :: l' => List.map (cons i) (f c) ++ child_paths f (S i) l'
  end.

Fixpoint elements (n : node) : list path :=
  match n with
  | Text _ => []
  | Element _ ch => [] :: child_paths elements 0 ch
  end.

Definition all_elements (doc : node) : list path := elements doc.

(** [document.querySelectorAll(sel)] *)
Definition document_querySelectorAll (doc : node) (sel : selector) : list path :=
  filter (fun q => matches doc q sel) (all_elements doc).

Definition subtree_elements (doc : node) (p : path) : list path :=
  match get doc p with
  | Some n => List.map (app p) (elements n)
  | None => []
  end.

(** [el.querySelectorAll(sel)]: the proper descendants of [p] that match,
    the selector being read against the whole document. *)
Definition querySelectorAll (doc : node) (p : path) (sel : selector) : list path :=
  filter (fun q => matches doc q sel) (tl (subtree_elements doc p)).

Definition querySelector (doc : node) (p : path) (sel : selector) : option path :=
  hd_error (querySelectorAll doc p sel).

(** [a.contains(b)]: inclusive descendant. *)
Fixpoint is_prefix (a b : path) : bool :=
  match a, b with
  | [], _ => true
  | i :: a', j :: b' => (Nat.eqb i j && is_prefix a' b')%bool
  | _ :: _, [] => false
  end.

Definition path_eqb (a b : path) : bool := (is_prefix a b && is_prefix b a)%bool.

(** [document.getElementById(id)] *)
Definition getElementById (doc : node) (id : jsstring) : option path :=
  find (fun q => match get_elem doc q with
                 | Some e => match getAttribute e (lit "id") with
                             | Some v => streq v id
                             | None => false
                             end
                 | None => false
                 end) (all_elements doc).

(** ** Text and serialisation *)

Fixpoint textContent (n : node) : jsstring :=
  match n with
  | Text d => d
  | Element _ ch => List.concat (List.map textContent ch)
  end.

(** Escaping of the HTML fragment serialisation algorithm. *)
Definition escape (attribute_mode : bool) (s : jsstring) : jsstring :=
  flat_map (fun c =>
    if N.eqb c 38 then lit "&amp;"
    else if N.eqb c 160 then lit "&nbsp;"
    else if N.eqb c 60 then lit "&lt;"
    else if N.eqb c 62 then lit "&gt;"
    else if (attribute_mode && N.eqb c 34)%bool then lit "&quot;"
    else [c])%N s.

Definition void_elements : list jsstring :=
  List.map lit ["area"; "base"; "basefont"; "bgsound"; "br"; "col"; "embed"; "frame";
                "hr"; "img"; "input"; "keygen"; "link"; "meta"; "param"; "source";
                "track"; "wbr"]%string.

Definition raw_text_elements : list jsstring :=
  List.map lit ["style"; "script"; "xmp"; "iframe"; "noembed"; "noframes";
                "plaintext"]%string.

Definition is_html (e : elem) : bool :=
  match ns e with HTML => true | _ => false end.

Definition serialize_attrs (l : list (jsstring * jsstring)) : jsstring :=
  flat_map (fun kv => [32%N] ++ fst kv ++ [61%N; DQ] ++ escape true (snd kv) ++ [DQ]) l.

Fixpoint outerHTML (raw : bool) (n : node) : jsstring :=
  match n with
  | Text d => if raw then d else escape false d
  | Element e ch =>
      [LT] ++ localName e ++ serialize_attrs (attrs e) ++ [GT] ++
      (if (is_html e && mem (localName e) void_elements)%bool then []
       else
         List.concat (List.map (outerHTML (is_html e && mem (localName e) raw_text_elements)) ch)
         ++ lit "</" ++ localName e ++ [GT])
  end.

Definition innerHTML (n : node) : jsstring :=
  match n with
  | Text _ => []
  | Element e ch =>
      List.concat (List.map (outerHTML (is_html e && mem (localName e) raw_text_elements)) ch)
  end.

End Dom.
Import Dom.

(* ================================================================== *)
(** * The page environment

    What the content script reads from the host page and browser besides
    the document: the MathJax objects on [window] and the clipboard. *)

(** A MathJax v2 [Jax] object as the source reads it. *)
Record Jax : Type := mkJax {
  SourceElement : option path;
  originalText : option jsstring;
  inputID : option jsstring
}.

(** [window.MathJax]: absent, a v3 object (it has [startup]), a v2
    object (it has [Hub]) or an object with neither.  For v3 the field
    says whether [startup.document] is there and what [math] the first
    item of [getMathItemsWithin(element)] carries; for v2 it is the
    result of [Hub.getAllJax()], when that function exists. *)
Inductive MathJaxObject : Type :=
| MathJaxAbsent
| MathJaxV3 (document_getMathItemsWithin : option (path -> option jsstring))
| MathJaxV2 (getAllJax : option (list Jax))
| MathJaxOther.

(** The clipboard capabilities of the browser: whether
    [navigator.clipboard.write] and [writeText] exist and whether a call
    with the given text succeeds, and the result of
    [document.execCommand('copy')] ([None] when it throws). *)
Record Navigator : Type := mkNavigator {
  has_write : bool;
  write_succeeds : jsstring -> bool;
  has_writeText : bool;
  writeText_succeeds : jsstring -> bool;
  execCommand_copy : jsstring -> option bool
}.

Record Env : Type := mkEnv {
  window_MathJax : MathJaxObject;
  navigator : Navigator;
  (** [chrome.runtime && chrome.runtime.id] *)
  runtime_alive : bool
}.

(* ================================================================== *)
(** * [EquationProcessor] *)

(** JavaScript truthiness of a string-or-null value. *)
Definition truthy (v : option jsstring) : bool :=
  match v with
  | Some (_ :: _) => true
  | _ => false
  end.

(** [a || b] on string-or-null values. *)
Definition jsor (a b : option jsstring) : option jsstring :=
  if truthy a then a else b.

(** [a && a.trim()] as a condition. *)
Definition truthy_trimmed (v : option jsstring) : bool :=
  match v with
  | Some s => (truthy v && truthy (Some (trim s)))%bool
  | None => false
  end.

Definition sel_class (c : string) : selector := [[[SClass (lit c)]]].
Definition sel_type (t : string) : selector := [[[SType (lit t)]]].
Definition sel_attr (a : string) : selector := [[[SAttr (lit a)]]].
(** [outer inner], a descendant combinator between two simple selectors. *)
Definition sel_desc (outer inner : simple) : selector := [[[outer]; [inner]]].

Definition PROCESSED : jsstring := lit "data-katex-processed".

Definition attr_of (doc : node) (p : path) (name : string) : option jsstring :=
  match get_elem doc p with
  | Some e => getAttribute e (lit name)
  | None => None
  end.

Definition has_class (doc : node) (p : path) (c : string) : bool :=
  match get_elem doc p with
  | Some e => classList_contains e (lit c)
  | None => false
  end.

Definition node_text (doc : node) (p : path) : jsstring :=
  match get doc p with
  | Some n => textContent n
  | None => []
  end.

(** [el.textContent || el.innerText]: [innerText] is empty whenever
    [textContent] is, so the second operand only ever yields the empty
    string. *)
Definition text_or_innerText (doc : node) (p : path) : option jsstring :=
  jsor (Some (node_text doc p)) (Some []).

(** The contribution of a node met by the [TreeWalker] and of the nodes
    below it, in document order. *)
Fixpoint walk_text (n : node) : jsstring :=
  match n with
  | Text d => d
  | Element e ch =>
      let nodeName := toLowerCaseA (tagName e) in
      (if streq nodeName (lit "sup") then toSuperscript (textContent n)
       else if streq nodeName (lit "sub") then toSubscript (textContent n)
       else [])
      ++ List.concat (List.map walk_text ch)
  end.

Definition extractTextContent (doc : node) (element : option path) : option jsstring :=
  match element with
  | None => None
  | Some p =>
      match get doc p with
      | Some n => Some (trim (List.concat (List.map walk_text (children_of n))))
      | None => None
      end
  end.

Definition convertToUnicode (doc : node) (element : path) : option jsstring :=
  extractTextContent doc (Some element).

Definition outerHTML_at (doc : node) (p : path) : jsstring :=
  match get doc p with
  | Some n => outerHTML false n
  | None => []
  end.

Definition innerHTML_at (doc : node) (p : path) : jsstring :=
  match get doc p with
  | Some n => innerHTML n
  | None => []
  end.

Definition LATEX : jsstring := lit "latex".
Definition MATHML : jsstring := lit "mathml".
Definition UNICODE : jsstring := lit "unicode".
Definition ASCIIMATH : jsstring := lit "asciimath".

(** [CONFIG.validFormats] and [CONFIG.defaultFormat] *)
Definition validFormats : list jsstring := [MATHML; LATEX; UNICODE; ASCIIMATH].
Definition defaultFormat : jsstring := MATHML.
(** [CONFIG.BATCH_SIZE] *)
Definition BATCH_SIZE : nat := 10.
(** [CONFIG.MAX_CLIPBOARD_HISTORY] *)
Definition MAX_CLIPBOARD_HISTORY : nat := 20.

(** [outerHTML], spacing cleanup, then the namespace if missing: the
    tail shared by the MathML branches of the extractors. *)
Definition serialize_math (doc : node) (mathml : path) : jsstring :=
  addNamespaceIfMissing (cleanMathMLSpacing (outerHTML_at doc mathml)).

Definition extractFromKaTeX (doc : node) (element : path) (format : jsstring)
  : option jsstring :=
  let container := element in
  if negb (has_class doc container "katex") then None
  else if streq format LATEX then
    let from_annotation :=
      match querySelector doc container (sel_type "annotation") with
      | Some annotation =>
          let annotationText :=
            jsor (Some (innerHTML_at doc annotation)) (text_or_innerText doc annotation) in
          if truthy_trimmed annotationText then annotationText else None
      | None => None
      end in
    match from_annotation with
    | Some annotationText => Some (cleanLatex annotationText)
    | None =>
        let latex := jsor (attr_of doc container "data-latex")
                          (jsor (attr_of doc container "data-tex")
                                (attr_of doc container "data-original")) in
        match latex with
        | Some l => if truthy_trimmed latex then Some (cleanLatex l) else None
        | None => None
        end
    end
  else if streq format MATHML then
    let katexMathml := querySelector doc container (sel_class "katex-mathml") in
    let mathml :=
      match katexMathml with
      | Some km => querySelector doc km (sel_type "math")
      | None => None
      end in
    let mathml :=
      match mathml with
      | Some m => Some m
      | None => querySelector doc container (sel_type "math")
      end in
    match mathml with
    | None => None
    | Some m => Some (serialize_math doc m)
    end
  else
    let htmlElement :=
      match get_elem doc container with
      | Some e =>
          match katexHtmlElement e with
          | Some h => Some h
          | None => querySelector doc container (sel_class "katex-html")
          end
      | None => None
      end in
    match htmlElement with
    | Some h => extractTextContent doc (Some h)
    | None => None
    end.

(** The first [n] proper ancestors of [p], nearest first, then the rest
    of the walk [parent = parent.parentElement]. *)
Definition parents_upto (n : nat) (p : path) : list path := firstn n (tl (prefixes p)).

Definition getMathJaxV3Source (env : Env) (doc : node) (element : path)
           (getMathItemsWithin : option (path -> option jsstring)) : option jsstring :=
  let altText := jsor (attr_of doc element "data-mjx-alt") (attr_of doc element "data-mjx-latex") in
  if truthy altText then altText
  else
    let from_item :=
      match getMathItemsWithin with
      | Some items => if truthy (items element) then items element else None
      | None => None
      end in
    match from_item with
    | Some m => Some m
    | None =>
        match find (fun parent => truthy (jsor (attr_of doc parent "data-mjx-alt")
                                               (attr_of doc parent "data-mjx-latex")))
                   (parents_upto 3 element) with
        | Some parent => jsor (attr_of doc parent "data-mjx-alt")
                              (attr_of doc parent "data-mjx-latex")
        | None => None
        end
    end.

(** The value a matching [Jax] makes the loop return, if any. *)
Definition jax_source (doc : node) (element : path) (jax : Jax) : option (option jsstring) :=
  match SourceElement jax with
  | None => None
  | Some sourceElement =>
      if (path_eqb sourceElement element || is_prefix sourceElement element
          || is_prefix element sourceElement)%bool then
        if truthy (originalText jax) then Some (originalText jax)
        else
          match inputID jax with
          | Some id =>
              if truthy (Some id) then
                match getElementById doc id with
                | Some inputElement => Some (text_or_innerText doc inputElement)
                | None => None
                end
              else None
          | None => None
          end
      else None
  end.

Definition sel_tex_script : selector :=
  [[[SType (lit "script"); SAttrEq (lit "type") (lit "math/tex")]];
   [[SType (lit "script"); SAttrEq (lit "type") (lit "math/tex; mode=display")]]].

(** One round of the fallback loop over [parent]: a script tag below it,
    else one of its source attributes. *)
Definition v2_parent_source (doc : node) (parent : path) : option (option jsstring) :=
  match querySelector doc parent sel_tex_script with
  | Some script => Some (text_or_innerText doc script)
  | None =>
      let originalText := jsor (attr_of doc parent "data-original-text")
                               (jsor (attr_of doc parent "data-latex")
                                     (attr_of doc parent "data-tex")) in
      if truthy originalText then Some originalText else None
  end.

Fixpoint first_some (A B : Type) (f : A -> option B) (l : list A) : option B :=
  match l with
  | [] => None
  | x :: l' =>
      match f x with
      | Some y => Some y
      | None => first_some f l'
      end
  end.

Definition getMathJaxV2Source (env : Env) (doc : node) (element : path)
           (getAllJax : option (list Jax)) : option jsstring :=
  let from_jax :=
    match getAllJax with
    | Some allJax => first_some (jax_source doc element) allJax
    | None => None
    end in
  match from_jax with
  | Some r => r
  | None =>
      match first_some (v2_parent_source doc) (firstn 5 (prefixes element)) with
      | Some r => r
      | None => None
      end
  end.

Definition getMathJaxOriginalSource (env : Env) (doc : node) (element : path)
  : option jsstring :=
  match window_MathJax env with
  | MathJaxV3 items => getMathJaxV3Source env doc element items
  | MathJaxV2 allJax => getMathJaxV2Source env doc element allJax
  | _ => None
  end.

(** [a || b] on element-or-null values. *)
Definition por (a b : option path) : option path :=
  match a with
  | Some _ => a
  | None => b
  end.

Definition mathjax_container (doc : node) (element : path) : option path :=
  por (closest doc element (sel_class "MathJax"))
      (por (closest doc element (sel_class "mjx-chtml"))
           (closest doc element (sel_class "mjx-container"))).

Definition mathjax_math_element (doc : node) (container : path) : option path :=
  por (querySelector doc container (sel_type "math"))
 (por (querySelector doc container (sel_desc (SType (lit "mjx-chtml")) (SType (lit "math"))))
 (por (querySelector doc container (sel_desc (SClass (lit "mjx-chtml")) (SType (lit "math"))))
 (por (querySelector doc container (sel_desc (SType (lit "mjx-container")) (SType (lit "math"))))
 (por (querySelector doc container (sel_desc (SClass (lit "MathJax_SVG")) (SType (lit "math"))))
 (por (querySelector doc container (sel_desc (SClass (lit "MathJax_Display")) (SType (lit "math"))))
 (por (querySelector doc container (sel_desc (SType (lit "svg")) (SType (lit "math"))))
      (hd_error (querySelectorAll doc container (sel_type "math"))))))))).

(** The string of a truthy string-or-null value. *)
Definition sval (v : option jsstring) : jsstring :=
  match v with
  | Some x => x
  | None => []
  end.

Definition extractFromMathJax (env : Env) (doc : node) (element : path) (format : jsstring)
  : option jsstring :=
  match mathjax_container doc element with
  | None => None
  | Some container =>
      let originalLatex := getMathJaxOriginalSource env doc container in
      if streq format LATEX then
        if truthy originalLatex then Some (cleanLatex (sval originalLatex))
        else
          let latex :=
            jsor (attr_of doc container "data-latex")
           (jsor (attr_of doc container "data-tex")
           (jsor (attr_of doc container "data-original")
           (jsor (attr_of doc container "data-mjx-latex")
                 (attr_of doc container "data-original-text")))) in
          if truthy latex then Some (cleanLatex (sval latex))
          else extractTextContent doc (Some container)
      else if streq format MATHML then
        match mathjax_math_element doc container with
        | None =>
            if truthy originalLatex then
              let converted := convertLatexToMathML (sval originalLatex) in
              if truthy (Some converted)
              then Some (ensureMathMLNamespace (cleanMathMLSpacing converted))
              else None
            else None
        | Some mathml => Some (serialize_math doc mathml)
        end
      else extractTextContent doc (Some container)
  end.

Definition extractFromMathML (doc : node) (element : path) (format : jsstring)
  : option jsstring :=
  let mathElement :=
    match get_elem doc element with
    | Some e => if streq (tagName e) (lit "MATH") then Some element
                else closest doc element (sel_type "math")
    | None => None
    end in
  match mathElement with
  | None => None
  | Some m =>
      if streq format MATHML then Some (serialize_math doc m)
      else extractTextContent doc (Some m)
  end.

(** [/\\[a-zA-Z]+|\$.*\$/] *)
Definition re_looks_like_latex : regex :=
  Alt (Seq (chr BACKSLASH) (Plus is_alpha)) (seqs [chr DOLLAR; Star is_dot; chr DOLLAR]).

Definition extractFromDataAttribute (doc : node) (element : path) (format : jsstring)
  : option jsstring :=
  let dataMath :=
    jsor (attr_of doc element "data-math")
         (match closest doc element (sel_attr "data-math") with
          | Some c => attr_of doc c "data-math"
          | None => None
          end) in
  match dataMath with
  | None => None
  | Some d =>
      if negb (truthy dataMath) then None
      else if streq format LATEX then Some (cleanLatex d)
      else if streq format MATHML then
        if test re_looks_like_latex d then
          let mathml := convertLatexToMathML d in
          if truthy (Some mathml) then Some (cleanMathMLSpacing mathml) else Some mathml
        else if startsWith (trim d) MATH_OPEN then
          Some (cleanMathMLSpacing (ensureMathMLNamespace (trim d)))
        else None
      else Some d
  end.

(** The class of [mathPattern]: ASCII operators, the listed mathematical
    signs and the Greek lower-case letters alpha to omega without the
    final sigma. *)
Definition is_math_symbol (c : N) : bool :=
  existsb (N.eqb c)
    [43; 45; 42; 47; 61; 60; 62; 8804; 8805; 8776; 8747; 8721; 8719; 8730; 8706;
     8710; 8711; 8734; 177; 215; 247; 8712; 8713; 8834; 8835; 8746; 8745; 8704;
     8707]%N
  || inrange 945 961 c || inrange 963 969 c.

Definition extractGeneric (doc : node) (element : path) : option jsstring :=
  let text := node_text doc element in
  if test (Chr is_math_symbol) text then Some text else None.

(** ** Errors *)

Inductive severity : Type := LOW | MEDIUM | HIGH.

(** An [ExtensionError] with its code and severity, or any other error
    thrown by the host ([TypeError] and the like). *)
Inductive error : Type :=
| ExtensionError (code : jsstring) (sev : severity)
| HostError.

Inductive result (A : Type) : Type :=
| Ok (a : A)
| Throw (e : error).
Arguments Ok {A} a.
Arguments Throw {A} e.

Definition INVALID_ELEMENT : jsstring := lit "INVALID_ELEMENT".
Definition CONTENT_TOO_LARGE : jsstring := lit "CONTENT_TOO_LARGE".
Definition INVALID_CLIPBOARD_CONTENT : jsstring := lit "INVALID_CLIPBOARD_CONTENT".
Definition CLIPBOARD_API_UNAVAILABLE : jsstring := lit "CLIPBOARD_API_UNAVAILABLE".
Definition EXEC_COMMAND_FAILED : jsstring := lit "EXEC_COMMAND_FAILED".
Definition CLIPBOARD_COPY_FAILED : jsstring := lit "CLIPBOARD_COPY_FAILED".

(** [.katex[data-katex-processed]] *)
Definition sel_katex_processed : selector := [[[SClass (lit "katex"); SAttr PROCESSED]]].

(** The renderer-specific extraction that [getEquationContent]
    dispatches to, for an element [e] at [equation]. *)
Definition dispatch (env : Env) (doc : node) (equation : path) (e : elem)
           (format : jsstring) : option jsstring :=
  let katexContainer :=
    if classList_contains e (lit "katex") then Some equation
    else por (closest doc equation sel_katex_processed)
             (closest doc equation (sel_class "katex")) in
  match katexContainer with
  | Some kc => extractFromKaTeX doc kc format
  | None =>
      match mathjax_container doc equation with
      | Some _ => extractFromMathJax env doc equation format
      | None =>
          match closest doc equation (sel_type "math") with
          | Some _ => extractFromMathML doc equation format
          | None =>
              if streq (tagName e) (lit "MATH") then extractFromMathML doc equation format
              else
                match closest doc equation (sel_attr "data-math") with
                | Some _ => extractFromDataAttribute doc equation format
                | None =>
                    if hasAttribute e (lit "data-math")
                    then extractFromDataAttribute doc equation format
                    else extractGeneric doc equation
                end
          end
      end
  end.

(** The content before validation: the dispatch, then the two fallbacks
    of the source (rendered text for any format; any [math] element
    around for MathML). *)
Definition raw_content (env : Env) (doc : node) (equation : path) (e : elem)
           (format : jsstring) : option jsstring :=
  let content := dispatch env doc equation e format in
  let content := if truthy content then content else convertToUnicode doc equation in
  if (negb (truthy content) && streq format MATHML)%bool then
    match por (querySelector doc equation (sel_type "math"))
              (closest doc equation (sel_type "math")) with
    | Some anyMath =>
        Some (cleanMathMLSpacing (ensureMathMLNamespace (outerHTML_at doc anyMath)))
    | None => content
    end
  else content.

(** The final validation: a non-empty trimmed string within the bound is
    returned, a larger one throws, anything else is [null]. *)
Definition validate_content (content : option jsstring) : result (option jsstring) :=
  match content with
  | Some c =>
      if (truthy content && N.ltb 0 (len (trim c)))%bool then
        let sanitized := trim c in
        if N.ltb 100000 (len sanitized)
        then Throw (ExtensionError CONTENT_TOO_LARGE MEDIUM)
        else Ok (Some sanitized)
      else Ok None
  | None => Ok None
  end.

(** The [try] block of [getEquationContent].  [equation] is [None] for
    a null argument; a path that leads to no node stands for a value
    that is no node; a text node has a [nodeType] but no [closest]. *)
Definition getEquationContent_try (env : Env) (doc : node) (equation : option path)
           (format : jsstring) : result (option jsstring) :=
  match equation with
  | None => Throw (ExtensionError INVALID_ELEMENT HIGH)
  | Some eq =>
      match get doc eq with
      | None => Throw (ExtensionError INVALID_ELEMENT HIGH)
      | Some (Text _) => Throw HostError
      | Some (Element e _) =>
          let format := if mem format validFormats then format else defaultFormat in
          validate_content (raw_content env doc eq e format)
      end
  end.

(* ================================================================== *)
(** * Session state and [DOMProcessor] *)

(** Work handed to [setTimeout]: a later batch of [processBatch], or the
    removal of a feedback class. *)
Inductive task : Type :=
| BatchTask (elements : list path) (startIndex batchSize : nat)
| RemoveClassTask (element : path) (token : jsstring).

(** Messages to the background script. *)
Inductive message : Type :=
| equationCopied (formula format source : jsstring) (count : option nat)
| selectionUpdated (count : nat).

(** The module-level [state] object together with the document it acts
    on and a record of what left the script: listeners attached, timers
    set (delay in ms and task, in the order set), clipboard writes and
    messages sent, oldest first. *)
Record State : Type := mkState {
  document : node;
  selectedEquations : list path;
  isShiftPressed : bool;
  currentFormat : jsstring;
  processedElements : list path;
  clipboardHistory : list (jsstring * jsstring);
  equationHandlers : list path;
  errorCount : nat;
  maxErrors : nat;
  listeners : list path;
  timers : list (nat * task);
  clipboard : list jsstring;
  sent : list message
}.

Definition with_document (d : node) (st : State) : State :=
  mkState d (selectedEquations st) (isShiftPressed st) (currentFormat st)
          (processedElements st) (clipboardHistory st) (equationHandlers st)
          (errorCount st) (maxErrors st) (listeners st) (timers st) (clipboard st) (sent st).

Definition with_selectedEquations (l : list path) (st : State) : State :=
  mkState (document st) l (isShiftPressed st) (currentFormat st)
          (processedElements st) (clipboardHistory st) (equationHandlers st)
          (errorCount st) (maxErrors st) (listeners st) (timers st) (clipboard st) (sent st).

Definition with_processedElements (l : list path) (st : State) : State :=
  mkState (document st) (selectedEquations st) (isShiftPressed st) (currentFormat st)
          l (clipboardHistory st) (equationHandlers st)
          (errorCount st) (maxErrors st) (listeners st) (timers st) (clipboard st) (sent st).

Definition with_clipboardHistory (l : list (jsstring * jsstring)) (st : State) : State :=
  mkState (document st) (selectedEquations st) (isShiftPressed st) (currentFormat st)
          (processedElements st) l (equationHandlers st)
          (errorCount st) (maxErrors st) (listeners st) (timers st) (clipboard st) (sent st).

Definition with_handlers (h l : list path) (st : State) : State :=
  mkState (document st) (selectedEquations st) (isShiftPressed st) (currentFormat st)
          (processedElements st) (clipboardHistory st) h
          (errorCount st) (maxErrors st) l (timers st) (clipboard st) (sent st).

Definition with_errorCount (n : nat) (st : State) : State :=
  mkState (document st) (selectedEquations st) (isShiftPressed st) (currentFormat st)
          (processedElements st) (clipboardHistory st) (equationHandlers st)
          n (maxErrors st) (listeners st) (timers st) (clipboard st) (sent st).

Definition with_timers (t : list (nat * task)) (st : State) : State :=
  mkState (document st) (selectedEquations st) (isShiftPressed st) (currentFormat st)
          (processedElements st) (clipboardHistory st) (equationHandlers st)
          (errorCount st) (maxErrors st) (listeners st) t (clipboard st) (sent st).

Definition with_clipboard (c : list jsstring) (st : State) : State :=
  mkState (document st) (selectedEquations st) (isShiftPressed st) (currentFormat st)
          (processedElements st) (clipboardHistory st) (equationHandlers st)
          (errorCount st) (maxErrors st) (listeners st) (timers st) c (sent st).

Definition with_sent (m : list message) (st : State) : State :=
  mkState (document st) (selectedEquations st) (isShiftPressed st) (currentFormat st)
          (processedElements st) (clipboardHistory st) (equationHandlers st)
          (errorCount st) (maxErrors st) (listeners st) (timers st) (clipboard st) m.

(** The initial [state] on a page. *)
Definition initial_state (doc : node) : State :=
  mkState doc [] false MATHML [] [] [] 0 10 [] [] [] [].

(** [set.add(p)] on a set of element references. *)
Definition set_add (p : path) (l : list path) : list path :=
  if existsb (path_eqb p) l then l else l ++ [p].

Definition set_has (p : path) (l : list path) : bool := existsb (path_eqb p) l.

Definition set_delete (p : path) (l : list path) : list path :=
  filter (fun q => negb (path_eqb p q)) l.

Definition setTimeout (t : task) (delay : nat) (st : State) : State :=
  with_timers (timers st ++ [(delay, t)]) st.

Definition update_element (p : path) (f : elem -> elem) (st : State) : State :=
  with_document (update (document st) p f) st.

(** ** [getEquationContent]: the [try] block and its [catch] *)

Definition getEquationContent (env : Env) (st : State) (equation : option path)
           (format : jsstring) : option jsstring * State :=
  match getEquationContent_try env (document st) equation format with
  | Ok content => (content, st)
  | Throw _ =>
      let st := with_errorCount (S (errorCount st)) st in
      if Nat.ltb (maxErrors st) (errorCount st) then (None, st)
      else (None, st)
  end.

(** ** Detection and tagging *)

Definition MATH_COPY_ELEMENT : jsstring := lit "math-copy-element".

Definition setupEquationListeners (equation : path) (st : State) : State :=
  with_handlers (set_add equation (equationHandlers st)) (listeners st ++ [equation]) st.

(** One activation of [setupEquation]; [redirect] is what the call
    [this.setupEquation(katexContainer)] of the fallback branch does. *)
Definition setupEquation_with (redirect : path -> State -> State)
           (equation : path) (st : State) : State :=
  match get_elem (document st) equation with
  | None => st
  | Some e =>
      if classList_contains e MATH_COPY_ELEMENT then st
      else
        let parent_set_up :=
          match parentElement equation with
          | Some parent => has_class (document st) parent "math-copy-element"
          | None => false
          end in
        if parent_set_up then st
        else
          let attach (st : State) : State :=
            let st := update_element equation (classList_add MATH_COPY_ELEMENT) st in
            let st := update_element equation (setAttribute (lit "tabindex") (lit "0")) st in
            let st := update_element equation (setAttribute (lit "role") (lit "button")) st in
            let st := update_element equation
                        (setAttribute (lit "aria-label")
                                      (lit "Mathematical equation - click to copy")) st in
            setupEquationListeners equation st in
          if classList_contains e (lit "katex") then attach st
          else if classList_contains e (lit "katex-html") then
            match closest (document st) equation (sel_class "katex") with
            | Some katexContainer =>
                if path_eqb katexContainer equation then st
                else redirect katexContainer st
            | None => st
            end
          else attach st
  end.

(** [setupEquation].  The nested call is made on an element of class
    [katex], which never takes the fallback branch again, so one level
    of unfolding is the whole recursion. *)
Definition setupEquation (equation : path) (st : State) : State :=
  setupEquation_with (setupEquation_with (fun _ st' => st')) equation st.

(** [.MathJax, .mjx-chtml, .mjx-container] *)
Definition sel_mathjax_any : selector :=
  [[[SClass (lit "MathJax")]]; [[SClass (lit "mjx-chtml")]]; [[SClass (lit "mjx-container")]]].

Definition findMathContainer (doc : node) (element : path) : option path :=
  match get_elem doc element with
  | None => None
  | Some e =>
      if classList_contains e (lit "katex-html") then closest doc element (sel_class "katex")
      else if classList_contains e (lit "katex") then Some element
      else
        match closest doc element sel_mathjax_any with
        | Some c => Some c
        | None =>
            if streq (tagName e) (lit "MATH") then Some element
            else
              match closest doc element (sel_type "math") with
              | Some m => Some m
              | None =>
                  match closest doc element (sel_class "katex") with
                  | Some k => Some k
                  | None => Some element
                  end
              end
        end
  end.

Definition is_processed (doc : node) (p : path) : bool :=
  match get_elem doc p with
  | Some e => hasAttribute e PROCESSED
  | None => false
  end.

Definition mark_processed (p : path) (st : State) : State :=
  update_element p (setAttribute PROCESSED (lit "true")) st.

Definition remember (p : path) (st : State) : State :=
  with_processedElements (set_add p (processedElements st)) st.

(** The body of [batch.forEach] in [processBatch]. *)
Definition process_element (st : State) (element : path) : State :=
  match get_elem (document st) element with
  | None => st
  | Some e =>
      if classList_contains e (lit "katex-html") then
        if hasAttribute e PROCESSED then st
        else
          match closest (document st) element (sel_class "katex") with
          | Some katexContainer =>
              if is_processed (document st) katexContainer then st
              else
                let st := update_element katexContainer (set_katexHtmlElement element) st in
                let st := setupEquation katexContainer st in
                let st := mark_processed katexContainer st in
                let st := mark_processed element st in
                let st := remember katexContainer st in
                remember element st
          | None => st
          end
      else
        if hasAttribute e PROCESSED then st
        else
          match findMathContainer (document st) element with
          | Some container =>
              if is_processed (document st) container then st
              else
                let st := setupEquation container st in
                let st := mark_processed container st in
                remember container st
          | None => st
          end
  end.

(** [elements.slice(startIndex, endIndex)] *)
Definition slice (A : Type) (l : list A) (i j : nat) : list A := firstn (j - i) (skipn i l).

Definition processBatch (elements : list path) (startIndex batchSize : nat) (st : State)
  : State :=
  if Nat.leb (List.length elements) startIndex then st
  else
    let endIndex := Nat.min (startIndex + batchSize) (List.length elements) in
    let batch := slice elements startIndex endIndex in
    let st := fold_left process_element batch st in
    if Nat.ltb endIndex (List.length elements)
    then setTimeout (BatchTask elements endIndex batchSize) 0 st
    else st.

(** [sel:not([data-katex-processed])] for a class, type or attribute [sel]. *)
Definition unprocessed (s : simple) : selector := [[[s; SNotAttr PROCESSED]]].

Definition otherSelectors : list selector :=
  [ unprocessed (SClass (lit "MathJax"));
    unprocessed (SClass (lit "mjx-chtml"));
    unprocessed (SClass (lit "mjx-container"));
    unprocessed (SType (lit "math"));
    unprocessed (SAttr (lit "data-math")) ].

(** Query one selector on the document as it now is and start its
    batches. *)
Definition scan_selector (st : State) (sel : selector) : State :=
  let equations := document_querySelectorAll (document st) sel in
  match equations with
  | [] => st
  | _ => processBatch equations 0 BATCH_SIZE st
  end.

Definition processExistingEquations (st : State) : State :=
  let st := scan_selector st (unprocessed (SClass (lit "katex-html"))) in
  fold_left scan_selector otherSelectors st.

(** ** The timer queue *)

(** The first pending batch and the queue without it. *)
Fixpoint next_batch (q : list (nat * task))
  : option (list path * nat * nat * list (nat * task)) :=
  match q with
  | [] => None
  | (d, BatchTask els i b) :: q' => Some (els, i, b, q')
  | x :: q' =>
      match next_batch q' with
      | Some (els, i, b, q'') => Some (els, i, b, x :: q'')
      | None => None
      end
  end.

(** Fire the pending batch timers in the order they were set, at most
    [fuel] of them. *)
Fixpoint run_batches (fuel : nat) (st : State) : State :=
  match fuel with
  | O => st
  | S fuel' =>
      match next_batch (timers st) with
      | None => st
      | Some (els, i, b, q) => run_batches fuel' (processBatch els i b (with_timers q st))
      end
  end.

(** The elements the pending batches still have to visit. *)
Fixpoint pending_work (q : list (nat * task)) : nat :=
  match q with
  | [] => 0
  | (_, BatchTask els i _) :: q' => (List.length els - i) + pending_work q'
  | _ :: q' => pending_work q'
  end.

(** A detection scan with all its batches. *)
Definition scan (st : State) : State :=
  let st := processExistingEquations st in
  run_batches (pending_work (timers st)) st.

(** ** Selection and copying *)

Definition notifyBackground (env : Env) (m : message) (st : State) : State :=
  if runtime_alive env then with_sent (sent st ++ [m]) st else st.

Definition notifySelectionChange (env : Env) (st : State) : State :=
  notifyBackground env (selectionUpdated (List.length (selectedEquations st))) st.

Definition toggleEquationSelection (env : Env) (equation : path) (st : State) : State :=
  let st :=
    if set_has equation (selectedEquations st) then
      update_element equation (classList_remove [lit "math-copy-selected"])
        (with_selectedEquations (set_delete equation (selectedEquations st)) st)
    else
      update_element equation (classList_add (lit "math-copy-selected"))
        (with_selectedEquations (set_add equation (selectedEquations st)) st) in
  notifySelectionChange env st.

Definition clearSelection (env : Env) (st : State) : State :=
  let st := fold_left (fun st equation =>
                         update_element equation (classList_remove [lit "math-copy-selected"]) st)
                      (selectedEquations st) st in
  let st := with_selectedEquations [] st in
  notifySelectionChange env st.

Definition addToClipboardHistory (content format : jsstring) (st : State) : State :=
  let h := (content, format) :: clipboardHistory st in
  with_clipboardHistory
    (if Nat.ltb MAX_CLIPBOARD_HISTORY (List.length h) then firstn MAX_CLIPBOARD_HISTORY h else h)
    st.

(** The hidden [textarea] of the [execCommand] fallback as it is when
    it is appended: read-only, moved off the screen through its style
    and hidden from assistive technology.  The text goes into its
    [value] property, so it has no child. *)
Definition hidden_textarea : node :=
  Element (mkElem HTML (lit "textarea")
                  [ (lit "readonly", []);
                    (lit "style",
                     lit "position: fixed; left: -999999px; top: -999999px; opacity: 0;");
                    (lit "aria-hidden", lit "true") ]
                  None) [].

(** [document.body.appendChild(n)]: the root of the tree is the body,
    and the new node comes after its last child, so that the path of
    every node that was there stays what it was. *)
Definition body_appendChild (n : node) (doc : node) : node :=
  match doc with
  | Text d => Text d
  | Element e ch => Element e (ch ++ [n])
  end.

(** The [execCommand] fallback of [copyToClipboard], with the state it
    leaves.  The [textarea] is appended, [execCommand] is called, and the
    [textarea] is removed again; when [execCommand] returns false the
    function then throws, with the document as before.  When
    [execCommand] itself throws ([None]) the removal is skipped, and
    the [textarea] stays behind as the last child of the body. *)
Definition copy_fallback (env : Env) (text : jsstring) (st : State) : result unit * State :=
  match execCommand_copy (navigator env) text with
  | Some true => (Ok tt, with_clipboard (clipboard st ++ [text]) st)
  | Some false => (Throw (ExtensionError CLIPBOARD_COPY_FAILED HIGH), st)
  | None =>
      (Throw (ExtensionError CLIPBOARD_COPY_FAILED HIGH),
       with_document (body_appendChild hidden_textarea (document st)) st)
  end.

(** [copyToClipboard]: whether it returns or throws, and the state it
    leaves either way. *)
Definition copyToClipboard (env : Env) (text format : jsstring) (st : State)
  : result unit * State :=
  match text with
  | [] => (Throw (ExtensionError INVALID_CLIPBOARD_CONTENT HIGH), st)
  | _ =>
      if N.ltb 1000000 (len text) then (Throw (ExtensionError CONTENT_TOO_LARGE MEDIUM), st)
      else
        let nav := navigator env in
        if (streq format MATHML && has_write nav && write_succeeds nav text)%bool
        then (Ok tt, with_clipboard (clipboard st ++ [text]) st)
        else if has_writeText nav then
          if writeText_succeeds nav text
          then (Ok tt, with_clipboard (clipboard st ++ [text]) st)
          else copy_fallback env text st
        else copy_fallback env text st
  end.

(** The loop of [copySelectedEquations] over the selected equations. *)
Fixpoint collect_contents (env : Env) (equations : list path) (format : jsstring)
         (st : State) : list jsstring * State :=
  match equations with
  | [] => ([], st)
  | equation :: rest =>
      let '(content, st) := getEquationContent env st (Some equation) format in
      let '(contents, st) := collect_contents env rest format st in
      ((if truthy content then [sval content] else []) ++ contents, st)
  end.

Definition copySelectedEquations (env : Env) (st : State) : State :=
  match selectedEquations st with
  | [] => st
  | equations =>
      let '(contents, st) := collect_contents env equations (currentFormat st) st in
      match contents with
      | [] => st
      | _ =>
          let combinedContent := join [LF; LF] contents in
          match copyToClipboard env combinedContent (currentFormat st) st with
          | (Throw _, st) => st
          | (Ok _, st) =>
              let st := addToClipboardHistory combinedContent (currentFormat st) st in
              let st := notifyBackground env
                          (equationCopied combinedContent (currentFormat st)
                                          (lit "Multiple Selection")
                                          (Some (List.length contents))) st in
              let st := fold_left (fun st equation =>
                          setTimeout (RemoveClassTask equation (lit "math-copy-success")) 1000
                            (update_element equation (classList_add (lit "math-copy-success")) st))
                          equations st in
              clearSelection env st
          end
      end
  end.

(* ================================================================== *)
(** * The specification's words, and the pages used as examples *)

(** [p] occurs in [s]. *)
Definition occurs (p s : jsstring) : Prop := exists a b, s = a ++ p ++ b.

(** The number of positions of [s] at which [p] occurs. *)
Fixpoint occurrences (p s : jsstring) : nat :=
  (if startsWith s p then 1 else 0) +
  match s with
  | [] => 0
  | _ :: s' => occurrences p s'
  end.

(** Validity of a MathML string in the words of the specification: an
    open tag, a close tag, the namespace declaration, and as many open
    as close tags. *)
Definition valid_mathml_spec (s : jsstring) : Prop :=
  occurs MATH_OPEN s /\ occurs MATH_CLOSE s /\
  (occurs NS_DECL_DQ s \/ occurs NS_DECL_SQ s) /\
  occurrences MATH_OPEN s = occurrences MATH_CLOSE s.

Definition count_dollar (s : jsstring) : nat := count_occ N.eq_dec s DOLLAR.

Definition html (name : string) (a : list (jsstring * jsstring)) (ch : list node) : node :=
  Element (mkElem HTML (lit name) a None) ch.
Definition mml (name : string) (a : list (jsstring * jsstring)) (ch : list node) : node :=
  Element (mkElem MathML (lit name) a None) ch.
Definition class_attr (c : string) : jsstring * jsstring := (lit "class", lit c).

(** The integral sign. *)
Definition INTEGRAL : N := 8747%N.

(** The [math] element of the scenario: an operator and an identifier,
    each with a space on both sides of its text. *)
Definition scenario_math : node :=
  mml "math" [(lit "xmlns", MATHML_NS)]
      [ mml "mo" [] [Text ([32; INTEGRAL; 32]%N)];
        mml "mi" [] [Text (lit " x ")] ].

Definition scenario_input : jsstring :=
  MATH_OPEN_NS ++ lit "><mo> " ++ [INTEGRAL] ++ lit " </mo><mi> x </mi></math>".
(** The output the specification gives for the scenario. *)
Definition scenario_stated : jsstring :=
  MATH_OPEN_NS ++ lit "><mo>" ++ [INTEGRAL] ++ lit "</mo><mi>x</mi></math>".
(** The output of the code. *)
Definition scenario_output : jsstring :=
  MATH_OPEN_NS ++ lit "><mo>" ++ [INTEGRAL] ++ lit "</mo><mi> x </mi></math>".

(** A browser whose clipboard accepts every write, on a page without
    MathJax. *)
Definition plain_env : Env :=
  mkEnv MathJaxAbsent
        (mkNavigator true (fun _ => true) true (fun _ => true) (fun _ => Some true))
        true.

(** A page with two KaTeX equations that carry neither an annotation nor
    a source attribute, and the scenario's [math] element. *)
Definition katex_page : node :=
  html "body" []
    [ html "span" [class_attr "katex"]
        [ html "span" [class_attr "katex-html"] [Text (lit "x")] ];
      html "span" [class_attr "katex"]
        [ html "span" [class_attr "katex-html"]
            [Text (lit "y"); html "sup" [] [Text (lit "2")]] ];
      scenario_math ].

(** A whitespace-only [mtext] inside another [mtext]. *)
Definition nested_mtext : jsstring := lit "<mtext><mtext> </mtext></mtext>".

(** An element whose [data-math] attribute holds [n + 1] letters. *)
Definition data_math_page (n : N) : node :=
  html "body" [] [ html "span" [(lit "data-math", 120%N :: repeat 120%N (N.to_nat n))] [] ].

(** A MathML string with open and close tag and the namespace, padded
    with [n] letters. *)
Definition padded_mathml (n : N) : jsstring :=
  MATH_OPEN_NS ++ [GT] ++ repeat 120%N (N.to_nat n) ++ MATH_CLOSE.

(** The session on [katex_page] after a scan and three shift-clicks. *)
Definition three_selected : State :=
  toggleEquationSelection plain_env [2]
    (toggleEquationSelection plain_env [1]
       (toggleEquationSelection plain_env [0] (scan (initial_state katex_page)))).

(* ================================================================== *)
(** * Notions for the scan *)

(** Induction on a node with the hypothesis for every child. *)
#[local] Unset Implicit Arguments.
Fixpoint node_induction (P : node -> Prop)
         (HT : forall d, P (Text d))
         (HE : forall e ch, Forall P ch -> P (Element e ch))
         (n : node) : P n :=
  match n with
  | Text d => HT d
  | Element e ch =>
      HE e ch ((fix all (l : list node) : Forall P l :=
                  match l with
                  | [] => Forall_nil P
                  | c :: l' => Forall_cons c (node_induction P HT HE c) (all l')
                  end) ch)
  end.
#[local] Set Implicit Arguments.

(** The class names the detection looks at. *)
Definition structural_classes : list jsstring :=
  List.map lit ["katex-html"; "katex"; "MathJax"; "mjx-chtml"; "mjx-container"]%string.

(** [e'] is [e] after changes the detection does not look at: the same
    name, the same structural classes and [data-math] presence, and the
    processed marker kept once set. *)
Definition same_shape (e e' : elem) : Prop :=
  ns e' = ns e /\ localName e' = localName e /\
  (forall c, In c structural_classes -> classList_contains e' c = classList_contains e c) /\
  hasAttribute e' (lit "data-math") = hasAttribute e (lit "data-math") /\
  (hasAttribute e PROCESSED = true -> hasAttribute e' PROCESSED = true).

(** The same tree of elements, each of the same shape. *)
Definition evolves (doc doc' : node) : Prop :=
  elements doc' = elements doc /\
  forall p, match get_elem doc p, get_elem doc' p with
            | Some e, Some e' => same_shape e e'
            | None, None => True
            | _, _ => False
            end.

(** Nothing is left to do for [element]: it is marked, or the container
    it resolves to is. *)
Definition settled (doc : node) (element : path) : bool :=
  match get_elem doc element with
  | None => true
  | Some e =>
      hasAttribute e PROCESSED ||
      match findMathContainer doc element with
      | Some container => is_processed doc container
      | None => true
      end
  end.

(** [q] waits in a pending batch. *)
Definition In_pending (q : path) (ts : list (nat * task)) : Prop :=
  exists d els i b, In (d, BatchTask els i b) ts /\ In q (skipn i els).

Definition covered (st : State) (q : path) : Prop :=
  settled (document st) q = true \/ In_pending q (timers st).

(** Pending batches as [processBatch] sets them: a start index inside
    the list and a positive batch size. *)
Definition wf_timers (ts : list (nat * task)) : Prop :=
  forall d els i b, In (d, BatchTask els i b) ts -> i < List.length els /\ 0 < b.

Definition is_batch (x : nat * task) : bool :=
  match snd x with
  | BatchTask _ _ _ => true
  | RemoveClassTask _ _ => false
  end.

Definition strip_batches (ts : list (nat * task)) : list (nat * task) :=
  filter (fun x => negb (is_batch x)) ts.

(** Pending batches over elements that are all settled. *)
Definition quiet (doc : node) (ts : list (nat * task)) : Prop :=
  forall d els i b, In (d, BatchTask els i b) ts ->
                    (forall q, In q els -> settled doc q = true) /\
                    i < List.length els /\ 0 < b.

(** The selectors of a scan, in query order. *)
Definition scan_selectors : list selector :=
  unprocessed (SClass (lit "katex-html")) :: otherSelectors.

(** A token: non-empty and free of whitespace. *)
Definition token_ok (x : jsstring) : Prop :=
  x <> [] /\ forallb (fun c => negb (is_ascii_ws c)) x = true.

(** Selectors all of whose alternatives are one compound. *)
Definition flat_match (sel : selector) (e : elem) : bool :=
  existsb (fun cx => match cx with
                     | [c] => match_compound c e
                     | _ => false
                     end) sel.

(** A simple selector that reads the same on elements of the same shape. *)
Definition structural_simple (s : simple) : Prop :=
  forall e e', same_shape e e' -> match_simple s e' = match_simple s e.

(** The end of the batch that starts at [i]. *)
Definition batch_end (els : list path) (i b : nat) : nat :=
  Nat.min (i + b) (List.length els).

(** The timer a batch leaves behind, if any. *)
Definition batch_tail (els : list path) (i b : nat) : list (nat * task) :=
  if Nat.leb (List.length els) i then []
  else if Nat.ltb (batch_end els i b) (List.length els)
       then [(0, BatchTask els (batch_end els i b) b)]
       else [].

(** A literal that cannot overlap a shifted copy of itself. *)
Definition unbordered (p : jsstring) : Prop :=
  p <> [] /\
  forall s k, startsWith s p = true -> 0 < k < List.length p ->
              startsWith (skipn k s) p = false.

(* ================================================================== *)
(** * Notions for the spacing cleanup *)

(** What a pattern matches, and the groups it captures, without regard
    to the order in which the matcher tries things. *)
Inductive Matches : regex -> jsstring -> list jsstring -> Prop :=
| M_chr p c : p c = true -> Matches (Chr p) [c] []
| M_seq r1 r2 m1 m2 c1 c2 :
    Matches r1 m1 c1 -> Matches r2 m2 c2 -> Matches (Seq r1 r2) (m1 ++ m2) (c1 ++ c2)
| M_alt_l r1 r2 m c : Matches r1 m c -> Matches (Alt r1 r2) m c
| M_alt_r r1 r2 m c : Matches r2 m c -> Matches (Alt r1 r2) m c
| M_star p m : Forall (fun c => p c = true) m -> Matches (Star p) m []
| M_opt_some r m c : Matches r m c -> Matches (Opt r) m c
| M_opt_none r : Matches (Opt r) [] []
| M_grp r m c : Matches r m c -> Matches (Grp r) m (c ++ [m])
| M_bol : Matches Bol [] []
| M_eol : Matches Eol [] []
| M_eps : Matches Eps [] [].

(** A pattern without capturing groups. *)
Fixpoint nogroup (r : regex) : bool :=
  match r with
  | Seq a b | Alt a b => nogroup a && nogroup b
  | Opt a => nogroup a
  | Grp _ => false
  | _ => true
  end.

(** Every match of the pattern contains the code unit [x]. *)
Fixpoint requires (x : N) (r : regex) : Prop :=
  match r with
  | Chr p => forall c, p c = true -> c = x
  | Seq a b => requires x a \/ requires x b
  | Alt a b => requires x a /\ requires x b
  | Grp a => requires x a
  | _ => False
  end.

(** A replacement that never lengthens a match and changes it only by
    shortening it. *)
Definition shrinking (r : regex) (f : jsstring -> list jsstring -> jsstring) : Prop :=
  forall m caps, Matches r m caps ->
                 List.length (f m caps) <= List.length m /\
                 (List.length (f m caps) = List.length m -> f m caps = m).

(** The same for a function on strings. *)
Definition shrinks (g : jsstring -> jsstring) : Prop :=
  forall s, List.length (g s) <= List.length s /\
            (List.length (g s) = List.length s -> g s = s).

(** [n] applications of [f]. *)
Fixpoint iterate (A : Type) (f : A -> A) (n : nat) (x : A) : A :=
  match n with
  | O => x
  | S n' => iterate f n' (f x)
  end.

(* ================================================================== *)
(** * Copying one equation, and the rest of [DOMProcessor] *)

(** [CONFIG.SUCCESS_FEEDBACK_DURATION] and [CONFIG.ERROR_FEEDBACK_DURATION] *)
Definition SUCCESS_FEEDBACK_DURATION : nat := 1500.
Definition ERROR_FEEDBACK_DURATION : nat := 1500.

(** [.MathJax, .mjx-container] *)
Definition sel_mathjax_source : selector :=
  [[[SClass (lit "MathJax")]]; [[SClass (lit "mjx-container")]]].

Definition getMathSource (doc : node) (element : path) : jsstring :=
  match closest doc element sel_mathjax_source with
  | Some _ => lit "MathJax"
  | None =>
      match closest doc element (sel_class "katex") with
      | Some _ => lit "KaTeX"
      | None =>
          match closest doc element (sel_type "math") with
          | Some _ => lit "MathML"
          | None => lit "Generic"
          end
      end
  end.

(** The [catch] block shared by [copyEquation] and
    [copyEquationInFormat]. *)
Definition copy_failed (equation : path) (st : State) : State :=
  let st := update_element equation (classList_remove [lit "math-copy-copying"]) st in
  let st := update_element equation (classList_add (lit "math-copy-error")) st in
  setTimeout (RemoveClassTask equation (lit "math-copy-error")) ERROR_FEEDBACK_DURATION st.

(** [copyEquation].  [override] is [window.mathCopyOverrideFormat].  The
    texts shown in the tooltip are left out, as everywhere here. *)
Definition copyEquation (env : Env) (override : option jsstring) (equation : path)
           (st : State) : State :=
  let st := update_element equation (classList_add (lit "math-copy-copying")) st in
  let format := sval (jsor override (Some (currentFormat st))) in
  let '(content, st) := getEquationContent env st (Some equation) format in
  if truthy content then
    match copyToClipboard env (sval content) format st with
    | (Ok _, st) =>
        let st := addToClipboardHistory (sval content) format st in
        let st := update_element equation (classList_remove [lit "math-copy-copying"]) st in
        let st := update_element equation (classList_add (lit "math-copy-success")) st in
        let st := notifyBackground env
                    (equationCopied (sval content) format
                                    (getMathSource (document st) equation) None) st in
        setTimeout (RemoveClassTask equation (lit "math-copy-success"))
                   SUCCESS_FEEDBACK_DURATION st
    | (Throw _, st) => copy_failed equation st
    end
  else copy_failed equation st.

(** [copyEquationInFormat], the entry of the context menu. *)
Definition copyEquationInFormat (env : Env) (equation : path) (format : jsstring)
           (st : State) : State :=
  let st := update_element equation (classList_add (lit "math-copy-copying")) st in
  let '(content, st) := getEquationContent env st (Some equation) format in
  if truthy content then
    match copyToClipboard env (sval content) format st with
    | (Ok _, st) =>
        let st := addToClipboardHistory (sval content) format st in
        let st := update_element equation (classList_remove [lit "math-copy-copying"]) st in
        let st := update_element equation (classList_add (lit "math-copy-success")) st in
        let st := notifyBackground env
                    (equationCopied (sval content) format
                                    (getMathSource (document st) equation) None) st in
        setTimeout (RemoveClassTask equation (lit "math-copy-success"))
                   SUCCESS_FEEDBACK_DURATION st
    | (Throw _, st) => copy_failed equation st
    end
  else copy_failed equation st.

(** [DOMProcessor.escapeHtml]: the text becomes the content of a fresh
    [div], whose [innerHTML] is read back. *)
Definition DOMProcessor_escapeHtml (text : jsstring) : jsstring :=
  innerHTML (Element (mkElem HTML (lit "div") [] None)
                     (match text with
                      | [] => []
                      | _ => [Text text]
                      end)).

(* ================================================================== *)
(** * The background script

    The background script keeps its data in [chrome.storage].  The store
    is private to the extension and every write to it is in this file,
    so each key holds a value of the shape written there, and a key that
    was never written reads as the default the source substitutes for
    it.  Each function runs to its end before the next one starts, and
    the storage calls themselves succeed. *)

(** A field of a message as the checks of the source see it: a string,
    or some other value, of which only the truthiness and the rendering
    by [String(...)] matter.  An absent field is [undefined]. *)
Inductive jsfield : Type :=
| FString (s : jsstring)
| FOther (truthy : bool) (rendering : jsstring).

Definition Fundefined : jsfield := FOther false (lit "undefined").

Definition field_truthy (v : jsfield) : bool :=
  match v with
  | FString s => truthy (Some s)
  | FOther t _ => t
  end.

(** [a || b] *)
Definition field_or (a b : jsfield) : jsfield := if field_truthy a then a else b.

(** The [data] object of an [equationCopied] message. *)
Record CopyData : Type := mkCopyData {
  data_formula : jsfield;
  data_content : jsfield;
  data_format : jsfield;
  data_source : jsfield
}.

(** A history item.  The [id] is kept as the pair of the clock reading
    and the counter that the source joins with a dash, the [timestamp]
    as the instant whose ISO rendering the source stores. *)
Record HistoryItem : Type := mkHistoryItem {
  item_id : N * nat;
  item_formula : jsstring;
  item_format : jsstring;
  item_source : jsstring;
  item_timestamp : N
}.

(** [mathCopyStats]; [formatUsage] has the four keys of the source. *)
Record Stats : Type := mkStats {
  totalCopies : N;
  usage_mathml : N;
  usage_latex : N;
  usage_unicode : N;
  usage_asciimath : N;
  lastUsed : option N
}.

Definition zero_stats : Stats := mkStats 0 0 0 0 0 None.

Inductive broadcast : Type :=
| historyUpdated
| statsUpdated (stats : Stats).

(** The data of the background script: the keys of [chrome.storage.local],
    the counter [historyIdCounter] and the messages broadcast so far. *)
Record Background : Type := mkBackground {
  mathCopyHistory : list HistoryItem;
  mathCopyStats : Stats;
  disabledPages : list jsstring;
  disabledSites : list jsstring;
  historyIdCounter : nat;
  broadcasts : list broadcast
}.

Definition with_history (h : list HistoryItem) (bg : Background) : Background :=
  mkBackground h (mathCopyStats bg) (disabledPages bg) (disabledSites bg)
               (historyIdCounter bg) (broadcasts bg).
Definition with_stats (s : Stats) (bg : Background) : Background :=
  mkBackground (mathCopyHistory bg) s (disabledPages bg) (disabledSites bg)
               (historyIdCounter bg) (broadcasts bg).
Definition with_disabledPages (l : list jsstring) (bg : Background) : Background :=
  mkBackground (mathCopyHistory bg) (mathCopyStats bg) l (disabledSites bg)
               (historyIdCounter bg) (broadcasts bg).
Definition with_disabledSites (l : list jsstring) (bg : Background) : Background :=
  mkBackground (mathCopyHistory bg) (mathCopyStats bg) (disabledPages bg) l
               (historyIdCounter bg) (broadcasts bg).
Definition with_counter (n : nat) (bg : Background) : Background :=
  mkBackground (mathCopyHistory bg) (mathCopyStats bg) (disabledPages bg) (disabledSites bg)
               n (broadcasts bg).
Definition send_broadcast (m : broadcast) (bg : Background) : Background :=
  mkBackground (mathCopyHistory bg) (mathCopyStats bg) (disabledPages bg) (disabledSites bg)
               (historyIdCounter bg) (broadcasts bg ++ [m]).

(** [CONSTANTS.MAX_HISTORY_ITEMS] and [CONSTANTS.VALID_FORMATS] *)
Definition MAX_HISTORY_ITEMS : nat := 50.
Definition VALID_FORMATS : list jsstring := [MATHML; LATEX; UNICODE; ASCIIMATH].

(** What a function of the background script answers: [success: true],
    or [success: false] with the error message. *)
Inductive answer : Type :=
| Success
| Failure (error : jsstring).

(** ** Statistics *)

Definition MAX_SAFE_INTEGER : N := 9007199254740991%N.

(** [n + 1], held at [Number.MAX_SAFE_INTEGER].  The counts are doubles
    in the source; on the integers up to [MAX_SAFE_INTEGER], which is
    where the counts stay, the sum is exact. *)
Definition bump (n : N) : N :=
  if N.ltb MAX_SAFE_INTEGER (n + 1) then MAX_SAFE_INTEGER else (n + 1)%N.

(** [stats.formatUsage[format]] for one of the valid formats. *)
Definition formatUsage (s : Stats) (format : jsstring) : N :=
  if streq format MATHML then usage_mathml s
  else if streq format LATEX then usage_latex s
  else if streq format UNICODE then usage_unicode s
  else if streq format ASCIIMATH then usage_asciimath s
  else 0%N.

Definition set_formatUsage (format : jsstring) (n : N) (s : Stats) : Stats :=
  if streq format MATHML
  then mkStats (totalCopies s) n (usage_latex s) (usage_unicode s) (usage_asciimath s)
               (lastUsed s)
  else if streq format LATEX
  then mkStats (totalCopies s) (usage_mathml s) n (usage_unicode s) (usage_asciimath s)
               (lastUsed s)
  else if streq format UNICODE
  then mkStats (totalCopies s) (usage_mathml s) (usage_latex s) n (usage_asciimath s)
               (lastUsed s)
  else if streq format ASCIIMATH
  then mkStats (totalCopies s) (usage_mathml s) (usage_latex s) (usage_unicode s) n
               (lastUsed s)
  else s.

(** The change [updateStats] makes to the statistics for the argument
    [{ action, format }], read at the instant [now]. *)
Definition updated_stats (now : N) (action format : jsfield) (s : Stats) : Stats :=
  let is_action (name : jsstring) :=
    match action with
    | FString a => streq a name
    | FOther _ _ => false
    end in
  if (is_action (lit "copy") && field_truthy format)%bool then
    match format with
    | FString f =>
        if mem f VALID_FORMATS then
          let s := mkStats (bump (totalCopies s)) (usage_mathml s) (usage_latex s)
                           (usage_unicode s) (usage_asciimath s) (lastUsed s) in
          let s := set_formatUsage f (bump (formatUsage s f)) s in
          mkStats (totalCopies s) (usage_mathml s) (usage_latex s) (usage_unicode s)
                  (usage_asciimath s) (Some now)
        else s
    | FOther _ _ => s
    end
  else if is_action (lit "reset") then zero_stats
  else s.

Definition updateStats (now : N) (action format : jsfield) (bg : Background)
  : answer * Background :=
  let currentStats := updated_stats now action format (mathCopyStats bg) in
  let bg := with_stats currentStats bg in
  let bg := send_broadcast (statsUpdated currentStats) bg in
  (Success, bg).

Definition getStats (bg : Background) : Stats := mathCopyStats bg.

(** ** History *)

(** The three readings of the clock in [addToHistory]: [Date.now()] for
    the id, [new Date()] for the timestamp and the one of
    [updateStats]. *)
Record Clock : Type := mkClock {
  id_time : N;
  item_time : N;
  stats_time : N
}.

Definition addToHistory (clock : Clock) (data : option CopyData) (bg : Background)
  : answer * Background :=
  match data with
  | None => (Failure (lit "Invalid history data"), bg)
  | Some data =>
      match field_or (data_formula data) (data_content data) with
      | FString (x :: f) =>
          let formula := x :: f in
          let trimmedFormula := trim formula in
          if N.eqb (len trimmedFormula) 0
          then (Failure (lit "Invalid formula content: cannot be empty"), bg)
          else if N.ltb 1000000 (len trimmedFormula)
          then (Failure (lit "Formula too large (max 1MB)"), bg)
          else
            let format :=
              match data_format data with
              | FString fmt =>
                  if (field_truthy (FString fmt) && mem fmt VALID_FORMATS)%bool
                  then fmt else MATHML
              | FOther _ _ => MATHML
              end in
            let source :=
              match field_or (data_source data) (FString (lit "Unknown")) with
              | FString s => s
              | FOther _ rendering => rendering
              end in
            let source := firstn 100 source in
            let history := mathCopyHistory bg in
            let bg := with_counter (S (historyIdCounter bg)) bg in
            let historyItem :=
              mkHistoryItem (id_time clock, historyIdCounter bg) trimmedFormula format
                            source (item_time clock) in
            let trimmedHistory := firstn MAX_HISTORY_ITEMS (historyItem :: history) in
            let bg := with_history trimmedHistory bg in
            let bg := snd (updateStats (stats_time clock) (FString (lit "copy"))
                                       (FString format) bg) in
            let bg := send_broadcast historyUpdated bg in
            (Success, bg)
      | _ => (Failure (lit "Invalid formula content: must be a string"), bg)
      end
  end.

Definition getHistory (bg : Background) : list HistoryItem :=
  filter (fun item =>
            truthy (Some (item_formula item)) &&
            N.ltb 0 (len (item_formula item)) &&
            N.ltb (len (item_formula item)) 1000000)%bool
         (mathCopyHistory bg).

Definition clearHistory (bg : Background) : answer * Background :=
  (Success, send_broadcast historyUpdated (with_history [] bg)).

(** ** Pages and sites on which the extension is switched off *)

Definition disableOnPage (url : jsstring) (bg : Background) : answer * Background :=
  let disabledPages := disabledPages bg in
  if negb (mem url disabledPages)
  then (Success, with_disabledPages (disabledPages ++ [url]) bg)
  else (Success, bg).

Definition disableOnSite (siteUrl : jsstring) (bg : Background) : answer * Background :=
  let disabledSites := disabledSites bg in
  if negb (mem siteUrl disabledSites)
  then (Success, with_disabledSites (disabledSites ++ [siteUrl]) bg)
  else (Success, bg).

Definition enableOnPage (url : jsstring) (bg : Background) : answer * Background :=
  let filtered := filter (fun u => negb (streq u url)) (disabledPages bg) in
  (Success, with_disabledPages filtered bg).

Definition enableOnSite (siteUrl : jsstring) (bg : Background) : answer * Background :=
  let filtered := filter (fun u => negb (streq u siteUrl)) (disabledSites bg) in
  (Success, with_disabledSites filtered bg).

Section Urls.

(** [new URL(url)] followed by [urlObj.protocol + '//' + urlObj.host];
    [None] when the constructor throws. *)
Variable site_of : jsstring -> option jsstring.

(** [checkDisabled]: the pair [pageDisabled], [siteDisabled]. *)
Definition checkDisabled (url : jsstring) (bg : Background) : bool * bool :=
  let pageDisabled := mem url (disabledPages bg) in
  match site_of url with
  | Some siteUrl => (pageDisabled, mem siteUrl (disabledSites bg))
  | None => (false, false)
  end.

(** [checkIfDisabled] of the content script, for the address of the
    page. *)
Definition checkIfDisabled (currentUrl : jsstring) (bg : Background) : bool :=
  if mem currentUrl (disabledPages bg) then true
  else
    match site_of currentUrl with
    | Some siteUrl => if mem siteUrl (disabledSites bg) then true else false
    | None => false
    end.

End Urls.

(** ** Messages from the content script

    The listener of [chrome.runtime.onMessage] on the two messages the
    content script sends: [equationCopied] goes to [addToHistory], with
    the fields of the message as the data; for [selectionUpdated] the
    background script has no handler.  The handler of [equationCopied]
    is not an [async] function, so what it throws for a message without
    formula and content is not a rejected promise: it is caught by the
    [try] around the dispatch, whose answer is the same for every
    error. *)
Definition onMessage (clock : Clock) (m : message) (bg : Background) : answer * Background :=
  match m with
  | equationCopied formula format source count =>
      let data := mkCopyData (FString formula) Fundefined (FString format)
                             (FString source) in
      if (negb (field_truthy (data_formula data)) &&
          negb (field_truthy (data_content data)))%bool
      then (Failure (lit "Internal error in message handler"), bg)
      else addToHistory clock (Some data) bg
  | selectionUpdated _ => (Failure (lit "Unknown message type: selectionUpdated"), bg)
  end.

(* ================================================================== *)
(** * The popup *)

(** [truncate(text, length)] *)
Definition truncate (text : jsstring) (length : nat) : jsstring :=
  if Nat.ltb length (List.length text) then firstn length text ++ lit "..." else text.

Definition AMP : N := 38%N.

(** [escapeHtml] of the popup: five global replacements, the ampersand
    first. *)
Definition escapeHtml (unsafe : jsstring) : jsstring :=
  replaceAll (chr SQ) (const (lit "&#039;"))
    (replaceAll (chr DQ) (const (lit "&quot;"))
       (replaceAll (chr GT) (const (lit "&gt;"))
          (replaceAll (chr LT) (const (lit "&lt;"))
             (replaceAll (chr AMP) (const (lit "&amp;")) unsafe)))).

(* ================================================================== *)
(** * Notions for the further properties *)

(** A node with no [sup] and no [sub] element in it. *)
Fixpoint unscripted (n : node) : bool :=
  match n with
  | Text _ => true
  | Element e ch =>
      negb (streq (toLowerCaseA (tagName e)) (lit "sup")) &&
      negb (streq (toLowerCaseA (tagName e)) (lit "sub")) &&
      forallb unscripted ch
  end.

(** A replacement that is made of code units of the match. *)
Definition conservative (r : regex) (f : jsstring -> list jsstring -> jsstring) : Prop :=
  forall m caps, Matches r m caps -> incl (f m caps) m.

(** Not one of the invisible spacing characters. *)
Definition visible (c : N) : Prop := is_invisible c = false.

(** The part of the session that detection has no business with. *)
Definition session (st : State) :=
  (selectedEquations st, isShiftPressed st, currentFormat st, clipboardHistory st,
   errorCount st, maxErrors st, clipboard st, sent st).

(** [st'] is [st] up to attributes of elements, handlers and timers:
    the same session, the same text and the same tree of elements. *)
Definition untouched (st st' : State) : Prop :=
  session st' = session st /\
  textContent (document st') = textContent (document st) /\
  elements (document st') = elements (document st).

(** The writes of [setupEquation] on the element it sets up. *)
Definition attach (equation : path) (st : State) : State :=
  setupEquationListeners equation
    (update_element equation
       (setAttribute (lit "aria-label") (lit "Mathematical equation - click to copy"))
       (update_element equation (setAttribute (lit "role") (lit "button"))
          (update_element equation (setAttribute (lit "tabindex") (lit "0"))
             (update_element equation (classList_add MATH_COPY_ELEMENT) st)))).

(** The outcome of a single copy on [equation], seen from the state
    [st] before and [st'] after it: the marker of a running copy is
    gone, and either [c] went to the clipboard and to the head of the
    history and the element shows success for a while, or the clipboard
    and the history are as before and the element shows the error. *)
Definition copy_succeeded (equation : path) (format : jsstring) (st st' : State) : Prop :=
  exists c,
    c <> [] /\ trim c = c /\
    clipboard st' = clipboard st ++ [c] /\
    hd_error (clipboardHistory st') = Some (c, format) /\
    has_class (document st') equation "math-copy-success" = true /\
    timers st' = timers st ++ [(SUCCESS_FEEDBACK_DURATION,
                                RemoveClassTask equation (lit "math-copy-success"))].

Definition copy_refused (equation : path) (st st' : State) : Prop :=
  clipboard st' = clipboard st /\
  clipboardHistory st' = clipboardHistory st /\
  has_class (document st') equation "math-copy-error" = true /\
  timers st' = timers st ++ [(ERROR_FEEDBACK_DURATION,
                              RemoveClassTask equation (lit "math-copy-error"))].

(** The rendering of one code unit by the popup's [escapeHtml]. *)
Definition entity (c : N) : jsstring :=
  if N.eqb c AMP then lit "&amp;"
  else if N.eqb c LT then lit "&lt;"
  else if N.eqb c GT then lit "&gt;"
  else if N.eqb c DQ then lit "&quot;"
  else if N.eqb c SQ then lit "&#039;"
  else [c].

(** A code unit that cannot open or close a tag or an attribute value. *)
Definition harmless (c : N) : Prop := c <> LT /\ c <> GT /\ c <> DQ /\ c <> SQ.

(** A history item as [addToHistory] makes them. *)
Definition item_ok (item : HistoryItem) : Prop :=
  item_formula item <> [] /\
  trim (item_formula item) = item_formula item /\
  (len (item_formula item) <= 1000000)%N /\
  In (item_format item) VALID_FORMATS /\
  List.length (item_source item) <= 100.

(** Counts within the safe integers, the total being the sum of the
    counts by format. *)
Definition stats_ok (s : Stats) : Prop :=
  (totalCopies s <= MAX_SAFE_INTEGER)%N /\
  totalCopies s = (usage_mathml s + usage_latex s + usage_unicode s + usage_asciimath s)%N.

(** A string that cannot be the beginning of [<math ...] nor sit inside
    the first five code units of it: it is not empty, and it starts
    with [>], with an invisible character, or with [<] followed by two
    code units other than [m], [a]. *)
Definition outside_math_tag (m : jsstring) : Prop :=
  match m with
  | x :: y :: z :: _ =>
      x = GT \/ is_invisible x = true \/ (x = LT /\ (y <> 109%N \/ z <> 97%N))
  | x :: _ => x = GT \/ is_invisible x = true
  | [] => False
  end.

(** The listeners in place are those of distinct elements, each of
    which carries the class that makes [setupEquation] return at
    once. *)
Definition listeners_once (st : State) : Prop :=
  NoDup (listeners st) /\
  forall p, In p (listeners st) -> has_class (document st) p "math-copy-element" = true.

(** [st'] has the listeners of [st], and every element that carries the
    class in [st] carries it in [st']. *)
Definition calm (st st' : State) : Prop :=
  listeners st' = listeners st /\
  forall p, has_class (document st) p "math-copy-element" = true ->
            has_class (document st') p "math-copy-element" = true.

(** The contents that the selected equations yield in the current
    format, in the order of the selection. *)
Definition selected_contents (env : Env) (st : State) : list jsstring :=
  flat_map (fun equation =>
              match fst (getEquationContent env st (Some equation) (currentFormat st)) with
              | Some c => [c]
              | None => []
              end) (selectedEquations st).

(** The state with the hidden [textarea] of a failed fallback left at
    the end of the body. *)
Definition with_stray_textarea (st : State) : State :=
  with_document (body_appendChild hidden_textarea (document st)) st.

(* ================================================================== *)
(** * Notions for the passes of the spacing cleanup *)

(** A pattern without the anchors [^] and [$]: whether it matches at a
    place depends on the text from there on only. *)
Fixpoint unanchored (r : regex) : bool :=
  match r with
  | Bol | Eol => false
  | Seq a b | Alt a b => unanchored a && unanchored b
  | Opt a | Grp a => unanchored a
  | _ => true
  end.

(** [u] is [s] with the matches of a global replacement replaced, from
    left to right: a code unit at which no match begins is kept, a match
    is replaced and the scan goes on behind it. *)
Inductive Rewrote (r : regex) (f : jsstring -> list jsstring -> jsstring)
  : jsstring -> jsstring -> Prop :=
| Rw_nil : Rewrote r f [] []
| Rw_copy c s u :
    (forall m caps rest, c :: s = m ++ rest -> ~ Matches r m caps) ->
    Rewrote r f s u -> Rewrote r f (c :: s) (c :: u)
| Rw_match m caps rest u :
    m <> [] -> Matches r m caps -> Rewrote r f rest u ->
    Rewrote r f (m ++ rest) (f m caps ++ u).

(** The first five replacements of [cleanMathMLSpacing], which remove
    elements and characters, and the last four, which remove
    whitespace. *)
Definition removals (s : jsstring) : jsstring :=
  replaceAll re_mpadded_em mpadded_em_replacer
    (replaceAll re_mpadded_zero (const [])
       (replaceAll re_invisible (const [])
          (replaceAll re_mtext (const [])
             (replaceAll re_mspace (const []) s)))).

Definition spacing (s : jsstring) : jsstring :=
  replaceAll re_after_close (fun _ caps => group 0 caps ++ [LT])
    (replaceAll re_after_mo (const (lit "</mo><"))
       (replaceAll re_between_tags (const (lit "><"))
          (replaceAll re_mo mo_replacer s))).

(** Without its invisible characters the string has no [<mspace], no
    [<mtext] and no [<mpadded] in it, in any letter case: there is
    nothing for the removals to take away but invisible characters. *)
Definition without_removables (s : jsstring) : bool :=
  let v := toUpperCaseA (filter (fun c => negb (is_invisible c)) s) in
  negb (includes v (lit "<MSPACE")) && negb (includes v (lit "<MTEXT"))
  && negb (includes v (lit "<MPADDED")).

(** No [>], whitespace, [<] in a row. *)
Definition tight (s : jsstring) : Prop :=
  forall a g b, s = a ++ GT :: g ++ LT :: b -> Forall (fun c => is_gap c = true) g -> g = [].

(** Every operator element that the pattern of the cleanup finds
    anywhere in the string is left as it is by the replacement. *)
Definition mo_at_rest (s : jsstring) : Prop :=
  forall a m b caps, s = a ++ m ++ b -> Matches re_mo m caps -> mo_replacer m caps = m.

(** The opening of an operator element up to its [>], and its closing
    tag, in any letter case. *)
Definition mo_open (t : jsstring) : Prop :=
  exists y z a, t = LT :: y :: z :: a /\ upperA y = 77%N /\ upperA z = 79%N /\
                Forall (fun c => c <> GT) a.

Definition mo_close (t : jsstring) : Prop :=
  exists y z, t = [LT; 47%N; y; z; GT] /\ upperA y = 77%N /\ upperA z = 79%N.

(* ================================================================== *)
(** * Facts about strings *)

Section StringFacts.

Arguments is_ws : simpl never.

Lemma streq_refl (s : jsstring) : streq s s = true.
Proof.
  induction s as [|c s IH]; simpl; [reflexivity|].
  now rewrite N.eqb_refl.
Qed.

Lemma streq_eq (a b : jsstring) : streq a b = true <-> a = b.
Proof.
  split.
  - revert b; induction a as [|x a IH]; intros [|y b] H; simpl in H;
      try discriminate; [reflexivity|].
    apply andb_true_iff in H as [Hx Hr].
    apply N.eqb_eq in Hx. apply IH in Hr. now subst.
  - intros ->. apply streq_refl.
Qed.

Lemma streq_neq (a b : jsstring) : a <> b -> streq a b = false.
Proof.
  intros H. destruct (streq a b) eqn:E; [|reflexivity].
  apply streq_eq in E. contradiction.
Qed.

Lemma mem_In (t : jsstring) (l : list jsstring) : mem t l = true <-> In t l.
Proof.
  unfold mem. rewrite existsb_exists. split.
  - intros (x & Hin & Heq). apply streq_eq in Heq. now subst.
  - intros Hin. exists t. split; [assumption | apply streq_refl].
Qed.

Lemma startsWith_spec (s p : jsstring) :
  startsWith s p = true <-> exists r, s = p ++ r.
Proof.
  revert s; induction p as [|x p IH]; intros s.
  - split; [intros _; now exists s | intros _; now destruct s].
  - destruct s as [|y s]; cbn [startsWith].
    + split; [discriminate | intros (r & Hr); discriminate].
    + rewrite andb_true_iff, N.eqb_eq, IH. split.
      * intros (-> & r & ->). now exists r.
      * intros (r & Hr). injection Hr as -> ->. split; [reflexivity | now exists r].
Qed.

Lemma includes_spec (s p : jsstring) : includes s p = true <-> occurs p s.
Proof.
  induction s as [|c s IH].
  - cbn [includes]. rewrite orb_false_r, startsWith_spec. split.
    + intros (r & Hr). now exists [], r.
    + intros (a & b & Hab). destruct a; simpl in Hab.
      * now exists b.
      * discriminate.
  - cbn [includes]. rewrite orb_true_iff, startsWith_spec, IH. split.
    + intros [(r & Hr) | (a & b & Hab)].
      * now exists [], r.
      * exists (c :: a), b. simpl. now rewrite Hab.
    + intros (a & b & Hab). destruct a as [|x a]; simpl in Hab.
      * left. now exists b.
      * right. injection Hab as _ Hs. now exists a, b.
Qed.

Lemma is_ws_not_dollar (c : N) : is_ws c = true -> c <> DOLLAR.
Proof. intros H ->. discriminate. Qed.

Lemma trimStart_count_dollar (s : jsstring) :
  count_dollar (trimStart s) = count_dollar s.
Proof.
  unfold count_dollar.
  induction s as [|c s IH]; [reflexivity|].
  cbn [trimStart]. destruct (is_ws c) eqn:E; [|reflexivity].
  rewrite IH. cbn [count_occ].
  destruct (N.eq_dec c DOLLAR) as [->|]; [discriminate | reflexivity].
Qed.

Lemma trimEnd_count_dollar (s : jsstring) :
  count_dollar (trimEnd s) = count_dollar s.
Proof.
  unfold count_dollar.
  induction s as [|c s IH]; [reflexivity|].
  cbn [trimEnd]. destruct (trimEnd s) as [|t ts] eqn:Et.
  - cbn [count_occ] in *. rewrite <- IH.
    destruct (is_ws c) eqn:E; cbn [count_occ].
    + destruct (N.eq_dec c DOLLAR) as [->|]; [discriminate | reflexivity].
    + reflexivity.
  - cbn [count_occ] in *. now rewrite IH.
Qed.

Lemma trim_count_dollar (s : jsstring) : count_dollar (trim s) = count_dollar s.
Proof.
  unfold trim. now rewrite trimEnd_count_dollar, trimStart_count_dollar.
Qed.

Lemma trimStart_snoc_dollar (m : jsstring) :
  trimStart (m ++ [DOLLAR]) = trimStart m ++ [DOLLAR].
Proof.
  induction m as [|c m IH]; [reflexivity|].
  cbn [app trimStart]. destruct (is_ws c); [assumption | reflexivity].
Qed.

Lemma trimEnd_snoc_dollar (x : jsstring) : trimEnd (x ++ [DOLLAR]) = x ++ [DOLLAR].
Proof.
  induction x as [|c x IH]; [reflexivity|].
  cbn [app trimEnd]. rewrite IH. now destruct (x ++ [DOLLAR]) eqn:E; [destruct x|].
Qed.

(** Trimming leaves a run of one character that is no whitespace as it is. *)
Lemma trimEnd_repeat (c : N) (n : nat) :
  is_ws c = false -> trimEnd (repeat c n) = repeat c n.
Proof.
  intros Hc. induction n as [|n IH]; [reflexivity|].
  cbn [repeat trimEnd]. rewrite IH, Hc. now destruct (repeat c n).
Qed.

Lemma trim_repeat (c : N) (n : nat) :
  is_ws c = false -> trim (repeat c n) = repeat c n.
Proof.
  intros Hc. unfold trim.
  replace (trimStart (repeat c n)) with (repeat c n).
  - now apply trimEnd_repeat.
  - destruct n; [reflexivity|]. cbn [repeat trimStart]. now rewrite Hc.
Qed.

End StringFacts.

(* ================================================================== *)
(** * [cleanLatex] *)

Section CleanLatex.

(** The pattern matches at the very start on a dollar sign, or on a
    dollar sign that is the last code unit, and nowhere else. *)
Lemma exec_re_dollar (i : nat) (s : jsstring) :
  exec re_dollar i s =
  match s with
  | c :: s' =>
      if (N.eqb DOLLAR c && (Nat.eqb i 0 || match s' with [] => true | _ => false end))%bool
      then Some (1, []) else None
  | [] => None
  end.
Proof.
  assert (H1 : S i - i = 1) by lia.
  unfold exec, re_dollar, chr. cbn [run].
  destruct s as [|c s']; [now destruct (Nat.eqb i 0)|].
  destruct (Nat.eqb i 0) eqn:Ei, (N.eqb DOLLAR c) eqn:Ec, s' as [|d s''];
    cbn -[Nat.sub]; rewrite ?H1; reflexivity.
Qed.

Lemma replace_first_dollar (s : jsstring) (i : nat) :
  replace_first_from re_dollar (const []) i s = s \/
  exists a b, s = a ++ DOLLAR :: b /\
              replace_first_from re_dollar (const []) i s = a ++ b.
Proof.
  revert i; induction s as [|c s IH]; intros i.
  - left. cbn [replace_first_from]. now rewrite exec_re_dollar.
  - cbn [replace_first_from]. rewrite exec_re_dollar.
    destruct (N.eqb DOLLAR c && (Nat.eqb i 0 || match s with [] => true | _ => false end))%bool eqn:E.
    + right. apply andb_true_iff in E as [Ec _]. apply N.eqb_eq in Ec. subst c.
      exists [], s. split; reflexivity.
    + destruct (IH (S i)) as [H | (a & b & Hs & Hr)].
      * left. now rewrite H.
      * right. exists (c :: a), b. split; simpl; [now rewrite Hs | now rewrite Hr].
Qed.

End CleanLatex.

(** C10 as stated fails: the input ["$"] starts and ends with a dollar
    sign, the same one; it is removed, and the result is empty and ends
    with no dollar sign. *)
Lemma C10_lone_dollar_is_removed :
  (exists r, lit "$" = DOLLAR :: r) /\ (exists r, lit "$" = r ++ [DOLLAR]) /\
  cleanLatex (lit "$") = [] /\
  ~ (exists r, cleanLatex (lit "$") = r ++ [DOLLAR]).
Proof.
  assert (H : cleanLatex (lit "$") = []) by (vm_compute; reflexivity).
  split; [now exists []|]. split; [now exists []|]. split; [exact H|].
  rewrite H. intros [[|c r] E]; discriminate E.
Qed.

(** C10, amended.  [cleanLatex] removes at most one dollar sign: for
    every input the result has at most one dollar sign fewer; for an
    input that starts with a dollar sign and ends with another one only
    the leading one is removed, so the result still ends with the
    trailing dollar sign; on ["$x$"] the result is ["x$"]; of the input
    ["$"], whose first code unit is its last, nothing is left. *)
Theorem C10_cleanLatex_removes_one_dollar :
  (forall s, count_dollar s <= S (count_dollar (cleanLatex s))) /\
  (forall m, cleanLatex (DOLLAR :: m ++ [DOLLAR]) = trimStart m ++ [DOLLAR]) /\
  cleanLatex (lit "$x$") = lit "x$" /\
  cleanLatex (lit "$") = [].
Proof.
  split; [|split; [|split]]; [| | | vm_compute; reflexivity].
  - intros s. unfold cleanLatex. rewrite trim_count_dollar.
    unfold replaceFirst.
    destruct (replace_first_dollar s 0) as [-> | (a & b & -> & ->)]; [lia|].
    unfold count_dollar. rewrite (count_occ_elt_eq N.eq_dec a b (eq_refl DOLLAR)). lia.
  - intros m. unfold cleanLatex, replaceFirst.
    cbn [replace_first_from]. rewrite exec_re_dollar.
    cbn [N.eqb DOLLAR Pos.eqb Nat.eqb andb orb const firstn skipn app].
    unfold trim. rewrite trimStart_snoc_dollar. apply trimEnd_snoc_dollar.
  - vm_compute. reflexivity.
Qed.

(* ================================================================== *)
(** * Paths, ancestors and [closest] *)

Section Ancestors.

Lemma all_some_app (A : Type) (l1 l2 : list (option A)) :
  all_some (l1 ++ l2) =
  match all_some l1, all_some l2 with
  | Some a, Some b => Some (a ++ b)
  | _, _ => None
  end.
Proof.
  induction l1 as [|[x|] l1 IH]; simpl.
  - now destruct (all_some l2).
  - rewrite IH. now destruct (all_some l1), (all_some l2).
  - reflexivity.
Qed.

Lemma prefixes_head (p : path) : exists l, prefixes p = p :: l.
Proof.
  induction p as [|i p (l & Hl)]; simpl.
  - now exists [].
  - rewrite Hl. simpl. now exists (List.map (cons i) l ++ [[]]).
Qed.

Lemma get_elem_cons (doc : node) (i : nat) (p : path) :
  get_elem doc (i :: p) =
  match nth_error (children_of doc) i with
  | Some c => get_elem c p
  | None => None
  end.
Proof.
  unfold get_elem. simpl. now destruct (nth_error (children_of doc) i).
Qed.

(** The chain of a child's descendant is the chain inside the child
    followed by the parent. *)
Lemma rchain_cons (doc : node) (i : nat) (p : path) :
  rchain doc (i :: p) =
  match nth_error (children_of doc) i, get_elem doc [] with
  | Some c, Some e0 =>
      match rchain c p with
      | Some l => Some (l ++ [e0])
      | None => None
      end
  | Some c, None => None
  | None, _ => None
  end.
Proof.
  unfold rchain at 1. cbn [prefixes]. rewrite map_app, all_some_app, map_map.
  destruct (nth_error (children_of doc) i) as [c|] eqn:Hc.
  - rewrite (map_ext (fun q => get_elem doc (i :: q)) (get_elem c)).
    2:{ intros q. rewrite get_elem_cons. now rewrite Hc. }
    change (all_some (List.map (get_elem c) (prefixes p))) with (rchain c p).
    cbn [List.map all_some].
    destruct (get_elem doc []); now destruct (rchain c p).
  - destruct (prefixes_head p) as (l & Hl). rewrite Hl. cbn [List.map all_some].
    rewrite get_elem_cons, Hc. reflexivity.
Qed.

Lemma get_elem_root (doc : node) (i : nat) (p : path) (e : elem) :
  get_elem doc (i :: p) = Some e -> exists e0, get_elem doc [] = Some e0.
Proof.
  rewrite get_elem_cons. destruct doc as [d|e0 ch]; simpl.
  - now destruct i.
  - intros _. now exists e0.
Qed.

(** A path that leads to an element has a chain, which starts with that
    element. *)
Lemma rchain_of_elem (p : path) :
  forall doc e, get_elem doc p = Some e -> exists anc, rchain doc p = Some (e :: anc).
Proof.
  induction p as [|i p IH]; intros doc e H.
  - exists []. unfold rchain. simpl. now rewrite H.
  - rewrite rchain_cons. destruct (get_elem_root _ _ _ H) as (e0 & He0).
    rewrite get_elem_cons in H. rewrite He0.
    destruct (nth_error (children_of doc) i) as [c|]; [|discriminate].
    destruct (IH c e H) as (anc & ->). now exists (anc ++ [e0]).
Qed.

Lemma rchain_none (p : path) (doc : node) :
  get_elem doc p = None -> rchain doc p = None.
Proof.
  intros H. unfold rchain. destruct (prefixes_head p) as (l & ->). simpl.
  now rewrite H.
Qed.

(** [closest] returns the element itself when it matches. *)
Lemma closest_self (doc : node) (p : path) (sel : selector) :
  matches doc p sel = true -> closest doc p sel = Some p.
Proof.
  intros H. unfold closest. destruct (prefixes_head p) as (l & ->). simpl.
  now rewrite H.
Qed.

Lemma match_ancestors_nil (anc : list elem) : match_ancestors [] anc = true.
Proof. now destruct anc. Qed.

(** A selector of one compound looks at the element alone. *)
Lemma match_complex_single (c : compound) (e : elem) (anc : list elem) :
  match_complex [c] (e :: anc) = match_compound c e.
Proof.
  unfold match_complex. cbn [rev app].
  rewrite match_ancestors_nil. apply andb_true_r.
Qed.

Lemma matches_single (doc : node) (p : path) (c : compound) :
  matches doc p [[c]] =
  match get_elem doc p with
  | Some e => match_compound c e
  | None => false
  end.
Proof.
  unfold matches. destruct (get_elem doc p) as [e|] eqn:He.
  - destruct (rchain_of_elem _ _ He) as (anc & ->).
    unfold match_selector. cbn [existsb].
    rewrite match_complex_single. apply orb_false_r.
  - now rewrite (rchain_none _ _ He).
Qed.

Lemma get_get_elem (doc : node) (p : path) (e : elem) (ch : list node) :
  get doc p = Some (Element e ch) -> get_elem doc p = Some e.
Proof. intros H. unfold get_elem. now rewrite H. Qed.

End Ancestors.

(* ================================================================== *)
(** * Extraction *)

Section Extraction.

Lemma extractFromKaTeX_latex_without_source (doc : node) (container : path) :
  querySelector doc container (sel_type "annotation") = None ->
  attr_of doc container "data-latex" = None ->
  attr_of doc container "data-tex" = None ->
  attr_of doc container "data-original" = None ->
  extractFromKaTeX doc container LATEX = None.
Proof.
  intros Ha H1 H2 H3. unfold extractFromKaTeX.
  destruct (has_class doc container "katex"); [|reflexivity].
  cbn [negb]. replace (streq LATEX LATEX) with true by reflexivity.
  rewrite Ha, H1, H2, H3. reflexivity.
Qed.

Lemma getEquationContent_errorCount (env : Env) (st : State) (n : nat)
      (equation : option path) (format : jsstring) :
  fst (getEquationContent env (with_errorCount n st) equation format) =
  fst (getEquationContent env st equation format).
Proof.
  unfold getEquationContent. cbn [document with_errorCount].
  destruct (getEquationContent_try env (document st) equation format); [reflexivity|].
  cbn [errorCount maxErrors with_errorCount].
  now destruct (Nat.ltb (maxErrors st) (S n)), (Nat.ltb (maxErrors st) (S (errorCount st))).
Qed.

End Extraction.

(** C1.  On a KaTeX container without an [annotation] element and without
    a LaTeX source attribute the KaTeX extractor returns [null] for the
    LaTeX format, but [getEquationContent] then falls back to the
    rendered text and returns it: on [katex_page] the first equation
    yields ["x"]. *)
Theorem C1_latex_request_returns_rendered_text :
  querySelector katex_page [0] (sel_type "annotation") = None /\
  attr_of katex_page [0] "data-latex" = None /\
  attr_of katex_page [0] "data-tex" = None /\
  attr_of katex_page [0] "data-original" = None /\
  extractFromKaTeX katex_page [0] LATEX = None /\
  fst (getEquationContent plain_env (initial_state katex_page) (Some [0]) LATEX)
  = Some (lit "x").
Proof. repeat split; vm_compute; reflexivity. Qed.

(** C2.  With the error counter above its bound ([11 > 10]) a call of
    [getEquationContent] still extracts: the counter is read only after
    a failure, so the result of a call never depends on it. *)
Theorem C2_extraction_not_stopped_by_error_count :
  let st := with_errorCount 11 (initial_state katex_page) in
  maxErrors st < errorCount st /\
  fst (getEquationContent plain_env st (Some [2]) MATHML) = Some scenario_output /\
  (forall env st' n equation format,
      fst (getEquationContent env (with_errorCount n st') equation format) =
      fst (getEquationContent env st' equation format)).
Proof.
  split; [|split].
  - vm_compute. lia.
  - vm_compute. reflexivity.
  - intros. apply getEquationContent_errorCount.
Qed.

(** C3 as stated fails: the element serialises to the input of the
    scenario, and its MathML extraction is not the stated output. *)
Lemma C3_stated_output_refuted :
  outerHTML false scenario_math = scenario_input /\
  extractFromMathML scenario_math [] MATHML <> Some scenario_stated.
Proof.
  split; [vm_compute; reflexivity|].
  intros H.
  apply (f_equal (fun o => match o with
                           | Some x => streq x scenario_stated
                           | None => false
                           end)) in H.
  vm_compute in H. discriminate.
Qed.

(** C3, amended.  MathML extraction of a [math] element whose
    serialisation is the input of the scenario yields the namespace kept
    and the whitespace inside the operator removed, while the identifier
    keeps its spaces: [<mi> x </mi>]. *)
Theorem C3_scenario_extraction :
  forall doc p e ch,
    get doc p = Some (Element e ch) ->
    localName e = lit "math" ->
    outerHTML false (Element e ch) = scenario_input ->
    extractFromMathML doc p MATHML = Some scenario_output.
Proof.
  intros doc p e ch Hget Hname Hser.
  pose proof (get_get_elem _ _ Hget) as He.
  unfold extractFromMathML. rewrite He.
  assert (Hc : closest doc p (sel_type "math") = Some p).
  { apply closest_self. unfold sel_type. rewrite matches_single, He.
    unfold match_compound. cbn [forallb match_simple]. rewrite Hname. reflexivity. }
  rewrite Hc.
  replace (if streq (tagName e) (lit "MATH") then Some p else Some p) with (Some p)
    by now destruct (streq (tagName e) (lit "MATH")).
  replace (streq MATHML MATHML) with true by reflexivity.
  unfold serialize_math, outerHTML_at. rewrite Hget, Hser.
  vm_compute. reflexivity.
Qed.

Lemma C3_scenario_extraction_witness :
  get scenario_math [] = Some scenario_math /\
  extractFromMathML scenario_math [] MATHML = Some scenario_output.
Proof.
  split; [reflexivity|].
  apply (@C3_scenario_extraction scenario_math []
           (mkElem MathML (lit "math") [(lit "xmlns", MATHML_NS)] None)
           [ mml "mo" [] [Text ([32; INTEGRAL; 32]%N)];
             mml "mi" [] [Text (lit " x ")] ]).
  - reflexivity.
  - reflexivity.
  - vm_compute. reflexivity.
Defined.

(** C9.  A format outside [mathml], [latex], [unicode], [asciimath] is
    replaced by the default [mathml]: the call returns what the call with
    [mathml] returns, and leaves the same state. *)
Theorem C9_unknown_format_falls_back_to_mathml :
  forall env st equation format,
    ~ In format validFormats ->
    getEquationContent env st equation format =
    getEquationContent env st equation MATHML.
Proof.
  intros env st equation format Hnot.
  assert (Hmem : mem format validFormats = false).
  { destruct (mem format validFormats) eqn:E; [|reflexivity].
    apply mem_In in E. contradiction. }
  unfold getEquationContent, getEquationContent_try.
  destruct equation as [eq|]; [|reflexivity].
  destruct (get (document st) eq) as [[d|e ch]|]; try reflexivity.
  rewrite Hmem. reflexivity.
Qed.

Lemma C9_unknown_format_witness :
  ~ In (lit "pdf") validFormats /\
  getEquationContent plain_env (initial_state katex_page) (Some [2]) (lit "pdf") =
  getEquationContent plain_env (initial_state katex_page) (Some [2]) MATHML.
Proof.
  assert (H : ~ In (lit "pdf") validFormats).
  { intros [H|[H|[H|[H|[]]]]]; discriminate H. }
  split; [exact H|].
  apply (@C9_unknown_format_falls_back_to_mathml plain_env (initial_state katex_page)
           (Some [2]) (lit "pdf") H).
Defined.

(** C5.  Extracted content whose trimmed length exceeds 100,000 code
    units makes the [try] block of [getEquationContent] throw
    [CONTENT_TOO_LARGE], and the call returns [null], counting one more
    error; a clipboard write of a text longer than 1,000,000 code units
    throws [CONTENT_TOO_LARGE] before anything is written. *)
Theorem C5_oversized_content_is_rejected :
  (forall env st eq e ch format s,
      get (document st) eq = Some (Element e ch) ->
      raw_content env (document st) eq e
                  (if mem format validFormats then format else defaultFormat) = Some s ->
      (100000 < len (trim s))%N ->
      getEquationContent_try env (document st) (Some eq) format
      = Throw (ExtensionError CONTENT_TOO_LARGE MEDIUM) /\
      getEquationContent env st (Some eq) format
      = (None, with_errorCount (S (errorCount st)) st)) /\
  (forall env st text format,
      (1000000 < len text)%N ->
      copyToClipboard env text format st
      = (Throw (ExtensionError CONTENT_TOO_LARGE MEDIUM), st)).
Proof.
  split.
  - intros env st eq e ch format s Hget Hraw Hlen.
    assert (Htry : getEquationContent_try env (document st) (Some eq) format
                   = Throw (ExtensionError CONTENT_TOO_LARGE MEDIUM)).
    { unfold getEquationContent_try. rewrite Hget, Hraw.
      unfold validate_content.
      assert (Hs : truthy (Some s) = true).
      { destruct s as [|c s]; [|reflexivity]. vm_compute in Hlen. discriminate. }
      rewrite Hs.
      assert (H0 : N.ltb 0 (len (trim s)) = true) by (apply N.ltb_lt; lia).
      rewrite H0. cbn [andb].
      apply N.ltb_lt in Hlen. now rewrite Hlen. }
    split; [exact Htry|].
    unfold getEquationContent. rewrite Htry.
    cbn [errorCount maxErrors with_errorCount].
    now destruct (Nat.ltb (maxErrors st) (S (errorCount st))).
  - intros env st text format Hlen.
    unfold copyToClipboard.
    destruct text as [|c text]; [vm_compute in Hlen; discriminate|].
    apply N.ltb_lt in Hlen. now rewrite Hlen.
Qed.

Lemma len_repeat (c : N) (n : N) : len (repeat c (N.to_nat n)) = n.
Proof. unfold len. rewrite repeat_length. apply N2Nat.id. Qed.

(** What reaches the validation on [data_math_page] is the attribute
    value itself. *)
Lemma raw_content_data_math (c : N) (d : jsstring) :
  raw_content plain_env
    (html "body" [] [ html "span" [(lit "data-math", c :: d)] [] ]) [0]
    (mkElem HTML (lit "span") [(lit "data-math", c :: d)] None) UNICODE
  = Some (c :: d).
Proof. vm_compute. reflexivity. Qed.

Lemma C5_oversized_content_witness :
  getEquationContent plain_env (initial_state (data_math_page 149999)) (Some [0]) UNICODE
  = (None, with_errorCount 1 (initial_state (data_math_page 149999))) /\
  copyToClipboard plain_env (repeat 120%N (N.to_nat 2000000)) MATHML
                  (initial_state katex_page)
  = (Throw (ExtensionError CONTENT_TOO_LARGE MEDIUM), initial_state katex_page).
Proof.
  destruct C5_oversized_content_is_rejected as [Hextract Hclip].
  split.
  - refine (proj2 (@Hextract plain_env (initial_state (data_math_page 149999)) [0]
                     (mkElem HTML (lit "span")
                             [(lit "data-math", 120%N :: repeat 120%N (N.to_nat 149999))]
                             None)
                     [] UNICODE (120%N :: repeat 120%N (N.to_nat 149999)) _ _ _)).
    + reflexivity.
    + apply raw_content_data_math.
    + change (120%N :: repeat 120%N (N.to_nat 149999))
        with (repeat 120%N (S (N.to_nat 149999))).
      rewrite trim_repeat by reflexivity.
      unfold len. rewrite repeat_length. lia.
  - apply Hclip. rewrite len_repeat. reflexivity.
Defined.

(* ================================================================== *)
(** * Multi-selection copy *)

Section MultiCopy.

Variable env : Env.

Lemma validate_content_some (x : option jsstring) (c : jsstring) :
  validate_content x = Ok (Some c) -> truthy (Some c) = true.
Proof.
  unfold validate_content. destruct x as [c0|]; [|discriminate].
  destruct (truthy (Some c0) && N.ltb 0 (len (trim c0)))%bool eqn:E; [|discriminate].
  apply andb_true_iff in E as [_ Hlen].
  destruct (N.ltb 100000 (len (trim c0))); [discriminate|].
  intros H. injection H as <-.
  destruct (trim c0); [discriminate | reflexivity].
Qed.

(** A call that returns content returns a non-empty string and leaves
    the state as it was. *)
Lemma getEquationContent_some (st : State) (eq : path) (format c : jsstring) :
  fst (getEquationContent env st (Some eq) format) = Some c ->
  getEquationContent env st (Some eq) format = (Some c, st) /\ truthy (Some c) = true.
Proof.
  unfold getEquationContent.
  destruct (getEquationContent_try env (document st) (Some eq) format) as [content|err] eqn:E.
  - cbn [fst]. intros ->. split; [reflexivity|].
    unfold getEquationContent_try in E.
    destruct (get (document st) eq) as [[d|e ch]|]; try discriminate.
    now apply validate_content_some in E.
  - destruct (Nat.ltb _ _); discriminate.
Qed.

Lemma copyToClipboard_ok (st : State) (text format : jsstring) (u : unit) :
  fst (copyToClipboard env text format st) = Ok u ->
  copyToClipboard env text format st = (Ok tt, with_clipboard (clipboard st ++ [text]) st).
Proof.
  unfold copyToClipboard, copy_fallback.
  destruct text as [|c t]; [discriminate|].
  destruct (N.ltb 1000000 (len (c :: t))); [discriminate|].
  destruct (streq format MATHML && has_write (navigator env)
            && write_succeeds (navigator env) (c :: t))%bool; [reflexivity|].
  destruct (has_writeText (navigator env)).
  - destruct (writeText_succeeds (navigator env) (c :: t)); [reflexivity|].
    destruct (execCommand_copy (navigator env) (c :: t)) as [[|]|];
      try discriminate; reflexivity.
  - destruct (execCommand_copy (navigator env) (c :: t)) as [[|]|];
      try discriminate; reflexivity.
Qed.

Lemma clipboard_notifyBackground (m : message) (st : State) :
  clipboard (notifyBackground env m st) = clipboard st.
Proof. unfold notifyBackground. now destruct (runtime_alive env). Qed.

Lemma clipboard_clearSelection (st : State) :
  clipboard (clearSelection env st) = clipboard st.
Proof.
  unfold clearSelection, notifySelectionChange.
  rewrite clipboard_notifyBackground. cbn [clipboard with_selectedEquations].
  generalize (selectedEquations st). intros l. revert st.
  induction l as [|p l IH]; intros st; [reflexivity|].
  cbn [fold_left]. now rewrite IH.
Qed.

Lemma selected_clearSelection (st : State) :
  selectedEquations (clearSelection env st) = [].
Proof.
  unfold clearSelection, notifySelectionChange, notifyBackground.
  now destruct (runtime_alive env).
Qed.

Lemma clipboard_flash (l : list path) (st : State) :
  clipboard (fold_left (fun st equation =>
               setTimeout (RemoveClassTask equation (lit "math-copy-success")) 1000
                 (update_element equation (classList_add (lit "math-copy-success")) st))
             l st) = clipboard st.
Proof.
  revert st. induction l as [|p l IH]; intros st; [reflexivity|].
  cbn [fold_left]. now rewrite IH.
Qed.

End MultiCopy.

(** C7.  With three containers selected, each of which yields content,
    and a clipboard that takes the write, committing the multi-copy
    writes one payload: the three contents in selection order, joined by
    a blank line; afterwards the selection is empty. *)
Theorem C7_multi_copy_joins_and_clears :
  forall env st e1 e2 e3 c1 c2 c3,
    selectedEquations st = [e1; e2; e3] ->
    fst (getEquationContent env st (Some e1) (currentFormat st)) = Some c1 ->
    fst (getEquationContent env st (Some e2) (currentFormat st)) = Some c2 ->
    fst (getEquationContent env st (Some e3) (currentFormat st)) = Some c3 ->
    fst (copyToClipboard env (join [LF; LF] [c1; c2; c3]) (currentFormat st) st) = Ok tt ->
    clipboard (copySelectedEquations env st)
    = clipboard st ++ [c1 ++ [LF; LF] ++ c2 ++ [LF; LF] ++ c3] /\
    selectedEquations (copySelectedEquations env st) = [].
Proof.
  intros env st e1 e2 e3 c1 c2 c3 Hsel H1 H2 H3 Hcopy.
  destruct (getEquationContent_some _ _ _ _ H1) as [G1 T1].
  destruct (getEquationContent_some _ _ _ _ H2) as [G2 T2].
  destruct (getEquationContent_some _ _ _ _ H3) as [G3 T3].
  unfold copySelectedEquations. rewrite Hsel.
  cbn [collect_contents]. rewrite G1, G2, G3, T1, T2, T3.
  cbn [sval app]. rewrite (@copyToClipboard_ok env _ _ _ tt Hcopy).
  split.
  - rewrite clipboard_clearSelection, clipboard_flash, clipboard_notifyBackground.
    reflexivity.
  - apply selected_clearSelection.
Qed.

Lemma C7_multi_copy_witness :
  clipboard (copySelectedEquations plain_env three_selected)
  = [ lit "x" ++ [LF; LF]
      ++ sval (fst (getEquationContent plain_env three_selected (Some [1]) MATHML))
      ++ [LF; LF]
      ++ sval (fst (getEquationContent plain_env three_selected (Some [2]) MATHML)) ] /\
  selectedEquations (copySelectedEquations plain_env three_selected) = [].
Proof.
  refine (@C7_multi_copy_joins_and_clears plain_env three_selected [0] [1] [2]
            (lit "x")
            (sval (fst (getEquationContent plain_env three_selected (Some [1]) MATHML)))
            (sval (fst (getEquationContent plain_env three_selected (Some [2]) MATHML)))
            _ _ _ _ _).
  - vm_compute. reflexivity.
  - vm_compute. reflexivity.
  - vm_compute. reflexivity.
  - vm_compute. reflexivity.
  - vm_compute. reflexivity.
Defined.

(* ================================================================== *)
(** * Literal patterns and [validateMathML] *)

Section LiteralPatterns.

Lemma run_seqs_cons (r : regex) (l : list regex) (st : mstate)
      (k : mstate -> option mstate) :
  run (seqs (r :: l)) st k = run r st (fun st' => run (seqs l) st' k).
Proof. destruct l; reflexivity. Qed.

(** A literal matches exactly where the input starts with it. *)
Lemma run_str (p : jsstring) :
  forall i s caps k,
    run (str p) (i, s, caps) k =
    if startsWith s p then k (List.length p + i, skipn (List.length p) s, caps)
    else None.
Proof.
  unfold str. induction p as [|x p IH]; intros i s caps k.
  - destruct s; reflexivity.
  - cbn [List.map]. rewrite run_seqs_cons. unfold chr at 1. cbn [run].
    destruct s as [|c s]; [reflexivity|].
    cbn [startsWith List.length skipn].
    destruct (N.eqb x c); [|reflexivity].
    rewrite IH. cbn [andb]. now rewrite Nat.add_succ_r.
Qed.

Lemma exec_str (p : jsstring) (i : nat) (s : jsstring) :
  exec (str p) i s = if startsWith s p then Some (List.length p, []) else None.
Proof.
  unfold exec. rewrite run_str. destruct (startsWith s p); [|reflexivity].
  now rewrite Nat.add_sub.
Qed.

Lemma occurrences_cons (p : jsstring) (c : N) (s : jsstring) :
  occurrences p (c :: s) = (if startsWith (c :: s) p then 1 else 0) + occurrences p s.
Proof. reflexivity. Qed.

(** For such a literal the matches found from left to right are all its
    occurrences. *)
Lemma count_from_str (p : jsstring) :
  unbordered p ->
  forall s skip i,
    (forall k, k < skip -> startsWith (skipn k s) p = false) ->
    count_from (str p) i s skip = occurrences p s.
Proof.
  intros [Hne Hub]. induction s as [|c s IH]; intros skip i Hskip.
  - assert (H0 : startsWith [] p = false) by (destruct p; [contradiction | reflexivity]).
    cbn [count_from occurrences]. rewrite exec_str, H0. now destruct skip.
  - rewrite occurrences_cons. cbn [count_from]. destruct skip as [|n].
    + rewrite exec_str. destruct (startsWith (c :: s) p) eqn:E.
      * cbn [Nat.add]. f_equal. apply IH. intros k Hk.
        apply (Hub (c :: s) (S k) E). destruct p; [contradiction|]. cbn [List.length] in *. lia.
      * apply IH. intros k Hk. lia.
    + pose proof (Hskip 0 ltac:(lia)) as H0. cbn [skipn] in H0.
      rewrite H0. apply IH. intros k Hk.
      apply (Hskip (S k)). lia.
Qed.

Lemma matchCount_str (p s : jsstring) :
  unbordered p -> matchCount (str p) s = occurrences p s.
Proof.
  intros H. unfold matchCount. apply count_from_str; [assumption|].
  intros k Hk. lia.
Qed.

Lemma unbordered_MATH_OPEN : unbordered MATH_OPEN.
Proof.
  split; [discriminate|].
  intros s k Hs Hk. apply startsWith_spec in Hs as (r & ->).
  cbn [List.length MATH_OPEN lit List.map list_ascii_of_string] in Hk.
  destruct k as [|[|[|[|[|k]]]]]; try lia; reflexivity.
Qed.

Lemma unbordered_MATH_CLOSE : unbordered MATH_CLOSE.
Proof.
  split; [discriminate|].
  intros s k Hs Hk. apply startsWith_spec in Hs as (r & ->).
  cbn [List.length MATH_CLOSE lit List.map list_ascii_of_string] in Hk.
  destruct k as [|[|[|[|[|[|[|k]]]]]]]; try lia; reflexivity.
Qed.

(** A run of a character other than the first of [p] holds no occurrence
    of [p] and none that starts in it. *)
Lemma occurrences_repeat (p : jsstring) (h c : N) (n : nat) (t : jsstring) :
  hd_error p = Some h -> h <> c ->
  occurrences p (repeat c n ++ t) = occurrences p t.
Proof.
  intros Hh Hc. induction n as [|n IH]; [reflexivity|].
  cbn [repeat app]. rewrite occurrences_cons, IH.
  destruct p as [|x p]; [discriminate|]. injection Hh as ->.
  cbn [startsWith]. apply N.eqb_neq in Hc. now rewrite Hc.
Qed.

Lemma validateMathML_too_long (s : jsstring) :
  (1000000 < len s)%N -> validateMathML s = false.
Proof.
  intros H. unfold validateMathML. destruct s; [reflexivity|].
  apply N.ltb_lt in H. rewrite H. now rewrite orb_true_r.
Qed.

Lemma len_padded_mathml (n : N) : len (padded_mathml n) = (n + 56)%N.
Proof.
  unfold padded_mathml, len. rewrite !length_app, repeat_length.
  replace (List.length MATH_OPEN_NS) with 48 by reflexivity.
  replace (List.length MATH_CLOSE) with 7 by reflexivity.
  cbn [List.length]. lia.
Qed.

Lemma padded_mathml_valid_spec (n : N) : valid_mathml_spec (padded_mathml n).
Proof.
  unfold valid_mathml_spec, padded_mathml. repeat split.
  - exists [], (skipn 5 MATH_OPEN_NS ++ [GT] ++ repeat 120%N (N.to_nat n) ++ MATH_CLOSE).
    reflexivity.
  - exists (MATH_OPEN_NS ++ [GT] ++ repeat 120%N (N.to_nat n)), [].
    now rewrite app_nil_r, <- !app_assoc.
  - left. exists (lit "<math "), ([GT] ++ repeat 120%N (N.to_nat n) ++ MATH_CLOSE).
    reflexivity.
  - set (body := repeat 120%N (N.to_nat n) ++ MATH_CLOSE).
    transitivity (1 + occurrences MATH_OPEN body).
    + generalize body. intros b. vm_compute. reflexivity.
    + transitivity (occurrences MATH_CLOSE body).
      * unfold body.
        rewrite (@occurrences_repeat MATH_OPEN 60%N 120%N) by (reflexivity || discriminate).
        rewrite (@occurrences_repeat MATH_CLOSE 60%N 120%N) by (reflexivity || discriminate).
        reflexivity.
      * generalize body. intros b. vm_compute. reflexivity.
Qed.

End LiteralPatterns.

(** C6 as stated fails: a string with the open tag, the close tag, the
    namespace declaration and one tag of each kind is rejected when it is
    longer than 1,000,000 code units. *)
Lemma C6_length_bound_refutes_iff :
  valid_mathml_spec (padded_mathml 1000000) /\
  validateMathML (padded_mathml 1000000) = false.
Proof.
  split.
  - apply padded_mathml_valid_spec.
  - apply validateMathML_too_long. rewrite len_padded_mathml. reflexivity.
Qed.

(** C6, amended.  [validateMathML] accepts a string exactly when it is
    at most 1,000,000 code units long, contains [<math], contains
    [</math>], contains the MathML namespace declaration (with double or
    with single quotes) and has as many occurrences of [<math] as of
    [</math>]. *)
Theorem C6_validateMathML_iff :
  forall s, validateMathML s = true <->
            (len s <= 1000000)%N /\ valid_mathml_spec s.
Proof.
  intros s. unfold valid_mathml_spec.
  rewrite <- !includes_spec.
  rewrite <- (matchCount_str s unbordered_MATH_OPEN),
          <- (matchCount_str s unbordered_MATH_CLOSE).
  unfold validateMathML. destruct s as [|c s].
  - split; [discriminate|]. intros (_ & H & _). discriminate H.
  - set (t := c :: s).
    assert (H0 : N.eqb (len t) 0 = false) by (apply N.eqb_neq; unfold len, t; cbn; lia).
    rewrite H0. cbn [orb].
    destruct (N.ltb 1000000 (len t)) eqn:Hlen.
    + split; [discriminate|]. apply N.ltb_lt in Hlen. intros (Hle & _). lia.
    + apply N.ltb_ge in Hlen.
      destruct (includes t MATH_OPEN) eqn:Hopen; cbn [negb].
      * rewrite !andb_true_iff, orb_true_iff, Nat.eqb_eq. tauto.
      * split; [discriminate|]. intros (_ & H & _). discriminate H.
Qed.

(* ================================================================== *)
(** * The matcher finds matches of the pattern *)

Section MatcherSound.

Lemma star_run_sound (p : N -> bool) :
  forall s i caps k res,
    star_run p i s caps k = Some res ->
    exists m rest,
      s = m ++ rest /\ Forall (fun c => p c = true) m /\
      k (i + List.length m, rest, caps) = Some res.
Proof.
  induction s as [|c s IH]; intros i caps k res H; cbn [star_run] in H.
  - exists [], []. cbn [List.length]. rewrite Nat.add_0_r. now repeat split.
  - destruct (p c) eqn:Hc.
    + destruct (star_run p (S i) s caps k) as [r|] eqn:E.
      * injection H as <-. destruct (IH _ _ _ _ E) as (m & rest & -> & Hm & Hk).
        exists (c :: m), rest. split; [reflexivity|]. split; [now constructor|].
        cbn [List.length]. now rewrite Nat.add_succ_r.
      * exists [], (c :: s). cbn [List.length]. rewrite Nat.add_0_r. now repeat split.
    + exists [], (c :: s). cbn [List.length]. rewrite Nat.add_0_r. now repeat split.
Qed.

Lemma run_sound (r : regex) :
  forall i s caps k res,
    run r (i, s, caps) k = Some res ->
    exists m rest c,
      s = m ++ rest /\ Matches r m c /\
      k (i + List.length m, rest, caps ++ c) = Some res.
Proof.
  induction r as [p | r1 IH1 r2 IH2 | r1 IH1 r2 IH2 | p | r IH | r IH | | |];
    intros i s caps k res H; cbn [run] in H.
  - destruct s as [|c s]; [discriminate|]. destruct (p c) eqn:Hc; [|discriminate].
    exists [c], s, []. split; [reflexivity|]. split; [now constructor|].
    cbn [List.length]. now rewrite app_nil_r, Nat.add_1_r.
  - apply IH1 in H as (m1 & rest1 & c1 & -> & Hm1 & H).
    apply IH2 in H as (m2 & rest2 & c2 & -> & Hm2 & H).
    exists (m1 ++ m2), rest2, (c1 ++ c2). split; [now rewrite app_assoc|].
    split; [now constructor|].
    now rewrite length_app, Nat.add_assoc, app_assoc.
  - destruct (run r1 (i, s, caps) k) as [x|] eqn:E.
    + injection H as <-. apply IH1 in E as (m & rest & c & -> & Hm & Hk).
      exists m, rest, c. split; [reflexivity|]. split; [now apply M_alt_l | assumption].
    + apply IH2 in H as (m & rest & c & -> & Hm & Hk).
      exists m, rest, c. split; [reflexivity|]. split; [now apply M_alt_r | assumption].
  - apply star_run_sound in H as (m & rest & -> & Hm & Hk).
    exists m, rest, []. split; [reflexivity|]. split; [now constructor|].
    now rewrite app_nil_r.
  - destruct (run r (i, s, caps) k) as [x|] eqn:E.
    + injection H as <-. apply IH in E as (m & rest & c & -> & Hm & Hk).
      exists m, rest, c. split; [reflexivity|]. split; [now constructor | assumption].
    + exists [], s, []. split; [reflexivity|]. split; [apply M_opt_none|].
      cbn [List.length]. now rewrite Nat.add_0_r, app_nil_r.
  - apply IH in H as (m & rest & c & -> & Hm & Hk).
    exists m, rest, (c ++ [m]). split; [reflexivity|]. split; [now constructor|].
    cbv beta iota in Hk.
    replace (i + List.length m - i) with (List.length m) in Hk by lia.
    rewrite firstn_app, firstn_all, Nat.sub_diag in Hk.
    cbn [firstn] in Hk. now rewrite app_nil_r, <- app_assoc in Hk.
  - destruct (Nat.eqb i 0); [|discriminate].
    exists [], s, []. split; [reflexivity|]. split; [constructor|].
    cbn [List.length]. now rewrite Nat.add_0_r, app_nil_r.
  - destruct s; [|discriminate].
    exists [], [], []. split; [reflexivity|]. split; [constructor|].
    cbn [List.length]. now rewrite Nat.add_0_r, app_nil_r.
  - exists [], s, []. split; [reflexivity|]. split; [constructor|].
    cbn [List.length]. now rewrite Nat.add_0_r, app_nil_r.
Qed.

(** A successful attempt gives a match that starts the input. *)
Lemma exec_sound (r : regex) (i : nat) (s : jsstring) (n : nat) (caps : list jsstring) :
  exec r i s = Some (n, caps) ->
  exists m rest, s = m ++ rest /\ Matches r m caps /\ n = List.length m.
Proof.
  unfold exec. destruct (run r (i, s, []) Some) as [[[j s'] caps']|] eqn:E; [|discriminate].
  intros [= <- <-]. apply run_sound in E as (m & rest & c & -> & Hm & Hk).
  injection Hk as <- <- <-. exists m, rest. split; [reflexivity|].
  split; [assumption|]. lia.
Qed.

Lemma Matches_requires (x : N) (r : regex) (m : jsstring) (c : list jsstring) :
  Matches r m c -> requires x r -> In x m.
Proof.
  induction 1; cbn [requires]; intros Hr; try contradiction.
  - left. now apply Hr.
  - apply in_or_app. destruct Hr as [Hr|Hr]; [left | right]; auto.
  - apply IHMatches. apply Hr.
  - apply IHMatches. apply Hr.
  - now apply IHMatches.
Qed.

Lemma Matches_nogroup (r : regex) (m : jsstring) (c : list jsstring) :
  Matches r m c -> nogroup r = true -> c = [].
Proof.
  induction 1; cbn [nogroup]; intros Hn; try reflexivity; try discriminate.
  - apply andb_true_iff in Hn as [H1 H2]. now rewrite IHMatches1, IHMatches2.
  - apply andb_true_iff in Hn as [H1 _]. auto.
  - apply andb_true_iff in Hn as [_ H2]. auto.
  - auto.
Qed.

Lemma Matches_seqs_cons (r : regex) (l : list regex) (m : jsstring) (c : list jsstring) :
  Matches (seqs (r :: l)) m c ->
  exists m1 m2 c1 c2,
    m = m1 ++ m2 /\ c = c1 ++ c2 /\ Matches r m1 c1 /\ Matches (seqs l) m2 c2.
Proof.
  destruct l as [|r2 l].
  - cbn [seqs]. intros H. exists m, [], c, []. rewrite !app_nil_r.
    repeat split; [assumption | constructor].
  - change (seqs (r :: r2 :: l)) with (Seq r (seqs (r2 :: l))).
    intros H. inversion H; subst. now exists m1, m2, c1, c2.
Qed.

(** A case-sensitive literal matches itself only. *)
Lemma Matches_str (p m : jsstring) (c : list jsstring) :
  Matches (str p) m c -> m = p /\ c = [].
Proof.
  unfold str. revert m c. induction p as [|x p IH]; intros m c H.
  - cbn in H. inversion H. now split.
  - cbn [List.map] in H. apply Matches_seqs_cons in H
      as (m1 & m2 & c1 & c2 & -> & -> & H1 & H2).
    apply IH in H2 as [-> ->]. unfold chr in H1. inversion H1; subst.
    match goal with Hx : N.eqb x _ = true |- _ => apply N.eqb_eq in Hx; subst end.
    now split.
Qed.

End MatcherSound.

(* ================================================================== *)
(** * Replacements that only shorten *)

Section Shrinking.

Lemma length_zero_nil (A : Type) (l : list A) : List.length l <= 0 -> l = [].
Proof. destruct l; [reflexivity | cbn; lia]. Qed.

Lemma replace_from_shrinks (r : regex) (f : jsstring -> list jsstring -> jsstring) :
  shrinking r f ->
  forall s i skip,
    skip <= List.length s ->
    List.length (replace_from r f i s skip) + skip <= List.length s /\
    (List.length (replace_from r f i s skip) + skip = List.length s ->
     replace_from r f i s skip = skipn skip s).
Proof.
  intros Hf. induction s as [|c s IH]; intros i skip Hskip.
  - cbn [List.length] in Hskip. assert (skip = 0) by lia. subst skip.
    cbn [replace_from]. destruct (exec r i []) as [[n caps]|] eqn:E.
    + apply exec_sound in E as (m & rest & Hs & Hm & _).
      symmetry in Hs. apply app_eq_nil in Hs as [-> ->].
      destruct (Hf _ _ Hm) as [Hle _]. apply length_zero_nil in Hle. rewrite Hle.
      now split.
    + now split.
  - cbn [replace_from]. destruct skip as [|n].
    + destruct (exec r i (c :: s)) as [[[|n] caps]|] eqn:E.
      * apply exec_sound in E as (m & rest & Hs & Hm & Hn).
        assert (Hm0 : m = []) by (apply length_zero_nil; lia). subst m.
        destruct (Hf _ _ Hm) as [Hle _]. apply length_zero_nil in Hle. rewrite Hle.
        destruct (IH (S i) 0 ltac:(lia)) as [H1 H2].
        cbn [app List.length skipn] in *. split; [lia|].
        intros H. f_equal. apply H2. lia.
      * apply exec_sound in E as (m & rest & Hs & Hm & Hn).
        assert (Hfirst : firstn (S n) (c :: s) = m).
        { rewrite Hs, Hn, firstn_app, firstn_all, Nat.sub_diag. cbn [firstn].
          apply app_nil_r. }
        rewrite Hfirst.
        assert (Hlen : n <= List.length s).
        { apply (f_equal (@List.length N)) in Hs. rewrite length_app in Hs.
          cbn [List.length] in Hs. lia. }
        destruct (IH (S i) n Hlen) as [H1 H2].
        destruct (Hf _ _ Hm) as [H3 H4].
        rewrite length_app. cbn [List.length]. split; [lia|].
        intros H. rewrite H4 by lia. rewrite H2 by lia.
        rewrite <- Hfirst. apply (firstn_skipn (S n) (c :: s)).
      * destruct (IH (S i) 0 ltac:(lia)) as [H1 H2].
        cbn [List.length skipn] in *. split; [lia|].
        intros H. f_equal. apply H2. lia.
    + cbn [List.length] in Hskip.
      destruct (IH (S i) n ltac:(lia)) as [H1 H2].
      cbn [List.length skipn]. split; [lia|]. intros H. apply H2. lia.
Qed.

Lemma replaceAll_shrinks (r : regex) (f : jsstring -> list jsstring -> jsstring) :
  shrinking r f -> shrinks (replaceAll r f).
Proof.
  intros Hf s. unfold replaceAll.
  destruct (@replace_from_shrinks r f Hf s 0 0 ltac:(lia)) as [H1 H2].
  rewrite Nat.add_0_r in *. now split.
Qed.

Lemma shrinks_compose (g h : jsstring -> jsstring) :
  shrinks g -> shrinks h -> shrinks (fun s => h (g s)).
Proof.
  intros Hg Hh s. destruct (Hg s) as [G1 G2]. destruct (Hh (g s)) as [H1 H2].
  split; [lia|]. intros H. rewrite H2 by lia. apply G2. lia.
Qed.

(** Removing a match shrinks. *)
Lemma shrinking_remove (r : regex) : shrinking r (const []).
Proof.
  intros m caps _. unfold const. cbn [List.length]. split; [lia|].
  intros H. symmetry. apply length_zero_nil. lia.
Qed.

Lemma trimStart_shrinks : shrinks trimStart.
Proof.
  intros s. induction s as [|c s [IH1 IH2]]; [now split|].
  cbn [trimStart]. destruct (is_ws c); [|now split].
  cbn [List.length]. split; [lia|]. intros H. lia.
Qed.

Lemma trimEnd_shrinks : shrinks trimEnd.
Proof.
  intros s. induction s as [|c s [IH1 IH2]]; [now split|].
  cbn [trimEnd]. destruct (trimEnd s) as [|t ts] eqn:E.
  - destruct (is_ws c); cbn [List.length] in *.
    + split; [lia|]. intros H. lia.
    + split; [lia|]. intros H. f_equal. apply IH2. lia.
  - cbn [List.length] in *. split; [lia|]. intros H. f_equal. apply IH2. lia.
Qed.

Lemma trim_shrinks : shrinks trim.
Proof. exact (shrinks_compose trimStart_shrinks trimEnd_shrinks). Qed.

End Shrinking.

(* ================================================================== *)
(** * [cleanMathMLSpacing] *)

Section Cleanup.

Lemma Matches_chr (x : N) (m : jsstring) (c : list jsstring) :
  Matches (chr x) m c -> m = [x] /\ c = [].
Proof.
  unfold chr. intros H. inversion H; subst.
  match goal with Hx : N.eqb x _ = true |- _ => apply N.eqb_eq in Hx; subst end.
  now split.
Qed.

Lemma Matches_Star (p : N -> bool) (m : jsstring) (c : list jsstring) :
  Matches (Star p) m c -> c = [].
Proof. intros H. now inversion H. Qed.

Lemma Matches_Plus (p : N -> bool) (m : jsstring) (c : list jsstring) :
  Matches (Plus p) m c -> 1 <= List.length m /\ c = [].
Proof.
  unfold Plus. intros H. inversion H as [| ? ? m1 m2 c1 c2 H1 H2 | | | | | | | | |]; subst.
  inversion H1; subst. inversion H2; subst. cbn [List.length app]. split; [lia | reflexivity].
Qed.

Lemma Matches_Grp (r : regex) (m : jsstring) (c : list jsstring) :
  nogroup r = true -> Matches (Grp r) m c -> c = [m] /\ Matches r m [].
Proof.
  intros Hn H. inversion H as [| | | | | | | ? ? c0 H0 | | |]; subst.
  pose proof (@Matches_nogroup _ _ _ H0 Hn). subst c0. now split.
Qed.

Lemma Matches_seqs_nil (m : jsstring) (c : list jsstring) :
  Matches (seqs []) m c -> m = [] /\ c = [].
Proof. cbn [seqs]. intros H. now inversion H. Qed.

Lemma shrinking_mpadded_em : shrinking re_mpadded_em mpadded_em_replacer.
Proof.
  intros m caps _. unfold mpadded_em_replacer.
  destruct (below_threshold (group 0 caps)); [|now split].
  cbn [List.length]. split; [lia|]. intros H. symmetry. apply length_zero_nil. lia.
Qed.

Lemma invisible_removal_shrinks : shrinks (replaceAll re_invisible (const [])).
Proof. apply replaceAll_shrinks. apply shrinking_remove. Qed.

Lemma shrinking_mo : shrinking re_mo mo_replacer.
Proof.
  intros m caps H. unfold re_mo in H.
  apply Matches_seqs_cons in H as (m0 & x & c0 & y & -> & -> & H0 & H).
  apply Matches_seqs_cons in H as (m1 & x' & c1 & y' & -> & -> & H1 & H).
  apply Matches_seqs_cons in H as (m2 & x'' & c2 & y'' & -> & -> & H2 & H).
  apply Matches_seqs_nil in H as [-> ->].
  apply Matches_Grp in H0 as [-> _]; [|reflexivity].
  apply Matches_Grp in H1 as [-> _]; [|reflexivity].
  apply Matches_Grp in H2 as [-> _]; [|reflexivity].
  unfold mo_replacer. cbn [app group nth]. rewrite !app_nil_r.
  destruct (trim_shrinks m1) as [T1 T2].
  destruct (invisible_removal_shrinks (trim m1)) as [I1 I2].
  rewrite !length_app. split; [lia|].
  intros Hlen. rewrite I2 by lia. rewrite T2 by lia. reflexivity.
Qed.

Lemma shrinking_between_tags : shrinking re_between_tags (const (lit "><")).
Proof.
  intros m caps H. unfold re_between_tags in H.
  apply Matches_seqs_cons in H as (m0 & x & c0 & y & -> & -> & H0 & H).
  apply Matches_seqs_cons in H as (m1 & x' & c1 & y' & -> & -> & H1 & H).
  apply Matches_seqs_cons in H as (m2 & x'' & c2 & y'' & -> & -> & H2 & H).
  apply Matches_seqs_nil in H as [-> ->].
  apply Matches_chr in H0 as [-> _]. apply Matches_chr in H2 as [-> _].
  apply Matches_Plus in H1 as [H1 _].
  unfold const. rewrite !length_app. cbn [List.length lit List.map list_ascii_of_string].
  split; lia.
Qed.

Lemma shrinking_after_mo : shrinking re_after_mo (const (lit "</mo><")).
Proof.
  intros m caps H. unfold re_after_mo in H.
  apply Matches_seqs_cons in H as (m0 & x & c0 & y & -> & -> & H0 & H).
  apply Matches_seqs_cons in H as (m1 & x' & c1 & y' & -> & -> & H1 & H).
  apply Matches_seqs_cons in H as (m2 & x'' & c2 & y'' & -> & -> & H2 & H).
  apply Matches_seqs_nil in H as [-> ->].
  apply Matches_str in H0 as [-> _]. apply Matches_chr in H2 as [-> _].
  unfold const. rewrite !length_app.
  replace (List.length (lit "</mo><")) with 6 by reflexivity.
  replace (List.length (lit "</mo>")) with 5 by reflexivity.
  cbn [List.length]. split; [lia|].
  intros Hlen. assert (Hm1 : m1 = []) by (apply length_zero_nil; lia).
  subst m1. reflexivity.
Qed.

Lemma shrinking_after_close :
  shrinking re_after_close (fun _ caps => group 0 caps ++ [LT]).
Proof.
  intros m caps H. unfold re_after_close in H.
  apply Matches_seqs_cons in H as (m0 & x & c0 & y & -> & -> & H0 & H).
  apply Matches_seqs_cons in H as (m1 & x' & c1 & y' & -> & -> & H1 & H).
  apply Matches_seqs_cons in H as (m2 & x'' & c2 & y'' & -> & -> & H2 & H).
  apply Matches_seqs_nil in H as [-> ->].
  apply Matches_Grp in H0 as [-> _]; [|reflexivity].
  apply Matches_Star in H1 as ->. apply Matches_chr in H2 as [-> ->].
  cbn [app group nth]. rewrite !length_app. cbn [List.length]. split; [lia|].
  intros Hlen. assert (Hm1 : m1 = []) by (apply length_zero_nil; lia).
  subst m1. reflexivity.
Qed.

(** A pass never lengthens the string, and a pass that keeps the length
    keeps the string. *)
Lemma cleanMathMLSpacing_shrinks : shrinks cleanMathMLSpacing.
Proof.
  unfold cleanMathMLSpacing.
  repeat match goal with
         | |- shrinks (fun s => replaceAll ?r ?f (@?g s)) =>
             apply (@shrinks_compose g (replaceAll r f))
         end.
  all: try (intros s; now split).
  all: apply replaceAll_shrinks.
  all: first [ apply shrinking_remove | apply shrinking_mpadded_em | apply shrinking_mo
             | apply shrinking_between_tags | apply shrinking_after_mo
             | apply shrinking_after_close ].
Qed.

Lemma iterate_fixed (g : jsstring -> jsstring) (s : jsstring) (n : nat) :
  g s = s -> iterate g n s = s.
Proof.
  intros H. induction n as [|n IH]; [reflexivity|]. cbn [iterate]. now rewrite H.
Qed.

(** Passes that only shorten come to rest within [length s] passes. *)
Lemma iterate_stabilises (g : jsstring -> jsstring) :
  shrinks g ->
  forall n s, List.length s <= n -> g (iterate g n s) = iterate g n s.
Proof.
  intros Hg. induction n as [|n IH]; intros s Hlen.
  - cbn [iterate]. destruct (Hg s) as [H1 H2]. apply H2. lia.
  - cbn [iterate]. destruct (Hg s) as [H1 H2].
    destruct (Nat.eq_dec (List.length (g s)) (List.length s)) as [Heq | Hne].
    + rewrite (H2 Heq). rewrite (iterate_fixed g n (H2 Heq)). now apply H2.
    + apply IH. lia.
Qed.

(** ** Text without an opening angle bracket *)

Lemma replace_no_match (x : N) (r : regex) (f : jsstring -> list jsstring -> jsstring) :
  requires x r ->
  forall s i, ~ In x s -> replace_from r f i s 0 = s.
Proof.
  intros Hr. induction s as [|c s IH]; intros i Hx; cbn [replace_from].
  - destruct (exec r i []) as [[n caps]|] eqn:E; [|reflexivity].
    apply exec_sound in E as (m & rest & Hs & Hm & _).
    exfalso. apply Hx. rewrite Hs. apply in_or_app. left.
    now apply (@Matches_requires x _ _ _ Hm).
  - destruct (exec r i (c :: s)) as [[n caps]|] eqn:E.
    + apply exec_sound in E as (m & rest & Hs & Hm & _).
      exfalso. apply Hx. rewrite Hs. apply in_or_app. left.
      now apply (@Matches_requires x _ _ _ Hm).
    + f_equal. apply IH. intros H. apply Hx. now right.
Qed.

Lemma exec_Chr (p : N -> bool) (i : nat) (s : jsstring) :
  exec (Chr p) i s =
  match s with
  | c :: _ => if p c then Some (1, []) else None
  | [] => None
  end.
Proof.
  unfold exec. cbn [run]. destruct s as [|c s]; [reflexivity|].
  destruct (p c); [|reflexivity]. f_equal. f_equal. lia.
Qed.

(** Removing the characters of a class is filtering. *)
Lemma replaceAll_class_remove (p : N -> bool) (s : jsstring) :
  replaceAll (Chr p) (const []) s = filter (fun c => negb (p c)) s.
Proof.
  unfold replaceAll. generalize 0 at 1.
  induction s as [|c s IH]; intros i; cbn [replace_from filter].
  - now rewrite exec_Chr.
  - rewrite exec_Chr. destruct (p c); cbn [negb const app]; now rewrite IH.
Qed.

Lemma filter_idem (A : Type) (f : A -> bool) (l : list A) :
  filter f (filter f l) = filter f l.
Proof.
  induction l as [|x l IH]; [reflexivity|]. cbn [filter].
  destruct (f x) eqn:E; [|exact IH]. cbn [filter]. now rewrite E, IH.
Qed.

Lemma chr_requires (x : N) : requires x (chr x).
Proof. intros c H. apply N.eqb_eq in H. now subst. Qed.

Lemma chrI_requires_LT : requires LT (chrI LT).
Proof.
  intros c H. apply N.eqb_eq in H. unfold upperA in H.
  destruct (inrange 97 122 c) eqn:E; cbn in H.
  - unfold inrange in E. apply andb_true_iff in E as [E1 E2].
    apply N.leb_le in E1. unfold LT in *. lia.
  - exact H.
Qed.

Lemma requires_seqs_hd (x : N) (r : regex) (l : list regex) :
  requires x r -> requires x (seqs (r :: l)).
Proof. intros H. destruct l; [exact H | now left]. Qed.

Lemma requires_strI_LT (p : jsstring) : requires LT (strI (LT :: p)).
Proof. unfold strI. cbn [List.map]. apply requires_seqs_hd, chrI_requires_LT. Qed.

Lemma requires_str_LT (p : jsstring) : requires LT (str (LT :: p)).
Proof. unfold str. cbn [List.map]. apply requires_seqs_hd, chr_requires. Qed.

Lemma requires_LT_mspace : requires LT re_mspace.
Proof. apply requires_seqs_hd, (requires_strI_LT (lit "mspace")). Qed.

Lemma requires_LT_mtext : requires LT re_mtext.
Proof. apply requires_seqs_hd, (requires_strI_LT (lit "mtext")). Qed.

Lemma requires_LT_mpadded_zero : requires LT re_mpadded_zero.
Proof. apply requires_seqs_hd, (requires_strI_LT (lit "mpadded")). Qed.

Lemma requires_LT_mpadded_em : requires LT re_mpadded_em.
Proof. apply requires_seqs_hd, (requires_strI_LT (lit "mpadded")). Qed.

Lemma requires_LT_mo : requires LT re_mo.
Proof.
  apply requires_seqs_hd. cbn [requires].
  apply requires_seqs_hd, (requires_strI_LT (lit "mo")).
Qed.

Lemma requires_LT_between_tags : requires LT re_between_tags.
Proof. right. right. apply chr_requires. Qed.

Lemma requires_LT_after_mo : requires LT re_after_mo.
Proof. apply requires_seqs_hd, (requires_str_LT (lit "/mo>")). Qed.

Lemma requires_LT_after_close : requires LT re_after_close.
Proof.
  apply requires_seqs_hd. cbn [requires].
  repeat split;
    first [ apply (requires_str_LT (lit "/mo>")) | apply (requires_str_LT (lit "/mi>"))
          | apply (requires_str_LT (lit "/mn>")) | apply (requires_str_LT (lit "/mfrac>"))
          | apply (requires_str_LT (lit "/msup>")) | apply (requires_str_LT (lit "/msub>"))
          | apply (requires_str_LT (lit "/munder>"))
          | apply (requires_str_LT (lit "/mover>"))
          | apply (requires_str_LT (lit "/mrow>")) ].
Qed.

(** On text without [<] the cleanup only removes the invisible
    characters. *)
Lemma cleanMathMLSpacing_text (s : jsstring) :
  ~ In LT s ->
  cleanMathMLSpacing s = filter (fun c => negb (is_invisible c)) s.
Proof.
  intros Hs.
  assert (Hf : ~ In LT (filter (fun c => negb (is_invisible c)) s)).
  { intros H. apply filter_In in H as [H _]. contradiction. }
  unfold cleanMathMLSpacing, replaceAll.
  rewrite (@replace_no_match _ _ _ requires_LT_mspace _ _ Hs).
  rewrite (@replace_no_match _ _ _ requires_LT_mtext _ _ Hs).
  change (replace_from re_invisible (const []) 0 s 0)
    with (replaceAll (Chr is_invisible) (const []) s).
  rewrite replaceAll_class_remove.
  rewrite (@replace_no_match _ _ _ requires_LT_mpadded_zero _ _ Hf).
  rewrite (@replace_no_match _ _ _ requires_LT_mpadded_em _ _ Hf).
  rewrite (@replace_no_match _ _ _ requires_LT_mo _ _ Hf).
  rewrite (@replace_no_match _ _ _ requires_LT_between_tags _ _ Hf).
  rewrite (@replace_no_match _ _ _ requires_LT_after_mo _ _ Hf).
  now rewrite (@replace_no_match _ _ _ requires_LT_after_close _ _ Hf).
Qed.

End Cleanup.

(** C4 as stated fails: on a whitespace-only [mtext] nested in another
    one pass leaves an empty [mtext], which a second pass removes. *)
Lemma C4_second_pass_differs :
  cleanMathMLSpacing nested_mtext = lit "<mtext></mtext>" /\
  cleanMathMLSpacing (cleanMathMLSpacing nested_mtext) = [] /\
  cleanMathMLSpacing (cleanMathMLSpacing nested_mtext) <> cleanMathMLSpacing nested_mtext.
Proof.
  assert (H1 : cleanMathMLSpacing nested_mtext = lit "<mtext></mtext>")
    by (vm_compute; reflexivity).
  assert (H2 : cleanMathMLSpacing (cleanMathMLSpacing nested_mtext) = [])
    by (vm_compute; reflexivity).
  split; [exact H1|]. split; [exact H2|].
  rewrite H2, H1. discriminate.
Qed.

(* ================================================================== *)
(** * Updates of the document *)

Section Updates.

Lemma path_eqb_refl (p : path) : path_eqb p p = true.
Proof.
  unfold path_eqb. induction p as [|i p IH]; [reflexivity|].
  cbn [is_prefix]. rewrite Nat.eqb_refl. exact IH.
Qed.

Lemma path_eqb_cons (i j : nat) (p q : path) :
  path_eqb (i :: p) (j :: q) = (Nat.eqb i j && path_eqb p q)%bool.
Proof.
  unfold path_eqb. cbn [is_prefix]. rewrite (Nat.eqb_sym j i).
  destruct (Nat.eqb i j); [reflexivity|]. reflexivity.
Qed.

Lemma path_eqb_eq (p q : path) : path_eqb p q = true <-> p = q.
Proof.
  split; [|intros ->; apply path_eqb_refl].
  revert q; induction p as [|i p IH]; intros [|j q] H; try reflexivity;
    try (unfold path_eqb in H; cbn in H; discriminate).
  rewrite path_eqb_cons in H. apply andb_true_iff in H as [Hi Hp].
  apply Nat.eqb_eq in Hi. apply IH in Hp. now subst.
Qed.

Lemma nth_error_update_nth (A : Type) (g : A -> A) (l : list A) (i j : nat) :
  nth_error (update_nth g l i) j =
  if Nat.eqb i j then option_map g (nth_error l j) else nth_error l j.
Proof.
  revert i j; induction l as [|x l IH]; intros i j.
  - destruct i, j; cbn; try reflexivity; now destruct (Nat.eqb i j).
  - destruct i as [|i], j as [|j]; cbn [update_nth nth_error Nat.eqb option_map];
      try reflexivity. apply IH.
Qed.

Lemma option_map_id (A : Type) (x : option A) : option_map (fun e => e) x = x.
Proof. now destruct x. Qed.

(** What an update does to the element found at any path. *)
Lemma get_elem_update (q : path) :
  forall doc p f,
    get_elem (update doc p f) q =
    option_map (fun e => if path_eqb q p then f e else e) (get_elem doc q).
Proof.
  induction q as [|j q IH]; intros doc p f.
  - destruct doc as [d|e ch]; [reflexivity|]. destruct p; reflexivity.
  - rewrite !get_elem_cons. destruct doc as [d|e ch].
    + cbn [update children_of]. now destruct j.
    + destruct p as [|i p]; cbn [update children_of].
      * destruct (nth_error ch j); [|reflexivity].
        replace (path_eqb (j :: q) []) with false by reflexivity.
        symmetry. apply option_map_id.
      * rewrite nth_error_update_nth, path_eqb_cons, (Nat.eqb_sym j i).
        destruct (Nat.eqb i j).
        -- destruct (nth_error ch j) as [c|]; [|reflexivity].
           cbn [option_map andb]. apply IH.
        -- destruct (nth_error ch j); [|reflexivity].
           cbn [andb]. symmetry. apply option_map_id.
Qed.

Lemma child_paths_update_nth (g : node -> node) (ch : list node) :
  Forall (fun c => elements (g c) = elements c) ch ->
  forall i k, child_paths elements k (update_nth g ch i) = child_paths elements k ch.
Proof.
  induction 1 as [|c ch Hc _ IH]; intros i k; [now destruct i|].
  destruct i as [|i]; cbn [update_nth child_paths].
  - now rewrite Hc.
  - now rewrite IH.
Qed.

(** An update keeps the tree of elements. *)
Lemma elements_update (f : elem -> elem) (n : node) :
  forall p, elements (update n p f) = elements n.
Proof.
  induction n as [d|e ch IH] using node_induction; intros p; [reflexivity|].
  destruct p as [|i p]; [reflexivity|].
  cbn [update elements]. f_equal.
  apply child_paths_update_nth.
  eapply Forall_impl; [|exact IH]. intros c Hc. apply Hc.
Qed.

End Updates.

(* ================================================================== *)
(** * Attributes and class lists *)

Section ClassLists.

Lemma assoc_set_assoc (l : list (jsstring * jsstring)) (n v k : jsstring) :
  assoc (set_assoc l n v) k = if streq n k then Some v else assoc l k.
Proof.
  induction l as [|[k' v'] l IH]; cbn [set_assoc assoc].
  - reflexivity.
  - destruct (streq k' n) eqn:E1; cbn [assoc].
    + apply streq_eq in E1. subst k'. now destruct (streq n k).
    + rewrite IH. destruct (streq k' k) eqn:E2; [|reflexivity].
      apply streq_eq in E2. subst k'.
      destruct (streq n k) eqn:E3; [|reflexivity].
      apply streq_eq in E3. subst n. rewrite streq_refl in E1. discriminate.
Qed.

Lemma getAttribute_setAttribute (e : elem) (n v k : jsstring) :
  getAttribute (setAttribute n v e) k = if streq n k then Some v else getAttribute e k.
Proof. apply assoc_set_assoc. Qed.

Lemma hasAttribute_setAttribute (e : elem) (n v k : jsstring) :
  hasAttribute (setAttribute n v e) k = (streq n k || hasAttribute e k)%bool.
Proof.
  unfold hasAttribute. rewrite getAttribute_setAttribute. now destruct (streq n k).
Qed.

Lemma mem_cons (c t : jsstring) (l : list jsstring) :
  mem c (t :: l) = (streq c t || mem c l)%bool.
Proof. reflexivity. Qed.

Lemma mem_app (c : jsstring) (l1 l2 : list jsstring) :
  mem c (l1 ++ l2) = (mem c l1 || mem c l2)%bool.
Proof. unfold mem. apply existsb_app. Qed.

Lemma mem_dedup (c : jsstring) (l : list jsstring) :
  forall seen, mem c (dedup seen l) = (mem c l && negb (mem c seen))%bool.
Proof.
  induction l as [|t l IH]; intros seen; [reflexivity|].
  cbn [dedup]. destruct (mem t seen) eqn:Et.
  - rewrite IH, mem_cons. destruct (streq c t) eqn:Ec; [|reflexivity].
    apply streq_eq in Ec. subst t. rewrite Et. cbn. now rewrite andb_false_r.
  - rewrite !mem_cons, IH, mem_cons. destruct (streq c t) eqn:Ec.
    + apply streq_eq in Ec. subst t. now rewrite Et.
    + reflexivity.
Qed.

Lemma forallb_rev (A : Type) (f : A -> bool) (l : list A) :
  forallb f (rev l) = forallb f l.
Proof.
  induction l as [|x l IH]; [reflexivity|].
  cbn [rev forallb]. rewrite forallb_app, IH. cbn. rewrite andb_true_r. apply andb_comm.
Qed.

Lemma split_ws_tokens (s : jsstring) :
  forall cur, forallb (fun c => negb (is_ascii_ws c)) cur = true ->
              Forall token_ok (split_ws cur s).
Proof.
  induction s as [|c s IH]; intros cur Hcur; cbn [split_ws].
  - destruct cur as [|x cur]; [constructor|].
    constructor; [|constructor]. split.
    + intros H. apply (f_equal (@List.length N)) in H.
      rewrite length_rev in H. discriminate.
    + now rewrite forallb_rev.
  - destruct (is_ascii_ws c) eqn:Ec.
    + destruct cur as [|x cur]; [now apply IH|].
      constructor; [|now apply IH]. split.
      * intros H. apply (f_equal (@List.length N)) in H.
        rewrite length_rev in H. discriminate.
      * now rewrite forallb_rev.
    + apply IH. cbn [forallb]. now rewrite Ec.
Qed.

Lemma dedup_Forall (P : jsstring -> Prop) (l : list jsstring) :
  Forall P l -> forall seen, Forall P (dedup seen l).
Proof.
  induction 1 as [|t l Ht _ IH]; intros seen; cbn [dedup]; [constructor|].
  destruct (mem t seen); [apply IH | constructor; [assumption | apply IH]].
Qed.

Lemma split_ws_word (x : jsstring) :
  forallb (fun c => negb (is_ascii_ws c)) x = true ->
  forall cur rest, split_ws cur (x ++ rest) = split_ws (rev x ++ cur) rest.
Proof.
  induction x as [|c x IH]; intros Hx cur rest; [reflexivity|].
  cbn [forallb] in Hx. apply andb_true_iff in Hx as [Hc Hx].
  cbn [app split_ws]. apply negb_true_iff in Hc. rewrite Hc.
  rewrite IH by assumption. cbn [rev]. now rewrite <- app_assoc.
Qed.

(** Splitting the serialisation of a token set gives the tokens back. *)
Lemma split_join (ts : list jsstring) :
  Forall token_ok ts -> split_ws [] (join [32%N] ts) = ts.
Proof.
  induction 1 as [|t ts [Hne Hws] Hts IH]; [reflexivity|].
  assert (Hrev : rev t <> []).
  { intros H. apply (f_equal (@List.length N)) in H. rewrite length_rev in H.
    destruct t; [contradiction | discriminate]. }
  destruct ts as [|t2 ts].
  - cbn [join]. rewrite <- (app_nil_r t) at 1. rewrite split_ws_word by assumption.
    rewrite app_nil_r. cbn [split_ws].
    destruct (rev t) eqn:E; [contradiction|]. rewrite <- E. now rewrite rev_involutive.
  - change (join [32%N] (t :: t2 :: ts)) with (t ++ [32%N] ++ join [32%N] (t2 :: ts)).
    rewrite split_ws_word by assumption. rewrite app_nil_r.
    cbn [app split_ws]. replace (is_ascii_ws 32) with true by reflexivity.
    destruct (rev t) eqn:E; [contradiction|]. rewrite <- E, rev_involutive.
    now rewrite IH.
Qed.

Lemma classList_tokens (e : elem) : Forall token_ok (classList e).
Proof.
  unfold classList. destruct (getAttribute e (lit "class")); [|constructor].
  apply dedup_Forall. now apply split_ws_tokens.
Qed.

(** Adding a token changes the membership of that token only. *)
Lemma classList_contains_add (token c : jsstring) (e : elem) :
  token_ok token ->
  classList_contains (classList_add token e) c
  = (classList_contains e c || streq c token)%bool.
Proof.
  intros Htok. unfold classList_contains, classList_add.
  set (ts := classList e).
  set (ts' := if mem token ts then ts else ts ++ [token]).
  assert (Hts' : Forall token_ok ts').
  { unfold ts'. destruct (mem token ts); [apply classList_tokens|].
    apply Forall_app. split; [apply classList_tokens | now constructor]. }
  unfold classList at 1. rewrite getAttribute_setAttribute, streq_refl.
  rewrite mem_dedup, split_join by assumption. cbn [mem existsb negb].
  rewrite andb_true_r. unfold ts'.
  destruct (mem token ts) eqn:Em.
  - destruct (streq c token) eqn:Ec; [|now rewrite orb_false_r].
    apply streq_eq in Ec. subst c. now rewrite Em.
  - rewrite mem_app, mem_cons. cbn [mem existsb]. now rewrite orb_false_r.
Qed.

Lemma classList_setAttribute (n v : jsstring) (e : elem) :
  streq n (lit "class") = false -> classList (setAttribute n v e) = classList e.
Proof.
  intros H. unfold classList. now rewrite getAttribute_setAttribute, H.
Qed.

Lemma same_shape_refl (e : elem) : same_shape e e.
Proof. unfold same_shape. tauto. Qed.

Lemma same_shape_trans (e1 e2 e3 : elem) :
  same_shape e1 e2 -> same_shape e2 e3 -> same_shape e1 e3.
Proof.
  intros (A1 & A2 & A3 & A4 & A5) (B1 & B2 & B3 & B4 & B5).
  repeat split.
  - congruence.
  - congruence.
  - intros c Hc. rewrite B3, A3 by assumption. reflexivity.
  - congruence.
  - auto.
Qed.

Lemma same_shape_setAttribute (n v : jsstring) (e : elem) :
  streq n (lit "class") = false -> streq n (lit "data-math") = false ->
  same_shape e (setAttribute n v e).
Proof.
  intros Hc Hd. repeat split.
  - intros c _. unfold classList_contains. now rewrite classList_setAttribute.
  - now rewrite hasAttribute_setAttribute, Hd.
  - intros H. rewrite hasAttribute_setAttribute, H. apply orb_true_r.
Qed.

Lemma same_shape_classList_add (token : jsstring) (e : elem) :
  token_ok token -> ~ In token structural_classes ->
  same_shape e (classList_add token e).
Proof.
  intros Htok Hnot. repeat split.
  - intros c Hc. rewrite classList_contains_add by assumption.
    rewrite (streq_neq (a := c) (b := token)); [apply orb_false_r|].
    intros ->. contradiction.
  - unfold classList_add. now rewrite hasAttribute_setAttribute.
  - unfold classList_add. intros H. rewrite hasAttribute_setAttribute, H. apply orb_true_r.
Qed.

Lemma same_shape_set_katexHtmlElement (p : path) (e : elem) :
  same_shape e (set_katexHtmlElement p e).
Proof. unfold same_shape. cbn. tauto. Qed.

End ClassLists.

(* ================================================================== *)
(** * Detection leaves the shape of the document alone *)

Section Evolution.

Lemma evolves_refl (doc : node) : evolves doc doc.
Proof.
  split; [reflexivity|]. intros p.
  destruct (get_elem doc p); [apply same_shape_refl | exact I].
Qed.

Lemma evolves_trans (d1 d2 d3 : node) :
  evolves d1 d2 -> evolves d2 d3 -> evolves d1 d3.
Proof.
  intros [E12 H12] [E23 H23]. split; [congruence|]. intros p.
  specialize (H12 p). specialize (H23 p).
  destruct (get_elem d1 p), (get_elem d2 p), (get_elem d3 p); try tauto.
  eapply same_shape_trans; eassumption.
Qed.

Lemma evolves_update (doc : node) (p : path) (f : elem -> elem) :
  (forall e, same_shape e (f e)) -> evolves doc (update doc p f).
Proof.
  intros Hf. split; [apply elements_update|]. intros q.
  rewrite get_elem_update. destruct (get_elem doc q) as [e|]; [|exact I].
  cbn [option_map]. destruct (path_eqb q p); [apply Hf | apply same_shape_refl].
Qed.

Lemma evolves_get_elem (doc doc' : node) (p : path) (e : elem) :
  evolves doc doc' -> get_elem doc p = Some e ->
  exists e', get_elem doc' p = Some e' /\ same_shape e e'.
Proof.
  intros [_ H] He. specialize (H p). rewrite He in H.
  destruct (get_elem doc' p) as [e'|]; [|contradiction]. now exists e'.
Qed.

Lemma evolves_get_elem_none (doc doc' : node) (p : path) :
  evolves doc doc' -> get_elem doc p = None -> get_elem doc' p = None.
Proof.
  intros [_ H] He. specialize (H p). rewrite He in H.
  now destruct (get_elem doc' p).
Qed.

Lemma is_processed_mono (doc doc' : node) (p : path) :
  evolves doc doc' -> is_processed doc p = true -> is_processed doc' p = true.
Proof.
  intros Hev. unfold is_processed.
  destruct (get_elem doc p) as [e|] eqn:He; [|discriminate].
  destruct (evolves_get_elem _ Hev He) as (e' & -> & Hs).
  apply Hs.
Qed.

Lemma matches_flat (doc : node) (p : path) (sel : selector) :
  Forall (fun cx : complex => List.length cx = 1) sel ->
  matches doc p sel =
  match get_elem doc p with
  | Some e => flat_match sel e
  | None => false
  end.
Proof.
  intros Hflat. unfold matches. destruct (get_elem doc p) as [e|] eqn:He.
  - destruct (rchain_of_elem _ _ He) as (anc & ->).
    unfold match_selector, flat_match.
    induction Hflat as [|cx sel Hcx _ IH]; [reflexivity|].
    cbn [existsb]. rewrite IH.
    destruct cx as [|c [|c2 cx]]; try discriminate.
    now rewrite match_complex_single.
  - now rewrite (rchain_none _ _ He).
Qed.

Lemma closest_ext (doc doc' : node) (p : path) (sel : selector) :
  (forall q, matches doc' q sel = matches doc q sel) ->
  closest doc' p sel = closest doc p sel.
Proof.
  intros H. unfold closest.
  induction (prefixes p) as [|q l IH]; [reflexivity|].
  cbn [find]. now rewrite H, IH.
Qed.

(** The selectors by which containers are resolved see the same thing
    in a document that evolved. *)
Lemma closest_stable (doc doc' : node) (p : path) (sel : selector) :
  evolves doc doc' ->
  Forall (fun cx : complex => List.length cx = 1) sel ->
  (forall e e', same_shape e e' -> flat_match sel e' = flat_match sel e) ->
  closest doc' p sel = closest doc p sel.
Proof.
  intros Hev Hflat Hsel. apply closest_ext. intros q.
  rewrite !matches_flat by assumption.
  destruct (get_elem doc q) as [e|] eqn:He.
  - destruct (evolves_get_elem _ Hev He) as (e' & -> & Hs). now apply Hsel.
  - now rewrite (evolves_get_elem_none _ Hev He).
Qed.

Lemma structural_class (c : string) :
  In (lit c) structural_classes ->
  forall e e', same_shape e e' ->
               flat_match (sel_class c) e' = flat_match (sel_class c) e.
Proof.
  intros Hin e e' (_ & _ & Hc & _). unfold flat_match, sel_class, match_compound.
  cbn [existsb forallb match_simple]. now rewrite (Hc _ Hin).
Qed.

Lemma structural_mathjax_any (e e' : elem) :
  same_shape e e' -> flat_match sel_mathjax_any e' = flat_match sel_mathjax_any e.
Proof.
  intros (_ & _ & Hc & _). unfold flat_match, sel_mathjax_any, match_compound.
  cbn [existsb forallb match_simple].
  rewrite (Hc (lit "MathJax")), (Hc (lit "mjx-chtml")), (Hc (lit "mjx-container"));
    [reflexivity| | |]; cbn; tauto.
Qed.

Lemma structural_math (e e' : elem) :
  same_shape e e' -> flat_match (sel_type "math") e' = flat_match (sel_type "math") e.
Proof.
  intros (_ & Hn & _). unfold flat_match, sel_type, match_compound.
  cbn [existsb forallb match_simple]. now rewrite Hn.
Qed.

Lemma flat_one (c : compound) : Forall (fun cx : complex => List.length cx = 1) [[c]].
Proof. now repeat constructor. Qed.

Lemma flat_mathjax_any :
  Forall (fun cx : complex => List.length cx = 1) sel_mathjax_any.
Proof. now repeat constructor. Qed.

Lemma findMathContainer_stable (doc doc' : node) (element : path) :
  evolves doc doc' -> findMathContainer doc' element = findMathContainer doc element.
Proof.
  intros Hev. unfold findMathContainer.
  destruct (get_elem doc element) as [e|] eqn:He.
  - destruct (evolves_get_elem _ Hev He) as (e' & -> & Hs).
    pose proof Hs as (Hns & Hname & Hc & _).
    rewrite (Hc (lit "katex-html")), (Hc (lit "katex")) by (cbn; tauto).
    rewrite (closest_stable (sel := sel_class "katex") element Hev (flat_one _)
               (@structural_class "katex" ltac:(cbn; tauto))).
    rewrite (closest_stable element Hev flat_mathjax_any structural_mathjax_any).
    rewrite (closest_stable (sel := sel_type "math") element Hev (flat_one _)
               structural_math).
    unfold tagName. now rewrite Hns, Hname.
  - now rewrite (evolves_get_elem_none _ Hev He).
Qed.

Lemma settled_stable (doc doc' : node) (element : path) :
  evolves doc doc' -> settled doc element = true -> settled doc' element = true.
Proof.
  intros Hev. unfold settled.
  rewrite (findMathContainer_stable element Hev).
  destruct (get_elem doc element) as [e|] eqn:He.
  - destruct (evolves_get_elem _ Hev He) as (e' & -> & Hs).
    intros H. apply orb_true_iff in H as [H|H].
    + apply orb_true_iff. left. now apply Hs.
    + apply orb_true_iff. right.
      destruct (findMathContainer doc element); [|reflexivity].
      now apply (is_processed_mono _ Hev).
  - now rewrite (evolves_get_elem_none _ Hev He).
Qed.

End Evolution.

(* ================================================================== *)
(** * One element of a batch *)

Section Detection.

Lemma token_MATH_COPY_ELEMENT : token_ok MATH_COPY_ELEMENT.
Proof. split; [discriminate | reflexivity]. Qed.

Lemma MATH_COPY_ELEMENT_not_structural : ~ In MATH_COPY_ELEMENT structural_classes.
Proof. cbn. intros [H|[H|[H|[H|[H|[]]]]]]; discriminate H. Qed.

Lemma evolves_update_attr (doc : node) (p : path) (n v : jsstring) :
  streq n (lit "class") = false -> streq n (lit "data-math") = false ->
  evolves doc (update doc p (setAttribute n v)).
Proof.
  intros H1 H2. apply evolves_update. intros e. now apply same_shape_setAttribute.
Qed.

(** What [setupEquation] does when it goes through. *)
Lemma attach_evolves (doc : node) (equation : path) :
  evolves doc
    (update (update (update (update doc equation (classList_add MATH_COPY_ELEMENT))
                            equation (setAttribute (lit "tabindex") (lit "0")))
                    equation (setAttribute (lit "role") (lit "button")))
            equation (setAttribute (lit "aria-label")
                                   (lit "Mathematical equation - click to copy"))).
Proof.
  eapply evolves_trans; [|now apply evolves_update_attr].
  eapply evolves_trans; [|now apply evolves_update_attr].
  eapply evolves_trans; [|now apply evolves_update_attr].
  apply evolves_update. intros e. apply same_shape_classList_add.
  - apply token_MATH_COPY_ELEMENT.
  - apply MATH_COPY_ELEMENT_not_structural.
Qed.

Lemma setupEquation_with_props (redirect : path -> State -> State) :
  (forall c st, evolves (document st) (document (redirect c st)) /\
                timers (redirect c st) = timers st) ->
  forall equation st,
    evolves (document st) (document (setupEquation_with redirect equation st)) /\
    timers (setupEquation_with redirect equation st) = timers st.
Proof.
  intros Hred equation st. unfold setupEquation_with.
  destruct (get_elem (document st) equation) as [e|];
    [|split; [apply evolves_refl | reflexivity]].
  destruct (classList_contains e MATH_COPY_ELEMENT);
    [split; [apply evolves_refl | reflexivity]|].
  destruct (match parentElement equation with
            | Some parent => has_class (document st) parent "math-copy-element"
            | None => false
            end);
    [split; [apply evolves_refl | reflexivity]|].
  destruct (classList_contains e (lit "katex")).
  - split; [apply attach_evolves | reflexivity].
  - destruct (classList_contains e (lit "katex-html")).
    + destruct (closest (document st) equation (sel_class "katex")) as [kc|];
        [|split; [apply evolves_refl | reflexivity]].
      destruct (path_eqb kc equation);
        [split; [apply evolves_refl | reflexivity] | apply Hred].
    + split; [apply attach_evolves | reflexivity].
Qed.

Lemma setupEquation_props (equation : path) (st : State) :
  evolves (document st) (document (setupEquation equation st)) /\
  timers (setupEquation equation st) = timers st.
Proof.
  unfold setupEquation. apply setupEquation_with_props.
  intros c st'. apply setupEquation_with_props.
  intros c' st''. split; [apply evolves_refl | reflexivity].
Qed.

Lemma evolves_mark (doc : node) (p : path) :
  evolves doc (update doc p (setAttribute PROCESSED (lit "true"))).
Proof. now apply evolves_update_attr. Qed.

Lemma is_processed_mark (doc : node) (p : path) (e : elem) :
  get_elem doc p = Some e ->
  is_processed (update doc p (setAttribute PROCESSED (lit "true"))) p = true.
Proof.
  intros He. unfold is_processed. rewrite get_elem_update, He, path_eqb_refl.
  cbn [option_map]. rewrite hasAttribute_setAttribute, streq_refl. reflexivity.
Qed.

Lemma closest_elem (doc : node) (p q : path) (sel : selector) :
  closest doc p sel = Some q -> exists e, get_elem doc q = Some e.
Proof.
  unfold closest. intros H. apply find_some in H as [_ H].
  unfold matches in H. destruct (get_elem doc q) as [e|] eqn:He; [now exists e|].
  now rewrite (rchain_none _ _ He) in H.
Qed.

Lemma findMathContainer_elem (doc : node) (element c : path) :
  findMathContainer doc element = Some c -> exists e, get_elem doc c = Some e.
Proof.
  unfold findMathContainer.
  destruct (get_elem doc element) as [e|] eqn:He; [|discriminate].
  destruct (classList_contains e (lit "katex-html")); [apply closest_elem|].
  destruct (classList_contains e (lit "katex")); [intros [= <-]; now exists e|].
  destruct (closest doc element sel_mathjax_any) as [m|] eqn:Em;
    [intros [= <-]; eapply closest_elem; eassumption|].
  destruct (streq (tagName e) (lit "MATH")); [intros [= <-]; now exists e|].
  destruct (closest doc element (sel_type "math")) as [m|] eqn:Emath;
    [intros [= <-]; eapply closest_elem; eassumption|].
  destruct (closest doc element (sel_class "katex")) as [k|] eqn:Ek;
    [intros [= <-]; eapply closest_elem; eassumption|].
  intros [= <-]. now exists e.
Qed.

Lemma findMathContainer_katex_html (doc : node) (element : path) (e : elem) :
  get_elem doc element = Some e ->
  classList_contains e (lit "katex-html") = true ->
  findMathContainer doc element = closest doc element (sel_class "katex").
Proof. intros He Hc. unfold findMathContainer. now rewrite He, Hc. Qed.

(** The body of the loop: either the element is settled and nothing
    happens, or its container is set up and marked. *)
Lemma process_element_cases (st : State) (element : path) :
  (settled (document st) element = true /\ process_element st element = st) \/
  exists e container,
    get_elem (document st) element = Some e /\
    hasAttribute e PROCESSED = false /\
    findMathContainer (document st) element = Some container /\
    is_processed (document st) container = false /\
    ((classList_contains e (lit "katex-html") = true /\
      process_element st element =
      remember element (remember container (mark_processed element
        (mark_processed container (setupEquation container
           (update_element container (set_katexHtmlElement element) st))))))
     \/
     (classList_contains e (lit "katex-html") = false /\
      process_element st element =
      remember container (mark_processed container (setupEquation container st)))).
Proof.
  unfold process_element, settled.
  destruct (get_elem (document st) element) as [e|] eqn:He; [|now left].
  destruct (classList_contains e (lit "katex-html")) eqn:Hk.
  - destruct (hasAttribute e PROCESSED) eqn:Hp; [now left|].
    rewrite <- (@findMathContainer_katex_html _ _ _ He Hk).
    destruct (findMathContainer (document st) element) as [kc|] eqn:Hc; [|now left].
    destruct (is_processed (document st) kc) eqn:Hkc; [now left|].
    right. exists e, kc. repeat split; try assumption. left. now split.
  - destruct (hasAttribute e PROCESSED) eqn:Hp; [now left|].
    destruct (findMathContainer (document st) element) as [c|] eqn:Hc; [|now left].
    destruct (is_processed (document st) c) eqn:Hpc; [now left|].
    right. exists e, c. repeat split; try assumption. right. now split.
Qed.

Lemma process_element_props (st : State) (element : path) :
  evolves (document st) (document (process_element st element)) /\
  timers (process_element st element) = timers st.
Proof.
  destruct (process_element_cases st element)
    as [[_ ->] | (e & c & He & Hp & Hc & Hpc & [[Hk ->] | [Hk ->]])].
  - split; [apply evolves_refl | reflexivity].
  - cbn [document timers remember mark_processed update_element
         with_processedElements with_document].
    destruct (setupEquation_props c
                (update_element c (set_katexHtmlElement element) st)) as [Hev Ht].
    rewrite Ht. split; [|reflexivity].
    eapply evolves_trans; [|apply evolves_mark].
    eapply evolves_trans; [|apply evolves_mark].
    eapply evolves_trans; [|exact Hev].
    apply evolves_update. intros x. apply same_shape_set_katexHtmlElement.
  - cbn [document timers remember mark_processed update_element
         with_processedElements with_document].
    destruct (setupEquation_props c st) as [Hev Ht].
    rewrite Ht. split; [|reflexivity].
    eapply evolves_trans; [|apply evolves_mark]. exact Hev.
Qed.

(** The guard: a settled element is passed over. *)
Lemma settled_noop (st : State) (element : path) :
  settled (document st) element = true -> process_element st element = st.
Proof.
  intros Hs.
  destruct (process_element_cases st element)
    as [[_ H] | (e & c & He & Hp & Hc & Hpc & _)]; [exact H|].
  unfold settled in Hs. rewrite He, Hp, Hc, Hpc in Hs. discriminate.
Qed.

(** Once a container is marked, the element that resolves to it is
    settled in every later document. *)
Lemma settled_by_container (doc doc' : node) (element c : path) (e : elem) :
  evolves doc doc' ->
  get_elem doc element = Some e ->
  findMathContainer doc element = Some c ->
  is_processed doc' c = true ->
  settled doc' element = true.
Proof.
  intros Hev He Hc Hpc. unfold settled.
  rewrite (@findMathContainer_stable _ _ element Hev), Hc, Hpc.
  destruct (@evolves_get_elem _ _ _ _ Hev He) as (e' & -> & _). apply orb_true_r.
Qed.

(** After its turn an element is settled. *)
Lemma settled_after (st : State) (element : path) :
  settled (document (process_element st element)) element = true.
Proof.
  destruct (process_element_props st element) as [Hev _].
  destruct (process_element_cases st element)
    as [[Hs H] | (e & c & He & Hp & Hc & Hpc & Hcase)].
  - now rewrite H.
  - apply (@settled_by_container _ _ _ _ _ Hev He Hc).
    destruct (@findMathContainer_elem _ _ _ Hc) as (ec & Hec).
    destruct Hcase as [[Hk ->] | [Hk ->]];
      cbn [document remember mark_processed update_element
           with_processedElements with_document].
    + apply (@is_processed_mono (update
               (document (setupEquation c
                  (update_element c (set_katexHtmlElement element) st)))
               c (setAttribute PROCESSED (lit "true"))) _ _); [apply evolves_mark|].
      destruct (setupEquation_props c
                  (update_element c (set_katexHtmlElement element) st)) as [Hev1 _].
      assert (Hev0 : evolves (document st)
                       (document (update_element c (set_katexHtmlElement element) st))).
      { apply evolves_update. intros x. apply same_shape_set_katexHtmlElement. }
      destruct (@evolves_get_elem _ _ _ _ (evolves_trans Hev0 Hev1) Hec) as (ec' & Hec' & _).
      now apply (@is_processed_mark _ _ _ Hec').
    + destruct (setupEquation_props c st) as [Hev1 _].
      destruct (@evolves_get_elem _ _ _ _ Hev1 Hec) as (ec' & Hec' & _).
      now apply (@is_processed_mark _ _ _ Hec').
Qed.

End Detection.

(* ================================================================== *)
(** * Batches *)

Section Batches.

Lemma fold_process_props (l : list path) :
  forall st,
    evolves (document st) (document (fold_left process_element l st)) /\
    timers (fold_left process_element l st) = timers st /\
    (forall q, In q l -> settled (document (fold_left process_element l st)) q = true).
Proof.
  induction l as [|x l IH]; intros st; cbn [fold_left].
  - split; [apply evolves_refl|]. split; [reflexivity|]. intros q [].
  - destruct (IH (process_element st x)) as (Hev & Ht & Hs).
    destruct (process_element_props st x) as [Hev1 Ht1].
    split; [eapply evolves_trans; eassumption|].
    split; [congruence|].
    intros q [<- | Hq]; [|now apply Hs].
    apply (@settled_stable _ _ x Hev). apply settled_after.
Qed.

Lemma fold_process_noop (l : list path) (st : State) :
  (forall q, In q l -> settled (document st) q = true) ->
  fold_left process_element l st = st.
Proof.
  induction l as [|x l IH]; intros H; [reflexivity|].
  cbn [fold_left]. rewrite settled_noop by (apply H; now left).
  apply IH. intros q Hq. apply H. now right.
Qed.

Lemma with_timers_id (st : State) : with_timers (timers st) st = st.
Proof. now destruct st. Qed.

Lemma with_timers_twice (a b : list (nat * task)) (st : State) :
  with_timers a (with_timers b st) = with_timers a st.
Proof. reflexivity. Qed.

Lemma skipn_split_batch (els : list path) (i e : nat) :
  i <= e -> skipn i els = slice els i e ++ skipn e els.
Proof.
  intros Hle. unfold slice.
  rewrite <- (firstn_skipn (e - i) (skipn i els)) at 1.
  f_equal. rewrite skipn_skipn. f_equal. lia.
Qed.

Lemma processBatch_timers (els : list path) (i b : nat) (st : State) :
  timers (processBatch els i b st) = timers st ++ batch_tail els i b.
Proof.
  unfold processBatch, batch_tail. fold (batch_end els i b).
  destruct (Nat.leb (List.length els) i); [now rewrite app_nil_r|].
  destruct (fold_process_props (slice els i (batch_end els i b)) st) as (_ & Ht & _).
  destruct (Nat.ltb (batch_end els i b) (List.length els)).
  - cbn [timers setTimeout with_timers]. now rewrite Ht.
  - now rewrite Ht, app_nil_r.
Qed.

Lemma processBatch_evolves (els : list path) (i b : nat) (st : State) :
  evolves (document st) (document (processBatch els i b st)).
Proof.
  unfold processBatch. fold (batch_end els i b).
  destruct (Nat.leb (List.length els) i); [apply evolves_refl|].
  destruct (fold_process_props (slice els i (batch_end els i b)) st) as (Hev & _ & _).
  now destruct (Nat.ltb (batch_end els i b) (List.length els)).
Qed.

(** Every element from [i] on is settled by the batch or waits in the
    timer it leaves. *)
Lemma processBatch_covers (els : list path) (i b : nat) (st : State) :
  0 < b ->
  forall q, In q (skipn i els) -> covered (processBatch els i b st) q.
Proof.
  intros Hb q Hq. unfold covered. rewrite processBatch_timers.
  unfold processBatch, batch_tail. fold (batch_end els i b).
  destruct (Nat.leb (List.length els) i) eqn:Hleb.
  - apply Nat.leb_le in Hleb. rewrite skipn_all2 in Hq by assumption. destruct Hq.
  - apply Nat.leb_gt in Hleb.
    assert (Hie : i <= batch_end els i b) by (unfold batch_end; lia).
    rewrite (skipn_split_batch els Hie) in Hq. apply in_app_or in Hq.
    destruct (fold_process_props (slice els i (batch_end els i b)) st) as (_ & _ & Hs).
    destruct (Nat.ltb (batch_end els i b) (List.length els)) eqn:Hlt.
    + destruct Hq as [Hq | Hq].
      * left. cbn [document setTimeout with_timers]. now apply Hs.
      * right. exists 0, els, (batch_end els i b), b. split; [|assumption].
        apply in_or_app. right. now left.
    + destruct Hq as [Hq | Hq].
      * left. now apply Hs.
      * apply Nat.ltb_ge in Hlt. rewrite skipn_all2 in Hq by assumption. destruct Hq.
Qed.

Lemma batch_tail_wf (els : list path) (i b : nat) :
  0 < b -> wf_timers (batch_tail els i b).
Proof.
  intros Hb d els' i' b' Hin. unfold batch_tail in Hin.
  destruct (Nat.leb (List.length els) i); [destruct Hin|].
  destruct (Nat.ltb (batch_end els i b) (List.length els)) eqn:Hlt; [|destruct Hin].
  destruct Hin as [[= <- <- <- <-] | []]. apply Nat.ltb_lt in Hlt. now split.
Qed.

Lemma wf_timers_app (a b : list (nat * task)) :
  wf_timers a -> wf_timers b -> wf_timers (a ++ b).
Proof.
  intros Ha Hb d els i n Hin. apply in_app_or in Hin as [Hin|Hin]; eauto.
Qed.

Lemma covered_stable (st st' : State) (q : path) :
  evolves (document st) (document st') ->
  (forall x, In x (timers st) -> In x (timers st')) ->
  covered st q -> covered st' q.
Proof.
  intros Hev Hin [Hs | (d & els & i & b & Ht & Hq)].
  - left. now apply (@settled_stable _ _ q Hev).
  - right. exists d, els, i, b. split; [now apply Hin | assumption].
Qed.

Lemma pending_work_app (a b : list (nat * task)) :
  pending_work (a ++ b) = pending_work a + pending_work b.
Proof.
  induction a as [|[d [els i n | el tok]] a IH]; cbn [app pending_work];
    [reflexivity | rewrite IH; lia | exact IH].
Qed.

Lemma batch_tail_work (els : list path) (i b : nat) :
  i < List.length els -> 0 < b ->
  pending_work (batch_tail els i b) < List.length els - i.
Proof.
  intros Hi Hb. unfold batch_tail.
  destruct (Nat.leb (List.length els) i) eqn:Hleb; [apply Nat.leb_le in Hleb; lia|].
  destruct (Nat.ltb (batch_end els i b) (List.length els)) eqn:Hlt; cbn [pending_work].
  - apply Nat.ltb_lt in Hlt. unfold batch_end in *. lia.
  - lia.
Qed.

End Batches.

(* ================================================================== *)
(** * The timer queue *)

Section Timers.

Lemma next_batch_some (ts : list (nat * task)) :
  forall els i b q',
    next_batch ts = Some (els, i, b, q') ->
    exists d,
      In (d, BatchTask els i b) ts /\
      (forall x, In x q' -> In x ts) /\
      (forall x, In x ts -> x = (d, BatchTask els i b) \/ In x q') /\
      pending_work ts = (List.length els - i) + pending_work q' /\
      strip_batches q' = strip_batches ts.
Proof.
  induction ts as [|[d [els0 i0 b0 | el tok]] ts IH]; intros els i b q' H;
    cbn [next_batch] in H.
  - discriminate.
  - injection H as <- <- <- <-. exists d. repeat split.
    + now left.
    + intros x Hx. now right.
    + intros x [<- | Hx]; [now left | now right].
  - destruct (next_batch ts) as [[[[els1 i1] b1] q1]|]; [|discriminate].
    injection H as <- <- <- <-.
    destruct (IH els1 i1 b1 q1 eq_refl) as (d' & Hin & Hsub & Hsup & Hw & Hstrip).
    exists d'. repeat split.
    + now right.
    + intros x [<- | Hx]; [now left | right; now apply Hsub].
    + intros x [<- | Hx]; [right; now left|].
      destruct (Hsup x Hx) as [-> | Hq]; [now left | right; now right].
    + exact Hw.
    + unfold strip_batches in *. cbn [filter is_batch snd negb]. now rewrite Hstrip.
Qed.

Lemma next_batch_none (ts : list (nat * task)) :
  next_batch ts = None ->
  (forall d els i b, ~ In (d, BatchTask els i b) ts) /\ strip_batches ts = ts.
Proof.
  induction ts as [|[d [els0 i0 b0 | el tok]] ts IH]; intros H; cbn [next_batch] in H.
  - split; [intros d els i b [] | reflexivity].
  - discriminate.
  - destruct (next_batch ts) as [[[[els1 i1] b1] q1]|]; [discriminate|].
    destruct (IH eq_refl) as [Hno Hstrip]. split.
    + intros d' els i b [Heq | Hin]; [discriminate | now apply (Hno d' els i b)].
    + unfold strip_batches in *. cbn [filter is_batch snd negb]. now rewrite Hstrip.
Qed.

Lemma no_work_no_batch (ts : list (nat * task)) :
  wf_timers ts -> pending_work ts = 0 -> next_batch ts = None.
Proof.
  intros Hwf Hw. destruct (next_batch ts) as [[[[els i] b] q']|] eqn:E; [|reflexivity].
  destruct (next_batch_some _ E) as (d & Hin & _ & _ & Hwork & _).
  destruct (Hwf _ _ _ _ Hin) as [Hi _]. lia.
Qed.

Lemma no_batch_settled (st : State) (q : path) :
  next_batch (timers st) = None -> covered st q -> settled (document st) q = true.
Proof.
  intros Hn [Hs | (d & els & i & b & Hin & _)]; [exact Hs|].
  destruct (next_batch_none _ Hn) as [Hno _]. now apply Hno in Hin.
Qed.

(** Firing the pending batches keeps what was covered covered, and with
    enough fuel leaves no batch behind. *)
Lemma run_batches_props (fuel : nat) :
  forall st,
    wf_timers (timers st) ->
    evolves (document st) (document (run_batches fuel st)) /\
    (forall q, covered st q -> covered (run_batches fuel st) q) /\
    (pending_work (timers st) <= fuel -> next_batch (timers (run_batches fuel st)) = None).
Proof.
  induction fuel as [|fuel IH]; intros st Hwf; cbn [run_batches].
  - split; [apply evolves_refl|]. split; [auto|].
    intros Hw. apply no_work_no_batch; [assumption | lia].
  - destruct (next_batch (timers st)) as [[[[els i] b] q']|] eqn:E.
    + destruct (next_batch_some _ E) as (d & Hin & Hsub & Hsup & Hwork & _).
      destruct (Hwf _ _ _ _ Hin) as [Hi Hb].
      set (st1 := with_timers q' st).
      set (st2 := processBatch els i b st1).
      assert (Ht2 : timers st2 = q' ++ batch_tail els i b)
        by (unfold st2; now rewrite processBatch_timers).
      assert (Hev2 : evolves (document st) (document st2))
        by (unfold st2; apply (processBatch_evolves els i b st1)).
      assert (Hwf2 : wf_timers (timers st2)).
      { rewrite Ht2. apply wf_timers_app; [|now apply batch_tail_wf].
        intros d' els' i' b' Hx. apply (Hwf d'). now apply Hsub. }
      destruct (IH st2 Hwf2) as (Hev & Hcov & Hdone).
      split; [eapply evolves_trans; eassumption|]. split.
      * intros q Hq. apply Hcov.
        destruct Hq as [Hs | (d' & els' & i' & b' & Hx & Hq)].
        -- left. now apply (@settled_stable _ _ q Hev2).
        -- destruct (Hsup _ Hx) as [Heq | Hx'].
           ++ injection Heq as -> -> -> ->.
              unfold st2. now apply processBatch_covers.
           ++ right. exists d', els', i', b'. split; [|assumption].
              rewrite Ht2. apply in_or_app. now left.
      * intros Hw. apply Hdone. rewrite Ht2, pending_work_app.
        pose proof (batch_tail_work els Hi Hb). lia.
    + split; [apply evolves_refl|]. split; auto.
Qed.

End Timers.

(* ================================================================== *)
(** * The scan *)

Section Scan.

Lemma query_mono (doc doc' : node) (s : simple) (q : path) :
  evolves doc doc' -> structural_simple s ->
  In q (document_querySelectorAll doc' (unprocessed s)) ->
  In q (document_querySelectorAll doc (unprocessed s)).
Proof.
  intros Hev Hs. unfold document_querySelectorAll, all_elements.
  rewrite !filter_In. destruct Hev as [Hel Hpt]. rewrite Hel.
  intros [Hin Hm]. split; [assumption|].
  unfold unprocessed in *. rewrite matches_single in *.
  specialize (Hpt q).
  destruct (get_elem doc q) as [e|], (get_elem doc' q) as [e'|];
    try contradiction; try discriminate.
  unfold match_compound in *. cbn [forallb match_simple] in *.
  rewrite (Hs _ _ Hpt) in Hm.
  apply andb_true_iff in Hm as [Hm1 Hm2]. rewrite Hm1. cbn [andb].
  destruct (hasAttribute e PROCESSED) eqn:Hp; [|reflexivity].
  destruct Hpt as (_ & _ & _ & _ & Hmono). now rewrite (Hmono Hp) in Hm2.
Qed.

Lemma scan_selectors_structural (sel : selector) :
  In sel scan_selectors -> exists s, sel = unprocessed s /\ structural_simple s.
Proof.
  unfold scan_selectors, otherSelectors.
  intros [<- | [<- | [<- | [<- | [<- | [<- | []]]]]]]; eexists; (split; [reflexivity|]);
    intros e e' (Hns & Hname & Hc & Hd & _); cbn [match_simple].
  - apply Hc. cbn. tauto.
  - apply Hc. cbn. tauto.
  - apply Hc. cbn. tauto.
  - apply Hc. cbn. tauto.
  - now rewrite Hname.
  - exact Hd.
Qed.

Lemma scan_selector_props (st : State) (sel : selector) :
  evolves (document st) (document (scan_selector st sel)) /\
  (exists tail, timers (scan_selector st sel) = timers st ++ tail /\ wf_timers tail) /\
  (forall q, In q (document_querySelectorAll (document st) sel) ->
             covered (scan_selector st sel) q).
Proof.
  unfold scan_selector.
  destruct (document_querySelectorAll (document st) sel) as [|x l] eqn:E.
  - split; [apply evolves_refl|]. split; [|intros q []].
    exists []. split; [now rewrite app_nil_r | intros d els i b []].
  - split; [apply processBatch_evolves|]. split.
    + eexists. split; [apply processBatch_timers|].
      apply batch_tail_wf. unfold BATCH_SIZE. lia.
    + intros q Hq. apply processBatch_covers; [unfold BATCH_SIZE; lia | exact Hq].
Qed.

Lemma fold_scan_props (sels : list selector) :
  forall st,
    wf_timers (timers st) ->
    let st' := fold_left scan_selector sels st in
    evolves (document st) (document st') /\
    (forall x, In x (timers st) -> In x (timers st')) /\
    wf_timers (timers st') /\
    (forall sel, In sel sels ->
       exists doc, evolves doc (document st') /\
                   forall q, In q (document_querySelectorAll doc sel) -> covered st' q).
Proof.
  induction sels as [|sel sels IH]; intros st Hwf; cbn [fold_left].
  - split; [apply evolves_refl|]. split; [auto|]. split; [assumption|]. intros sel [].
  - destruct (scan_selector_props st sel) as (Hev1 & (tail & Ht1 & Hwt) & Hcov1).
    assert (Hwf1 : wf_timers (timers (scan_selector st sel)))
      by (rewrite Ht1; now apply wf_timers_app).
    destruct (IH (scan_selector st sel) Hwf1) as (Hev & Hsub & Hwf' & Hall).
    split; [eapply evolves_trans; eassumption|]. split.
    { intros x Hx. apply Hsub. rewrite Ht1. apply in_or_app. now left. }
    split; [assumption|].
    intros sel' [<- | Hin]; [|now apply Hall].
    exists (document st). split; [eapply evolves_trans; eassumption|].
    intros q Hq. eapply covered_stable; [exact Hev | exact Hsub | now apply Hcov1].
Qed.

Lemma processExistingEquations_fold (st : State) :
  processExistingEquations st = fold_left scan_selector scan_selectors st.
Proof. reflexivity. Qed.

(** After a scan with all its batches no batch is pending and every
    element the scan's selectors still find is settled. *)
Lemma scan_settles (st : State) :
  wf_timers (timers st) ->
  next_batch (timers (scan st)) = None /\
  forall sel q, In sel scan_selectors ->
                In q (document_querySelectorAll (document (scan st)) sel) ->
                settled (document (scan st)) q = true.
Proof.
  intros Hwf. unfold scan. rewrite processExistingEquations_fold.
  destruct (fold_scan_props scan_selectors st Hwf) as (Hev & _ & Hwf' & Hall).
  set (st6 := fold_left scan_selector scan_selectors st) in *.
  destruct (run_batches_props (pending_work (timers st6)) st6 Hwf')
    as (Hev' & Hcov & Hdone).
  specialize (Hdone (Nat.le_refl _)).
  split; [exact Hdone|].
  intros sel q Hsel Hq.
  apply no_batch_settled; [exact Hdone|]. apply Hcov.
  destruct (Hall sel Hsel) as (doc & Hdoc & Hcover).
  apply Hcover.
  destruct (@scan_selectors_structural _ Hsel) as (s & -> & Hs).
  eapply query_mono; [|exact Hs | exact Hq].
  eapply evolves_trans; eassumption.
Qed.

Lemma In_firstn (A : Type) (x : A) (n : nat) (l : list A) :
  In x (firstn n l) -> In x l.
Proof.
  revert l; induction n as [|n IH]; intros l H.
  - destruct l; destruct H.
  - destruct l as [|y l]; [destruct H|].
    destruct H as [H|H]; [now left | right; now apply IH].
Qed.

Lemma In_skipn (A : Type) (x : A) (n : nat) (l : list A) :
  In x (skipn n l) -> In x l.
Proof.
  revert l; induction n as [|n IH]; intros l H; [assumption|].
  destruct l as [|y l]; [destruct H|]. right. now apply IH.
Qed.

Lemma processBatch_quiet (els : list path) (i b : nat) (st : State) :
  (forall q, In q els -> settled (document st) q = true) ->
  processBatch els i b st = with_timers (timers st ++ batch_tail els i b) st.
Proof.
  intros Hs. unfold processBatch, batch_tail. fold (batch_end els i b).
  destruct (Nat.leb (List.length els) i);
    [now rewrite app_nil_r, with_timers_id|].
  rewrite fold_process_noop.
  - destruct (Nat.ltb (batch_end els i b) (List.length els)); [reflexivity|].
    now rewrite app_nil_r, with_timers_id.
  - intros q Hq. apply Hs. unfold slice in Hq.
    apply In_firstn in Hq. now apply In_skipn in Hq.
Qed.

Lemma batch_tail_quiet (doc : node) (els : list path) (i b : nat) :
  0 < b -> (forall q, In q els -> settled doc q = true) ->
  quiet doc (batch_tail els i b) /\
  Forall (fun x => is_batch x = true) (batch_tail els i b).
Proof.
  intros Hb Hs. unfold batch_tail.
  destruct (Nat.leb (List.length els) i);
    [split; [intros d els' i' b' [] | constructor]|].
  destruct (Nat.ltb (batch_end els i b) (List.length els)) eqn:Hlt;
    [|split; [intros d els' i' b' [] | constructor]].
  apply Nat.ltb_lt in Hlt. split.
  - intros d els' i' b' [[= <- <- <- <-] | []]. now repeat split.
  - now repeat constructor.
Qed.

Lemma quiet_app (doc : node) (a b : list (nat * task)) :
  quiet doc a -> quiet doc b -> quiet doc (a ++ b).
Proof.
  intros Ha Hb d els i n Hin. apply in_app_or in Hin as [Hin|Hin]; eauto.
Qed.

(** On a page where all that the selectors find is settled, the queries
    of a scan only leave timers behind, for batches that will do
    nothing. *)
Lemma fold_scan_quiet (sels : list selector) :
  forall st,
    (forall sel q, In sel sels ->
                   In q (document_querySelectorAll (document st) sel) ->
                   settled (document st) q = true) ->
    exists T,
      fold_left scan_selector sels st = with_timers (timers st ++ T) st /\
      Forall (fun x => is_batch x = true) T /\
      quiet (document st) T.
Proof.
  induction sels as [|sel sels IH]; intros st Hs; cbn [fold_left].
  - exists []. rewrite app_nil_r, with_timers_id.
    split; [reflexivity|]. split; [constructor | intros d els i b []].
  - assert (Hstep : exists T1,
               scan_selector st sel = with_timers (timers st ++ T1) st /\
               Forall (fun x => is_batch x = true) T1 /\ quiet (document st) T1).
    { unfold scan_selector.
      destruct (document_querySelectorAll (document st) sel) as [|x l] eqn:E.
      - exists []. rewrite app_nil_r, with_timers_id.
        split; [reflexivity|]. split; [constructor | intros d els i b []].
      - assert (Hall : forall q, In q (x :: l) -> settled (document st) q = true).
        { intros q Hq. apply (Hs sel q); [now left | now rewrite E]. }
        exists (batch_tail (x :: l) 0 BATCH_SIZE).
        split; [now apply processBatch_quiet|].
        assert (Hb : 0 < BATCH_SIZE) by (unfold BATCH_SIZE; lia).
        destruct (@batch_tail_quiet (document st) (x :: l) 0 BATCH_SIZE Hb Hall) as [Hq Hf].
        now split. }
    destruct Hstep as (T1 & -> & Hb1 & Hq1).
    destruct (IH (with_timers (timers st ++ T1) st)) as (T2 & -> & Hb2 & Hq2).
    { intros sel' q Hin Hq. apply (Hs sel' q); [now right | exact Hq]. }
    exists (T1 ++ T2). cbn [timers with_timers]. rewrite with_timers_twice, app_assoc.
    split; [reflexivity|]. split; [now apply Forall_app | now apply quiet_app].
Qed.

Lemma strip_batches_app (a b : list (nat * task)) :
  strip_batches (a ++ b) = strip_batches a ++ strip_batches b.
Proof. apply filter_app. Qed.

Lemma strip_all_batches (T : list (nat * task)) :
  Forall (fun x => is_batch x = true) T -> strip_batches T = [].
Proof.
  induction 1 as [|x T Hx _ IH]; [reflexivity|].
  unfold strip_batches in *. cbn [filter]. now rewrite Hx.
Qed.

(** Batches over settled elements only go away. *)
Lemma run_quiet (fuel : nat) :
  forall st,
    quiet (document st) (timers st) ->
    pending_work (timers st) <= fuel ->
    run_batches fuel st = with_timers (strip_batches (timers st)) st.
Proof.
  induction fuel as [|fuel IH]; intros st Hq Hw.
  - assert (Hwf : wf_timers (timers st)).
    { intros d els i b Hin. now destruct (Hq _ _ _ _ Hin) as (_ & Hi & Hb). }
    assert (Hn : next_batch (timers st) = None)
      by (apply no_work_no_batch; [assumption | lia]).
    destruct (next_batch_none _ Hn) as [_ ->]. now rewrite with_timers_id.
  - cbn [run_batches].
    destruct (next_batch (timers st)) as [[[[els i] b] q']|] eqn:E.
    + destruct (next_batch_some _ E) as (d & Hin & Hsub & _ & Hwork & Hstrip).
      destruct (Hq _ _ _ _ Hin) as (Hs & Hi & Hb).
      rewrite processBatch_quiet by exact Hs.
      cbn [timers with_timers]. rewrite with_timers_twice.
      destruct (@batch_tail_quiet (document st) els i b Hb Hs) as [Hqt Hbt].
      rewrite IH.
      * cbn [timers with_timers]. rewrite with_timers_twice, strip_batches_app.
        rewrite (strip_all_batches Hbt), app_nil_r. now rewrite Hstrip.
      * cbn [document timers with_timers]. apply quiet_app; [|exact Hqt].
        intros d' els' i' b' Hx. apply (Hq d'). now apply Hsub.
      * cbn [timers with_timers]. rewrite pending_work_app.
        pose proof (batch_tail_work els Hi Hb). lia.
    + destruct (next_batch_none _ E) as [_ ->]. now rewrite with_timers_id.
Qed.

(** A scan of a page on which nothing is pending and everything found
    is settled changes nothing. *)
Lemma scan_fixed (st : State) :
  next_batch (timers st) = None ->
  (forall sel q, In sel scan_selectors ->
                 In q (document_querySelectorAll (document st) sel) ->
                 settled (document st) q = true) ->
  scan st = st.
Proof.
  intros Hn Hs. unfold scan. rewrite processExistingEquations_fold.
  destruct (fold_scan_quiet scan_selectors st Hs) as (T & -> & Hb & Hq).
  destruct (next_batch_none _ Hn) as [Hno Hstrip].
  rewrite run_quiet.
  - cbn [timers with_timers]. rewrite with_timers_twice, strip_batches_app, Hstrip.
    rewrite (strip_all_batches Hb), app_nil_r. apply with_timers_id.
  - cbn [document timers with_timers]. apply quiet_app; [|exact Hq].
    intros d els i b Hin. now apply Hno in Hin.
  - apply Nat.le_refl.
Qed.

End Scan.

(** C8.  An element that is marked processed, or whose resolved
    container is marked processed, is passed over by the batch loop: the
    state stays as it is, so nothing is set up or tagged.  And a scan,
    taken with all the batches it starts, is idempotent: scanning again
    right after it changes nothing, whatever the document. *)
Theorem C8_scan_idempotent :
  (forall st element,
      is_processed (document st) element = true \/
      (exists container,
          findMathContainer (document st) element = Some container /\
          is_processed (document st) container = true) ->
      process_element st element = st) /\
  (forall st, wf_timers (timers st) -> scan (scan st) = scan st).
Proof.
  split.
  - intros st element H. apply settled_noop. unfold settled.
    destruct H as [H | (c & Hc & Hp)].
    + unfold is_processed in H.
      destruct (get_elem (document st) element); [now rewrite H | reflexivity].
    + rewrite Hc, Hp. destruct (get_elem (document st) element); [|reflexivity].
      apply orb_true_r.
  - intros st Hwf. destruct (@scan_settles st Hwf) as [Hn Hs].
    apply scan_fixed; assumption.
Qed.

Lemma C8_scan_idempotent_witness :
  is_processed (document (scan (initial_state katex_page))) [0; 0] = true /\
  process_element (scan (initial_state katex_page)) [0; 0]
  = scan (initial_state katex_page) /\
  scan (scan (initial_state katex_page)) = scan (initial_state katex_page).
Proof.
  destruct C8_scan_idempotent as [Hguard Hscan].
  assert (Hp : is_processed (document (scan (initial_state katex_page))) [0; 0] = true)
    by (vm_compute; reflexivity).
  split; [exact Hp|]. split.
  - apply Hguard. left. exact Hp.
  - apply Hscan. intros d els i b [].
Defined.

(* ================================================================== *)
(** * Trimmed strings *)

Section Trimmed.

Lemma trimStart_cons_keep (c : N) (s : jsstring) :
  is_ws c = false -> trimStart (c :: s) = c :: s.
Proof. intros H. cbn [trimStart]. now rewrite H. Qed.

Lemma trimStart_head (s : jsstring) :
  trimStart s = [] \/ exists c t, trimStart s = c :: t /\ is_ws c = false.
Proof.
  induction s as [|c s IH]; [now left|].
  cbn [trimStart]. destruct (is_ws c) eqn:E; [exact IH|].
  right. now exists c, s.
Qed.

Lemma trimEnd_cons_keep (c : N) (s : jsstring) :
  is_ws c = false -> exists t, trimEnd (c :: s) = c :: t.
Proof.
  intros H. cbn [trimEnd]. destruct (trimEnd s) as [|x t].
  - rewrite H. now exists [].
  - now exists (x :: t).
Qed.

Lemma trimEnd_idem (s : jsstring) : trimEnd (trimEnd s) = trimEnd s.
Proof.
  induction s as [|c s IH]; [reflexivity|].
  cbn [trimEnd]. destruct (trimEnd s) as [|x t] eqn:E.
  - destruct (is_ws c) eqn:W; [reflexivity|]. cbn [trimEnd]. now rewrite W.
  - cbn [trimEnd] in *. cbn [trimEnd]. rewrite IH. reflexivity.
Qed.

Lemma trim_idem (s : jsstring) : trim (trim s) = trim s.
Proof.
  unfold trim. destruct (trimStart_head s) as [-> | (c & t & -> & W)]; [reflexivity|].
  destruct (@trimEnd_cons_keep c t W) as [u Hu]. rewrite Hu.
  rewrite (@trimStart_cons_keep c u W). rewrite <- Hu. apply trimEnd_idem.
Qed.

Lemma trimEnd_app (a b : jsstring) :
  trimEnd (a ++ b) = match trimEnd b with
                     | [] => trimEnd a
                     | t => a ++ t
                     end.
Proof.
  induction a as [|c a IH]; cbn [app].
  - now destruct (trimEnd b).
  - cbn [trimEnd]. rewrite IH. destruct (trimEnd b) as [|x t]; [reflexivity|].
    destruct a; reflexivity.
Qed.

Lemma trimEnd_app_fixed (a b : jsstring) :
  b <> [] -> trimEnd b = b -> trimEnd (a ++ b) = a ++ b.
Proof.
  intros Hb E. rewrite trimEnd_app, E. destruct b; [contradiction|reflexivity].
Qed.

(** Replacing a trimmed string's prefix by another one that does not
    end in whitespace keeps it trimmed at the end. *)
Lemma trimEnd_swap_prefix (a a' rest : jsstring) :
  trimEnd a' = a' -> a' <> [] ->
  trimEnd (a ++ rest) = a ++ rest -> trimEnd (a' ++ rest) = a' ++ rest.
Proof.
  intros Ha' Hne H. rewrite trimEnd_app in *.
  destruct (trimEnd rest) as [|x t] eqn:E.
  - assert (rest = []).
    { apply (f_equal (@List.length N)) in H. rewrite length_app in H.
      pose proof (trimEnd_shrinks a) as [Hl _].
      destruct rest; [reflexivity|]. cbn [List.length] in H. lia. }
    subst rest. now rewrite app_nil_r.
  - apply app_inv_head in H. now rewrite H.
Qed.

End Trimmed.

(* ================================================================== *)
(** * [ensureMathMLNamespace] and [convertLatexToMathML] *)

Section Namespace.

Lemma replaceStr_prefix (p r rest : jsstring) :
  replaceStr (p ++ rest) p r = r ++ rest.
Proof.
  assert (Hs : startsWith (p ++ rest) p = true) by (apply startsWith_spec; now exists rest).
  destruct p as [|x p].
  - cbn [app] in *. destruct rest; cbn [replaceStr startsWith skipn List.length]; reflexivity.
  - cbn [app] in *. cbn [replaceStr]. rewrite Hs.
    change (x :: p ++ rest) with ((x :: p) ++ rest).
    now rewrite skipn_app, skipn_all, Nat.sub_diag.
Qed.

Lemma includes_app_l (s t p : jsstring) : includes s p = true -> includes (s ++ t) p = true.
Proof.
  rewrite !includes_spec. intros (a & b & ->). exists a, (b ++ t).
  now rewrite <- !app_assoc.
Qed.

Lemma includes_MATH_OPEN_NS (t : jsstring) : includes (MATH_OPEN_NS ++ t) XMLNS_EQ = true.
Proof. apply includes_app_l. vm_compute. reflexivity. Qed.

Lemma trimEnd_MATH_OPEN_NS : trimEnd MATH_OPEN_NS = MATH_OPEN_NS.
Proof. vm_compute. reflexivity. Qed.

Lemma trim_MATH_OPEN_NS_app (t : jsstring) :
  trimEnd (MATH_OPEN_NS ++ t) = MATH_OPEN_NS ++ t -> trim (MATH_OPEN_NS ++ t) = MATH_OPEN_NS ++ t.
Proof.
  intros H. unfold trim.
  change (MATH_OPEN_NS ++ t) with (LT :: (tl MATH_OPEN_NS ++ t)) at 1.
  rewrite trimStart_cons_keep by reflexivity. exact H.
Qed.

(** A string that opens with the namespaced tag and is trimmed is left
    as it is. *)
Lemma ensureMathMLNamespace_fixed (t : jsstring) :
  trimEnd (MATH_OPEN_NS ++ t) = MATH_OPEN_NS ++ t ->
  ensureMathMLNamespace (MATH_OPEN_NS ++ t) = MATH_OPEN_NS ++ t.
Proof.
  intros H. unfold ensureMathMLNamespace.
  rewrite (trim_MATH_OPEN_NS_app H). now rewrite includes_MATH_OPEN_NS.
Qed.

Lemma ensureMathMLNamespace_cases (s : jsstring) :
  (includes (trim s) XMLNS_EQ = true /\ ensureMathMLNamespace s = trim s) \/
  (exists t, ensureMathMLNamespace s = MATH_OPEN_NS ++ t /\
             trimEnd (MATH_OPEN_NS ++ t) = MATH_OPEN_NS ++ t).
Proof.
  unfold ensureMathMLNamespace.
  destruct (includes (trim s) XMLNS_EQ) eqn:Hi; [now left|right].
  destruct (startsWith (trim s) MATH_OPEN) eqn:Hs.
  - apply startsWith_spec in Hs. destruct Hs as [rest Hr]. rewrite Hr.
    exists rest. split; [apply replaceStr_prefix|].
    apply trimEnd_swap_prefix with (a := MATH_OPEN).
    + apply trimEnd_MATH_OPEN_NS.
    + discriminate.
    + rewrite <- Hr. unfold trim. apply trimEnd_idem.
  - exists ([GT] ++ trim s ++ lit "</math>"). split; [reflexivity|].
    rewrite !app_assoc. apply trimEnd_app_fixed; [discriminate|reflexivity].
Qed.

Lemma ensureMathMLNamespace_includes (s : jsstring) :
  includes (ensureMathMLNamespace s) XMLNS_EQ = true.
Proof.
  destruct (ensureMathMLNamespace_cases s) as [[Hi ->] | (t & -> & _)].
  - exact Hi.
  - apply includes_MATH_OPEN_NS.
Qed.

Lemma ensureMathMLNamespace_idem (s : jsstring) :
  ensureMathMLNamespace (ensureMathMLNamespace s) = ensureMathMLNamespace s.
Proof.
  destruct (ensureMathMLNamespace_cases s) as [[Hi ->] | (t & -> & Ht)].
  - unfold ensureMathMLNamespace. rewrite trim_idem. now rewrite Hi.
  - now apply ensureMathMLNamespace_fixed.
Qed.

End Namespace.

(** X1.  [ensureMathMLNamespace] always returns a string that carries a
    namespace attribute ([xmlns=]), and applying it to its own result
    changes nothing. *)
Theorem X1_ensureMathMLNamespace_once :
  forall s, includes (ensureMathMLNamespace s) XMLNS_EQ = true /\
            ensureMathMLNamespace (ensureMathMLNamespace s) = ensureMathMLNamespace s.
Proof.
  intros s. split.
  - apply ensureMathMLNamespace_includes.
  - apply ensureMathMLNamespace_idem.
Qed.

Section Conversion.

Lemma requires_BACKSLASH_cmd (name : jsstring) : requires BACKSLASH (re_cmd name).
Proof. left. apply chr_requires. Qed.

Lemma requires_BACKSLASH_frac : requires BACKSLASH re_frac.
Proof. apply requires_seqs_hd, chr_requires. Qed.

Lemma requires_BACKSLASH_sqrt : requires BACKSLASH re_sqrt.
Proof. apply requires_seqs_hd, chr_requires. Qed.

Lemma replaceAll_no_match (x : N) (r : regex) (f : jsstring -> list jsstring -> jsstring)
      (s : jsstring) :
  requires x r -> ~ In x s -> replaceAll r f s = s.
Proof. intros Hr Hs. unfold replaceAll. now apply (@replace_no_match x). Qed.

Lemma symbols_no_backslash (l : list (jsstring * jsstring)) (s : jsstring) :
  ~ In BACKSLASH s ->
  fold_left (fun m e => replaceAll (re_cmd (fst e)) (const (snd e)) m) l s = s.
Proof.
  intros Hs. induction l as [|e l IH]; [reflexivity|].
  cbn [fold_left].
  rewrite (@replaceAll_no_match _ _ _ _ (requires_BACKSLASH_cmd (fst e)) Hs). exact IH.
Qed.

Lemma convertLatexToMathML_plain (s : jsstring) :
  ~ In BACKSLASH s -> includes s MATH_OPEN = false ->
  convertLatexToMathML s = MATH_OPEN_NS ++ lit "><mrow>" ++ s ++ lit "</mrow></math>".
Proof.
  intros Hs Hm. unfold convertLatexToMathML. cbv zeta.
  rewrite (@replaceAll_no_match _ _ _ _ requires_BACKSLASH_frac Hs).
  rewrite (@replaceAll_no_match _ _ _ _ requires_BACKSLASH_sqrt Hs).
  rewrite (@symbols_no_backslash _ _ Hs). rewrite Hm.
  apply ensureMathMLNamespace_fixed.
  rewrite !app_assoc. apply trimEnd_app_fixed; [discriminate|reflexivity].
Qed.

End Conversion.

(** X2.  [convertLatexToMathML] always returns a string with a namespace
    attribute; an input without a backslash and without [<math] is
    returned unchanged inside [<math xmlns=...><mrow>] and
    [</mrow></math>]. *)
Theorem X2_convertLatexToMathML_wraps :
  (forall s, includes (convertLatexToMathML s) XMLNS_EQ = true) /\
  (forall s, ~ In BACKSLASH s -> includes s MATH_OPEN = false ->
             convertLatexToMathML s =
             MATH_OPEN_NS ++ lit "><mrow>" ++ s ++ lit "</mrow></math>").
Proof.
  split.
  - intros s. unfold convertLatexToMathML. cbv zeta. apply ensureMathMLNamespace_includes.
  - apply convertLatexToMathML_plain.
Qed.

Lemma X2_convertLatexToMathML_witness :
  convertLatexToMathML (lit "x+y") =
  MATH_OPEN_NS ++ lit "><mrow>" ++ lit "x+y" ++ lit "</mrow></math>".
Proof.
  apply (proj2 X2_convertLatexToMathML_wraps (lit "x+y")).
  - vm_compute. intuition discriminate.
  - reflexivity.
Defined.

(* ================================================================== *)
(** * [cleanLatex] away from the two-dollar case *)

Section Dollar.

Lemma strip_trailing_dollar (m : jsstring) :
  forall i, 0 < i -> replace_first_from re_dollar (const []) i (m ++ [DOLLAR]) = m.
Proof.
  induction m as [|c m IH]; intros i Hi.
  - cbn [app replace_first_from]. rewrite exec_re_dollar.
    cbn [N.eqb DOLLAR Pos.eqb andb orb]. rewrite orb_true_r. reflexivity.
  - cbn [app replace_first_from]. rewrite exec_re_dollar.
    destruct i as [|i]; [lia|]. cbn [Nat.eqb orb].
    assert (E : match m ++ [DOLLAR] with [] => true | _ :: _ => false end = false)
      by now destruct m.
    rewrite E, andb_false_r. f_equal. apply IH. lia.
Qed.

Lemma no_trailing_dollar (s : jsstring) :
  (forall m, s <> m ++ [DOLLAR]) ->
  forall i, 0 < i -> replace_first_from re_dollar (const []) i s = s.
Proof.
  induction s as [|c s IH]; intros Hs i Hi.
  - cbn [replace_first_from]. now rewrite exec_re_dollar.
  - cbn [replace_first_from]. rewrite exec_re_dollar.
    destruct i as [|i]; [lia|]. cbn [Nat.eqb orb].
    destruct s as [|d s].
    + destruct (N.eqb DOLLAR c) eqn:E.
      * apply N.eqb_eq in E. subst c. exfalso. now apply (Hs []).
      * cbn [andb]. f_equal.
    + rewrite andb_false_r. f_equal. apply IH; [|lia].
      intros m Hm. apply (Hs (c :: m)). cbn [app]. now rewrite Hm.
Qed.

Lemma first_not_dollar (c : N) (s : jsstring) :
  c <> DOLLAR ->
  replaceFirst re_dollar (const []) (c :: s)
  = c :: replace_first_from re_dollar (const []) 1 s.
Proof.
  intros Hc. unfold replaceFirst. cbn [replace_first_from]. rewrite exec_re_dollar.
  assert (E : N.eqb DOLLAR c = false) by (apply N.eqb_neq; congruence).
  rewrite E. reflexivity.
Qed.

End Dollar.

(** X3.  [cleanLatex] on strings that do not begin with a dollar sign:
    without a dollar sign at the end either, the result is the trimmed
    input; with one at the end, that one is removed before trimming.
    In every case the result is trimmed. *)
Theorem X3_cleanLatex_outside_dollars :
  (forall s, (forall m, s <> DOLLAR :: m) -> (forall m, s <> m ++ [DOLLAR]) ->
             cleanLatex s = trim s) /\
  (forall c m, c <> DOLLAR -> cleanLatex (c :: m ++ [DOLLAR]) = trim (c :: m)) /\
  (forall s, trim (cleanLatex s) = cleanLatex s).
Proof.
  split; [|split].
  - intros s H1 H2. unfold cleanLatex. f_equal.
    destruct s as [|c s]; [reflexivity|].
    rewrite first_not_dollar by (intros ->; now apply (H1 s)).
    f_equal. apply no_trailing_dollar; [|lia].
    intros m Hm. apply (H2 (c :: m)). cbn [app]. now rewrite Hm.
  - intros c m Hc. unfold cleanLatex. f_equal.
    rewrite first_not_dollar by exact Hc. f_equal.
    apply strip_trailing_dollar. lia.
  - intros s. unfold cleanLatex. apply trim_idem.
Qed.

Lemma X3_cleanLatex_witness :
  cleanLatex (lit " a+b ") = trim (lit " a+b ") /\
  cleanLatex (120%N :: lit "^2" ++ [DOLLAR]) = trim (120%N :: lit "^2").
Proof.
  split.
  - apply (proj1 X3_cleanLatex_outside_dollars).
    + intros m H. discriminate H.
    + intros m H. apply (f_equal (@rev N)) in H. rewrite rev_app_distr in H.
      discriminate H.
  - apply (proj1 (proj2 X3_cleanLatex_outside_dollars)). discriminate.
Defined.

(* ================================================================== *)
(** * [extractTextContent] *)

Section TextWalk.

Lemma walk_text_unscripted (n : node) : unscripted n = true -> walk_text n = textContent n.
Proof.
  induction n as [d|e ch IH] using node_induction; [reflexivity|].
  cbn [unscripted walk_text textContent]. intros H.
  apply andb_true_iff in H as [H Hch]. apply andb_true_iff in H as [H1 H2].
  apply negb_true_iff in H1, H2. rewrite H1, H2. cbn [app]. f_equal.
  induction IH as [|c l Hc Hl IHl]; [reflexivity|].
  cbn [forallb] in Hch. apply andb_true_iff in Hch as [Hc' Hl'].
  cbn [List.map]. f_equal; [now apply Hc | now apply IHl].
Qed.

Lemma walk_children_unscripted (ch : list node) :
  forallb unscripted ch = true ->
  List.concat (List.map walk_text ch) = List.concat (List.map textContent ch).
Proof.
  induction ch as [|c ch IH]; [reflexivity|]. cbn [forallb List.map List.concat].
  intros H. apply andb_true_iff in H as [Hc Hch].
  now rewrite (walk_text_unscripted _ Hc), IH.
Qed.

End TextWalk.

(** X5.  [extractTextContent] of an element that has no [sup] or [sub]
    element below it is its trimmed [textContent]; the text of a [sup]
    or [sub] element is emitted twice, first transliterated and then as
    it is, because the walker visits the element and then its text
    node. *)
Theorem X5_extractTextContent_walk :
  (forall doc p e ch,
      get doc p = Some (Element e ch) -> forallb unscripted ch = true ->
      extractTextContent doc (Some p) = Some (trim (textContent (Element e ch)))) /\
  (forall e t, toLowerCaseA (tagName e) = lit "sup" ->
               walk_text (Element e [Text t]) = toSuperscript t ++ t) /\
  (forall e t, toLowerCaseA (tagName e) = lit "sub" ->
               walk_text (Element e [Text t]) = toSubscript t ++ t).
Proof.
  split; [|split].
  - intros doc p e ch Hg Hch. unfold extractTextContent. rewrite Hg.
    cbn [children_of textContent]. now rewrite walk_children_unscripted.
  - intros e t H. cbn [walk_text]. rewrite H. cbn. now rewrite app_nil_r.
  - intros e t H. cbn [walk_text]. rewrite H. cbn. now rewrite app_nil_r.
Qed.

Lemma X5_extractTextContent_witness :
  extractTextContent katex_page (Some [0]) = Some (trim (lit "x")) /\
  walk_text (html "sup" [] [Text (lit "2")]) = toSuperscript (lit "2") ++ lit "2" /\
  walk_text (html "sub" [] [Text (lit "2")]) = toSubscript (lit "2") ++ lit "2".
Proof.
  split; [|split].
  - apply (proj1 X5_extractTextContent_walk katex_page [0]
             (mkElem HTML (lit "span") [class_attr "katex"] None)
             [html "span" [class_attr "katex-html"] [Text (lit "x")]]); reflexivity.
  - apply (proj1 (proj2 X5_extractTextContent_walk)). reflexivity.
  - apply (proj2 (proj2 X5_extractTextContent_walk)). reflexivity.
Defined.

(* ================================================================== *)
(** * What the spacing cleanup lets through *)

Section Conservative.

Lemma incl_trimStart (s : jsstring) : incl (trimStart s) s.
Proof.
  induction s as [|c s IH]; [apply incl_refl|]. cbn [trimStart].
  destruct (is_ws c); [now apply incl_tl | apply incl_refl].
Qed.

Lemma incl_trimEnd (s : jsstring) : incl (trimEnd s) s.
Proof.
  induction s as [|c s IH]; [apply incl_refl|]. cbn [trimEnd].
  destruct (trimEnd s) as [|x t].
  - destruct (is_ws c); [apply incl_nil_l|]. intros y [<-|[]]. now left.
  - intros y [<-|Hy]; [now left|]. right. now apply IH.
Qed.

Lemma incl_trim (s : jsstring) : incl (trim s) s.
Proof.
  unfold trim. eapply incl_tran; [apply incl_trimEnd | apply incl_trimStart].
Qed.

Lemma incl_firstn (A : Type) (n : nat) (l : list A) : incl (firstn n l) l.
Proof. intros x. apply In_firstn. Qed.

Lemma replace_from_incl (r : regex) (f : jsstring -> list jsstring -> jsstring) :
  conservative r f ->
  forall s i skip, incl (replace_from r f i s skip) s.
Proof.
  intros Hf. induction s as [|c s IH]; intros i skip; cbn [replace_from].
  - destruct skip; [|apply incl_refl].
    destruct (exec r i []) as [[n caps]|] eqn:E; [|apply incl_refl].
    apply exec_sound in E as (m & rest & Hs & Hm & _).
    symmetry in Hs. apply app_eq_nil in Hs as [-> _]. now apply Hf.
  - destruct skip as [|k]; [|apply incl_tl, IH].
    destruct (exec r i (c :: s)) as [[[|n] caps]|] eqn:E.
    + apply exec_sound in E as (m & rest & Hs & Hm & Hl).
      symmetry in Hl. apply length_zero_iff_nil in Hl. subst m.
      apply incl_app; [eapply incl_tran; [now apply Hf | apply incl_nil_l]|].
      apply incl_cons; [now left | apply incl_tl, IH].
    + pose proof E as E'.
      apply exec_sound in E as (m & rest & Hs & Hm & Hl).
      apply incl_app; [|apply incl_tl, IH].
      rewrite Hs at 1. rewrite Hl, firstn_app, Nat.sub_diag, firstn_all.
      cbn [firstn]. rewrite app_nil_r.
      eapply incl_tran; [now apply Hf|]. rewrite Hs. now apply incl_appl, incl_refl.
    + apply incl_cons; [now left | apply incl_tl, IH].
Qed.

Lemma replaceAll_incl (r : regex) (f : jsstring -> list jsstring -> jsstring) (s : jsstring) :
  conservative r f -> incl (replaceAll r f s) s.
Proof. intros Hf. now apply replace_from_incl. Qed.

Lemma conservative_remove (r : regex) : conservative r (const []).
Proof. intros m caps _. apply incl_nil_l. Qed.

Lemma conservative_mpadded_em : conservative re_mpadded_em mpadded_em_replacer.
Proof.
  intros m caps _. unfold mpadded_em_replacer.
  destruct (below_threshold (group 0 caps)); [apply incl_nil_l | apply incl_refl].
Qed.

Lemma conservative_mo : conservative re_mo mo_replacer.
Proof.
  intros m caps H. unfold re_mo in H.
  apply Matches_seqs_cons in H as (m0 & x & c0 & y & -> & -> & H0 & H).
  apply Matches_seqs_cons in H as (m1 & x' & c1 & y' & -> & -> & H1 & H).
  apply Matches_seqs_cons in H as (m2 & x'' & c2 & y'' & -> & -> & H2 & H).
  apply Matches_seqs_nil in H as [-> ->].
  apply Matches_Grp in H0 as [-> _]; [|reflexivity].
  apply Matches_Grp in H1 as [-> _]; [|reflexivity].
  apply Matches_Grp in H2 as [-> _]; [|reflexivity].
  unfold mo_replacer. cbn [app group nth]. rewrite !app_nil_r.
  unfold re_invisible. rewrite replaceAll_class_remove.
  apply incl_app; [now apply incl_appl, incl_refl|].
  apply incl_appr, incl_app; [|now apply incl_appr, incl_refl].
  apply incl_appl. eapply incl_tran; [apply incl_filter | apply incl_trim].
Qed.

Lemma conservative_between_tags : conservative re_between_tags (const (lit "><")).
Proof.
  intros m caps H. unfold re_between_tags in H.
  apply Matches_seqs_cons in H as (m0 & x & c0 & y & -> & -> & H0 & H).
  apply Matches_seqs_cons in H as (m1 & x' & c1 & y' & -> & -> & H1 & H).
  apply Matches_seqs_cons in H as (m2 & x'' & c2 & y'' & -> & -> & H2 & H).
  apply Matches_seqs_nil in H as [-> ->].
  apply Matches_chr in H0 as [-> _]. apply Matches_chr in H2 as [-> _].
  unfold const. intros z [<-|[<-|[]]].
  - now left.
  - apply in_or_app. right. apply in_or_app. right. now left.
Qed.

Lemma conservative_after_mo : conservative re_after_mo (const (lit "</mo><")).
Proof.
  intros m caps H. unfold re_after_mo in H.
  apply Matches_seqs_cons in H as (m0 & x & c0 & y & -> & -> & H0 & H).
  apply Matches_seqs_cons in H as (m1 & x' & c1 & y' & -> & -> & H1 & H).
  apply Matches_seqs_cons in H as (m2 & x'' & c2 & y'' & -> & -> & H2 & H).
  apply Matches_seqs_nil in H as [-> ->].
  apply Matches_str in H0 as [-> _]. apply Matches_chr in H2 as [-> _].
  unfold const. change (lit "</mo><") with (lit "</mo>" ++ [LT]).
  apply incl_app; [now apply incl_appl, incl_refl|].
  apply incl_appr, incl_appr. rewrite ?app_nil_r. apply incl_refl.
Qed.

Lemma conservative_after_close :
  conservative re_after_close (fun _ caps => group 0 caps ++ [LT]).
Proof.
  intros m caps H. unfold re_after_close in H.
  apply Matches_seqs_cons in H as (m0 & x & c0 & y & -> & -> & H0 & H).
  apply Matches_seqs_cons in H as (m1 & x' & c1 & y' & -> & -> & H1 & H).
  apply Matches_seqs_cons in H as (m2 & x'' & c2 & y'' & -> & -> & H2 & H).
  apply Matches_seqs_nil in H as [-> ->].
  apply Matches_Grp in H0 as [-> _]; [|reflexivity].
  apply Matches_Star in H1 as ->. apply Matches_chr in H2 as [-> ->].
  cbn [app group nth].
  apply incl_app; [now apply incl_appl, incl_refl|].
  apply incl_appr, incl_appr. rewrite ?app_nil_r. apply incl_refl.
Qed.

(** The stages after the removal of the invisible characters. *)
Lemma late_stages_incl (s : jsstring) :
  incl (replaceAll re_after_close (fun _ caps => group 0 caps ++ [LT])
          (replaceAll re_after_mo (const (lit "</mo><"))
             (replaceAll re_between_tags (const (lit "><"))
                (replaceAll re_mo mo_replacer
                   (replaceAll re_mpadded_em mpadded_em_replacer
                      (replaceAll re_mpadded_zero (const []) s)))))) s.
Proof.
  repeat (eapply incl_tran; [apply replaceAll_incl|]).
  7: apply incl_refl.
  - apply conservative_after_close.
  - apply conservative_after_mo.
  - apply conservative_between_tags.
  - apply conservative_mo.
  - apply conservative_mpadded_em.
  - apply conservative_remove.
Qed.

End Conservative.

(** X6.  [cleanMathMLSpacing] never adds a code unit that is not in its
    input, and its output contains none of the invisible spacing
    characters U+200B to U+200D, U+FEFF, U+2009 and U+200A. *)
Theorem X6_cleanMathMLSpacing_output :
  forall s, incl (cleanMathMLSpacing s) s /\ Forall visible (cleanMathMLSpacing s).
Proof.
  intros s. unfold cleanMathMLSpacing. cbv zeta. split.
  - eapply incl_tran; [apply late_stages_incl|].
    repeat (eapply incl_tran; [apply replaceAll_incl, conservative_remove|]).
    apply incl_refl.
  - apply Forall_forall. intros c Hc. apply late_stages_incl in Hc.
    unfold re_invisible in Hc. rewrite replaceAll_class_remove in Hc.
    apply filter_In in Hc as [_ Hc]. now apply negb_true_iff in Hc.
Qed.

(* ================================================================== *)
(** * What [getEquationContent] hands out *)

Section Content.

Lemma validate_content_ok (x : option jsstring) (c : jsstring) :
  validate_content x = Ok (Some c) ->
  c <> [] /\ trim c = c /\ (len c <= 100000)%N.
Proof.
  unfold validate_content. destruct x as [c0|]; [|discriminate].
  destruct (truthy (Some c0) && N.ltb 0 (len (trim c0)))%bool eqn:E; [|discriminate].
  apply andb_true_iff in E as [_ Hlen].
  destruct (N.ltb 100000 (len (trim c0))) eqn:Hb; [discriminate|].
  intros H. injection H as <-. repeat split.
  - intros Hc. rewrite Hc in Hlen. discriminate.
  - apply trim_idem.
  - apply N.ltb_ge in Hb. exact Hb.
Qed.

Lemma getEquationContent_content (env : Env) (st : State) (equation : option path)
      (format c : jsstring) :
  fst (getEquationContent env st equation format) = Some c ->
  c <> [] /\ trim c = c /\ (len c <= 100000)%N /\
  snd (getEquationContent env st equation format) = st.
Proof.
  unfold getEquationContent.
  destruct (getEquationContent_try env (document st) equation format) as [content|err] eqn:E.
  - cbn [fst snd]. intros ->. unfold getEquationContent_try in E.
    destruct equation as [eq|]; [|discriminate].
    destruct (get (document st) eq) as [[d|e ch]|]; try discriminate.
    apply validate_content_ok in E. tauto.
  - destruct (Nat.ltb _ _); discriminate.
Qed.

(** A write that fails leaves the state as it was, or with the hidden
    [textarea] behind. *)
Lemma copyToClipboard_throw (env : Env) (st : State) (text format : jsstring) (x : error) :
  fst (copyToClipboard env text format st) = Throw x ->
  snd (copyToClipboard env text format st) = st \/
  snd (copyToClipboard env text format st)
  = with_document (body_appendChild hidden_textarea (document st)) st.
Proof.
  unfold copyToClipboard, copy_fallback.
  destruct text as [|c text]; [now left|].
  destruct (N.ltb 1000000 (len (c :: text))); [now left|].
  destruct (streq format MATHML && has_write (navigator env)
            && write_succeeds (navigator env) (c :: text))%bool; [discriminate|].
  destruct (has_writeText (navigator env)).
  - destruct (writeText_succeeds (navigator env) (c :: text)); [discriminate|].
    destruct (execCommand_copy (navigator env) (c :: text)) as [[|]|]; cbn [fst snd]; auto.
    discriminate.
  - destruct (execCommand_copy (navigator env) (c :: text)) as [[|]|]; cbn [fst snd]; auto.
    discriminate.
Qed.

Lemma copyToClipboard_outcome (env : Env) (st : State) (text format : jsstring) :
  text <> [] -> (len text <= 1000000)%N ->
  copyToClipboard env text format st = (Ok tt, with_clipboard (clipboard st ++ [text]) st) \/
  fst (copyToClipboard env text format st) = Throw (ExtensionError CLIPBOARD_COPY_FAILED HIGH).
Proof.
  intros Hne Hlen. unfold copyToClipboard, copy_fallback.
  destruct text as [|x text]; [contradiction|].
  assert (Hb : N.ltb 1000000 (len (x :: text)) = false) by now apply N.ltb_ge.
  rewrite Hb.
  destruct (streq format MATHML && has_write (navigator env)
            && write_succeeds (navigator env) (x :: text))%bool; [now left|].
  destruct (has_writeText (navigator env)).
  - destruct (writeText_succeeds (navigator env) (x :: text)); [now left|].
    destruct (execCommand_copy (navigator env) (x :: text)) as [[|]|]; auto.
  - destruct (execCommand_copy (navigator env) (x :: text)) as [[|]|]; auto.
Qed.

(** Appending to the body keeps every element where it is. *)
Lemma get_elem_body_appendChild (n doc : node) (p : path) (e : elem) :
  get_elem doc p = Some e -> get_elem (body_appendChild n doc) p = Some e.
Proof.
  destruct doc as [d|e0 ch]; [auto|]. unfold get_elem.
  destruct p as [|i p]; [auto|]. cbn [body_appendChild get children_of].
  destruct (nth_error ch i) as [c|] eqn:E; [|discriminate].
  rewrite nth_error_app1 by (apply nth_error_Some; congruence). now rewrite E.
Qed.

End Content.

(** X7.  Content returned by [getEquationContent] is never empty, is
    trimmed and has at most 100,000 code units, and the call then leaves
    the session state as it was; a call that returns null changes at
    most the error counter, by one. *)
Theorem X7_getEquationContent_result :
  forall env st equation format,
    match fst (getEquationContent env st equation format) with
    | Some c =>
        c <> [] /\ trim c = c /\ (len c <= 100000)%N /\
        snd (getEquationContent env st equation format) = st
    | None =>
        snd (getEquationContent env st equation format) = st \/
        snd (getEquationContent env st equation format)
        = with_errorCount (S (errorCount st)) st
    end.
Proof.
  intros env st equation format.
  destruct (fst (getEquationContent env st equation format)) as [c|] eqn:E.
  - now apply getEquationContent_content.
  - unfold getEquationContent in *.
    destruct (getEquationContent_try env (document st) equation format); cbn [fst snd] in *.
    + now left.
    + right. now destruct (Nat.ltb _ _).
Qed.

(** X8.  Content returned by [getEquationContent] always passes the
    input checks of [copyToClipboard]: the write either puts exactly
    that content on the clipboard, or fails because every clipboard
    channel failed, and then the clipboard is as before; it is never
    rejected as empty or as too large. *)
Theorem X8_extracted_content_fits_clipboard :
  forall env st equation format c env' format' st',
    fst (getEquationContent env st equation format) = Some c ->
    copyToClipboard env' c format' st'
    = (Ok tt, with_clipboard (clipboard st' ++ [c]) st') \/
    (fst (copyToClipboard env' c format' st')
     = Throw (ExtensionError CLIPBOARD_COPY_FAILED HIGH) /\
     clipboard (snd (copyToClipboard env' c format' st')) = clipboard st').
Proof.
  intros env st equation format c env' format' st' H.
  apply getEquationContent_content in H as (Hne & _ & Hlen & _).
  destruct (@copyToClipboard_outcome env' st' c format' Hne ltac:(lia)) as [Hok|Hno];
    [now left | right].
  split; [exact Hno|].
  now destruct (copyToClipboard_throw _ _ _ _ Hno) as [-> | ->].
Qed.

Lemma X8_extracted_content_witness :
  fst (getEquationContent plain_env (initial_state katex_page) (Some [0]) UNICODE)
  = Some (lit "x") /\
  (copyToClipboard plain_env (lit "x") UNICODE (initial_state katex_page)
   = (Ok tt, with_clipboard (clipboard (initial_state katex_page) ++ [lit "x"])
                            (initial_state katex_page)) \/
   (fst (copyToClipboard plain_env (lit "x") UNICODE (initial_state katex_page))
    = Throw (ExtensionError CLIPBOARD_COPY_FAILED HIGH) /\
    clipboard (snd (copyToClipboard plain_env (lit "x") UNICODE (initial_state katex_page)))
    = clipboard (initial_state katex_page))).
Proof.
  split; [reflexivity|].
  apply (@X8_extracted_content_fits_clipboard plain_env (initial_state katex_page)
           (Some [0]) UNICODE (lit "x") plain_env UNICODE (initial_state katex_page)).
  reflexivity.
Defined.

(* ================================================================== *)
(** * Containers are ancestors *)

Section Containers.

Lemma prefixes_is_prefix (p q : path) : In q (prefixes p) -> is_prefix q p = true.
Proof.
  revert q. induction p as [|i p IH]; intros q; cbn [prefixes].
  - intros [<-|[]]. reflexivity.
  - intros H. apply in_app_or in H as [H|[<-|[]]]; [|reflexivity].
    apply in_map_iff in H as (q' & <- & Hq'). cbn [is_prefix].
    rewrite Nat.eqb_refl. now apply IH.
Qed.

Lemma closest_is_prefix (doc : node) (p q : path) (sel : selector) :
  closest doc p sel = Some q -> is_prefix q p = true.
Proof.
  unfold closest. intros H. apply find_some in H as [H _]. now apply prefixes_is_prefix.
Qed.

Lemma is_prefix_refl (p : path) : is_prefix p p = true.
Proof. induction p as [|i p IH]; [reflexivity|]. cbn [is_prefix]. now rewrite Nat.eqb_refl. Qed.

Lemma findMathContainer_is_prefix (doc : node) (element c : path) :
  findMathContainer doc element = Some c -> is_prefix c element = true.
Proof.
  unfold findMathContainer. destruct (get_elem doc element) as [e|]; [|discriminate].
  destruct (classList_contains e (lit "katex-html")); [apply closest_is_prefix|].
  destruct (classList_contains e (lit "katex")); [intros [= <-]; apply is_prefix_refl|].
  destruct (closest doc element sel_mathjax_any) eqn:E1;
    [intros [= <-]; now apply closest_is_prefix in E1|].
  destruct (streq (tagName e) (lit "MATH")); [intros [= <-]; apply is_prefix_refl|].
  destruct (closest doc element (sel_type "math")) eqn:E2;
    [intros [= <-]; now apply closest_is_prefix in E2|].
  destruct (closest doc element (sel_class "katex")) eqn:E3;
    [intros [= <-]; now apply closest_is_prefix in E3|].
  intros [= <-]; apply is_prefix_refl.
Qed.

Lemma findMathContainer_total (doc : node) (element : path) (e : elem) :
  get_elem doc element = Some e -> classList_contains e (lit "katex-html") = false ->
  exists c, findMathContainer doc element = Some c.
Proof.
  intros He Hk. unfold findMathContainer. rewrite He, Hk.
  destruct (classList_contains e (lit "katex")); [eauto|].
  destruct (closest doc element sel_mathjax_any); [eauto|].
  destruct (streq (tagName e) (lit "MATH")); [eauto|].
  destruct (closest doc element (sel_type "math")); [eauto|].
  destruct (closest doc element (sel_class "katex")); eauto.
Qed.

End Containers.

(** X9.  The container [findMathContainer] resolves an element to is an
    element of the page that is the element itself or one of its
    ancestors; the function returns a container for every element that
    does not have the class [katex-html]. *)
Theorem X9_findMathContainer_ancestor :
  forall doc element,
    (forall c, findMathContainer doc element = Some c ->
               is_prefix c element = true /\ exists e, get_elem doc c = Some e) /\
    (forall e, get_elem doc element = Some e ->
               classList_contains e (lit "katex-html") = false ->
               exists c, findMathContainer doc element = Some c).
Proof.
  intros doc element. split.
  - intros c H. split; [now apply (@findMathContainer_is_prefix doc)|].
    now apply (@findMathContainer_elem doc element c).
  - intros e. apply findMathContainer_total.
Qed.

Lemma X9_findMathContainer_witness :
  findMathContainer katex_page [0; 0] = Some [0] /\
  (is_prefix [0] [0; 0] = true /\ exists e, get_elem katex_page [0] = Some e) /\
  exists c, findMathContainer katex_page [2; 0] = Some c.
Proof.
  split; [reflexivity|]. split.
  - apply (proj1 (X9_findMathContainer_ancestor katex_page [0; 0])). reflexivity.
  - apply (proj2 (X9_findMathContainer_ancestor katex_page [2; 0])
             (mkElem MathML (lit "mo") [] None)); reflexivity.
Defined.

(* ================================================================== *)
(** * The opening tag survives the cleanup *)

Section OpeningTag.

Lemma outside_math_tag_app (m t : jsstring) :
  outside_math_tag m -> outside_math_tag (m ++ t).
Proof.
  destruct m as [|x [|y [|z m]]]; cbn [outside_math_tag app]; [tauto| | |tauto].
  - destruct t as [|a [|b t]]; tauto.
  - destruct t as [|a t]; tauto.
Qed.

(** Such a string does not begin a string that begins with [<ma], nor
    one that begins with a letter. *)
Lemma outside_math_tag_misses (m rest' : jsstring) (pre : jsstring) (rest : jsstring) :
  outside_math_tag m ->
  In pre [lit "<ma"; lit "m"; lit "a"; lit "t"; lit "h"] ->
  m ++ rest' <> pre ++ rest.
Proof.
  intros Hm Hpre H.
  apply (@outside_math_tag_app m rest') in Hm. rewrite H in Hm. clear H.
  cbn [In] in Hpre.
  destruct Hpre as [<-|[<-|[<-|[<-|[<-|[]]]]]];
    cbn [lit List.map list_ascii_of_string N_of_ascii app outside_math_tag] in Hm.
  - destruct Hm as [Hm|[Hm|[_ [Hm|Hm]]]]; try discriminate Hm; now apply Hm.
  - destruct rest as [|a [|b rest]]; cbn in Hm; intuition discriminate.
  - destruct rest as [|a [|b rest]]; cbn in Hm; intuition discriminate.
  - destruct rest as [|a [|b rest]]; cbn in Hm; intuition discriminate.
  - destruct rest as [|a [|b rest]]; cbn in Hm; intuition discriminate.
Qed.

Lemma Matches_chrI (a : N) (m : jsstring) (c : list jsstring) :
  Matches (chrI a) m c -> exists x, m = [x] /\ upperA x = upperA a.
Proof.
  unfold chrI. intros H. inversion H; subst.
  match goal with Hx : N.eqb _ _ = true |- _ => apply N.eqb_eq in Hx end.
  eauto.
Qed.

Lemma Matches_strI3 (a b c : N) (p m : jsstring) (caps : list jsstring) :
  Matches (strI (a :: b :: c :: p)) m caps ->
  exists x y z m', m = x :: y :: z :: m' /\
                   upperA x = upperA a /\ upperA y = upperA b /\ upperA z = upperA c.
Proof.
  unfold strI. cbn [List.map]. intros H.
  apply Matches_seqs_cons in H as (m0 & r0 & c0 & d0 & -> & -> & H0 & H).
  apply Matches_seqs_cons in H as (m1 & r1 & c1 & d1 & -> & -> & H1 & H).
  apply Matches_chrI in H0 as (x & -> & Hx). apply Matches_chrI in H1 as (y & -> & Hy).
  destruct p as [|d p].
  - cbn [List.map seqs] in H. apply Matches_chrI in H as (z & -> & Hz).
    exists x, y, z, []. now repeat split.
  - cbn [List.map] in H.
    apply Matches_seqs_cons in H as (m2 & r2 & c2 & d2 & -> & -> & H2 & H).
    apply Matches_chrI in H2 as (z & -> & Hz).
    exists x, y, z, r2. now repeat split.
Qed.

Lemma upperA_LT (x : N) : upperA x = upperA LT -> x = LT.
Proof.
  unfold upperA. destruct (inrange 97 122 x) eqn:E; cbn; intros H; [|exact H].
  unfold inrange in E. apply andb_true_iff in E as [E1 E2].
  apply N.leb_le in E1. unfold LT in *. lia.
Qed.

Lemma upperA_not_a (z c : N) :
  upperA z = upperA c -> upperA c <> 65%N -> z <> 97%N.
Proof. intros H Hc ->. apply Hc. rewrite <- H. reflexivity. Qed.

(** A tag name with the [i] flag, [<m] and then a letter other than
    [a]. *)
Lemma outside_strI (c : N) (p m : jsstring) (caps : list jsstring) :
  upperA c <> 65%N ->
  Matches (strI (LT :: 109%N :: c :: p)) m caps -> outside_math_tag m.
Proof.
  intros Hc H. apply Matches_strI3 in H as (x & y & z & m' & -> & Hx & _ & Hz).
  cbn [outside_math_tag]. right. right. split; [now apply upperA_LT|].
  right. now apply (@upperA_not_a z c Hz).
Qed.

(** A closing tag. *)
Lemma outside_close (p m : jsstring) (caps : list jsstring) :
  Matches (str (LT :: 47%N :: p)) m caps -> p <> [] -> outside_math_tag m.
Proof.
  intros H Hp. apply Matches_str in H as [-> _].
  destruct p as [|z p]; [contradiction|].
  cbn [outside_math_tag]. right. right. split; [reflexivity|]. left. discriminate.
Qed.

Lemma outside_seqs (r : regex) (l : list regex) (m : jsstring) (c : list jsstring) :
  (forall m1 c1, Matches r m1 c1 -> outside_math_tag m1) ->
  Matches (seqs (r :: l)) m c -> outside_math_tag m.
Proof.
  intros Hr H. apply Matches_seqs_cons in H as (m1 & m2 & c1 & c2 & -> & -> & H1 & _).
  apply outside_math_tag_app. now apply (Hr m1 c1).
Qed.

Lemma outside_Grp (r : regex) (m : jsstring) (c : list jsstring) :
  (forall m1 c1, Matches r m1 c1 -> outside_math_tag m1) ->
  Matches (Grp r) m c -> outside_math_tag m.
Proof. intros Hr H. inversion H; subst. eauto. Qed.

Lemma Matches_Alt_inv (r1 r2 : regex) (m : jsstring) (c : list jsstring) :
  Matches (Alt r1 r2) m c ->
  (exists c', Matches r1 m c') \/ (exists c', Matches r2 m c').
Proof. intros H. inversion H; subst; eauto. Qed.

Lemma outside_mspace (m : jsstring) (c : list jsstring) :
  Matches re_mspace m c -> outside_math_tag m.
Proof.
  apply outside_seqs. intros m1 c1. apply (@outside_strI 115 (lit "pace")). discriminate.
Qed.

Lemma outside_mtext (m : jsstring) (c : list jsstring) :
  Matches re_mtext m c -> outside_math_tag m.
Proof.
  apply outside_seqs. intros m1 c1. apply (@outside_strI 116 (lit "ext")). discriminate.
Qed.

Lemma outside_invisible (m : jsstring) (c : list jsstring) :
  Matches re_invisible m c -> outside_math_tag m.
Proof.
  unfold re_invisible. intros H. inversion H; subst. cbn [outside_math_tag]. now right.
Qed.

Lemma outside_mpadded_zero (m : jsstring) (c : list jsstring) :
  Matches re_mpadded_zero m c -> outside_math_tag m.
Proof.
  apply outside_seqs. intros m1 c1. apply (@outside_strI 112 (lit "added")). discriminate.
Qed.

Lemma outside_mpadded_em (m : jsstring) (c : list jsstring) :
  Matches re_mpadded_em m c -> outside_math_tag m.
Proof.
  apply outside_seqs. intros m1 c1. apply (@outside_strI 112 (lit "added")). discriminate.
Qed.

Lemma outside_mo (m : jsstring) (c : list jsstring) :
  Matches re_mo m c -> outside_math_tag m.
Proof.
  apply outside_seqs. intros m1 c1. apply outside_Grp. intros m2 c2.
  apply outside_seqs. intros m3 c3. apply (@outside_strI 111 []). discriminate.
Qed.

Lemma outside_between_tags (m : jsstring) (c : list jsstring) :
  Matches re_between_tags m c -> outside_math_tag m.
Proof.
  unfold re_between_tags. intros H.
  apply Matches_seqs_cons in H as (m0 & x & c0 & y & -> & -> & H0 & H).
  apply Matches_seqs_cons in H as (m1 & x' & c1 & y' & -> & -> & H1 & H).
  apply Matches_chr in H0 as [-> _]. apply Matches_Plus in H1 as [H1 _].
  destruct m1 as [|a m1]; [cbn in H1; lia|].
  cbn [app]. destruct (m1 ++ x') as [|b t]; cbn [outside_math_tag]; now left.
Qed.

Lemma outside_after_mo (m : jsstring) (c : list jsstring) :
  Matches re_after_mo m c -> outside_math_tag m.
Proof.
  apply outside_seqs. intros m1 c1 H. apply (outside_close H). discriminate.
Qed.

Lemma outside_after_close (m : jsstring) (c : list jsstring) :
  Matches re_after_close m c -> outside_math_tag m.
Proof.
  apply outside_seqs. intros m1 c1. apply outside_Grp. intros m2 c2 H.
  repeat (apply Matches_Alt_inv in H as [[? H]|[? H]];
          [apply (outside_close H); discriminate|]).
  apply (outside_close H). discriminate.
Qed.

(** A replacement whose matches are all outside the tag passes over
    [<math]. *)
Lemma replace_from_passes (r : regex) (f : jsstring -> list jsstring -> jsstring) :
  (forall m c, Matches r m c -> outside_math_tag m) ->
  forall pre t,
    (forall k, k < List.length pre ->
               exists p rest, In p [lit "<ma"; lit "m"; lit "a"; lit "t"; lit "h"] /\
                              skipn k pre ++ t = p ++ rest) ->
    forall i, replace_from r f i (pre ++ t) 0 = pre ++ replace_from r f (i + List.length pre) t 0.
Proof.
  intros Hr. induction pre as [|x pre IH]; intros t Hpre i.
  - cbn [app List.length]. now rewrite Nat.add_0_r.
  - cbn [app replace_from].
    destruct (exec r i (x :: pre ++ t)) as [[n caps]|] eqn:E.
    + exfalso. apply exec_sound in E as (m & rest' & Hs & Hm & _).
      destruct (Hpre 0 ltac:(cbn; lia)) as (p & rest & Hp & Hk). cbn [skipn app] in Hk.
      apply (@outside_math_tag_misses m rest' p rest (Hr _ _ Hm) Hp). congruence.
    + f_equal. rewrite IH.
      * cbn [List.length]. f_equal. f_equal. lia.
      * intros k Hk. apply (Hpre (S k)). cbn [List.length]. lia.
Qed.

Lemma replaceAll_passes (r : regex) (f : jsstring -> list jsstring -> jsstring)
      (t : jsstring) :
  (forall m c, Matches r m c -> outside_math_tag m) ->
  exists t', replaceAll r f (MATH_OPEN ++ t) = MATH_OPEN ++ t'.
Proof.
  intros Hr. eexists. unfold replaceAll. apply (replace_from_passes f Hr).
  intros k Hk.
  destruct k as [|[|[|[|[|k]]]]]; [| | | | |cbn in Hk; lia]; cbn [skipn MATH_OPEN].
  - exists (lit "<ma"), (lit "th" ++ t). split; [now left | reflexivity].
  - exists (lit "m"), (lit "ath" ++ t). split; [cbn; tauto | reflexivity].
  - exists (lit "a"), (lit "th" ++ t). split; [cbn; tauto | reflexivity].
  - exists (lit "t"), (lit "h" ++ t). split; [cbn; tauto | reflexivity].
  - exists (lit "h"), t. split; [cbn; tauto | reflexivity].
Qed.

Lemma cleanMathMLSpacing_passes (t : jsstring) :
  exists t', cleanMathMLSpacing (MATH_OPEN ++ t) = MATH_OPEN ++ t'.
Proof.
  unfold cleanMathMLSpacing. cbv zeta.
  destruct (replaceAll_passes (const []) t outside_mspace) as [t1 ->].
  destruct (replaceAll_passes (const []) t1 outside_mtext) as [t2 ->].
  destruct (replaceAll_passes (const []) t2 outside_invisible) as [t3 ->].
  destruct (replaceAll_passes (const []) t3 outside_mpadded_zero) as [t4 ->].
  destruct (replaceAll_passes mpadded_em_replacer t4 outside_mpadded_em) as [t5 ->].
  destruct (replaceAll_passes mo_replacer t5 outside_mo) as [t6 ->].
  destruct (replaceAll_passes (const (lit "><")) t6 outside_between_tags) as [t7 ->].
  destruct (replaceAll_passes (const (lit "</mo><")) t7 outside_after_mo) as [t8 ->].
  apply (replaceAll_passes _ t8 outside_after_close).
Qed.

Lemma startsWith_app_self (p t : jsstring) : startsWith (p ++ t) p = true.
Proof. apply startsWith_spec. now exists t. Qed.

Lemma addNamespaceIfMissing_math (t : jsstring) :
  startsWith (addNamespaceIfMissing (MATH_OPEN ++ t)) MATH_OPEN = true /\
  includes (addNamespaceIfMissing (MATH_OPEN ++ t)) XMLNS_EQ = true.
Proof.
  unfold addNamespaceIfMissing.
  destruct (includes (MATH_OPEN ++ t) XMLNS_EQ) eqn:E.
  - split; [apply startsWith_app_self | exact E].
  - rewrite replaceStr_prefix. split; [|apply includes_MATH_OPEN_NS].
    change MATH_OPEN_NS with (MATH_OPEN ++ skipn 5 MATH_OPEN_NS). rewrite <- app_assoc.
    apply startsWith_app_self.
Qed.

Lemma serialize_math_namespace (doc : node) (p : path) (e : elem) :
  get_elem doc p = Some e -> localName e = lit "math" ->
  startsWith (serialize_math doc p) MATH_OPEN = true /\
  includes (serialize_math doc p) XMLNS_EQ = true.
Proof.
  intros He Hn. unfold serialize_math, outerHTML_at.
  unfold get_elem in He. destruct (get doc p) as [[d|e' ch]|]; try discriminate.
  injection He as ->. cbn [outerHTML]. rewrite Hn.
  change ([LT] ++ lit "math" ++ ?x) with (MATH_OPEN ++ x).
  match goal with
  | |- context [cleanMathMLSpacing (MATH_OPEN ++ ?x)] =>
      destruct (cleanMathMLSpacing_passes x) as [t' ->]
  end.
  apply addNamespaceIfMissing_math.
Qed.

Lemma querySelector_type (doc : node) (p q : path) (name : string) :
  querySelector doc p (sel_type name) = Some q ->
  exists e, get_elem doc q = Some e /\ localName e = lit name.
Proof.
  unfold querySelector, querySelectorAll. intros H. apply hd_error_some_nil in H as H'.
  destruct (filter _ _) as [|x l] eqn:E; [discriminate|]. cbn [hd_error] in H.
  injection H as ->.
  assert (Hin : In q (q :: l)) by now left. rewrite <- E in Hin.
  apply filter_In in Hin as [_ Hm]. unfold sel_type in Hm. rewrite matches_single in Hm.
  destruct (get_elem doc q) as [e|]; [|discriminate]. exists e. split; [reflexivity|].
  cbn [match_compound forallb match_simple] in Hm. rewrite andb_true_r in Hm.
  now apply streq_eq.
Qed.

Lemma closest_type (doc : node) (p q : path) (name : string) :
  closest doc p (sel_type name) = Some q ->
  exists e, get_elem doc q = Some e /\ localName e = lit name.
Proof.
  unfold closest. intros H. apply find_some in H as [_ Hm].
  unfold sel_type in Hm. rewrite matches_single in Hm.
  destruct (get_elem doc q) as [e|]; [|discriminate]. exists e. split; [reflexivity|].
  cbn [match_compound forallb match_simple] in Hm. rewrite andb_true_r in Hm.
  now apply streq_eq.
Qed.

End OpeningTag.

(** X4.  MathML taken from a [math] element always opens with [<math]
    and carries a namespace attribute: the serialisation of the element,
    cleaned and given the namespace when it has none, and with it every
    MathML result of [extractFromKaTeX] and every result of
    [extractFromMathML] for an element inside a [math] element. *)
Theorem X4_mathml_results_carry_namespace :
  (forall doc m e,
      get_elem doc m = Some e -> localName e = lit "math" ->
      startsWith (serialize_math doc m) MATH_OPEN = true /\
      includes (serialize_math doc m) XMLNS_EQ = true) /\
  (forall doc container s,
      extractFromKaTeX doc container MATHML = Some s ->
      startsWith s MATH_OPEN = true /\ includes s XMLNS_EQ = true) /\
  (forall doc element e s,
      get_elem doc element = Some e -> streq (tagName e) (lit "MATH") = false ->
      extractFromMathML doc element MATHML = Some s ->
      startsWith s MATH_OPEN = true /\ includes s XMLNS_EQ = true).
Proof.
  split; [|split].
  - intros doc m e. apply serialize_math_namespace.
  - intros doc container s. unfold extractFromKaTeX.
    destruct (negb (has_class doc container "katex")); [discriminate|].
    cbn [streq MATHML LATEX lit List.map list_ascii_of_string N_of_ascii N.eqb Pos.eqb andb].
    destruct (querySelector doc container (sel_class "katex-mathml")) as [km|].
    + destruct (querySelector doc km (sel_type "math")) as [m|] eqn:Em.
      * intros [= <-]. apply querySelector_type in Em as (e & He & Hn).
        now apply (@serialize_math_namespace doc m e He).
      * destruct (querySelector doc container (sel_type "math")) as [m|] eqn:Em2;
          [|discriminate].
        intros [= <-]. apply querySelector_type in Em2 as (e & He & Hn).
        now apply (@serialize_math_namespace doc m e He).
    + destruct (querySelector doc container (sel_type "math")) as [m|] eqn:Em2;
        [|discriminate].
      intros [= <-]. apply querySelector_type in Em2 as (e & He & Hn).
      now apply (@serialize_math_namespace doc m e He).
  - intros doc element e s He Ht. unfold extractFromMathML. rewrite He, Ht.
    destruct (closest doc element (sel_type "math")) as [m|] eqn:Em; [|discriminate].
    rewrite streq_refl. intros [= <-]. apply closest_type in Em as (e' & He' & Hn).
    now apply (@serialize_math_namespace doc m e' He').
Qed.

Lemma X4_mathml_results_witness :
  startsWith (serialize_math katex_page [2]) MATH_OPEN = true /\
  includes (serialize_math katex_page [2]) XMLNS_EQ = true.
Proof.
  apply (proj1 X4_mathml_results_carry_namespace katex_page [2]
           (mkElem MathML (lit "math") [(lit "xmlns", MATHML_NS)] None)); reflexivity.
Defined.

(* ================================================================== *)
(** * The matcher finds every match *)

Section MatcherComplete.

Lemma star_run_complete (p : N -> bool) (m : jsstring) :
  Forall (fun c => p c = true) m ->
  forall rest i caps k,
    k (i + List.length m, rest, caps) <> None ->
    star_run p i (m ++ rest) caps k <> None.
Proof.
  induction 1 as [|c m Hc Hm IH]; intros rest i caps k Hk.
  - cbn [app List.length] in *. rewrite Nat.add_0_r in Hk.
    destruct rest as [|c rest]; cbn [star_run]; [exact Hk|].
    destruct (p c); [|exact Hk].
    destruct (star_run p (S i) rest caps k); [discriminate | exact Hk].
  - cbn [app star_run]. rewrite Hc.
    assert (H : star_run p (S i) (m ++ rest) caps k <> None).
    { apply IH. cbn [List.length] in Hk. now rewrite Nat.add_succ_r in Hk. }
    destruct (star_run p (S i) (m ++ rest) caps k); [discriminate | contradiction].
Qed.

Lemma run_complete (r : regex) (m : jsstring) (c : list jsstring) :
  Matches r m c -> unanchored r = true ->
  forall rest i caps k,
    k (i + List.length m, rest, caps ++ c) <> None ->
    run r (i, m ++ rest, caps) k <> None.
Proof.
  induction 1 as [p c Hc | r1 r2 m1 m2 c1 c2 H1 IH1 H2 IH2 | r1 r2 m c H IH
                  | r1 r2 m c H IH | p m Hm | r m c H IH | r | r m c H IH | | |];
    cbn [unanchored]; intros Hu rest i caps k Hk; cbn [run].
  - cbn [app]. rewrite Hc. cbn [List.length] in Hk.
    now rewrite app_nil_r, Nat.add_1_r in Hk.
  - apply andb_true_iff in Hu as [Hu1 Hu2]. rewrite <- app_assoc.
    apply IH1; [exact Hu1|]. apply IH2; [exact Hu2|].
    now rewrite length_app, Nat.add_assoc, app_assoc in Hk.
  - apply andb_true_iff in Hu as [Hu1 _].
    specialize (IH Hu1 rest i caps k Hk).
    destruct (run r1 (i, m ++ rest, caps) k); [discriminate | contradiction].
  - apply andb_true_iff in Hu as [_ Hu2].
    destruct (run r1 (i, m ++ rest, caps) k); [discriminate|]. now apply IH.
  - apply star_run_complete; [exact Hm|]. now rewrite app_nil_r in Hk.
  - specialize (IH Hu rest i caps k Hk).
    destruct (run r (i, m ++ rest, caps) k); [discriminate | contradiction].
  - cbn [app List.length] in *. rewrite Nat.add_0_r, app_nil_r in Hk.
    destruct (run r (i, rest, caps) k); [discriminate | exact Hk].
  - apply IH; [exact Hu|].
    replace (i + List.length m - i) with (List.length m) by lia.
    rewrite firstn_app, firstn_all, Nat.sub_diag. cbn [firstn].
    now rewrite app_nil_r, <- app_assoc.
  - discriminate.
  - discriminate.
  - cbn [app List.length] in *. now rewrite Nat.add_0_r, app_nil_r in Hk.
Qed.

Lemma exec_complete (r : regex) (i : nat) (m rest : jsstring) (c : list jsstring) :
  unanchored r = true -> Matches r m c -> exec r i (m ++ rest) <> None.
Proof.
  intros Hu Hm. unfold exec.
  match goal with
  | |- context [run r ?a ?k] =>
      assert (H : run r a k <> None)
        by (apply (run_complete Hm Hu); discriminate);
      destruct (run r a k) as [[[j s] caps]|]; [|contradiction]
  end.
  intros E. discriminate E.
Qed.

End MatcherComplete.

(* ================================================================== *)
(** * A global replacement, piece by piece *)

Section Pieces.

Variable r : regex.
Variable f : jsstring -> list jsstring -> jsstring.
Hypothesis r_unanchored : unanchored r = true.
Hypothesis r_nonempty : forall m c, Matches r m c -> m <> [].

Lemma replace_from_skip (s : jsstring) :
  forall i skip, skip <= List.length s ->
                 replace_from r f i s skip = replace_from r f (i + skip) (skipn skip s) 0.
Proof.
  induction s as [|c s IH]; intros i skip Hs.
  - cbn [List.length] in Hs. assert (skip = 0) by lia. subst skip.
    now rewrite Nat.add_0_r.
  - destruct skip as [|n]; [now rewrite Nat.add_0_r|].
    cbn [replace_from skipn]. cbn [List.length] in Hs. rewrite IH by lia.
    f_equal. lia.
Qed.

Lemma replace_from_Rewrote (n : nat) :
  forall s i, List.length s <= n -> Rewrote r f s (replace_from r f i s 0).
Proof.
  induction n as [|n IH]; intros s i Hlen.
  - destruct s as [|c s]; [|cbn in Hlen; lia]. cbn [replace_from].
    destruct (exec r i []) as [[k caps]|] eqn:E; [|constructor].
    apply exec_sound in E as (m & rest & Hs & Hm & _).
    symmetry in Hs. apply app_eq_nil in Hs as [-> _]. now apply r_nonempty in Hm.
  - destruct s as [|c s].
    + cbn [replace_from].
      destruct (exec r i []) as [[k caps]|] eqn:E; [|constructor].
      apply exec_sound in E as (m & rest & Hs & Hm & _).
      symmetry in Hs. apply app_eq_nil in Hs as [-> _]. now apply r_nonempty in Hm.
    + cbn [List.length] in Hlen. cbn [replace_from].
      destruct (exec r i (c :: s)) as [[[|k] caps]|] eqn:E.
      * apply exec_sound in E as (m & rest & Hs & Hm & Hk).
        destruct m; [now apply r_nonempty in Hm | discriminate Hk].
      * apply exec_sound in E as (m & rest & Hs & Hm & Hk).
        destruct m as [|c' m]; [discriminate Hk|].
        cbn [app] in Hs. injection Hs as <- ->. cbn [List.length] in Hk.
        injection Hk as ->.
        assert (Hf : firstn (S (List.length m)) (c :: m ++ rest) = c :: m).
        { cbn [firstn]. now rewrite firstn_app, firstn_all, Nat.sub_diag, app_nil_r. }
        rewrite Hf, replace_from_skip by (rewrite length_app; lia).
        rewrite skipn_app, skipn_all, Nat.sub_diag. cbn [app skipn].
        apply (@Rw_match r f (c :: m) caps); [discriminate | exact Hm |].
        apply IH. rewrite length_app in Hlen. lia.
      * apply Rw_copy; [|apply IH; lia].
        intros m caps rest Hs Hm.
        apply (@exec_complete r i m rest caps r_unanchored Hm). now rewrite <- Hs.
Qed.

Lemma replaceAll_Rewrote (s : jsstring) : Rewrote r f s (replaceAll r f s).
Proof. apply (@replace_from_Rewrote (List.length s)). apply Nat.le_refl. Qed.

Lemma Rewrote_inv (s u : jsstring) :
  Rewrote r f s u ->
  (s = [] /\ u = []) \/
  (exists c s' u', s = c :: s' /\ u = c :: u' /\
                   (forall m caps rest, c :: s' = m ++ rest -> ~ Matches r m caps) /\
                   Rewrote r f s' u') \/
  (exists m caps rest u', s = m ++ rest /\ u = f m caps ++ u' /\ m <> [] /\
                          Matches r m caps /\ Rewrote r f rest u').
Proof.
  intros H. destruct H as [|c s u Hno H|m caps rest u Hne Hm H].
  - now left.
  - right. left. now exists c, s, u.
  - right. right. now exists m, caps, rest, u.
Qed.

(** Matches that the replacement leaves as they are: nothing changes. *)
Lemma Rewrote_fixed (s u : jsstring) :
  Rewrote r f s u ->
  (forall a m b caps, s = a ++ m ++ b -> Matches r m caps -> f m caps = m) ->
  u = s.
Proof.
  induction 1 as [|c s u Hno H IH|m caps rest u Hne Hm H IH]; intros Hfix.
  - reflexivity.
  - f_equal. apply IH. intros a m b caps Hs. apply (Hfix (c :: a) m b caps).
    now rewrite Hs.
  - rewrite (Hfix [] m rest caps eq_refl Hm). f_equal. apply IH.
    intros a m' b caps' Hs. apply (Hfix (m ++ a) m' b caps').
    now rewrite Hs, <- app_assoc.
Qed.

Lemma replaceAll_fixed (s : jsstring) :
  (forall a m b caps, s = a ++ m ++ b -> Matches r m caps -> f m caps = m) ->
  replaceAll r f s = s.
Proof. apply Rewrote_fixed, replaceAll_Rewrote. Qed.

(** A piece of the result that begins with something no replacement
    begins with was kept. *)
Variable h : N.
Hypothesis f_head : forall m caps, Matches r m caps -> exists w, f m caps = h :: w.

Lemma Rewrote_kept (x : jsstring) :
  ~ In h x ->
  forall s u, Rewrote r f s (x ++ u) -> exists s', s = x ++ s' /\ Rewrote r f s' u.
Proof.
  induction x as [|c x IH]; intros Hx s u H.
  - now exists s.
  - cbn [app] in H. inversion H as [|c' s0 u0 Hno H0 E1 E2|m caps rest u0 Hne Hm H0 E1 E2];
      subst.
    + destruct (IH (fun Hin => Hx (or_intror Hin)) s0 u H0) as (s' & -> & Hs').
      now exists s'.
    + exfalso. destruct (f_head Hm) as [w Hw]. rewrite Hw in E2.
      injection E2 as -> _. apply Hx. now left.
Qed.

End Pieces.

(* ================================================================== *)
(** * The shape of the matches of the whitespace steps *)

Section Shapes.

Lemma Matches_Plus_all (p : N -> bool) (m : jsstring) (c : list jsstring) :
  Matches (Plus p) m c -> m <> [] /\ Forall (fun x => p x = true) m /\ c = [].
Proof.
  unfold Plus. intros H. inversion H as [| ? ? m1 m2 c1 c2 H1 H2 | | | | | | | | |]; subst.
  inversion H1; subst. inversion H2; subst. cbn [app]. split; [discriminate|].
  split; [now constructor | reflexivity].
Qed.

Lemma seq_build (r1 r2 : regex) (m1 m2 : jsstring) :
  Matches r1 m1 [] -> Matches r2 m2 [] -> Matches (Seq r1 r2) (m1 ++ m2) [].
Proof. intros H1 H2. exact (M_seq H1 H2). Qed.

Lemma Plus_build (p : N -> bool) (m : jsstring) :
  m <> [] -> Forall (fun x => p x = true) m -> Matches (Plus p) m [].
Proof.
  intros Hne Hm. destruct m as [|x m]; [contradiction|]. inversion Hm; subst.
  apply (@seq_build (Chr p) (Star p) [x] m); now constructor.
Qed.

Lemma Matches_between_tags (m : jsstring) (caps : list jsstring) :
  Matches re_between_tags m caps ->
  exists g, m = GT :: g ++ [LT] /\ g <> [] /\ Forall (fun c => is_gap c = true) g.
Proof.
  unfold re_between_tags. intros H.
  apply Matches_seqs_cons in H as (m0 & x & c0 & y & -> & -> & H0 & H).
  apply Matches_seqs_cons in H as (m1 & x' & c1 & y' & -> & -> & H1 & H).
  apply Matches_seqs_cons in H as (m2 & x'' & c2 & y'' & -> & -> & H2 & H).
  apply Matches_seqs_nil in H as [-> ->].
  apply Matches_chr in H0 as [-> _]. apply Matches_chr in H2 as [-> _].
  apply Matches_Plus_all in H1 as (Hne & Hg & _).
  exists m1. rewrite app_nil_r. now repeat split.
Qed.

Lemma between_tags_build (g : jsstring) :
  g <> [] -> Forall (fun c => is_gap c = true) g ->
  Matches re_between_tags (GT :: g ++ [LT]) [].
Proof.
  intros Hne Hg. unfold re_between_tags.
  apply (@seq_build (chr GT) (Seq (Plus is_gap) (chr LT)) [GT] (g ++ [LT]));
    [constructor; apply N.eqb_refl|].
  apply seq_build; [now apply Plus_build | constructor; apply N.eqb_refl].
Qed.

Lemma between_tags_unanchored : unanchored re_between_tags = true.
Proof. reflexivity. Qed.

Lemma between_tags_nonempty (m : jsstring) (c : list jsstring) :
  Matches re_between_tags m c -> m <> [].
Proof. intros H. apply Matches_between_tags in H as (g & -> & _). discriminate. Qed.

Lemma between_tags_head (m : jsstring) (caps : list jsstring) :
  Matches re_between_tags m caps -> exists w, const (lit "><") m caps = GT :: w.
Proof. intros _. now exists [LT]. Qed.

Lemma gap_not_GT (g : jsstring) : Forall (fun c => is_gap c = true) g -> ~ In GT g.
Proof.
  intros Hg Hin. rewrite Forall_forall in Hg. apply Hg in Hin. discriminate Hin.
Qed.

Lemma gap_not_LT (g : jsstring) : Forall (fun c => is_gap c = true) g -> ~ In LT g.
Proof.
  intros Hg Hin. rewrite Forall_forall in Hg. apply Hg in Hin. discriminate Hin.
Qed.

End Shapes.

(* ================================================================== *)
(** * Whitespace between tags *)

Section BetweenTags.

Lemma Squeezed_kept (x s u : jsstring) :
  ~ In GT x -> Rewrote re_between_tags (const (lit "><")) s (x ++ u) -> exists s', s = x ++ s' /\ Rewrote re_between_tags (const (lit "><")) s' u.
Proof. intros Hx. now apply (Rewrote_kept between_tags_head). Qed.

Lemma Squeezed_GT (s u : jsstring) : Rewrote re_between_tags (const (lit "><")) s (GT :: u) -> exists s', s = GT :: s'.
Proof.
  intros H. inversion H as [|c s0 u0 Hno H0 E1 E2|m caps rest u0 Hne Hm H0 E1 E2]; subst.
  - now exists s0.
  - apply Matches_between_tags in Hm as (g & -> & _). cbn [app]. eauto.
Qed.

(** After the step no whitespace is left between [>] and [<]. *)
Lemma Squeezed_tight (s u : jsstring) : Rewrote re_between_tags (const (lit "><")) s u -> tight u.
Proof.
  induction 1 as [|c s u Hno H IH|m caps rest u Hne Hm H IH]; intros a g b E Hg.
  - destruct a; discriminate E.
  - destruct a as [|c' a].
    + cbn [app] in E. injection E as -> ->.
      destruct g as [|x g]; [reflexivity|]. exfalso.
      destruct (@Squeezed_kept (x :: g) s (LT :: b) (gap_not_GT Hg) H) as (s1 & -> & H1).
      destruct (@Squeezed_kept [LT] s1 b) as (s2 & -> & _);
        [intros [E|[]]; discriminate E | exact H1 |].
      apply (Hno (GT :: (x :: g) ++ [LT]) [] s2).
      * cbn [app]. now rewrite <- app_assoc.
      * apply between_tags_build; [discriminate | exact Hg].
    + cbn [app] in E. injection E as _ ->. now apply (IH a g b).
  - unfold const in E. cbn [lit List.map list_ascii_of_string N_of_ascii app] in E.
    destruct a as [|c1 [|c2 a]]; cbn [app] in E.
    + injection E as E. destruct g as [|x g]; [reflexivity|].
      cbn [app] in E. injection E as <- _. inversion Hg; subst. discriminate.
    + injection E as _ E. discriminate E.
    + injection E as _ _ ->. now apply (IH a g b).
Qed.

Lemma between_tags_tight (s : jsstring) :
  tight (replaceAll re_between_tags (const (lit "><")) s).
Proof.
  apply (@Squeezed_tight s).
  apply replaceAll_Rewrote; [reflexivity | apply between_tags_nonempty].
Qed.

(** Every tail of the result is the result for a tail of the input. *)
Lemma Squeezed_tail (s u : jsstring) :
  Rewrote re_between_tags (const (lit "><")) s u ->
  forall a b, u = a ++ b -> exists a' s', s = a' ++ s' /\ Rewrote re_between_tags (const (lit "><")) s' b.
Proof.
  induction 1 as [|c s u Hno H IH|m caps rest u Hne Hm H IH]; intros a b E.
  - symmetry in E. apply app_eq_nil in E as [-> ->]. exists [], []. split; [reflexivity|constructor].
  - destruct a as [|c' a].
    + cbn [app] in E. subst b. exists [], (c :: s). split; [reflexivity|]. now constructor.
    + cbn [app] in E. injection E as _ ->.
      destruct (IH a b eq_refl) as (a' & s' & -> & Hs'). now exists (c :: a'), s'.
  - unfold const in E. cbn [lit List.map list_ascii_of_string N_of_ascii app] in E.
    destruct a as [|c1 [|c2 a]]; cbn [app] in E.
    + subst b. exists [], (m ++ rest). split; [reflexivity|].
      now apply (@Rw_match re_between_tags (const (lit "><")) m caps).
    + injection E as _ <-.
      apply Matches_between_tags in Hm as (g & -> & _).
      exists (GT :: g), (LT :: rest). split; [cbn [app]; now rewrite <- app_assoc|].
      constructor; [|exact H].
      intros m' caps' rest' E' Hm'. apply Matches_between_tags in Hm' as (g' & -> & _).
      discriminate E'.
    + injection E as _ _ ->.
      destruct (IH a b eq_refl) as (a' & s' & -> & Hs').
      exists (m ++ a'), s'. split; [now rewrite app_assoc | exact Hs'].
Qed.

End BetweenTags.

(* ================================================================== *)
(** * Operator elements *)

Section Operators.

Lemma upperA_outside (c k : N) :
  upperA c = k -> inrange 65 90 k = false -> c = k.
Proof.
  unfold upperA. destruct (inrange 97 122 c) eqn:E; [|auto].
  intros <- H. exfalso. unfold inrange in *.
  apply andb_true_iff in E as [E1 E2]. apply N.leb_le in E1, E2.
  apply andb_false_iff in H as [H|H]; apply N.leb_gt in H; lia.
Qed.

Lemma Matches_strI_upper (p m : jsstring) (c : list jsstring) :
  Matches (strI p) m c -> toUpperCaseA m = toUpperCaseA p /\ c = [].
Proof.
  unfold strI. revert m c. induction p as [|x p IH]; intros m c H.
  - cbn in H. inversion H. now split.
  - cbn [List.map] in H. apply Matches_seqs_cons in H
      as (m1 & m2 & c1 & c2 & -> & -> & H1 & H2).
    apply IH in H2 as [E ->]. unfold chrI in H1. inversion H1 as [? y Hy| | | | | | | | | |]; subst.
    apply N.eqb_eq in Hy.
    cbn [app toUpperCaseA List.map]. unfold toUpperCaseA in E. now rewrite Hy, E.
Qed.

Lemma strI_build (p : jsstring) :
  forall m, toUpperCaseA m = toUpperCaseA p -> Matches (strI p) m [].
Proof.
  unfold strI, toUpperCaseA. induction p as [|x p IH]; intros [|y m] E; try discriminate E.
  - constructor.
  - cbn [List.map] in *. injection E as Ey E.
    assert (Hy : Matches (chrI x) [y] []) by (constructor; now apply N.eqb_eq).
    destruct p as [|x' p].
    + destruct m; [exact Hy | discriminate E].
    + apply (@seq_build (chrI x) (seqs (List.map chrI (x' :: p))) [y] m);
        [exact Hy | now apply IH].
Qed.

Lemma mo_open_no_GT (t : jsstring) : mo_open t -> ~ In GT t.
Proof.
  intros (y & z & a & -> & Hy & Hz & Ha) [E|[E|[E|E]]].
  - discriminate E.
  - subst y. discriminate Hy.
  - subst z. discriminate Hz.
  - rewrite Forall_forall in Ha. now apply (Ha GT E).
Qed.

Lemma Matches_mo (m : jsstring) (caps : list jsstring) :
  Matches re_mo m caps ->
  exists T C CL,
    m = T ++ GT :: C ++ CL /\ caps = [T ++ [GT]; C; CL] /\
    mo_open T /\ C <> [] /\ Forall (fun c => c <> LT) C /\ mo_close CL.
Proof.
  unfold re_mo. intros H.
  apply Matches_seqs_cons in H as (m0 & x & c0 & y & -> & -> & H0 & H).
  apply Matches_seqs_cons in H as (m1 & x' & c1 & y' & -> & -> & H1 & H).
  apply Matches_seqs_cons in H as (m2 & x'' & c2 & y'' & -> & -> & H2 & H).
  apply Matches_seqs_nil in H as [-> ->].
  apply Matches_Grp in H0 as [-> H0]; [|reflexivity].
  apply Matches_Grp in H1 as [-> H1]; [|reflexivity].
  apply Matches_Grp in H2 as [-> H2]; [|reflexivity].
  apply Matches_Plus_all in H1 as (Hne & Hc & _).
  apply Matches_strI_upper in H2 as [H2 _].
  apply Matches_seqs_cons in H0 as (p & q & ? & ? & -> & _ & Hp & H0).
  apply Matches_seqs_cons in H0 as (a & q' & ? & ? & -> & _ & Ha & H0).
  apply Matches_seqs_cons in H0 as (g & q'' & ? & ? & -> & _ & Hg & H0).
  apply Matches_seqs_nil in H0 as [-> _].
  apply Matches_strI_upper in Hp as [Hp _].
  apply Matches_chrI in Hg as (g0 & -> & Hg).
  apply upperA_outside in Hg; [|reflexivity]. change (upperA GT) with GT in Hg. subst g0.
  inversion Ha as [| | | |? ? Hall| | | | | |]; subst.
  destruct p as [|p1 [|p2 [|p3 [|p4 p]]]]; try discriminate Hp.
  cbn [toUpperCaseA List.map lit list_ascii_of_string N_of_ascii] in Hp.
  injection Hp as Hp1 Hp2 Hp3.
  apply upperA_outside in Hp1; [|reflexivity]. subst p1.
  destruct m2 as [|k1 [|k2 [|k3 [|k4 [|k5 [|k6 k]]]]]]; try discriminate H2.
  cbn [toUpperCaseA List.map lit list_ascii_of_string N_of_ascii] in H2.
  injection H2 as K1 K2 K3 K4 K5.
  apply upperA_outside in K1; [|reflexivity]. apply upperA_outside in K2; [|reflexivity].
  apply upperA_outside in K5; [|reflexivity]. subst k1 k2 k5.
  exists ([60%N; p2; p3] ++ a), m1, [60%N; 47%N; k3; k4; 62%N].
  rewrite !app_nil_r. split; [|split; [|split; [|split; [|split]]]].
  - cbn [app]. rewrite <- ?app_assoc. cbn [app]. reflexivity.
  - cbn [app]. rewrite <- ?app_assoc. cbn [app]. reflexivity.
  - exists p2, p3, a. repeat split; try assumption.
    apply Forall_forall. intros c Hc' ->. rewrite Forall_forall in Hall.
    specialize (Hall _ Hc'). discriminate Hall.
  - exact Hne.
  - apply Forall_forall. intros c Hc' ->. rewrite Forall_forall in Hc.
    specialize (Hc _ Hc'). discriminate Hc.
  - exists k3, k4. now repeat split.
Qed.

Lemma mo_build (T C CL : jsstring) :
  mo_open T -> C <> [] -> Forall (fun c => c <> LT) C -> mo_close CL ->
  Matches re_mo (T ++ GT :: C ++ CL) [T ++ [GT]; C; CL].
Proof.
  intros (y & z & a & -> & Hy & Hz & Ha) Hne Hc (y' & z' & -> & Hy' & Hz').
  assert (HO : Matches (seqs [strI (lit "<mo"); Star not_gt; chrI GT])
                       ((LT :: y :: z :: a) ++ [GT]) []).
  { apply (@seq_build (strI (lit "<mo")) (Seq (Star not_gt) (chrI GT)) [LT; y; z] (a ++ [GT])).
    - apply strI_build. cbn. now rewrite Hy, Hz.
    - apply seq_build; [|constructor; reflexivity].
      constructor. apply Forall_forall. intros c Hc'. rewrite Forall_forall in Ha.
      unfold not_gt. apply negb_true_iff, N.eqb_neq. now apply Ha. }
  assert (HC : Matches (Plus not_lt) C []).
  { apply Plus_build; [exact Hne|].
    apply Forall_forall. intros c Hc'. rewrite Forall_forall in Hc.
    unfold not_lt. apply negb_true_iff, N.eqb_neq. now apply Hc. }
  assert (HCL : Matches (strI (lit "</mo>")) [LT; 47%N; y'; z'; GT] []).
  { apply strI_build. cbn. now rewrite Hy', Hz'. }
  replace ((LT :: y :: z :: a) ++ GT :: C ++ [LT; 47%N; y'; z'; GT])
    with (((LT :: y :: z :: a) ++ [GT]) ++ C ++ [LT; 47%N; y'; z'; GT])
    by now rewrite <- app_assoc.
  exact (M_seq (M_grp HO) (M_seq (M_grp HC) (M_grp HCL))).
Qed.

Lemma mo_unanchored : unanchored re_mo = true.
Proof. reflexivity. Qed.

Lemma mo_nonempty (m : jsstring) (c : list jsstring) : Matches re_mo m c -> m <> [].
Proof.
  intros H. apply Matches_mo in H as (T & C & CL & -> & _). destruct T; discriminate.
Qed.

Lemma visible_unchanged (s : jsstring) :
  Forall visible s -> replaceAll re_invisible (const []) s = s.
Proof.
  intros H. unfold re_invisible. rewrite replaceAll_class_remove.
  induction H as [|c s Hc Hs IH]; [reflexivity|]. cbn [filter]. unfold visible in Hc.
  now rewrite Hc, IH.
Qed.

Lemma visible_incl (s t : jsstring) : incl t s -> Forall visible s -> Forall visible t.
Proof.
  intros Hi Hs. apply Forall_forall. intros c Hc. rewrite Forall_forall in Hs. auto.
Qed.

(** What the replacement makes of an operator element without invisible
    characters. *)
Lemma mo_replacer_visible (T C CL : jsstring) :
  Forall visible C ->
  mo_replacer (T ++ GT :: C ++ CL) [T ++ [GT]; C; CL] = T ++ GT :: trim C ++ CL.
Proof.
  intros Hc. unfold mo_replacer. cbn [group nth].
  rewrite visible_unchanged by (apply (visible_incl (incl_trim C) Hc)).
  now rewrite <- app_assoc.
Qed.

Lemma mo_replacer_head (m : jsstring) (caps : list jsstring) :
  Matches re_mo m caps -> exists y w, mo_replacer m caps = LT :: y :: w /\ upperA y = 77%N.
Proof.
  intros H. apply Matches_mo in H as (T & C & CL & -> & -> & (y & z & a & -> & Hy & _) & _).
  unfold mo_replacer. cbn [group nth app]. eauto.
Qed.

Lemma mo_replacer_LT (m : jsstring) (caps : list jsstring) :
  Matches re_mo m caps -> exists w, mo_replacer m caps = LT :: w.
Proof. intros H. destruct (mo_replacer_head H) as (y & w & -> & _). eauto. Qed.

(** The first occurrence of a code unit splits a string in one way. *)
Lemma first_split (d : N) (x x' y y' : jsstring) :
  ~ In d x -> ~ In d x' -> x ++ d :: y = x' ++ d :: y' -> x = x' /\ y = y'.
Proof.
  revert x'. induction x as [|c x IH]; intros [|c' x'] Hx Hx' E; cbn [app] in E.
  - injection E as ->. now split.
  - injection E as <- _. exfalso. apply Hx'. now left.
  - injection E as -> _. exfalso. apply Hx. now left.
  - injection E as -> E.
    destruct (IH x' (fun H => Hx (or_intror H)) (fun H => Hx' (or_intror H)) E) as [-> ->].
    now split.
Qed.

Lemma Forall_neq_notin (d : N) (x : jsstring) : Forall (fun c => c <> d) x -> ~ In d x.
Proof. intros H Hin. rewrite Forall_forall in H. now apply (H d Hin). Qed.

Lemma mo_close_head (CL : jsstring) :
  mo_close CL -> exists y z, CL = LT :: [47%N; y; z; GT] /\ ~ In LT [47%N; y; z; GT]
                             /\ ~ In GT [47%N; y; z] .
Proof.
  intros (y & z & -> & Hy & Hz). exists y, z. split; [reflexivity|]. split.
  - intros [E|[E|[E|[E|[]]]]]; try discriminate E; subst; discriminate.
  - intros [E|[E|[E|[]]]]; try discriminate E; subst; discriminate.
Qed.

(** A string that is trimmed does not end in whitespace. *)
Lemma trimmed_end (c g : jsstring) :
  trim (c ++ g) = c ++ g -> Forall (fun x => is_ws x = true) g -> g = [].
Proof.
  intros Ht Hg. destruct g as [|x g]; [reflexivity|]. exfalso.
  assert (He : trimEnd (c ++ x :: g) = c ++ x :: g).
  { unfold trim in Ht.
    destruct (trimStart_shrinks (c ++ x :: g)) as [S1 S2].
    destruct (trimEnd_shrinks (trimStart (c ++ x :: g))) as [E1 E2].
    assert (Hlen : List.length (trimStart (c ++ x :: g)) = List.length (c ++ x :: g)).
    { apply (f_equal (@List.length N)) in Ht. lia. }
    rewrite (S2 Hlen) in Ht. exact Ht. }
  assert (Hg0 : trimEnd (x :: g) = []).
  { clear -Hg. induction Hg as [|y g' Hy Hg' IH]; [reflexivity|].
    cbn [trimEnd]. now rewrite IH, Hy. }
  rewrite trimEnd_app, Hg0 in He.
  destruct (trimEnd_shrinks c) as [E1 _].
  apply (f_equal (@List.length N)) in He. rewrite length_app in He. cbn [List.length] in He.
  lia.
Qed.

Lemma visible_gap_ws (g : jsstring) :
  Forall visible g -> Forall (fun c => is_gap c = true) g ->
  Forall (fun x => is_ws x = true) g.
Proof.
  intros Hv Hg. apply Forall_forall. intros c Hc.
  rewrite Forall_forall in Hv, Hg. specialize (Hv c Hc). specialize (Hg c Hc).
  unfold visible in Hv. unfold is_gap in Hg. rewrite Hv, orb_false_r in Hg.
  repeat (apply orb_true_iff in Hg as [Hg|Hg]); apply N.eqb_eq in Hg; subst c; reflexivity.
Qed.

End Operators.

(* ================================================================== *)
(** * Operator elements stay at rest when the whitespace between tags goes *)

Section RestKept.

(** What stands after [>] in the result stood there in the input, apart
    from whitespace in front of the closing tag. *)
Lemma Squeezed_content (b2 CL : jsstring) :
  mo_close CL ->
  forall C s,
    Forall (fun c => c <> LT) C ->
    Rewrote re_between_tags (const (lit "><")) s (C ++ CL ++ b2) ->
    exists g s2, Forall (fun c => is_gap c = true) g /\ s = C ++ g ++ CL ++ s2.
Proof.
  intros Hcl. destruct (mo_close_head Hcl) as (y & z & -> & _ & Hgt).
  assert (Hclose : forall s, Rewrote re_between_tags (const (lit "><")) s
                                     ([47%N; y; z] ++ GT :: b2) ->
                             exists s2, s = [47%N; y; z; GT] ++ s2).
  { intros s H. destruct (@Squeezed_kept [47%N; y; z] s (GT :: b2) Hgt H) as (s1 & -> & H1).
    destruct (Squeezed_GT H1) as [s2 ->]. now exists s2. }
  induction C as [|c C IH]; intros s Hc H.
  - cbn [app] in H.
    destruct (@Squeezed_kept [LT] s ([47%N; y; z; GT] ++ b2)) as (s1 & -> & H1);
      [intros [E|[]]; discriminate E | exact H |].
    destruct (Hclose s1 H1) as [s2 ->]. now exists [], s2.
  - inversion Hc as [|? ? Hc1 Hc2]; subst. cbn [app] in H.
    destruct (Rewrote_inv H) as [[_ E] | [(c' & s0 & u0 & -> & E & _ & H0)
                                        | (m & caps & rest & u0 & -> & E & _ & Hm & H0)]].
    + discriminate E.
    + injection E as <- <-.
      destruct (IH s0 Hc2 H0) as (g & s2 & Hg & ->). now exists g, s2.
    + apply Matches_between_tags in Hm as (g & -> & Hgne & Hg).
      unfold const in E. cbn [lit List.map list_ascii_of_string N_of_ascii app] in E.
      injection E as -> E.
      destruct C as [|c2 C].
      * cbn [app] in E. injection E as <-.
        destruct (Hclose rest H0) as [s2 ->].
        exists g, s2. split; [exact Hg|]. cbn [app]. now rewrite <- app_assoc.
      * cbn [app] in E. injection E as -> _. inversion Hc2; subst. contradiction.
Qed.

Lemma Squeezed_element (T C CL b2 s : jsstring) :
  mo_open T -> C <> [] -> Forall (fun c => c <> LT) C -> mo_close CL ->
  Rewrote re_between_tags (const (lit "><")) s (T ++ GT :: C ++ CL ++ b2) ->
  exists g s2, Forall (fun c => is_gap c = true) g /\ s = T ++ GT :: (C ++ g) ++ CL ++ s2.
Proof.
  intros HT Hne Hc Hcl H.
  destruct (@Squeezed_kept T s (GT :: C ++ CL ++ b2) (mo_open_no_GT HT) H) as (s1 & -> & H1).
  destruct (Rewrote_inv H1) as [[_ E] | [(c' & s0 & u0 & -> & E & _ & H0)
                                       | (m & caps & rest & u0 & -> & E & _ & Hm & H0)]].
  - discriminate E.
  - injection E as <- <-.
    destruct (Squeezed_content b2 Hcl Hc H0) as (g & s2 & Hg & ->).
    exists g, s2. split; [exact Hg|]. now rewrite <- app_assoc.
  - exfalso. unfold const in E.
    cbn [lit List.map list_ascii_of_string N_of_ascii app] in E. injection E as E.
    destruct C as [|c C]; [contradiction|]. cbn [app] in E. injection E as -> _.
    inversion Hc; subst. contradiction.
Qed.

Lemma between_tags_keeps_rest (u : jsstring) :
  Forall visible u -> mo_at_rest u ->
  mo_at_rest (replaceAll re_between_tags (const (lit "><")) u).
Proof.
  intros Hv Hrest a m b caps E Hm.
  assert (H : Rewrote re_between_tags (const (lit "><")) u
                      (replaceAll re_between_tags (const (lit "><")) u))
    by (apply replaceAll_Rewrote; [reflexivity | apply between_tags_nonempty]).
  rewrite E in H. destruct (Squeezed_tail H a (m ++ b) eq_refl) as (a' & s' & Hu & Hs').
  destruct (Matches_mo Hm) as (T & C & CL & -> & -> & HT & Hne & Hc & Hcl).
  rewrite <- app_assoc in Hs'. cbn [app] in Hs'. rewrite <- app_assoc in Hs'.
  destruct (@Squeezed_element T C CL b s' HT Hne Hc Hcl Hs') as (g & s2 & Hg & ->).
  assert (Hvis : Forall visible (C ++ g)).
  { apply (@visible_incl u); [|exact Hv]. rewrite Hu. intros x Hx.
    apply in_or_app. right. apply in_or_app. right. right.
    apply in_or_app. now left. }
  assert (Hne' : C ++ g <> []) by (destruct C; [contradiction | discriminate]).
  assert (Hc' : Forall (fun c => c <> LT) (C ++ g)).
  { apply Forall_app. split; [exact Hc|]. apply Forall_forall. intros x Hx ->.
    now apply (gap_not_LT Hg). }
  pose proof (Hrest a' (T ++ GT :: (C ++ g) ++ CL) s2 _
                    ltac:(rewrite Hu, <- !app_assoc; cbn [app]; now rewrite <- !app_assoc)
                    (@mo_build T (C ++ g) CL HT Hne' Hc' Hcl)) as Hfix.
  rewrite (mo_replacer_visible T CL Hvis) in Hfix.
  apply app_inv_head in Hfix. injection Hfix as Hfix. apply app_inv_tail in Hfix.
  assert (Hg0 : g = []).
  { apply (@trimmed_end C g Hfix). apply visible_gap_ws; [|exact Hg].
    apply Forall_app in Hvis. tauto. }
  subst g. rewrite app_nil_r in Hfix, Hvis.
  transitivity (T ++ GT :: trim C ++ CL); [exact (mo_replacer_visible T CL Hvis)|].
  now rewrite Hfix.
Qed.

End RestKept.

(* ================================================================== *)
(** * The operator step brings its elements to rest *)

Section OperatorStep.

Lemma Trimmed_kept (x s u : jsstring) :
  ~ In LT x -> Rewrote re_mo mo_replacer s (x ++ u) ->
  exists s', s = x ++ s' /\ Rewrote re_mo mo_replacer s' u.
Proof. intros Hx. now apply (Rewrote_kept mo_replacer_LT). Qed.

(** An operator element at the head of the result is trimmed, or it
    stood at the head of the input as it is. *)
Lemma Trimmed_head (s b : jsstring) :
  Rewrote re_mo mo_replacer s b -> Forall visible s ->
  forall T C CL b2,
    b = T ++ GT :: C ++ CL ++ b2 ->
    ~ In GT T -> C <> [] -> Forall (fun c => c <> LT) C -> mo_close CL ->
    trim C = C \/ exists s2, s = T ++ GT :: C ++ CL ++ s2.
Proof.
  induction 1 as [|c s u Hno H IH|m caps rest u Hne Hm H IH];
    intros Hv T C CL b2 E HT HC Hc Hcl.
  - destruct T; discriminate E.
  - inversion Hv as [|? ? Hv1 Hv2]; subst. destruct T as [|t T].
    + cbn [app] in E. injection E as -> ->. right.
      destruct (@Trimmed_kept C s (CL ++ b2) (Forall_neq_notin Hc) H) as (s1 & -> & H1).
      destruct (mo_close_head Hcl) as (y & z & -> & Hlt & _).
      cbn [app] in H1.
      destruct (Rewrote_inv H1) as [[_ E] | [(c' & s0 & u0 & -> & E & _ & H0)
                                           | (m & caps & rest & u0 & -> & E & _ & Hm & H0)]].
      * discriminate E.
      * injection E as <- <-.
        destruct (@Trimmed_kept [47%N; y; z; GT] s0 b2 Hlt H0) as (s2 & -> & _).
        now exists s2.
      * exfalso. destruct (mo_replacer_head Hm) as (y' & w & Hw & Hy').
        rewrite Hw in E. cbn [app] in E. injection E as E _. subst y'. discriminate Hy'.
    + cbn [app] in E. injection E as -> ->.
      destruct (IH Hv2 T C CL b2 eq_refl (fun Hin => HT (or_intror Hin)) HC Hc Hcl)
        as [Ht | (s2 & ->)]; [now left | right; now exists s2].
  - left. destruct (Matches_mo Hm) as (Tm & Cm & CLm & -> & -> & HTm & Hnem & Hcm & Hclm).
    assert (Hvm : Forall visible Cm).
    { apply (@visible_incl ((Tm ++ GT :: Cm ++ CLm) ++ rest)); [|exact Hv].
      intros x Hx. apply in_or_app. left. apply in_or_app. right. right.
      apply in_or_app. now left. }
    assert (E' : Tm ++ GT :: trim Cm ++ CLm ++ u = T ++ GT :: C ++ CL ++ b2).
    { rewrite <- E.
      transitivity ((Tm ++ GT :: trim Cm ++ CLm) ++ u);
        [rewrite <- !app_assoc; cbn [app]; now rewrite <- !app_assoc|].
      f_equal. symmetry. exact (mo_replacer_visible Tm CLm Hvm). }
    clear E. rename E' into E.
    apply first_split in E as [_ E]; [|apply (mo_open_no_GT HTm) | exact HT].
    destruct (mo_close_head Hclm) as (y & z & -> & _).
    destruct (mo_close_head Hcl) as (y' & z' & -> & _).
    cbn [app] in E. apply first_split in E as [E _].
    + rewrite <- E. apply trim_idem.
    + apply Forall_neq_notin. apply Forall_forall. intros x Hx.
      rewrite Forall_forall in Hcm. apply Hcm. now apply (incl_trim Cm).
    + now apply Forall_neq_notin.
Qed.

(** A tail of the closing part of a replaced element does not begin
    like an element whose name begins with [m]. *)
Lemma no_tag_behind (Cm CLm l l' u w : jsstring) (y' : N) :
  Forall (fun c => c <> LT) Cm -> mo_close CLm ->
  l' ++ l = GT :: Cm ++ CLm -> l <> [] -> l ++ u = LT :: y' :: w -> upperA y' = 77%N ->
  False.
Proof.
  intros Hcm (y & z & -> & Hy & Hz) El Hl E Hy'.
  change (GT :: Cm ++ [LT; 47%N; y; z; GT]) with ((GT :: Cm) ++ [LT; 47%N; y; z; GT]) in El.
  apply app_eq_app in El as [k [[E1 E2] | [E1 E2]]].
  - (* l lies in the closing tag *)
    subst l'. destruct k as [|k0 k].
    + cbn [app] in E2. subst l. cbn [app] in E. injection E as E _.
      subst y'. discriminate Hy'.
    + destruct l as [|x l]; [contradiction|].
      assert (Hx : In x [47%N; y; z; GT]).
      { cbn [app] in E2. injection E2 as _ E2. rewrite E2.
        apply in_or_app. right. now left. }
      cbn [app] in E. injection E as -> _.
      destruct Hx as [Hx|[Hx|[Hx|[Hx|[]]]]]; try discriminate Hx.
      * subst y. discriminate Hy.
      * subst z. discriminate Hz.
  - (* l begins before the closing tag *)
    subst l. destruct k as [|x k].
    + cbn [app] in E. injection E as E _. subst y'. discriminate Hy'.
    + cbn [app] in E. injection E as -> _.
      assert (Hin : In LT (GT :: Cm)).
      { rewrite E1. apply in_or_app. right. now left. }
      destruct Hin as [Hin|Hin]; [discriminate Hin|].
      now apply (Forall_neq_notin Hcm).
Qed.

(** Nor does it open an operator element. *)
Lemma no_opening_behind (Cm CLm l l' u T w : jsstring) :
  Forall (fun c => c <> LT) Cm -> mo_close CLm ->
  l' ++ l = GT :: Cm ++ CLm -> l <> [] -> l ++ u = T ++ w -> mo_open T -> False.
Proof.
  intros Hcm Hcl El Hl E (y' & z' & a & -> & Hy' & _).
  exact (@no_tag_behind Cm CLm l l' u (z' :: a ++ w) y' Hcm Hcl El Hl E Hy').
Qed.

End OperatorStep.

(* ================================================================== *)
(** * Every operator element of the result is trimmed *)

Section OperatorRest.

(** What the operator step writes is made of code units of its input. *)
Lemma Trimmed_visible (s u : jsstring) :
  Rewrote re_mo mo_replacer s u -> Forall visible s -> Forall visible u.
Proof.
  induction 1 as [|c s u Hno H IH|m caps rest u Hne Hm H IH]; intros Hv.
  - constructor.
  - inversion Hv; subst. constructor; auto.
  - apply Forall_app in Hv as [Hv1 Hv2]. apply Forall_app. split; [|now apply IH].
    destruct (Matches_mo Hm) as (T & C & CL & -> & -> & _).
    assert (Hc : Forall visible C).
    { apply (visible_incl (s := T ++ GT :: C ++ CL)); [|exact Hv1].
      intros x Hx. apply in_or_app. right. right. apply in_or_app. now left. }
    replace (mo_replacer (T ++ GT :: C ++ CL) [T ++ [GT]; C; CL])
      with (T ++ GT :: trim C ++ CL) by (symmetry; exact (mo_replacer_visible T CL Hc)).
    apply (visible_incl (s := T ++ GT :: C ++ CL)); [|exact Hv1].
    intros x Hx. apply in_app_or in Hx as [Hx|[Hx|Hx]].
    + apply in_or_app. now left.
    + apply in_or_app. right. now left.
    + apply in_or_app. right. right. apply in_app_or in Hx as [Hx|Hx].
      * apply in_or_app. left. now apply (incl_trim C).
      * apply in_or_app. now right.
Qed.

(** An operator element at the head of the result is trimmed. *)
Lemma Trimmed_first (s b2 T C CL : jsstring) :
  Rewrote re_mo mo_replacer s (T ++ GT :: C ++ CL ++ b2) -> Forall visible s ->
  mo_open T -> C <> [] -> Forall (fun c => c <> LT) C -> mo_close CL ->
  trim C = C.
Proof.
  intros H Hv HT HC Hc Hcl.
  destruct (@Trimmed_head s _ H Hv T C CL b2 eq_refl (mo_open_no_GT HT) HC Hc Hcl)
    as [Ht | (s2 & ->)]; [exact Ht|].
  destruct (Rewrote_inv H) as [[E _] | [(c' & s0 & u0 & E & _ & Hno & _)
                                      | (m & caps & rest & u0 & E & Eu & _ & Hm & _)]].
  - destruct T; discriminate E.
  - exfalso. apply (Hno (T ++ GT :: C ++ CL) [T ++ [GT]; C; CL] s2).
    + rewrite <- E, <- !app_assoc. cbn [app]. now rewrite <- !app_assoc.
    + now apply mo_build.
  - destruct (Matches_mo Hm) as (Tm & Cm & CLm & -> & -> & HTm & Hnem & Hcm & Hclm).
    assert (Hvm : Forall visible Cm).
    { apply (visible_incl (s := T ++ GT :: C ++ CL ++ s2)); [|exact Hv]. rewrite E.
      intros x Hx. apply in_or_app. left. apply in_or_app. right. right.
      apply in_or_app. now left. }
    rewrite <- app_assoc in E. cbn [app] in E. rewrite <- app_assoc in E.
    apply first_split in E as [_ E]; [|exact (mo_open_no_GT HT) | exact (mo_open_no_GT HTm)].
    destruct (mo_close_head Hclm) as (y & z & -> & _).
    destruct (mo_close_head Hcl) as (y' & z' & -> & _).
    cbn [app] in E. apply first_split in E as [E _]; try now apply Forall_neq_notin.
    subst Cm.
    assert (E' : T ++ GT :: C ++ (LT :: [47%N; y'; z'; GT]) ++ b2
                 = Tm ++ GT :: trim C ++ (LT :: [47%N; y; z; GT]) ++ u0).
    { rewrite Eu.
      transitivity ((Tm ++ GT :: trim C ++ LT :: [47%N; y; z; GT]) ++ u0);
        [|rewrite <- !app_assoc; cbn [app]; now rewrite <- !app_assoc].
      f_equal. exact (mo_replacer_visible Tm (LT :: [47%N; y; z; GT]) Hvm). }
    apply first_split in E' as [_ E']; [|exact (mo_open_no_GT HT) | exact (mo_open_no_GT HTm)].
    cbn [app] in E'. apply first_split in E' as [E' _].
    + now symmetry.
    + now apply Forall_neq_notin.
    + apply Forall_neq_notin. apply Forall_forall. intros x Hx.
      rewrite Forall_forall in Hc. apply Hc. now apply (incl_trim C).
Qed.

(** So is every operator element anywhere in the result. *)
Lemma Trimmed_everywhere (s u : jsstring) :
  Rewrote re_mo mo_replacer s u -> Forall visible s ->
  forall a T C CL b,
    u = a ++ T ++ GT :: C ++ CL ++ b ->
    mo_open T -> C <> [] -> Forall (fun c => c <> LT) C -> mo_close CL ->
    trim C = C.
Proof.
  induction 1 as [|c s u Hno H IH|m caps rest u Hne Hm H IH];
    intros Hv a T C CL b E HT HC Hc Hcl.
  - destruct a; [destruct T|]; discriminate E.
  - destruct a as [|c' a].
    + cbn [app] in E.
      apply (@Trimmed_first (c :: s) b T C CL); try assumption.
      rewrite <- E. now apply Rw_copy.
    + cbn [app] in E. injection E as -> E. inversion Hv; subst.
      now apply (IH ltac:(assumption) a T C CL b).
  - assert (Hv2 : Forall visible rest) by (apply Forall_app in Hv; tauto).
    destruct a as [|c' a'].
    { cbn [app] in E.
      apply (@Trimmed_first (m ++ rest) b T C CL); try assumption.
      rewrite <- E. now apply Rw_match. }
    set (a := c' :: a') in *. assert (Ha : a <> []) by discriminate. clearbody a.
    destruct (Matches_mo Hm) as (Tm & Cm & CLm & -> & -> & HTm & Hnem & Hcm & Hclm).
    assert (Hvm : Forall visible Cm).
    { apply (visible_incl (s := (Tm ++ GT :: Cm ++ CLm) ++ rest)); [|exact Hv].
      intros x Hx. apply in_or_app. left. apply in_or_app. right. right.
      apply in_or_app. now left. }
    assert (Hct : Forall (fun c => c <> LT) (trim Cm)).
    { apply Forall_forall. intros x Hx. rewrite Forall_forall in Hcm. apply Hcm.
      now apply (incl_trim Cm). }
    assert (E' : (Tm ++ GT :: trim Cm ++ CLm) ++ u = a ++ T ++ GT :: C ++ CL ++ b).
    { rewrite <- E. f_equal. symmetry. exact (mo_replacer_visible Tm CLm Hvm). }
    clear E. apply app_eq_app in E' as [k [[E1 E2] | [E1 E2]]].
    + (* the element begins inside the replaced one *)
      destruct k as [|k0 k1].
      { rewrite app_nil_r in E1. cbn [app] in E2. subst u.
        now apply (IH Hv2 [] T C CL b). }
      set (k := k0 :: k1) in *. assert (Hk : k <> []) by discriminate. clearbody k.
      apply app_eq_app in E1 as [k' [[E3 E4] | [E3 E4]]].
      * (* inside the opening tag *)
        destruct k' as [|x k'].
        { exfalso. cbn [app] in E4.
          apply (@no_opening_behind (trim Cm) CLm k [] u T (GT :: C ++ CL ++ b) Hct Hclm);
            [now rewrite E4 | exact Hk | now symmetry | exact HT]. }
        subst k. rewrite <- app_assoc in E2. cbn [app] in E2. rewrite <- app_assoc in E2.
        assert (Hx : ~ In GT (x :: k')).
        { intros Hin. apply (mo_open_no_GT HTm). rewrite E3. apply in_or_app. now right. }
        apply (@first_split GT T (x :: k') _ _ (mo_open_no_GT HT) Hx) in E2 as [_ E2].
        destruct (mo_close_head Hclm) as (y & z & -> & _).
        destruct (mo_close_head Hcl) as (y' & z' & -> & _).
        cbn [app] in E2. apply first_split in E2 as [E2 _]; try now apply Forall_neq_notin.
        rewrite E2. apply trim_idem.
      * (* behind the opening tag *)
        exfalso.
        apply (@no_opening_behind (trim Cm) CLm k k' u T (GT :: C ++ CL ++ b) Hct Hclm);
          [now symmetry | exact Hk | now symmetry | exact HT].
    + (* the element begins behind the replaced one *)
      now apply (IH Hv2 k T C CL b E2).
Qed.

Lemma mo_step_at_rest (x : jsstring) :
  Forall visible x -> mo_at_rest (replaceAll re_mo mo_replacer x).
Proof.
  intros Hv a m b caps E Hm.
  assert (H : Rewrote re_mo mo_replacer x (replaceAll re_mo mo_replacer x))
    by (apply replaceAll_Rewrote; [reflexivity | apply mo_nonempty]).
  destruct (Matches_mo Hm) as (T & C & CL & -> & -> & HT & Hne & Hc & Hcl).
  assert (Hvc : Forall visible C).
  { apply (visible_incl (s := replaceAll re_mo mo_replacer x));
      [|exact (Trimmed_visible H Hv)].
    rewrite E. intros y Hy. apply in_or_app. right. apply in_or_app. left.
    apply in_or_app. right. right. apply in_or_app. now left. }
  transitivity (T ++ GT :: trim C ++ CL); [exact (mo_replacer_visible T CL Hvc)|].
  rewrite (@Trimmed_everywhere x _ H Hv a T C CL b); try assumption; [reflexivity|].
  rewrite E, <- !app_assoc. cbn [app]. now rewrite <- !app_assoc.
Qed.

End OperatorRest.

(* ================================================================== *)
(** * The last two steps of the spacing cleanup *)

Section LateSteps.

Lemma Matches_Star_all (p : N -> bool) (m : jsstring) (c : list jsstring) :
  Matches (Star p) m c -> Forall (fun x => p x = true) m.
Proof. intros H. now inversion H. Qed.

Lemma gap_place (a cl g b : jsstring) :
  a ++ (cl ++ GT :: g ++ [LT]) ++ b = (a ++ cl) ++ GT :: g ++ LT :: b.
Proof.
  rewrite <- !app_assoc. cbn [app]. rewrite <- !app_assoc. reflexivity.
Qed.

Lemma Matches_after_mo (m : jsstring) (caps : list jsstring) :
  Matches re_after_mo m caps ->
  exists g, m = lit "</mo" ++ GT :: g ++ [LT] /\ Forall (fun c => is_gap c = true) g.
Proof.
  unfold re_after_mo. intros H.
  apply Matches_seqs_cons in H as (m0 & x & c0 & y & -> & -> & H0 & H).
  apply Matches_seqs_cons in H as (m1 & x' & c1 & y' & -> & -> & H1 & H).
  apply Matches_seqs_cons in H as (m2 & x'' & c2 & y'' & -> & -> & H2 & H).
  apply Matches_seqs_nil in H as [-> ->].
  apply Matches_str in H0 as [-> _]. apply Matches_chr in H2 as [-> _].
  apply Matches_Star_all in H1. exists m1. rewrite app_nil_r.
  split; [reflexivity | exact H1].
Qed.

Lemma after_mo_nonempty (m : jsstring) (c : list jsstring) : Matches re_after_mo m c -> m <> [].
Proof. intros H. apply Matches_after_mo in H as (g & -> & _). discriminate. Qed.

(** Where no whitespace stands between [>] and [<] the step changes
    nothing. *)
Lemma after_mo_unchanged (s : jsstring) :
  tight s -> replaceAll re_after_mo (const (lit "</mo><")) s = s.
Proof.
  intros Hs. apply replaceAll_fixed; [reflexivity | apply after_mo_nonempty |].
  intros a m b caps E Hm. apply Matches_after_mo in Hm as (g & -> & Hg).
  rewrite gap_place in E. rewrite (Hs _ g b E Hg). reflexivity.
Qed.

Lemma Matches_closing (m : jsstring) (c : list jsstring) :
  Matches (Alt (str (lit "</mo>")) (Alt (str (lit "</mi>")) (Alt (str (lit "</mn>"))
          (Alt (str (lit "</mfrac>")) (Alt (str (lit "</msup>")) (Alt (str (lit "</msub>"))
          (Alt (str (lit "</munder>")) (Alt (str (lit "</mover>")) (str (lit "</mrow>"))))))))))
          m c ->
  exists cl, m = cl ++ [GT].
Proof.
  intros H.
  repeat match type of H with
         | Matches (Alt _ _) _ _ =>
             let c' := fresh "c" in
             apply Matches_Alt_inv in H as [[c' H]|[c' H]]
         end;
    apply Matches_str in H as [-> _];
    match goal with |- exists cl, ?m = _ => exists (removelast m); reflexivity end.
Qed.

Lemma Matches_after_close (m : jsstring) (caps : list jsstring) :
  Matches re_after_close m caps ->
  exists cl g, m = cl ++ GT :: g ++ [LT] /\ group 0 caps = cl ++ [GT] /\
               Forall (fun c => is_gap c = true) g.
Proof.
  unfold re_after_close. intros H.
  apply Matches_seqs_cons in H as (m0 & x & c0 & y & -> & -> & H0 & H).
  apply Matches_seqs_cons in H as (m1 & x' & c1 & y' & -> & -> & H1 & H).
  apply Matches_seqs_cons in H as (m2 & x'' & c2 & y'' & -> & -> & H2 & H).
  apply Matches_seqs_nil in H as [-> ->].
  apply Matches_Grp in H0 as [-> H0]; [|reflexivity].
  apply Matches_closing in H0 as [cl ->].
  apply Matches_chr in H2 as [-> _]. apply Matches_Star_all in H1.
  exists cl, m1. rewrite app_nil_r, <- app_assoc. cbn [app group nth].
  split; [reflexivity|]. split; [reflexivity | exact H1].
Qed.

Lemma after_close_nonempty (m : jsstring) (c : list jsstring) :
  Matches re_after_close m c -> m <> [].
Proof.
  intros H. apply Matches_after_close in H as (cl & g & -> & _). destruct cl; discriminate.
Qed.

Lemma after_close_unchanged (s : jsstring) :
  tight s -> replaceAll re_after_close (fun _ caps => group 0 caps ++ [LT]) s = s.
Proof.
  intros Hs. apply replaceAll_fixed; [reflexivity | apply after_close_nonempty |].
  intros a m b caps E Hm. apply Matches_after_close in Hm as (cl & g & -> & -> & Hg).
  rewrite gap_place in E. rewrite (Hs _ g b E Hg). now rewrite <- app_assoc.
Qed.

Lemma between_tags_unchanged (s : jsstring) :
  tight s -> replaceAll re_between_tags (const (lit "><")) s = s.
Proof.
  intros Hs. apply replaceAll_fixed; [reflexivity | apply between_tags_nonempty |].
  intros a m b caps E Hm. apply Matches_between_tags in Hm as (g & -> & Hne & Hg).
  exfalso. apply Hne. apply (Hs a g b); [|exact Hg].
  rewrite E. cbn [app]. now rewrite <- app_assoc.
Qed.

(** The whitespace steps do what the first two of them do. *)
Lemma spacing_two_steps (w : jsstring) :
  spacing w = replaceAll re_between_tags (const (lit "><")) (replaceAll re_mo mo_replacer w).
Proof.
  unfold spacing.
  rewrite (after_mo_unchanged (between_tags_tight _)).
  now rewrite (after_close_unchanged (between_tags_tight _)).
Qed.

(** They are idempotent where there are no invisible characters. *)
Lemma spacing_idem (w : jsstring) :
  Forall visible w -> spacing (spacing w) = spacing w.
Proof.
  intros Hv. rewrite (spacing_two_steps (spacing w)), (spacing_two_steps w).
  set (v := replaceAll re_between_tags (const (lit "><")) (replaceAll re_mo mo_replacer w)).
  assert (Hw : Rewrote re_mo mo_replacer w (replaceAll re_mo mo_replacer w))
    by (apply replaceAll_Rewrote; [reflexivity | apply mo_nonempty]).
  assert (Hrest : mo_at_rest v).
  { apply between_tags_keeps_rest; [exact (Trimmed_visible Hw Hv) | now apply mo_step_at_rest]. }
  assert (Hmo : replaceAll re_mo mo_replacer v = v).
  { apply replaceAll_fixed; [reflexivity | apply mo_nonempty | exact Hrest]. }
  rewrite Hmo. apply between_tags_unchanged. apply between_tags_tight.
Qed.

End LateSteps.

(* ================================================================== *)
(** * The removals of the spacing cleanup *)

Section Removals.

Lemma filter_visible (x : jsstring) :
  Forall visible x -> filter (fun c => negb (is_invisible c)) x = x.
Proof.
  induction 1 as [|c x Hc Hx IH]; [reflexivity|]. cbn [filter]. unfold visible in Hc.
  now rewrite Hc, IH.
Qed.

Lemma filter_is_visible (s : jsstring) :
  Forall visible (filter (fun c => negb (is_invisible c)) s).
Proof.
  apply Forall_forall. intros c Hc. apply filter_In in Hc as [_ Hc].
  unfold visible. now destruct (is_invisible c).
Qed.

Lemma Rewrote_incl (r : regex) (f : jsstring -> list jsstring -> jsstring) (s u : jsstring) :
  (forall m caps, Matches r m caps -> incl (f m caps) m) -> Rewrote r f s u -> incl u s.
Proof.
  intros Hf. induction 1 as [|c s u Hno H IH|m caps rest u Hne Hm H IH].
  - apply incl_refl.
  - intros x [->|Hx]; [now left | right; now apply IH].
  - apply incl_app_app; [now apply Hf | exact IH].
Qed.

Lemma requires_nonempty (r : regex) :
  requires LT r -> forall m c, Matches r m c -> m <> [].
Proof.
  intros Hr m c Hm ->. exact (@Matches_requires LT r [] c Hm Hr).
Qed.

(** What the removals leave has no invisible characters. *)
Lemma removals_visible (s : jsstring) : Forall visible (removals s).
Proof.
  unfold removals. unfold re_invisible at 1. rewrite replaceAll_class_remove.
  set (v := filter _ _).
  apply (@visible_incl v); [|apply filter_is_visible].
  eapply incl_tran.
  - apply (@Rewrote_incl re_mpadded_em mpadded_em_replacer).
    + intros m caps _. unfold mpadded_em_replacer.
      destruct (below_threshold (group 0 caps)); [intros x [] | apply incl_refl].
    + apply replaceAll_Rewrote; [reflexivity | apply (requires_nonempty requires_LT_mpadded_em)].
  - apply (@Rewrote_incl re_mpadded_zero (const [])).
    + intros m caps _ x [].
    + apply replaceAll_Rewrote;
        [reflexivity | apply (requires_nonempty requires_LT_mpadded_zero)].
Qed.

Lemma removals_shrinks : shrinks removals.
Proof.
  unfold removals.
  repeat match goal with
         | |- shrinks (fun s => replaceAll ?r ?f (@?g s)) =>
             apply (@shrinks_compose g (replaceAll r f))
         end.
  all: try (intros s; now split).
  all: apply replaceAll_shrinks.
  all: first [ apply shrinking_remove | apply shrinking_mpadded_em ].
Qed.

Lemma spacing_shrinks : shrinks spacing.
Proof.
  unfold spacing.
  repeat match goal with
         | |- shrinks (fun s => replaceAll ?r ?f (@?g s)) =>
             apply (@shrinks_compose g (replaceAll r f))
         end.
  all: try (intros s; now split).
  all: apply replaceAll_shrinks.
  all: first [ apply shrinking_mo | apply shrinking_between_tags | apply shrinking_after_mo
             | apply shrinking_after_close ].
Qed.

Lemma cleanMathMLSpacing_two_parts (s : jsstring) :
  cleanMathMLSpacing s = spacing (removals s).
Proof. reflexivity. Qed.

(** A second pass changes nothing exactly when the removals find
    nothing in the result of the first. *)
Lemma second_pass_rests (s : jsstring) :
  cleanMathMLSpacing (cleanMathMLSpacing s) = cleanMathMLSpacing s <->
  removals (cleanMathMLSpacing s) = cleanMathMLSpacing s.
Proof.
  split; intros H.
  - destruct (removals_shrinks (cleanMathMLSpacing s)) as [R1 R2].
    destruct (spacing_shrinks (removals (cleanMathMLSpacing s))) as [S1 _].
    apply R2. rewrite (cleanMathMLSpacing_two_parts (cleanMathMLSpacing s)) in H.
    apply (f_equal (@List.length N)) in H. lia.
  - rewrite (cleanMathMLSpacing_two_parts (cleanMathMLSpacing s)), H.
    rewrite (cleanMathMLSpacing_two_parts s). apply spacing_idem, removals_visible.
Qed.

End Removals.

(* ================================================================== *)
(** * Inputs in which the removals find nothing *)

Section Openings.

Lemma includes_upper (x k : jsstring) :
  includes (toUpperCaseA x) k = true <->
  exists a p b, x = a ++ p ++ b /\ toUpperCaseA p = k.
Proof.
  rewrite includes_spec. unfold occurs, toUpperCaseA. split.
  - intros (a' & b' & E). apply map_eq_app in E as (a & r & -> & Ea & Er).
    apply map_eq_app in Er as (p & b & -> & Ep & Eb). now exists a, p, b.
  - intros (a & p & b & -> & Ep). exists (List.map upperA a), (List.map upperA b).
    now rewrite !map_app, Ep.
Qed.

Lemma invisible_upper (c : N) : is_invisible (upperA c) = false -> is_invisible c = false.
Proof.
  unfold upperA. destruct (inrange 97 122 c) eqn:E; [|auto]. intros _.
  unfold inrange in E. apply andb_true_iff in E as [E1 E2]. apply N.leb_le in E1, E2.
  unfold is_invisible, inrange.
  assert (H1 : (8203 <=? c)%N = false) by (apply N.leb_gt; lia).
  assert (H2 : (c =? 65279)%N = false) by (apply N.eqb_neq; lia).
  assert (H3 : (c =? 8201)%N = false) by (apply N.eqb_neq; lia).
  assert (H4 : (c =? 8202)%N = false) by (apply N.eqb_neq; lia).
  now rewrite H1, H2, H3, H4.
Qed.

Lemma visible_upper (p k : jsstring) :
  toUpperCaseA p = k -> Forall visible k -> Forall visible p.
Proof.
  intros <- H. unfold toUpperCaseA in H. rewrite Forall_map in H.
  apply Forall_forall. intros c Hc. rewrite Forall_forall in H.
  apply invisible_upper. now apply H.
Qed.

Lemma occurrence_kept_by_filter (a p b : jsstring) :
  Forall visible p ->
  filter (fun c => negb (is_invisible c)) (a ++ p ++ b)
  = filter (fun c => negb (is_invisible c)) a ++ p
    ++ filter (fun c => negb (is_invisible c)) b.
Proof. intros Hp. now rewrite !filter_app, (filter_visible Hp). Qed.

Lemma openings_visible (k : jsstring) :
  In k [lit "<MSPACE"; lit "<MTEXT"; lit "<MPADDED"] -> Forall visible k.
Proof.
  intros [<-|[<-|[<-|[]]]]; repeat constructor.
Qed.

Lemma without_removables_spec (s : jsstring) :
  without_removables s = true <->
  forall k, In k [lit "<MSPACE"; lit "<MTEXT"; lit "<MPADDED"] ->
            forall a p b, filter (fun c => negb (is_invisible c)) s = a ++ p ++ b ->
                          toUpperCaseA p <> k.
Proof.
  unfold without_removables. cbv zeta. rewrite !andb_true_iff, !negb_true_iff. split.
  - intros [[H1 H2] H3] k Hk a p b E Ep.
    assert (Hi : includes (toUpperCaseA (filter (fun c => negb (is_invisible c)) s)) k = true)
      by (apply includes_upper; now exists a, p, b).
    destruct Hk as [<-|[<-|[<-|[]]]]; congruence.
  - intros H.
    assert (Hk : forall k, In k [lit "<MSPACE"; lit "<MTEXT"; lit "<MPADDED"] ->
                           includes (toUpperCaseA (filter (fun c => negb (is_invisible c)) s)) k
                           = false).
    { intros k Hk. apply not_true_is_false. intros Hi.
      apply includes_upper in Hi as (a & p & b & E & Ep). exact (H k Hk a p b E Ep). }
    repeat split; apply Hk; cbn [In]; auto.
Qed.

Lemma without_removables_input (s : jsstring) :
  without_removables s = true ->
  forall k, In k [lit "<MSPACE"; lit "<MTEXT"; lit "<MPADDED"] ->
            forall a p b, s = a ++ p ++ b -> toUpperCaseA p <> k.
Proof.
  intros H k Hk a p b -> Ep.
  apply (proj1 (without_removables_spec _) H k Hk
               (filter (fun c => negb (is_invisible c)) a) p
               (filter (fun c => negb (is_invisible c)) b)); [|exact Ep].
  apply occurrence_kept_by_filter. apply (@visible_upper p k Ep). now apply openings_visible.
Qed.

Lemma seqs_strI_head (w : jsstring) (l : list regex) (m : jsstring) (c : list jsstring) :
  Matches (seqs (strI w :: l)) m c ->
  exists p q, m = p ++ q /\ toUpperCaseA p = toUpperCaseA w.
Proof.
  intros H. apply Matches_seqs_cons in H as (m1 & m2 & c1 & c2 & -> & -> & H1 & _).
  apply Matches_strI_upper in H1 as [E _]. now exists m1, m2.
Qed.

(** A replacement whose matches begin with [k] changes nothing where
    [k] does not occur. *)
Lemma absent_unchanged (r : regex) (f : jsstring -> list jsstring -> jsstring)
      (k s : jsstring) :
  unanchored r = true -> k <> [] ->
  (forall m c, Matches r m c -> exists p q, m = p ++ q /\ toUpperCaseA p = k) ->
  (forall a p b, s = a ++ p ++ b -> toUpperCaseA p <> k) ->
  replaceAll r f s = s.
Proof.
  intros Hr Hk Hhead Hs. apply replaceAll_fixed; [exact Hr | |].
  - intros m c Hm ->. destruct (Hhead _ _ Hm) as (p & q & E & Ep).
    symmetry in E. apply app_eq_nil in E as [-> _]. now apply Hk.
  - intros a m b caps E Hm. exfalso. destruct (Hhead _ _ Hm) as (p & q & -> & Ep).
    apply (Hs a p (q ++ b)); [|exact Ep]. now rewrite E, <- app_assoc.
Qed.

(** On such an input the removals remove the invisible characters and
    nothing else. *)
Lemma removals_filter (s : jsstring) :
  without_removables s = true ->
  removals s = filter (fun c => negb (is_invisible c)) s.
Proof.
  intros H. unfold removals.
  assert (E1 : replaceAll re_mspace (const []) s = s).
  { apply (@absent_unchanged _ _ (lit "<MSPACE")); [reflexivity | discriminate | |].
    - intros m c Hm. exact (@seqs_strI_head _ _ m c Hm).
    - apply (without_removables_input H). cbn [In]. auto. }
  assert (E2 : replaceAll re_mtext (const []) s = s).
  { apply (@absent_unchanged _ _ (lit "<MTEXT")); [reflexivity | discriminate | |].
    - intros m c Hm. exact (@seqs_strI_head _ _ m c Hm).
    - apply (without_removables_input H). cbn [In]. auto. }
  rewrite E1, E2. unfold re_invisible at 1. rewrite replaceAll_class_remove.
  set (v := filter _ s).
  assert (Hv : forall a p b, v = a ++ p ++ b -> toUpperCaseA p <> lit "<MPADDED").
  { apply (proj1 (without_removables_spec s) H). cbn [In]. auto. }
  assert (E3 : replaceAll re_mpadded_zero (const []) v = v).
  { apply (@absent_unchanged _ _ (lit "<MPADDED")); [reflexivity | discriminate | | exact Hv].
    intros m c Hm. exact (@seqs_strI_head _ _ m c Hm). }
  rewrite E3.
  apply (@absent_unchanged _ _ (lit "<MPADDED")); [reflexivity | discriminate | | exact Hv].
  intros m c Hm. exact (@seqs_strI_head _ _ m c Hm).
Qed.

End Openings.

(* ================================================================== *)
(** * The whitespace steps make no opening of a removable element *)

Section TagKept.

Variable y : N.
Variable p' : jsstring.
Hypothesis y_m : upperA y = 77%N.
Hypothesis no_GT : ~ In GT (LT :: y :: p').
Hypothesis no_LT : ~ In LT (y :: p').

Lemma Squeezed_tag (s u : jsstring) :
  Rewrote re_between_tags (const (lit "><")) s u ->
  forall a b, u = a ++ (LT :: y :: p') ++ b ->
              exists a' b', s = a' ++ (LT :: y :: p') ++ b'.
Proof.
  intros H a b E. destruct (Squeezed_tail H a _ E) as (a' & s' & -> & H').
  destruct (@Squeezed_kept (LT :: y :: p') s' b no_GT H') as (s'' & -> & _).
  now exists a', s''.
Qed.

Lemma Trimmed_tag (s u : jsstring) :
  Rewrote re_mo mo_replacer s u -> Forall visible s ->
  forall a b, u = a ++ (LT :: y :: p') ++ b ->
              exists a' b', s = a' ++ (LT :: y :: p') ++ b'.
Proof.
  induction 1 as [|c s u Hno H IH|m caps rest u Hne Hm H IH]; intros Hv a b E.
  - destruct a; discriminate E.
  - destruct a as [|c' a].
    + cbn [app] in E. injection E as -> E.
      change (y :: p' ++ b) with ((y :: p') ++ b) in E. subst u.
      destruct (@Trimmed_kept (y :: p') s b no_LT H) as (s' & -> & _).
      now exists [], s'.
    + cbn [app] in E. injection E as -> E. inversion Hv; subst.
      destruct (IH ltac:(assumption) a b eq_refl) as (a' & b' & ->).
      now exists (c' :: a'), b'.
  - assert (Hv2 : Forall visible rest) by (apply Forall_app in Hv; tauto).
    destruct (Matches_mo Hm) as (Tm & Cm & CLm & -> & -> & HTm & Hnem & Hcm & Hclm).
    assert (Hvm : Forall visible Cm).
    { apply (visible_incl (s := (Tm ++ GT :: Cm ++ CLm) ++ rest)); [|exact Hv].
      intros x Hx. apply in_or_app. left. apply in_or_app. right. right.
      apply in_or_app. now left. }
    assert (Hct : Forall (fun c => c <> LT) (trim Cm)).
    { apply Forall_forall. intros x Hx. rewrite Forall_forall in Hcm. apply Hcm.
      now apply (incl_trim Cm). }
    assert (E' : (Tm ++ GT :: trim Cm ++ CLm) ++ u = a ++ (LT :: y :: p') ++ b).
    { rewrite <- E. f_equal. symmetry. exact (mo_replacer_visible Tm CLm Hvm). }
    clear E. apply app_eq_app in E' as [k [[E1 E2] | [E1 E2]]].
    + destruct k as [|k0 k1].
      { cbn [app] in E2.
        destruct (IH Hv2 [] b (eq_sym E2)) as (a' & b' & ->).
        exists ((Tm ++ GT :: Cm ++ CLm) ++ a'), b'. apply app_assoc. }
      set (k := k0 :: k1) in *. assert (Hk : k <> []) by discriminate. clearbody k.
      apply app_eq_app in E1 as [k' [[E3 E4] | [E3 E4]]].
      * (* inside the opening tag *)
        destruct k' as [|x k'].
        { exfalso. cbn [app] in E4. subst k. cbn [app] in E2. discriminate E2. }
        subst k. rewrite <- app_assoc in E2.
        apply app_eq_app in E2 as [j [[E5 E6] | [E5 E6]]].
        -- destruct j as [|j0 j].
           ++ rewrite app_nil_r in E5. rewrite <- E5 in E3. subst Tm.
              exists a, (GT :: Cm ++ CLm ++ rest).
              rewrite <- !app_assoc. cbn [app]. now rewrite <- !app_assoc.
           ++ exfalso. cbn [app] in E6. injection E6 as <- _.
              apply no_GT. rewrite E5. apply in_or_app. right. now left.
        -- rewrite E5 in E3. subst Tm.
           exists a, (j ++ GT :: Cm ++ CLm ++ rest).
           rewrite <- !app_assoc. cbn [app]. now rewrite <- !app_assoc.
      * (* behind the opening tag *)
        exfalso.
        apply (@no_tag_behind (trim Cm) CLm k k' u (p' ++ b) y Hct Hclm);
          [now symmetry | exact Hk | now symmetry | exact y_m].
    + destruct (IH Hv2 k b E2) as (a' & b' & ->).
      exists ((Tm ++ GT :: Cm ++ CLm) ++ a'), b'. apply app_assoc.
Qed.

End TagKept.

(* ================================================================== *)
(** * One pass is enough where the removals find nothing *)

Section Class.

Lemma tag_shape (p k : jsstring) :
  toUpperCaseA p = LT :: 77%N :: k -> Forall (fun c => inrange 65 90 c = true) k ->
  exists y p', p = LT :: y :: p' /\ upperA y = 77%N /\
               ~ In GT (LT :: y :: p') /\ ~ In LT (y :: p').
Proof.
  intros E Hk. destruct p as [|x [|y p']]; try discriminate E.
  cbn [toUpperCaseA List.map] in E. injection E as Ex Ey Ek.
  apply upperA_outside in Ex; [|reflexivity]. subst x.
  assert (Hp : forall d, inrange 65 90 d = false -> upperA d = d -> ~ In d p').
  { intros d Hd Hu Hin. apply (in_map upperA) in Hin. rewrite Ek, Hu in Hin.
    rewrite Forall_forall in Hk. apply Hk in Hin. congruence. }
  exists y, p'. split; [reflexivity|]. split; [exact Ey|]. split.
  - intros [Hx|[Hx|Hx]]; [discriminate Hx | subst y; discriminate Ey |].
    now apply (Hp GT).
  - intros [Hx|Hx]; [subst y; discriminate Ey |]. now apply (Hp LT).
Qed.

Lemma openings_shape (k p : jsstring) :
  In k [lit "<MSPACE"; lit "<MTEXT"; lit "<MPADDED"] -> toUpperCaseA p = k ->
  exists y p', p = LT :: y :: p' /\ upperA y = 77%N /\
               ~ In GT (LT :: y :: p') /\ ~ In LT (y :: p').
Proof.
  intros [<-|[<-|[<-|[]]]] E.
  - apply (@tag_shape p (lit "SPACE")); [exact E | repeat constructor].
  - apply (@tag_shape p (lit "TEXT")); [exact E | repeat constructor].
  - apply (@tag_shape p (lit "PADDED")); [exact E | repeat constructor].
Qed.

Lemma spacing_visible (w : jsstring) : Forall visible w -> Forall visible (spacing w).
Proof.
  intros Hv. rewrite spacing_two_steps.
  assert (Hw : Rewrote re_mo mo_replacer w (replaceAll re_mo mo_replacer w))
    by (apply replaceAll_Rewrote; [reflexivity | apply mo_nonempty]).
  apply (visible_incl (s := replaceAll re_mo mo_replacer w)); [|exact (Trimmed_visible Hw Hv)].
  apply (@Rewrote_incl re_between_tags (const (lit "><"))).
  - intros m caps Hm. apply Matches_between_tags in Hm as (g & -> & _).
    intros x [<-|[<-|[]]]; [now left | right; apply in_or_app; right; now left].
  - apply replaceAll_Rewrote; [reflexivity | apply between_tags_nonempty].
Qed.

(** The result of a pass on such an input is such an input. *)
Lemma clean_without_removables (s : jsstring) :
  without_removables s = true -> without_removables (cleanMathMLSpacing s) = true.
Proof.
  intros H. apply without_removables_spec. intros k Hk a p b E Ep.
  rewrite cleanMathMLSpacing_two_parts, (@removals_filter s H) in E.
  set (v := filter (fun c => negb (is_invisible c)) s) in *.
  assert (Hv : Forall visible v) by apply filter_is_visible.
  rewrite (@filter_visible _ (@spacing_visible v Hv)), spacing_two_steps in E.
  destruct (@openings_shape k p Hk Ep) as (y & p' & -> & Hy & Hgt & Hlt).
  assert (Hw : Rewrote re_mo mo_replacer v (replaceAll re_mo mo_replacer v))
    by (apply replaceAll_Rewrote; [reflexivity | apply mo_nonempty]).
  assert (Hb : Rewrote re_between_tags (const (lit "><")) (replaceAll re_mo mo_replacer v)
                       (replaceAll re_between_tags (const (lit "><"))
                                   (replaceAll re_mo mo_replacer v)))
    by (apply replaceAll_Rewrote; [reflexivity | apply between_tags_nonempty]).
  destruct (@Squeezed_tag y p' Hgt _ _ Hb a b E) as (a1 & b1 & E1).
  destruct (@Trimmed_tag y p' Hy Hgt Hlt _ _ Hw Hv a1 b1 E1) as (a2 & b2 & E2).
  exact (proj1 (without_removables_spec s) H k Hk a2 _ b2 E2 Ep).
Qed.

(** On such an input one pass brings the string to rest. *)
Lemma one_pass_rests (s : jsstring) :
  without_removables s = true ->
  cleanMathMLSpacing (cleanMathMLSpacing s) = cleanMathMLSpacing s.
Proof.
  intros H. apply second_pass_rests.
  rewrite (@removals_filter _ (@clean_without_removables s H)).
  apply filter_visible. rewrite cleanMathMLSpacing_two_parts.
  apply spacing_visible, removals_visible.
Qed.

End Class.

(* ================================================================== *)
(** * The spacing cleanup comes to rest *)

(** C4, amended.  A pass of the cleanup never lengthens the string and a
    pass that keeps the length keeps the string; so the cleanup, applied
    as many times as the string is long, has come to rest: one more pass
    changes nothing.  A second pass changes the result of the first
    exactly when the five removals still find something in it.  On an
    input that, its invisible characters apart, has no [<mspace], no
    [<mtext] and no [<mpadded] in it, in any letter case, they find
    nothing: there the cleanup is idempotent as stated; text without
    [<] is such an input. *)
Theorem C4_cleanup_comes_to_rest :
  (forall s, List.length (cleanMathMLSpacing s) <= List.length s /\
             (List.length (cleanMathMLSpacing s) = List.length s ->
              cleanMathMLSpacing s = s)) /\
  (forall s, cleanMathMLSpacing (iterate cleanMathMLSpacing (List.length s) s)
             = iterate cleanMathMLSpacing (List.length s) s) /\
  (forall s, cleanMathMLSpacing (cleanMathMLSpacing s) = cleanMathMLSpacing s <->
             removals (cleanMathMLSpacing s) = cleanMathMLSpacing s) /\
  (forall s, without_removables s = true ->
             cleanMathMLSpacing (cleanMathMLSpacing s) = cleanMathMLSpacing s) /\
  (forall s, ~ In LT s ->
             cleanMathMLSpacing (cleanMathMLSpacing s) = cleanMathMLSpacing s).
Proof.
  split; [exact cleanMathMLSpacing_shrinks|]. split; [|split; [|split]].
  - intros s. apply (@iterate_stabilises _ cleanMathMLSpacing_shrinks). apply Nat.le_refl.
  - exact second_pass_rests.
  - exact one_pass_rests.
  - intros s Hs. rewrite (@cleanMathMLSpacing_text s Hs).
    rewrite cleanMathMLSpacing_text.
    + apply filter_idem.
    + intros H. apply filter_In in H as [H _]. contradiction.
Qed.

Lemma C4_cleanup_comes_to_rest_witness :
  (without_removables scenario_input = true /\
   cleanMathMLSpacing scenario_input = scenario_output /\
   cleanMathMLSpacing scenario_input <> scenario_input /\
   cleanMathMLSpacing (cleanMathMLSpacing scenario_input)
   = cleanMathMLSpacing scenario_input /\
   removals (cleanMathMLSpacing scenario_input) = cleanMathMLSpacing scenario_input) /\
  (~ In LT (lit "a " ++ [8203%N] ++ lit " b") /\
   cleanMathMLSpacing (lit "a " ++ [8203%N] ++ lit " b") = lit "a  b" /\
   cleanMathMLSpacing (cleanMathMLSpacing (lit "a " ++ [8203%N] ++ lit " b"))
   = cleanMathMLSpacing (lit "a " ++ [8203%N] ++ lit " b")).
Proof.
  assert (H : without_removables scenario_input = true) by (vm_compute; reflexivity).
  assert (Ho : cleanMathMLSpacing scenario_input = scenario_output)
    by (vm_compute; reflexivity).
  assert (Hd : scenario_output <> scenario_input) by (vm_compute; discriminate).
  assert (Ht : ~ In LT (lit "a " ++ [8203%N] ++ lit " b")).
  { intros Hin. vm_compute in Hin. repeat destruct Hin as [Hin|Hin]; discriminate Hin || exact Hin. }
  assert (Hc : cleanMathMLSpacing (lit "a " ++ [8203%N] ++ lit " b") = lit "a  b")
    by (vm_compute; reflexivity).
  destruct C4_cleanup_comes_to_rest as (_ & _ & Hiff & Hclass & Htext).
  split.
  - split; [exact H|]. split; [exact Ho|]. split; [now rewrite Ho|].
    split; [exact (Hclass scenario_input H)|].
    exact (proj1 (Hiff scenario_input) (Hclass scenario_input H)).
  - split; [exact Ht|]. split; [exact Hc|]. exact (Htext _ Ht).
Defined.

(* ================================================================== *)
(** * What a scan reaches and what it leaves alone *)

Section ScanReach.

Lemma scan_evolves (st : State) :
  wf_timers (timers st) -> evolves (document st) (document (scan st)).
Proof.
  intros Hwf. unfold scan. rewrite processExistingEquations_fold.
  destruct (@fold_scan_props scan_selectors st Hwf) as (Hev & _ & Hwf' & _).
  eapply evolves_trans; [exact Hev|].
  now apply run_batches_props.
Qed.

Lemma scan_reaches (st : State) (sel : selector) (q : path) :
  wf_timers (timers st) ->
  In sel scan_selectors ->
  In q (document_querySelectorAll (document st) sel) ->
  settled (document (scan st)) q = true.
Proof.
  intros Hwf Hsel Hq.
  destruct (@scan_selectors_structural _ Hsel) as (s & -> & Hs).
  pose proof (@scan_evolves st Hwf) as Hev.
  unfold document_querySelectorAll in Hq. apply filter_In in Hq as [Hin Hm].
  unfold unprocessed in Hm. rewrite matches_single in Hm.
  destruct (get_elem (document st) q) as [e|] eqn:He; [|discriminate].
  destruct (@evolves_get_elem _ _ _ _ Hev He) as (e' & He' & Hshape).
  destruct (hasAttribute e' PROCESSED) eqn:Hp.
  - unfold settled. now rewrite He', Hp.
  - apply (proj2 (@scan_settles st Hwf) (unprocessed s) q Hsel).
    unfold document_querySelectorAll. apply filter_In. split.
    + unfold all_elements in *. destruct Hev as [Hel _]. now rewrite Hel.
    + unfold unprocessed. rewrite matches_single, He'.
      cbn [match_compound forallb match_simple] in *.
      rewrite (Hs _ _ Hshape), Hp.
      apply andb_true_iff in Hm as [Hm _]. now rewrite Hm.
Qed.

(** What [settled] says of an element of the page, in the page as it
    was before the scan. *)
Lemma settled_cases (doc doc' : node) (q : path) (e : elem) :
  evolves doc doc' -> get_elem doc q = Some e -> settled doc' q = true ->
  is_processed doc' q = true \/
  (exists c, findMathContainer doc q = Some c /\ is_processed doc' c = true) \/
  (classList_contains e (lit "katex-html") = true /\
   closest doc q (sel_class "katex") = None).
Proof.
  intros Hev He Hs. unfold settled in Hs.
  destruct (evolves_get_elem _ Hev He) as (e' & He' & Hshape).
  rewrite He' in Hs. apply orb_true_iff in Hs as [Hs|Hs].
  - left. unfold is_processed. now rewrite He'.
  - rewrite (findMathContainer_stable q Hev) in Hs.
    destruct (findMathContainer doc q) as [c|] eqn:Ec; [right; left; now exists c|].
    right. right.
    destruct (classList_contains e (lit "katex-html")) eqn:Hk.
    + split; [reflexivity|]. now rewrite <- (@findMathContainer_katex_html doc q e He Hk).
    + destruct (@findMathContainer_total doc q e He Hk) as [c Hc]. congruence.
Qed.

End ScanReach.

(** X10.  A scan leaves behind no element it could set up.  After the
    scan and its deferred batches no batch is pending, and every
    element that one of the scan's selectors returns before the scan is
    marked as processed, or the container it resolves to is marked; the
    one exception is an element of class [katex-html] with no ancestor
    of class [katex], for which [processBatch] does nothing. *)
Theorem X10_scan_reaches_every_match :
  forall st, wf_timers (timers st) ->
    next_batch (timers (scan st)) = None /\
    forall sel q, In sel scan_selectors ->
                  In q (document_querySelectorAll (document st) sel) ->
                  is_processed (document (scan st)) q = true \/
                  (exists c, findMathContainer (document st) q = Some c /\
                             is_processed (document (scan st)) c = true) \/
                  (has_class (document st) q "katex-html" = true /\
                   closest (document st) q (sel_class "katex") = None).
Proof.
  intros st Hwf. split.
  - now apply scan_settles.
  - intros sel q Hsel Hq.
    pose proof (@scan_reaches st sel q Hwf Hsel Hq) as Hs.
    unfold document_querySelectorAll in Hq. apply filter_In in Hq as [_ Hm].
    destruct (@scan_selectors_structural _ Hsel) as (s & -> & _).
    unfold unprocessed in Hm. rewrite matches_single in Hm.
    destruct (get_elem (document st) q) as [e|] eqn:He; [|discriminate].
    unfold has_class. rewrite He.
    exact (@settled_cases _ _ q e (@scan_evolves st Hwf) He Hs).
Qed.

Lemma X10_scan_reaches_witness :
  wf_timers (timers (initial_state katex_page)) /\
  In [0; 0] (document_querySelectorAll (document (initial_state katex_page))
               (unprocessed (SClass (lit "katex-html")))) /\
  next_batch (timers (scan (initial_state katex_page))) = None /\
  (is_processed (document (scan (initial_state katex_page))) [0; 0] = true \/
   (exists c, findMathContainer (document (initial_state katex_page)) [0; 0] = Some c /\
              is_processed (document (scan (initial_state katex_page))) c = true) \/
   (has_class (document (initial_state katex_page)) [0; 0] "katex-html" = true /\
    closest (document (initial_state katex_page)) [0; 0] (sel_class "katex") = None)).
Proof.
  assert (Hwf : wf_timers (timers (initial_state katex_page)))
    by (intros d els i b []).
  assert (Hin : In [0; 0] (document_querySelectorAll (document (initial_state katex_page))
                             (unprocessed (SClass (lit "katex-html")))))
    by (vm_compute; now left).
  split; [exact Hwf|]. split; [exact Hin|].
  destruct (X10_scan_reaches_every_match (initial_state katex_page) Hwf) as [H1 H2].
  split; [exact H1|].
  exact (H2 (unprocessed (SClass (lit "katex-html"))) [0; 0] (or_introl eq_refl) Hin).
Defined.

(* ================================================================== *)
(** * The frame of detection *)

Section Frame.

Lemma textContent_update (f : elem -> elem) (n : node) :
  forall p, textContent (update n p f) = textContent n.
Proof.
  induction n as [d|e ch IH] using node_induction; intros p; [reflexivity|].
  destruct p as [|i p]; [reflexivity|]. cbn [update textContent]. f_equal.
  revert i. induction IH as [|c l Hc Hl IHl]; intros i; [reflexivity|].
  destruct i as [|i]; cbn [update_nth List.map]; f_equal; auto.
Qed.

Lemma untouched_refl (st : State) : untouched st st.
Proof. now repeat split. Qed.

Lemma untouched_trans (a b c : State) : untouched a b -> untouched b c -> untouched a c.
Proof.
  intros (H1 & H2 & H3) (K1 & K2 & K3). repeat split; congruence.
Qed.

Lemma untouched_update_element (p : path) (f : elem -> elem) (st : State) :
  untouched st (update_element p f st).
Proof.
  repeat split; cbn [update_element with_document document].
  - apply textContent_update.
  - apply elements_update.
Qed.

Lemma untouched_handlers (h l : list path) (st : State) : untouched st (with_handlers h l st).
Proof. now repeat split. Qed.

Lemma untouched_processedElements (l : list path) (st : State) :
  untouched st (with_processedElements l st).
Proof. now repeat split. Qed.

Lemma untouched_timers (t : list (nat * task)) (st : State) : untouched st (with_timers t st).
Proof. now repeat split. Qed.

Lemma untouched_setupEquation_with (redirect : path -> State -> State) :
  (forall c st, untouched st (redirect c st)) ->
  forall equation st, untouched st (setupEquation_with redirect equation st).
Proof.
  intros Hr equation st. unfold setupEquation_with.
  destruct (get_elem (document st) equation) as [e|]; [|apply untouched_refl].
  destruct (classList_contains e MATH_COPY_ELEMENT); [apply untouched_refl|].
  destruct (match parentElement equation with
            | Some parent => has_class (document st) parent "math-copy-element"
            | None => false
            end); [apply untouched_refl|].
  assert (Ha : untouched st
                 (setupEquationListeners equation
                    (update_element equation
                       (setAttribute (lit "aria-label")
                          (lit "Mathematical equation - click to copy"))
                       (update_element equation (setAttribute (lit "role") (lit "button"))
                          (update_element equation (setAttribute (lit "tabindex") (lit "0"))
                             (update_element equation (classList_add MATH_COPY_ELEMENT) st)))))).
  { unfold setupEquationListeners.
    repeat (eapply untouched_trans;
            [|first [apply untouched_handlers | apply untouched_update_element]]).
    apply untouched_refl. }
  destruct (classList_contains e (lit "katex")); [exact Ha|].
  destruct (classList_contains e (lit "katex-html")); [|exact Ha].
  destruct (closest (document st) equation (sel_class "katex")); [|apply untouched_refl].
  destruct (path_eqb p equation); [apply untouched_refl | apply Hr].
Qed.

Lemma untouched_setupEquation (equation : path) (st : State) :
  untouched st (setupEquation equation st).
Proof.
  apply untouched_setupEquation_with. apply untouched_setupEquation_with.
  intros c st'. apply untouched_refl.
Qed.

Lemma untouched_process_element (st : State) (element : path) :
  untouched st (process_element st element).
Proof.
  unfold process_element, mark_processed, remember.
  repeat match goal with
         | |- untouched _ (match ?x with _ => _ end) => destruct x
         | |- untouched _ (if ?x then _ else _) => destruct x
         end;
    try apply untouched_refl;
    repeat (eapply untouched_trans;
            [|first [apply untouched_processedElements | apply untouched_update_element
                    | apply untouched_setupEquation]]);
    apply untouched_refl.
Qed.

Lemma untouched_fold_process (l : list path) :
  forall st, untouched st (fold_left process_element l st).
Proof.
  induction l as [|x l IH]; intros st; [apply untouched_refl|]. cbn [fold_left].
  eapply untouched_trans; [apply untouched_process_element | apply IH].
Qed.

Lemma untouched_processBatch (els : list path) (i b : nat) (st : State) :
  untouched st (processBatch els i b st).
Proof.
  unfold processBatch. destruct (Nat.leb _ _); [apply untouched_refl|].
  destruct (Nat.ltb _ _); [|apply untouched_fold_process].
  unfold setTimeout.
  eapply untouched_trans; [apply untouched_fold_process | apply untouched_timers].
Qed.

Lemma untouched_scan_selector (st : State) (sel : selector) :
  untouched st (scan_selector st sel).
Proof.
  unfold scan_selector. destruct (document_querySelectorAll _ _);
    [apply untouched_refl | apply untouched_processBatch].
Qed.

Lemma untouched_fold_scan (sels : list selector) :
  forall st, untouched st (fold_left scan_selector sels st).
Proof.
  induction sels as [|x l IH]; intros st; [apply untouched_refl|]. cbn [fold_left].
  eapply untouched_trans; [apply untouched_scan_selector | apply IH].
Qed.

Lemma untouched_run_batches (fuel : nat) :
  forall st, untouched st (run_batches fuel st).
Proof.
  induction fuel as [|fuel IH]; intros st; [apply untouched_refl|]. cbn [run_batches].
  destruct (next_batch (timers st)) as [[[[els i] b] q]|]; [|apply untouched_refl].
  eapply untouched_trans; [|apply IH].
  eapply untouched_trans; [apply untouched_timers | apply untouched_processBatch].
Qed.

Lemma untouched_scan (st : State) : untouched st (scan st).
Proof.
  unfold scan. eapply untouched_trans; [|apply untouched_run_batches].
  rewrite processExistingEquations_fold. apply untouched_fold_scan.
Qed.

End Frame.

(** X11.  Detection only writes attributes, handlers and timers: a scan
    with all its batches keeps the selection, the shift flag, the
    current format, the clipboard and its history, the error counter and
    the messages sent, and it keeps the text of the page and its tree of
    elements. *)
Theorem X11_scan_frame :
  forall st,
    session (scan st) = session st /\
    textContent (document (scan st)) = textContent (document st) /\
    elements (document (scan st)) = elements (document st).
Proof. intros st. apply untouched_scan. Qed.

(* ================================================================== *)
(** * [setupEquation] runs once *)

Section SetupOnce.

Lemma attach_document (p : path) (st : State) :
  document (attach p st) =
  update (update (update (update (document st) p (classList_add MATH_COPY_ELEMENT))
                         p (setAttribute (lit "tabindex") (lit "0")))
                 p (setAttribute (lit "role") (lit "button")))
         p (setAttribute (lit "aria-label") (lit "Mathematical equation - click to copy")).
Proof. reflexivity. Qed.

Lemma attach_evolves_doc (p : path) (st : State) :
  evolves (document st) (document (attach p st)).
Proof. rewrite attach_document. apply attach_evolves. Qed.

Lemma get_elem_attach_other (p q : path) (st : State) :
  path_eqb q p = false -> get_elem (document (attach p st)) q = get_elem (document st) q.
Proof.
  intros H. rewrite attach_document, !get_elem_update, H.
  now destruct (get_elem (document st) q).
Qed.

Lemma get_elem_attach_self (p : path) (st : State) (e : elem) :
  get_elem (document st) p = Some e ->
  exists e', get_elem (document (attach p st)) p = Some e' /\
             classList_contains e' MATH_COPY_ELEMENT = true.
Proof.
  intros H. rewrite attach_document, !get_elem_update, H, path_eqb_refl.
  cbn [option_map]. eexists. split; [reflexivity|].
  unfold classList_contains.
  rewrite !classList_setAttribute by reflexivity.
  change (mem MATH_COPY_ELEMENT (classList (classList_add MATH_COPY_ELEMENT e)))
    with (classList_contains (classList_add MATH_COPY_ELEMENT e) MATH_COPY_ELEMENT).
  rewrite classList_contains_add by apply token_MATH_COPY_ELEMENT.
  now rewrite streq_refl, orb_true_r.
Qed.

(** Once the element carries the class, the call returns at once. *)
Lemma setupEquation_with_set_up (R : path -> State -> State) (p : path) (st : State)
      (e : elem) :
  get_elem (document st) p = Some e ->
  classList_contains e MATH_COPY_ELEMENT = true ->
  setupEquation_with R p st = st.
Proof. intros He Hc. unfold setupEquation_with. now rewrite He, Hc. Qed.

Lemma setupEquation_with_attached (R : path -> State -> State) (p : path) (st : State)
      (e : elem) :
  get_elem (document st) p = Some e ->
  setupEquation_with R p (attach p st) = attach p st.
Proof.
  intros He. destruct (@get_elem_attach_self p st e He) as (e' & He' & Hc).
  now apply (@setupEquation_with_set_up R p (attach p st) e' He').
Qed.

Lemma setupEquation_with_cases (R : path -> State -> State) (p : path) (st : State) :
  setupEquation_with R p st = st \/
  (exists e, get_elem (document st) p = Some e /\ setupEquation_with R p st = attach p st) \/
  (exists e k,
      get_elem (document st) p = Some e /\
      classList_contains e MATH_COPY_ELEMENT = false /\
      match parentElement p with
      | Some parent => has_class (document st) parent "math-copy-element"
      | None => false
      end = false /\
      classList_contains e (lit "katex") = false /\
      classList_contains e (lit "katex-html") = true /\
      closest (document st) p (sel_class "katex") = Some k /\
      path_eqb k p = false /\
      setupEquation_with R p st = R k st).
Proof.
  unfold setupEquation_with.
  destruct (get_elem (document st) p) as [e|] eqn:He; [|now left].
  destruct (classList_contains e MATH_COPY_ELEMENT) eqn:Hc; [now left|].
  destruct (match parentElement p with
            | Some parent => has_class (document st) parent "math-copy-element"
            | None => false
            end) eqn:Hp; [now left|].
  destruct (classList_contains e (lit "katex")) eqn:Hk; [right; left; now exists e|].
  destruct (classList_contains e (lit "katex-html")) eqn:Hh; [|right; left; now exists e].
  destruct (closest (document st) p (sel_class "katex")) as [k|] eqn:Ek; [|now left].
  destruct (path_eqb k p) eqn:Hkp; [now left|].
  right. right. exists e, k. now repeat split.
Qed.

Lemma inner_cases (k : path) (st : State) :
  setupEquation_with (fun _ st' => st') k st = st \/
  exists e, get_elem (document st) k = Some e /\
            setupEquation_with (fun _ st' => st') k st = attach k st.
Proof.
  destruct (setupEquation_with_cases (fun _ st' => st') k st)
    as [H | [H | (e & k' & _ & _ & _ & _ & _ & _ & _ & H)]]; auto.
Qed.

Lemma has_class_attach_other (p q : path) (st : State) :
  path_eqb q p = false ->
  has_class (document (attach p st)) q "math-copy-element"
  = has_class (document st) q "math-copy-element".
Proof. intros H. unfold has_class. now rewrite get_elem_attach_other. Qed.

Lemma closest_katex_attach (p q : path) (st : State) :
  closest (document (attach q st)) p (sel_class "katex")
  = closest (document st) p (sel_class "katex").
Proof.
  apply closest_stable.
  - apply attach_evolves_doc.
  - apply flat_one.
  - apply (structural_class "katex"). cbn. tauto.
Qed.

Lemma setupEquation_idem (p : path) (st : State) :
  setupEquation p (setupEquation p st) = setupEquation p st.
Proof.
  unfold setupEquation.
  destruct (setupEquation_with_cases (setupEquation_with (fun _ st' => st')) p st)
    as [H | [(e & He & H) | (e & k & He & Hc & Hp & Hk & Hh & Ek & Hkp & H)]].
  - now rewrite !H.
  - rewrite H. now apply (@setupEquation_with_attached _ p st e He).
  - rewrite H. destruct (inner_cases k st) as [Hi | (ek & Hek & Hi)].
    + rewrite Hi. rewrite H. exact Hi.
    + rewrite Hi.
      assert (Hpk : path_eqb p k = false).
      { destruct (path_eqb p k) eqn:E; [|reflexivity].
        apply path_eqb_eq in E. subst k. now rewrite path_eqb_refl in Hkp. }
      unfold setupEquation_with at 1.
      rewrite (@get_elem_attach_other k p st Hpk), He, Hc.
      destruct (parentElement p) as [pp|] eqn:Epp.
      * destruct (path_eqb pp k) eqn:Eppk.
        -- apply path_eqb_eq in Eppk. subst pp.
           destruct (@get_elem_attach_self k st ek Hek) as (e' & He' & Hc').
           unfold has_class. rewrite He'.
           change (lit "math-copy-element") with MATH_COPY_ELEMENT. now rewrite Hc'.
        -- rewrite (@has_class_attach_other k pp st Eppk), Hp, Hk, Hh.
           rewrite closest_katex_attach, Ek, Hkp.
           now apply (@setupEquation_with_attached _ k st ek Hek).
      * rewrite Hk, Hh. rewrite closest_katex_attach, Ek, Hkp.
        now apply (@setupEquation_with_attached _ k st ek Hek).
Qed.

End SetupOnce.

(** X12.  [setupEquation] is idempotent: a second call on the same
    element changes nothing, so an element never gets the class, the
    accessibility attributes or the listeners twice. *)
Theorem X12_setupEquation_idempotent :
  forall equation st, setupEquation equation (setupEquation equation st)
                      = setupEquation equation st.
Proof. intros equation st. apply setupEquation_idem. Qed.

(* ================================================================== *)
(** * Selection *)

Section Selection.

Lemma mem_filter (g : jsstring -> bool) (c : jsstring) (l : list jsstring) :
  mem c (filter g l) = (mem c l && g c)%bool.
Proof.
  induction l as [|x l IH]; [reflexivity|]. cbn [filter].
  destruct (g x) eqn:Eg; rewrite ?mem_cons, IH.
  - destruct (streq c x) eqn:Ec; [|reflexivity].
    apply streq_eq in Ec. subst x. now rewrite Eg.
  - destruct (streq c x) eqn:Ec; [|reflexivity].
    apply streq_eq in Ec. subst x. rewrite Eg. now rewrite !andb_false_r.
Qed.

(** Removing a token changes the membership of that token only. *)
Lemma classList_contains_remove (t c : jsstring) (e : elem) :
  classList_contains (classList_remove [t] e) c
  = (classList_contains e c && negb (streq c t))%bool.
Proof.
  unfold classList_contains, classList_remove.
  set (ts' := filter (fun x => negb (mem x [t])) (classList e)).
  assert (Hts' : Forall token_ok ts').
  { unfold ts'. apply Forall_forall. intros x Hx. apply filter_In in Hx as [Hx _].
    revert x Hx. apply Forall_forall, classList_tokens. }
  assert (Hm : mem c ts' = (mem c (classList e) && negb (streq c t))%bool).
  { unfold ts'. rewrite mem_filter. cbn [mem existsb]. now rewrite orb_false_r. }
  assert (Hset : mem c (classList (setAttribute (lit "class") (join [32%N] ts') e))
                 = (mem c (classList e) && negb (streq c t))%bool).
  { unfold classList at 1. rewrite getAttribute_setAttribute, streq_refl.
    rewrite mem_dedup, split_join by assumption. cbn [mem existsb negb].
    now rewrite andb_true_r. }
  destruct (getAttribute e (lit "class")) as [v|] eqn:Ea; [exact Hset|].
  destruct ts' as [|x ts'']; [|exact Hset].
  unfold classList. now rewrite Ea.
Qed.

Lemma path_eqb_sym (p q : path) : path_eqb p q = path_eqb q p.
Proof. unfold path_eqb. apply andb_comm. Qed.

Lemma set_has_app (q : path) (l1 l2 : list path) :
  set_has q (l1 ++ l2) = (set_has q l1 || set_has q l2)%bool.
Proof. unfold set_has. apply existsb_app. Qed.

Lemma set_has_add (p q : path) (l : list path) :
  set_has q (set_add p l) = (set_has q l || path_eqb q p)%bool.
Proof.
  unfold set_add. destruct (existsb (path_eqb p) l) eqn:E.
  - destruct (path_eqb q p) eqn:Eq; [|now rewrite orb_false_r].
    apply path_eqb_eq in Eq. subst q. unfold set_has. now rewrite E.
  - rewrite set_has_app. unfold set_has at 2. cbn [existsb]. now rewrite orb_false_r.
Qed.

Lemma set_has_delete (p q : path) (l : list path) :
  set_has q (set_delete p l) = (set_has q l && negb (path_eqb q p))%bool.
Proof.
  unfold set_has, set_delete. induction l as [|x l IH]; [reflexivity|].
  cbn [filter existsb]. destruct (path_eqb p x) eqn:E; cbn [negb existsb]; rewrite IH.
  - apply path_eqb_eq in E. subst x.
    destruct (path_eqb q p); cbn [negb orb]; [now rewrite andb_false_r | reflexivity].
  - destruct (path_eqb q x) eqn:Eq; [|reflexivity]. cbn [orb].
    apply path_eqb_eq in Eq. subst x. rewrite path_eqb_sym, E. reflexivity.
Qed.

Lemma set_has_In (p : path) (l : list path) : set_has p l = true <-> In p l.
Proof.
  unfold set_has. rewrite existsb_exists. split.
  - intros (x & Hx & E). apply path_eqb_eq in E. now subst.
  - intros H. exists p. split; [exact H | apply path_eqb_refl].
Qed.

Lemma set_delete_absent (p : path) (l : list path) :
  set_has p l = false -> set_delete p l = l.
Proof.
  unfold set_has, set_delete. induction l as [|x l IH]; [reflexivity|].
  cbn [existsb filter]. intros H. apply orb_false_iff in H as [H1 H2].
  rewrite H1. cbn [negb]. now rewrite IH.
Qed.

Lemma NoDup_set_add (p : path) (l : list path) : NoDup l -> NoDup (set_add p l).
Proof.
  intros H. unfold set_add. destruct (existsb (path_eqb p) l) eqn:E; [exact H|].
  apply NoDup_app; [exact H | repeat constructor; intros [] |].
  intros x Hx [<-|[]].
  assert (Hs : set_has p l = true) by now apply set_has_In.
  unfold set_has in Hs. congruence.
Qed.

Lemma NoDup_set_delete (p : path) (l : list path) : NoDup l -> NoDup (set_delete p l).
Proof. apply NoDup_filter. Qed.

Lemma token_selected : token_ok (lit "math-copy-selected").
Proof. split; [discriminate | reflexivity]. Qed.

Lemma document_notifyBackground (env : Env) (m : message) (st : State) :
  document (notifyBackground env m st) = document st.
Proof. unfold notifyBackground. now destruct (runtime_alive env). Qed.

Lemma selected_notifyBackground (env : Env) (m : message) (st : State) :
  selectedEquations (notifyBackground env m st) = selectedEquations st.
Proof. unfold notifyBackground. now destruct (runtime_alive env). Qed.

Lemma toggle_selected (env : Env) (p : path) (st : State) :
  selectedEquations (toggleEquationSelection env p st) =
  if set_has p (selectedEquations st) then set_delete p (selectedEquations st)
  else set_add p (selectedEquations st).
Proof.
  unfold toggleEquationSelection, notifySelectionChange.
  rewrite selected_notifyBackground. now destruct (set_has p (selectedEquations st)).
Qed.

Lemma toggle_class (env : Env) (p : path) (st : State) (e : elem) :
  get_elem (document st) p = Some e ->
  has_class (document (toggleEquationSelection env p st)) p "math-copy-selected"
  = negb (set_has p (selectedEquations st)).
Proof.
  intros He. unfold toggleEquationSelection, notifySelectionChange, has_class.
  rewrite document_notifyBackground.
  destruct (set_has p (selectedEquations st));
    cbn [update_element with_document document with_selectedEquations];
    rewrite get_elem_update, He, path_eqb_refl; cbn [option_map negb].
  - now rewrite classList_contains_remove, streq_refl, andb_false_r.
  - rewrite classList_contains_add by apply token_selected.
    now rewrite streq_refl, orb_true_r.
Qed.

End Selection.

(** X13.  [toggleEquationSelection] flips the membership of its element
    in the selection and of no other, keeps the selection free of
    duplicates, and leaves the class [math-copy-selected] on the element
    exactly when it is selected; selecting an element and deselecting it
    again restores the selection. *)
Theorem X13_toggle_selection :
  forall env p st,
    let st' := toggleEquationSelection env p st in
    set_has p (selectedEquations st') = negb (set_has p (selectedEquations st)) /\
    (forall q, q <> p ->
               set_has q (selectedEquations st') = set_has q (selectedEquations st)) /\
    (NoDup (selectedEquations st) -> NoDup (selectedEquations st')) /\
    (forall e, get_elem (document st) p = Some e ->
               has_class (document st') p "math-copy-selected"
               = set_has p (selectedEquations st')) /\
    (set_has p (selectedEquations st) = false ->
     selectedEquations (toggleEquationSelection env p st') = selectedEquations st).
Proof.
  intros env p st st'. unfold st'.
  assert (Hflip : set_has p (selectedEquations (toggleEquationSelection env p st))
                  = negb (set_has p (selectedEquations st))).
  { rewrite toggle_selected. destruct (set_has p (selectedEquations st)) eqn:E.
    - now rewrite set_has_delete, path_eqb_refl, andb_false_r.
    - now rewrite set_has_add, path_eqb_refl, orb_true_r. }
  split; [exact Hflip|]. split; [|split; [|split]].
  - intros q Hq. rewrite toggle_selected.
    assert (E : path_eqb q p = false).
    { destruct (path_eqb q p) eqn:E; [|reflexivity]. now apply path_eqb_eq in E. }
    destruct (set_has p (selectedEquations st)).
    + now rewrite set_has_delete, E, andb_true_r.
    + now rewrite set_has_add, E, orb_false_r.
  - intros Hn. rewrite toggle_selected. destruct (set_has p (selectedEquations st)).
    + now apply NoDup_set_delete.
    + now apply NoDup_set_add.
  - intros e He. rewrite Hflip. now apply (@toggle_class env p st e).
  - intros Hp. rewrite toggle_selected, Hflip, Hp. cbn [negb].
    rewrite toggle_selected, Hp. unfold set_add.
    unfold set_has in Hp. rewrite Hp. unfold set_delete. rewrite filter_app.
    cbn [filter]. rewrite path_eqb_refl. cbn [negb]. rewrite app_nil_r.
    now apply set_delete_absent.
Qed.

Lemma X13_toggle_selection_witness :
  selectedEquations
    (toggleEquationSelection plain_env [1]
       (toggleEquationSelection plain_env [1] three_selected))
  <> selectedEquations three_selected /\
  NoDup (selectedEquations (toggleEquationSelection plain_env [0] three_selected)) /\
  has_class (document (toggleEquationSelection plain_env [0] (initial_state katex_page)))
            [0] "math-copy-selected" = true /\
  selectedEquations
    (toggleEquationSelection plain_env [0]
       (toggleEquationSelection plain_env [0] (initial_state katex_page)))
  = [] /\
  set_has [1] (selectedEquations (toggleEquationSelection plain_env [0] three_selected))
  = true.
Proof.
  split; [vm_compute; discriminate|]. split; [|split; [|split]].
  - apply (proj1 (proj2 (proj2 (X13_toggle_selection plain_env [0] three_selected)))).
    vm_compute. repeat constructor; cbn; intuition discriminate.
  - rewrite (proj1 (proj2 (proj2 (proj2
               (X13_toggle_selection plain_env [0] (initial_state katex_page)))))
               (mkElem HTML (lit "span") [class_attr "katex"] None)); reflexivity.
  - apply (proj2 (proj2 (proj2 (proj2
             (X13_toggle_selection plain_env [0] (initial_state katex_page)))))).
    reflexivity.
  - rewrite (proj1 (proj2 (X13_toggle_selection plain_env [0] three_selected)) [1]);
      [reflexivity | discriminate].
Defined.

Section Clearing.

Lemma has_class_remove_update (q p : path) (t : string) (doc : node) :
  has_class doc p t = false \/ q = p ->
  has_class (update doc q (classList_remove [lit t])) p t = false.
Proof.
  unfold has_class. rewrite get_elem_update.
  destruct (get_elem doc p) as [e|]; [|reflexivity]. cbn [option_map].
  intros [H | ->].
  - destruct (path_eqb p q); [|exact H].
    now rewrite classList_contains_remove, H.
  - rewrite path_eqb_refl.
    now rewrite classList_contains_remove, streq_refl, andb_false_r.
Qed.

Lemma clear_classes (l : list path) (p : path) :
  forall st,
    has_class (document st) p "math-copy-selected" = false \/ In p l ->
    has_class
      (document (fold_left (fun st equation =>
                   update_element equation (classList_remove [lit "math-copy-selected"]) st)
                 l st)) p "math-copy-selected" = false.
Proof.
  induction l as [|q l IH]; intros st H; cbn [fold_left].
  - destruct H as [H|[]]. exact H.
  - apply IH. destruct H as [H | [H | H]].
    + left. cbn [update_element with_document document].
      apply has_class_remove_update. now left.
    + left. cbn [update_element with_document document].
      apply has_class_remove_update. now right.
    + now right.
Qed.

Lemma sent_clear_fold (l : list path) :
  forall st,
    sent (fold_left (fun st equation =>
            update_element equation (classList_remove [lit "math-copy-selected"]) st)
          l st) = sent st.
Proof.
  induction l as [|q l IH]; intros st; [reflexivity|]. cbn [fold_left]. now rewrite IH.
Qed.

End Clearing.

(** X14.  [clearSelection] empties the selection, takes the class
    [math-copy-selected] off every element that was selected, leaves
    the clipboard alone and, while the extension context is alive,
    reports a selection count of zero to the background script. *)
Theorem X14_clearSelection_clears :
  forall env st,
    selectedEquations (clearSelection env st) = [] /\
    (forall p, In p (selectedEquations st) ->
               has_class (document (clearSelection env st)) p "math-copy-selected" = false) /\
    clipboard (clearSelection env st) = clipboard st /\
    (runtime_alive env = true ->
     sent (clearSelection env st) = sent st ++ [selectionUpdated 0]).
Proof.
  intros env st. split; [apply selected_clearSelection|].
  split; [|split; [apply clipboard_clearSelection|]].
  - intros p Hp. unfold clearSelection, notifySelectionChange.
    rewrite document_notifyBackground. cbn [with_selectedEquations document].
    apply clear_classes. now right.
  - intros Ha. unfold clearSelection, notifySelectionChange, notifyBackground.
    rewrite Ha. cbn [with_sent sent with_selectedEquations selectedEquations List.length].
    now rewrite sent_clear_fold.
Qed.

Lemma X14_clearSelection_witness :
  has_class (document three_selected) [1] "math-copy-selected" = true /\
  has_class (document (clearSelection plain_env three_selected)) [1] "math-copy-selected"
  = false /\
  sent (clearSelection plain_env three_selected)
  = sent three_selected ++ [selectionUpdated 0].
Proof.
  split; [reflexivity|]. split.
  - apply (proj1 (proj2 (X14_clearSelection_clears plain_env three_selected)) [1]).
    vm_compute. tauto.
  - apply (proj2 (proj2 (proj2 (X14_clearSelection_clears plain_env three_selected)))).
    reflexivity.
Defined.

(** X15.  [addToClipboardHistory] puts the new entry first, keeps the
    older entries in their order and never lets the history grow beyond
    [MAX_CLIPBOARD_HISTORY] entries. *)
Theorem X15_clipboard_history_bounded :
  forall content format st,
    clipboardHistory (addToClipboardHistory content format st)
    = firstn MAX_CLIPBOARD_HISTORY ((content, format) :: clipboardHistory st) /\
    hd_error (clipboardHistory (addToClipboardHistory content format st))
    = Some (content, format) /\
    List.length (clipboardHistory (addToClipboardHistory content format st))
    <= MAX_CLIPBOARD_HISTORY.
Proof.
  intros content format st.
  assert (H : clipboardHistory (addToClipboardHistory content format st)
              = firstn MAX_CLIPBOARD_HISTORY ((content, format) :: clipboardHistory st)).
  { unfold addToClipboardHistory. cbn [with_clipboardHistory clipboardHistory].
    destruct (Nat.ltb MAX_CLIPBOARD_HISTORY
                      (List.length ((content, format) :: clipboardHistory st))) eqn:E;
      [reflexivity|].
    apply Nat.ltb_ge in E. now rewrite firstn_all2. }
  rewrite H. split; [reflexivity|]. split; [reflexivity|]. apply firstn_le_length.
Qed.

(* ================================================================== *)
(** * Copying: all or nothing *)

Section Copying.

Variable env : Env.

Lemma with_errorCount_same (st : State) : with_errorCount (errorCount st) st = st.
Proof. now destruct st. Qed.

Lemma with_errorCount_twice (n m : nat) (st : State) :
  with_errorCount n (with_errorCount m st) = with_errorCount n st.
Proof. reflexivity. Qed.

(** The state after [getEquationContent] is the state before it, up to
    the error counter, which does not go down. *)
Lemma getEquationContent_state (st : State) (equation : option path) (format : jsstring) :
  exists n, errorCount st <= n /\
            snd (getEquationContent env st equation format) = with_errorCount n st.
Proof.
  unfold getEquationContent.
  destruct (getEquationContent_try env (document st) equation format); cbn [snd].
  - exists (errorCount st). split; [lia | now rewrite with_errorCount_same].
  - exists (S (errorCount st)). split; [lia|]. now destruct (Nat.ltb _ _).
Qed.

Lemma collect_contents_props (format : jsstring) (l : list path) :
  forall st,
    (exists n, errorCount st <= n /\
               snd (collect_contents env l format st) = with_errorCount n st) /\
    Forall (fun c => c <> [] /\ trim c = c) (fst (collect_contents env l format st)) /\
    List.length (fst (collect_contents env l format st)) <= List.length l.
Proof.
  induction l as [|p l IH]; intros st; cbn [collect_contents].
  - cbn [fst snd List.length]. split; [|split; [constructor | lia]].
    exists (errorCount st). split; [lia | now rewrite with_errorCount_same].
  - destruct (getEquationContent env st (Some p) format) as [content st1] eqn:E.
    destruct (getEquationContent_state st (Some p) format) as (n1 & Hn1 & Hs1).
    rewrite E in Hs1. cbn [snd] in Hs1. subst st1.
    destruct (IH (with_errorCount n1 st)) as ((n2 & Hn2 & Hs2) & Hall & Hlen).
    destruct (collect_contents env l format (with_errorCount n1 st)) as [contents st2].
    cbn [fst snd] in *. subst st2. split; [|split].
    + exists n2. cbn [with_errorCount errorCount] in Hn2. split; [lia | reflexivity].
    + apply Forall_app. split; [|exact Hall].
      destruct content as [c|]; [|constructor].
      assert (Hc : fst (getEquationContent env st (Some p) format) = Some c)
        by now rewrite E.
      apply getEquationContent_content in Hc as (Hne & Htrim & _ & _).
      destruct c as [|x c]; [contradiction|]. cbn [truthy sval]. now repeat constructor.
    + rewrite length_app. destruct (truthy content); cbn [List.length]; lia.
Qed.

(** The loop collects the contents of the equations, whatever the
    error counter is. *)
Lemma collect_contents_fst (format : jsstring) (l : list path) :
  forall st,
    fst (collect_contents env l format st)
    = flat_map (fun equation =>
                  match fst (getEquationContent env st (Some equation) format) with
                  | Some c => [c]
                  | None => []
                  end) l.
Proof.
  induction l as [|p l IH]; intros st; [reflexivity|].
  cbn [collect_contents flat_map].
  destruct (getEquationContent env st (Some p) format) as [content st1] eqn:E.
  destruct (getEquationContent_state st (Some p) format) as (n1 & _ & Hs1).
  rewrite E in Hs1. cbn [snd] in Hs1. subst st1.
  specialize (IH (with_errorCount n1 st)).
  destruct (collect_contents env l format (with_errorCount n1 st)) as [contents st2].
  cbn [fst] in *. rewrite IH. f_equal.
  - destruct content as [c|]; [|reflexivity].
    assert (Hc : fst (getEquationContent env st (Some p) format) = Some c)
      by now rewrite E.
    apply getEquationContent_content in Hc as (Hne & _).
    destruct c as [|x c]; [contradiction | reflexivity].
  - apply flat_map_ext. intros q. now rewrite getEquationContent_errorCount.
Qed.

(** Whether a write succeeds does not depend on the state. *)
Lemma copyToClipboard_fst (text format : jsstring) (st st' : State) :
  fst (copyToClipboard env text format st) = fst (copyToClipboard env text format st').
Proof.
  unfold copyToClipboard, copy_fallback.
  destruct text as [|c text]; [reflexivity|].
  destruct (N.ltb 1000000 (len (c :: text))); [reflexivity|].
  destruct (streq format MATHML && has_write (navigator env)
            && write_succeeds (navigator env) (c :: text))%bool; [reflexivity|].
  destruct (has_writeText (navigator env)).
  - destruct (writeText_succeeds (navigator env) (c :: text)); [reflexivity|].
    now destruct (execCommand_copy (navigator env) (c :: text)) as [[|]|].
  - now destruct (execCommand_copy (navigator env) (c :: text)) as [[|]|].
Qed.

End Copying.

(** X17.  [copySelectedEquations] is all or nothing.  The payload is
    the contents that the selected equations yield, in selection order
    and joined by a blank line; each of them is non-empty and trimmed.
    With no content there is nothing to copy, and only the error
    counter may have gone up.  With content, a write that succeeds puts
    exactly the payload on the clipboard and empties the selection; a
    write that fails leaves everything but the error counter as it
    was, except that the hidden [textarea] of the last fallback may
    stay behind in the page. *)
Theorem X17_copySelectedEquations_all_or_nothing :
  forall env st,
    let contents := selected_contents env st in
    let payload := join [LF; LF] contents in
    Forall (fun c => c <> [] /\ trim c = c) contents /\
    (contents = [] ->
     exists n, errorCount st <= n /\ copySelectedEquations env st = with_errorCount n st) /\
    (contents <> [] ->
     match fst (copyToClipboard env payload (currentFormat st) st) with
     | Ok _ =>
         clipboard (copySelectedEquations env st) = clipboard st ++ [payload] /\
         selectedEquations (copySelectedEquations env st) = []
     | Throw _ =>
         exists n,
           errorCount st <= n /\
           (copySelectedEquations env st = with_errorCount n st \/
            copySelectedEquations env st = with_errorCount n (with_stray_textarea st))
     end).
Proof.
  intros env st contents payload.
  destruct (collect_contents_props env (currentFormat st) (selectedEquations st) st)
    as ((n & Hn & Hs) & Hall & _).
  pose proof (collect_contents_fst env (currentFormat st) (selectedEquations st) st) as Hc.
  fold (selected_contents env st) in Hc. fold contents in Hc.
  rewrite Hc in Hall. split; [exact Hall|].
  assert (Hempty : selectedEquations st = [] -> contents = []).
  { intros H. unfold contents, selected_contents. now rewrite H. }
  subst payload. clearbody contents.
  unfold copySelectedEquations.
  destruct (selectedEquations st) as [|p l] eqn:Hsel.
  { split.
    - intros _. exists (errorCount st). split; [lia | now rewrite with_errorCount_same].
    - intros Hne. now specialize (Hempty eq_refl). }
  destruct (collect_contents env (p :: l) (currentFormat st) st) as [cs st1].
  cbn [fst snd] in Hs, Hc. subst st1 cs.
  split.
  - intros H0. rewrite H0. now exists n.
  - intros Hne. destruct contents as [|c cs]; [contradiction|].
    cbn [with_errorCount currentFormat].
    rewrite (copyToClipboard_fst env (join [LF; LF] (c :: cs)) (currentFormat st) st
                                 (with_errorCount n st)).
    destruct (fst (copyToClipboard env (join [LF; LF] (c :: cs)) (currentFormat st)
                                   (with_errorCount n st))) as [u|x] eqn:Hf.
    + rewrite (@copyToClipboard_ok env _ _ _ u Hf). split.
      * rewrite clipboard_clearSelection, clipboard_flash, clipboard_notifyBackground.
        reflexivity.
      * apply selected_clearSelection.
    + exists n. split; [exact Hn|].
      destruct (copyToClipboard_throw _ _ _ _ Hf) as [H|H];
        destruct (copyToClipboard env (join [LF; LF] (c :: cs)) (currentFormat st)
                                  (with_errorCount n st))
          as [r st']; cbn [fst snd] in *; subst r st'; [now left | now right].
Qed.

Lemma X17_copySelectedEquations_witness :
  selected_contents plain_env three_selected <> [] /\
  clipboard (copySelectedEquations plain_env three_selected)
  = clipboard three_selected
    ++ [join [LF; LF] (selected_contents plain_env three_selected)] /\
  selectedEquations (copySelectedEquations plain_env three_selected) = [].
Proof.
  assert (Hne : selected_contents plain_env three_selected <> [])
    by (vm_compute; discriminate).
  assert (Hok : fst (copyToClipboard plain_env
                       (join [LF; LF] (selected_contents plain_env three_selected))
                       (currentFormat three_selected) three_selected) = Ok tt)
    by (vm_compute; reflexivity).
  split; [exact Hne|].
  pose proof (proj2 (proj2 (X17_copySelectedEquations_all_or_nothing
                              plain_env three_selected)) Hne) as H.
  cbv zeta in H. rewrite Hok in H. exact H.
Defined.

(* ================================================================== *)
(** * Copying one equation *)

Section SingleCopy.

Variable env : Env.

Lemma token_copying : token_ok (lit "math-copy-copying").
Proof. split; [discriminate | reflexivity]. Qed.
Lemma token_success : token_ok (lit "math-copy-success").
Proof. split; [discriminate | reflexivity]. Qed.
Lemma token_error : token_ok (lit "math-copy-error").
Proof. split; [discriminate | reflexivity]. Qed.

Lemma copy_failed_props (p : path) (st0 st : State) (e : elem) :
  get_elem (document st) p = Some e ->
  clipboard st = clipboard st0 -> clipboardHistory st = clipboardHistory st0 ->
  timers st = timers st0 ->
  has_class (document (copy_failed p st)) p "math-copy-copying" = false /\
  copy_refused p st0 (copy_failed p st).
Proof.
  intros He H1 H2 H3. unfold copy_failed, copy_refused, has_class.
  cbn [setTimeout with_timers update_element with_document document clipboard
       clipboardHistory timers].
  rewrite !get_elem_update, He, path_eqb_refl. cbn [option_map].
  rewrite !classList_contains_add by apply token_error.
  rewrite !classList_contains_remove, !streq_refl.
  rewrite andb_false_r, orb_true_r, H1, H2, H3. now repeat split.
Qed.

Lemma copy_body_props (p : path) (format : jsstring) (st0 : State) (e : elem) :
  get_elem (document st0) p = Some e ->
  let st' :=
    let '(content, st) := getEquationContent env st0 (Some p) format in
    if truthy content then
      match copyToClipboard env (sval content) format st with
      | (Ok _, st) =>
          let st := addToClipboardHistory (sval content) format st in
          let st := update_element p (classList_remove [lit "math-copy-copying"]) st in
          let st := update_element p (classList_add (lit "math-copy-success")) st in
          let st := notifyBackground env
                      (equationCopied (sval content) format
                                      (getMathSource (document st) p) None) st in
          setTimeout (RemoveClassTask p (lit "math-copy-success"))
                     SUCCESS_FEEDBACK_DURATION st
      | (Throw _, st) => copy_failed p st
      end
    else copy_failed p st in
  has_class (document st') p "math-copy-copying" = false /\
  (copy_succeeded p format st0 st' \/ copy_refused p st0 st').
Proof.
  intros He. cbv zeta.
  destruct (getEquationContent env st0 (Some p) format) as [content st1] eqn:E.
  destruct (getEquationContent_state env st0 (Some p) format) as (n & _ & Hs).
  rewrite E in Hs. cbn [snd] in Hs. subst st1.
  assert (He1 : get_elem (document (with_errorCount n st0)) p = Some e) by exact He.
  destruct (@copy_failed_props p st0 (with_errorCount n st0) e He1 eq_refl eq_refl eq_refl)
    as [Hf1 Hf2].
  destruct content as [c|]; [|split; [exact Hf1 | right; exact Hf2]].
  assert (Hc : fst (getEquationContent env st0 (Some p) format) = Some c) by now rewrite E.
  apply getEquationContent_content in Hc as (Hne & Htrim & _ & _).
  destruct c as [|x c]; [contradiction|]. cbn [truthy sval].
  destruct (fst (copyToClipboard env (x :: c) format (with_errorCount n st0)))
    as [u|err] eqn:Hcopy.
  2:{ destruct (copyToClipboard_throw _ _ _ _ Hcopy) as [H|H];
        destruct (copyToClipboard env (x :: c) format (with_errorCount n st0)) as [r st2];
        cbn [fst snd] in *; subst r st2.
      - split; [exact Hf1 | right; exact Hf2].
      - assert (He2 : get_elem (document
                         (with_document (body_appendChild hidden_textarea
                                           (document (with_errorCount n st0)))
                                        (with_errorCount n st0))) p = Some e)
          by (apply get_elem_body_appendChild; exact He).
        destruct (@copy_failed_props p st0 _ e He2 eq_refl eq_refl eq_refl) as [G1 G2].
        split; [exact G1 | right; exact G2]. }
  rewrite (@copyToClipboard_ok env _ _ _ u Hcopy).
  split.
  - unfold has_class, notifyBackground, addToClipboardHistory.
    destruct (runtime_alive env);
      cbn [setTimeout with_timers with_sent update_element with_document document
           with_clipboard with_clipboardHistory with_errorCount];
      rewrite !get_elem_update, He, path_eqb_refl; cbn [option_map];
      rewrite classList_contains_add by apply token_success;
      rewrite classList_contains_remove, streq_refl, andb_false_r; reflexivity.
  - left. exists (x :: c). unfold has_class, notifyBackground, addToClipboardHistory.
    destruct (runtime_alive env);
      cbn [setTimeout with_timers with_sent update_element with_document document
           clipboard clipboardHistory timers with_clipboard with_clipboardHistory
           with_errorCount];
      rewrite !get_elem_update, He, path_eqb_refl; cbn [option_map];
      rewrite classList_contains_add by apply token_success;
      rewrite streq_refl, orb_true_r;
      (repeat split; try assumption; try reflexivity);
      destruct (Nat.ltb _ _); reflexivity.
Qed.

Lemma get_elem_mark_copying (p : path) (st : State) (e : elem) :
  get_elem (document st) p = Some e ->
  get_elem (document (update_element p (classList_add (lit "math-copy-copying")) st)) p
  = Some (classList_add (lit "math-copy-copying") e).
Proof.
  intros He. cbn [update_element with_document document].
  now rewrite get_elem_update, He, path_eqb_refl.
Qed.

End SingleCopy.

(** X18.  A single copy, by click ([copyEquation]) or from the context
    menu ([copyEquationInFormat]), always takes the class
    [math-copy-copying] off the element again, and it ends in one of two
    ways: non-empty trimmed content is on the clipboard and first in the
    history, the element has the class [math-copy-success] and a timer
    of 1500 ms is set to remove it; or the clipboard and the history are
    as before, the element has the class [math-copy-error] and a timer
    of 1500 ms is set to remove that. *)
Theorem X18_single_copy_feedback :
  forall env override p format st e,
    get_elem (document st) p = Some e ->
    (has_class (document (copyEquation env override p st)) p "math-copy-copying" = false /\
     (copy_succeeded p (sval (jsor override (Some (currentFormat st)))) st
                     (copyEquation env override p st) \/
      copy_refused p st (copyEquation env override p st))) /\
    (has_class (document (copyEquationInFormat env p format st)) p "math-copy-copying"
     = false /\
     (copy_succeeded p format st (copyEquationInFormat env p format st) \/
      copy_refused p st (copyEquationInFormat env p format st))).
Proof.
  intros env override p format st e He.
  pose proof (@get_elem_mark_copying p st e He) as He'.
  split.
  - exact (@copy_body_props env p (sval (jsor override (Some (currentFormat st))))
             (update_element p (classList_add (lit "math-copy-copying")) st) _ He').
  - exact (@copy_body_props env p format
             (update_element p (classList_add (lit "math-copy-copying")) st) _ He').
Qed.

Lemma X18_single_copy_witness :
  has_class (document (copyEquation plain_env None [0] (initial_state katex_page)))
            [0] "math-copy-copying" = false /\
  clipboard (copyEquationInFormat plain_env [0] LATEX (initial_state katex_page))
  = [lit "x"].
Proof.
  destruct (@X18_single_copy_feedback plain_env None [0] LATEX (initial_state katex_page)
              (mkElem HTML (lit "span") [class_attr "katex"] None) eq_refl)
    as [[H1 _] _].
  split; [exact H1 | reflexivity].
Defined.

(* ================================================================== *)
(** * Listeners are attached once *)

Section ListenersOnce.

Variable env : Env.

Ltac same_page := split; [reflexivity | intros ? Hq; exact Hq].

Lemma calm_refl (st : State) : calm st st.
Proof. split; [reflexivity | auto]. Qed.

Lemma calm_trans (a b c : State) : calm a b -> calm b c -> calm a c.
Proof. intros [H1 H2] [H3 H4]. split; [congruence | auto]. Qed.

Lemma calm_update (p : path) (f : elem -> elem) (st : State) :
  (forall e, classList_contains e MATH_COPY_ELEMENT = true ->
             classList_contains (f e) MATH_COPY_ELEMENT = true) ->
  calm st (update_element p f st).
Proof.
  intros Hf. split; [reflexivity|]. intros q. unfold has_class, update_element.
  cbn [document with_document]. rewrite get_elem_update.
  destruct (get_elem (document st) q) as [e|]; cbn [option_map]; [|auto].
  destruct (path_eqb q p); [apply Hf | auto].
Qed.

Lemma calm_add (p : path) (t : jsstring) (st : State) :
  token_ok t -> calm st (update_element p (classList_add t) st).
Proof.
  intros Ht. apply calm_update. intros e He.
  rewrite classList_contains_add by exact Ht. now rewrite He.
Qed.

Lemma calm_remove (p : path) (t : jsstring) (st : State) :
  streq MATH_COPY_ELEMENT t = false ->
  calm st (update_element p (classList_remove [t]) st).
Proof.
  intros Ht. apply calm_update. intros e He.
  rewrite classList_contains_remove, He, Ht. reflexivity.
Qed.

Lemma calm_setAttribute (p : path) (n v : jsstring) (st : State) :
  streq n (lit "class") = false -> calm st (update_element p (setAttribute n v) st).
Proof.
  intros Hn. apply calm_update. intros e He. unfold classList_contains in *.
  now rewrite classList_setAttribute.
Qed.

Lemma calm_katexHtmlElement (p q : path) (st : State) :
  calm st (update_element p (set_katexHtmlElement q) st).
Proof. apply calm_update. intros e He. exact He. Qed.

Lemma calm_notifyBackground (m : message) (st : State) :
  calm st (notifyBackground env m st).
Proof. unfold notifyBackground. destruct (runtime_alive env); same_page. Qed.

Lemma calm_getEquationContent (st : State) (equation : option path) (format : jsstring) :
  calm st (snd (getEquationContent env st equation format)).
Proof.
  destruct (@getEquationContent_state env st equation format) as (n & _ & ->).
  same_page.
Qed.

Lemma calm_stray_textarea (st : State) : calm st (with_stray_textarea st).
Proof.
  split; [reflexivity|]. intros q. unfold has_class, with_stray_textarea.
  cbn [document with_document].
  destruct (get_elem (document st) q) as [e|] eqn:He; [|discriminate].
  now rewrite (@get_elem_body_appendChild hidden_textarea (document st) q e He).
Qed.

Lemma calm_copyToClipboard (text format : jsstring) (st : State) :
  calm st (snd (copyToClipboard env text format st)).
Proof.
  destruct (fst (copyToClipboard env text format st)) as [u|x] eqn:Hf.
  - rewrite (@copyToClipboard_ok env _ _ _ u Hf). cbn [snd]. same_page.
  - destruct (copyToClipboard_throw _ _ _ _ Hf) as [-> | ->];
      [apply calm_refl | apply calm_stray_textarea].
Qed.

Lemma then_add (p : path) (t : jsstring) (st0 st : State) :
  token_ok t -> calm st0 st -> calm st0 (update_element p (classList_add t) st).
Proof. intros Ht H. apply (calm_trans H). now apply calm_add. Qed.

Lemma then_remove (p : path) (t : jsstring) (st0 st : State) :
  streq MATH_COPY_ELEMENT t = false -> calm st0 st ->
  calm st0 (update_element p (classList_remove [t]) st).
Proof. intros Ht H. apply (calm_trans H). now apply calm_remove. Qed.

Lemma then_setTimeout (t : task) (d : nat) (st0 st : State) :
  calm st0 st -> calm st0 (setTimeout t d st).
Proof. intros H. apply (calm_trans H). same_page. Qed.

Lemma then_notify (m : message) (st0 st : State) :
  calm st0 st -> calm st0 (notifyBackground env m st).
Proof. intros H. apply (calm_trans H). apply calm_notifyBackground. Qed.

Lemma then_selected (l : list path) (st0 st : State) :
  calm st0 st -> calm st0 (with_selectedEquations l st).
Proof. intros H. apply (calm_trans H). same_page. Qed.

Lemma then_history (c f : jsstring) (st0 st : State) :
  calm st0 st -> calm st0 (addToClipboardHistory c f st).
Proof. intros H. apply (calm_trans H). same_page. Qed.

Lemma then_fold (A : Type) (g : State -> A -> State) (l : list A) :
  (forall st x, calm st (g st x)) ->
  forall st0 st, calm st0 st -> calm st0 (fold_left g l st).
Proof.
  intros Hg. induction l as [|x l IH]; intros st0 st H; [exact H|].
  cbn [fold_left]. apply IH. apply (calm_trans H). apply Hg.
Qed.

Lemma calm_toggle (p : path) (st : State) : calm st (toggleEquationSelection env p st).
Proof.
  unfold toggleEquationSelection, notifySelectionChange. apply then_notify.
  destruct (set_has p (selectedEquations st)).
  - apply then_remove; [reflexivity|]. apply then_selected, calm_refl.
  - apply then_add; [apply token_selected|]. apply then_selected, calm_refl.
Qed.

Lemma then_clearSelection (st0 st : State) :
  calm st0 st -> calm st0 (clearSelection env st).
Proof.
  intros H. unfold clearSelection, notifySelectionChange.
  apply then_notify, then_selected. apply then_fold; [|exact H].
  intros st' x. apply calm_remove. reflexivity.
Qed.

Lemma then_copy_failed (p : path) (st0 st : State) :
  calm st0 st -> calm st0 (copy_failed p st).
Proof.
  intros H. unfold copy_failed. apply then_setTimeout.
  apply then_add; [apply token_error|]. now apply then_remove.
Qed.

Lemma calm_copy_body (p : path) (format : jsstring) (st0 st : State) :
  calm st0 st ->
  calm st0
    (let '(content, st) := getEquationContent env st (Some p) format in
     if truthy content then
       match copyToClipboard env (sval content) format st with
       | (Ok _, st) =>
           let st := addToClipboardHistory (sval content) format st in
           let st := update_element p (classList_remove [lit "math-copy-copying"]) st in
           let st := update_element p (classList_add (lit "math-copy-success")) st in
           let st := notifyBackground env
                       (equationCopied (sval content) format
                                       (getMathSource (document st) p) None) st in
           setTimeout (RemoveClassTask p (lit "math-copy-success"))
                      SUCCESS_FEEDBACK_DURATION st
       | (Throw _, st) => copy_failed p st
       end
     else copy_failed p st).
Proof.
  intros H0.
  pose proof (calm_getEquationContent st (Some p) format) as Hg.
  destruct (getEquationContent env st (Some p) format) as [content st1]. cbn [snd] in Hg.
  pose proof (calm_trans H0 Hg) as H1.
  destruct (truthy content); [|now apply then_copy_failed].
  pose proof (calm_trans H1 (calm_copyToClipboard (sval content) format st1)) as H2.
  destruct (copyToClipboard env (sval content) format st1) as [[u|x] st2];
    cbn [snd] in H2; [|now apply then_copy_failed].
  cbv zeta.
  apply then_setTimeout, then_notify.
  apply then_add; [apply token_success|].
  apply then_remove; [reflexivity|]. now apply then_history.
Qed.

Lemma calm_copyEquation (override : option jsstring) (p : path) (st : State) :
  calm st (copyEquation env override p st).
Proof.
  unfold copyEquation. cbv zeta. apply calm_copy_body.
  apply calm_add, token_copying.
Qed.

Lemma calm_copyEquationInFormat (p : path) (format : jsstring) (st : State) :
  calm st (copyEquationInFormat env p format st).
Proof.
  unfold copyEquationInFormat. cbv zeta. apply calm_copy_body.
  apply calm_add, token_copying.
Qed.

Lemma calm_collect_contents (format : jsstring) (l : list path) :
  forall st, calm st (snd (collect_contents env l format st)).
Proof.
  induction l as [|p l IH]; intros st; [apply calm_refl|].
  cbn [collect_contents].
  pose proof (calm_getEquationContent st (Some p) format) as Hg.
  destruct (getEquationContent env st (Some p) format) as [content st1]. cbn [snd] in Hg.
  specialize (IH st1). destruct (collect_contents env l format st1) as [cs st2].
  cbn [snd] in *. now apply (calm_trans Hg).
Qed.

Lemma calm_copySelectedEquations (st : State) : calm st (copySelectedEquations env st).
Proof.
  unfold copySelectedEquations.
  destruct (selectedEquations st) as [|p l] eqn:Es; [apply calm_refl|].
  pose proof (calm_collect_contents (currentFormat st) (p :: l) st) as Hc.
  destruct (collect_contents env (p :: l) (currentFormat st) st) as [cs st1].
  cbn [snd] in Hc. destruct cs as [|c cs]; [exact Hc|].
  match goal with
  | |- context [copyToClipboard env ?t ?f st1] =>
      pose proof (calm_trans Hc (calm_copyToClipboard t f st1)) as H2;
      destruct (copyToClipboard env t f st1) as [[u|x] st2]
  end; cbn [snd] in H2; [|exact H2].
  cbv zeta.
  apply then_clearSelection. apply then_fold.
  - intros st' x'. apply then_setTimeout. apply calm_add, token_success.
  - now apply then_notify, then_history.
Qed.

Lemma listeners_once_calm (st st' : State) :
  listeners_once st -> calm st st' -> listeners_once st'.
Proof.
  intros [Hn Hc] [Hl Hk]. split; [now rewrite Hl|].
  intros p Hp. rewrite Hl in Hp. auto.
Qed.

Lemma listeners_once_attach (p : path) (st : State) (e : elem) :
  get_elem (document st) p = Some e ->
  classList_contains e MATH_COPY_ELEMENT = false ->
  listeners_once st -> listeners_once (attach p st).
Proof.
  intros He Hc [Hn Hk].
  assert (Hp : ~ In p (listeners st)).
  { intros Hin. apply Hk in Hin. unfold has_class in Hin. rewrite He in Hin.
    change (lit "math-copy-element") with MATH_COPY_ELEMENT in Hin. congruence. }
  split.
  - change (listeners (attach p st)) with (listeners st ++ [p]).
    apply NoDup_app; [exact Hn | repeat constructor; auto |].
    intros x Hx [<-|[]]. contradiction.
  - change (listeners (attach p st)) with (listeners st ++ [p]).
    intros q Hq. apply in_app_or in Hq as [Hq|[<-|[]]].
    + destruct (path_eqb q p) eqn:E.
      * apply path_eqb_eq in E. subst q. contradiction.
      * rewrite (@has_class_attach_other p q st E). auto.
    + destruct (@get_elem_attach_self p st e He) as (e' & He' & Hc').
      unfold has_class. now rewrite He'.
Qed.

Lemma listeners_once_setupEquation_with (R : path -> State -> State) :
  (forall k st, listeners_once st -> listeners_once (R k st)) ->
  forall p st, listeners_once st -> listeners_once (setupEquation_with R p st).
Proof.
  intros HR p st H. unfold setupEquation_with.
  destruct (get_elem (document st) p) as [e|] eqn:He; [|exact H].
  destruct (classList_contains e MATH_COPY_ELEMENT) eqn:Hc; [exact H|].
  destruct (match parentElement p with
            | Some parent => has_class (document st) parent "math-copy-element"
            | None => false
            end); [exact H|].
  destruct (classList_contains e (lit "katex"));
    [now apply (@listeners_once_attach p st e)|].
  destruct (classList_contains e (lit "katex-html"));
    [|now apply (@listeners_once_attach p st e)].
  destruct (closest (document st) p (sel_class "katex")) as [k|]; [|exact H].
  destruct (path_eqb k p); [exact H | now apply HR].
Qed.

Lemma listeners_once_setupEquation (p : path) (st : State) :
  listeners_once st -> listeners_once (setupEquation p st).
Proof.
  unfold setupEquation. apply listeners_once_setupEquation_with.
  apply listeners_once_setupEquation_with. auto.
Qed.

Lemma listeners_once_mark (p : path) (st : State) :
  listeners_once st -> listeners_once (mark_processed p st).
Proof.
  intros H. apply (listeners_once_calm H). apply calm_setAttribute. reflexivity.
Qed.

Lemma listeners_once_remember (p : path) (st : State) :
  listeners_once st -> listeners_once (remember p st).
Proof. intros H. exact H. Qed.

Lemma listeners_once_process_element (st : State) (element : path) :
  listeners_once st -> listeners_once (process_element st element).
Proof.
  intros H. unfold process_element.
  destruct (get_elem (document st) element) as [e|]; [|exact H].
  destruct (classList_contains e (lit "katex-html")).
  - destruct (hasAttribute e PROCESSED); [exact H|].
    destruct (closest (document st) element (sel_class "katex")) as [k|]; [|exact H].
    destruct (is_processed (document st) k); [exact H|]. cbv zeta.
    apply listeners_once_remember, listeners_once_remember.
    apply listeners_once_mark, listeners_once_mark, listeners_once_setupEquation.
    apply (listeners_once_calm H), calm_katexHtmlElement.
  - destruct (hasAttribute e PROCESSED); [exact H|].
    destruct (findMathContainer (document st) element) as [c|]; [|exact H].
    destruct (is_processed (document st) c); [exact H|]. cbv zeta.
    now apply listeners_once_remember, listeners_once_mark, listeners_once_setupEquation.
Qed.

Lemma listeners_once_processBatch (els : list path) (i b : nat) (st : State) :
  listeners_once st -> listeners_once (processBatch els i b st).
Proof.
  intros H. unfold processBatch.
  destruct (Nat.leb (List.length els) i); [exact H|]. cbv zeta.
  assert (Hf : forall l st', listeners_once st' ->
                             listeners_once (fold_left process_element l st')).
  { induction l as [|x l IH]; intros st' H'; [exact H'|].
    cbn [fold_left]. apply IH. now apply listeners_once_process_element. }
  destruct (Nat.ltb _ _); [|now apply Hf].
  unfold setTimeout. now apply Hf.
Qed.

Lemma listeners_once_scan_selector (st : State) (sel : selector) :
  listeners_once st -> listeners_once (scan_selector st sel).
Proof.
  intros H. unfold scan_selector.
  destruct (document_querySelectorAll (document st) sel); [exact H|].
  now apply listeners_once_processBatch.
Qed.

Lemma listeners_once_processExistingEquations (st : State) :
  listeners_once st -> listeners_once (processExistingEquations st).
Proof.
  intros H. unfold processExistingEquations. cbv zeta.
  apply (listeners_once_scan_selector (unprocessed (SClass (lit "katex-html")))) in H.
  revert H. generalize (scan_selector st (unprocessed (SClass (lit "katex-html")))).
  induction otherSelectors as [|s l IH]; intros st' H'; [exact H'|].
  cbn [fold_left]. apply IH. now apply listeners_once_scan_selector.
Qed.

Lemma listeners_once_run_batches (fuel : nat) :
  forall st, listeners_once st -> listeners_once (run_batches fuel st).
Proof.
  induction fuel as [|fuel IH]; intros st H; [exact H|].
  cbn [run_batches]. destruct (next_batch (timers st)) as [[[[els i] b] q]|]; [|exact H].
  apply IH. now apply listeners_once_processBatch.
Qed.

Lemma listeners_once_scan (st : State) : listeners_once st -> listeners_once (scan st).
Proof.
  intros H. unfold scan. cbv zeta.
  now apply listeners_once_run_batches, listeners_once_processExistingEquations.
Qed.

End ListenersOnce.

(** X16.  No element gets its listeners twice.  On a fresh page no
    listener is attached; from then on detection (a scan, one batch of
    it, [setupEquation] itself), selecting, clearing the selection and
    copying keep the listeners in place on distinct elements, each of
    which carries the class [math-copy-element]. *)
Theorem X16_listeners_attached_once :
  (forall doc, listeners_once (initial_state doc)) /\
  (forall st, listeners_once st ->
     listeners_once (scan st) /\
     listeners_once (processExistingEquations st) /\
     (forall els i b, listeners_once (processBatch els i b st)) /\
     (forall equation, listeners_once (setupEquation equation st)) /\
     (forall env equation, listeners_once (toggleEquationSelection env equation st)) /\
     (forall env, listeners_once (clearSelection env st)) /\
     (forall env override equation,
         listeners_once (copyEquation env override equation st)) /\
     (forall env equation format,
         listeners_once (copyEquationInFormat env equation format st)) /\
     (forall env, listeners_once (copySelectedEquations env st))).
Proof.
  split.
  - intros doc. split; [constructor | intros p []].
  - intros st H.
    repeat match goal with |- _ /\ _ => split end; intros.
    + now apply listeners_once_scan.
    + now apply listeners_once_processExistingEquations.
    + now apply listeners_once_processBatch.
    + now apply listeners_once_setupEquation.
    + apply (listeners_once_calm H), calm_toggle.
    + apply (listeners_once_calm H), then_clearSelection, calm_refl.
    + apply (listeners_once_calm H), calm_copyEquation.
    + apply (listeners_once_calm H), calm_copyEquationInFormat.
    + apply (listeners_once_calm H), calm_copySelectedEquations.
Qed.

Lemma X16_listeners_witness :
  listeners (scan (initial_state katex_page)) = [[0]; [1]; [2]] /\
  listeners_once (scan (scan (initial_state katex_page))).
Proof.
  assert (Hl : listeners (scan (initial_state katex_page)) = [[0]; [1]; [2]])
    by (vm_compute; reflexivity).
  assert (Hc : forallb (fun p => has_class (document (scan (initial_state katex_page))) p
                                           "math-copy-element") [[0]; [1]; [2]] = true)
    by (vm_compute; reflexivity).
  assert (H : listeners_once (scan (initial_state katex_page))).
  { split.
    - rewrite Hl. repeat (constructor; [cbn [In]; intuition discriminate|]). constructor.
    - intros p Hp. rewrite Hl in Hp. rewrite forallb_forall in Hc. exact (Hc p Hp). }
  split; [exact Hl|].
  destruct (proj2 X16_listeners_attached_once (scan (initial_state katex_page)) H)
    as [Hs _].
  exact Hs.
Defined.

(* ================================================================== *)
(** * Escaping in the popup *)

Section Escaping.

Lemma replaceAll_chr_const (x : N) (r s : jsstring) :
  replaceAll (chr x) (const r) s = flat_map (fun c => if N.eqb x c then r else [c]) s.
Proof.
  unfold replaceAll, chr. generalize 0 at 1.
  induction s as [|c s IH]; intros i; cbn [replace_from flat_map].
  - now rewrite exec_Chr.
  - rewrite exec_Chr. destruct (N.eqb x c); cbn [const app]; now rewrite IH.
Qed.

Lemma escape_one (c : N) :
  escapeHtml [c] = entity c.
Proof.
  unfold escapeHtml, entity. rewrite !replaceAll_chr_const.
  destruct (N.eqb_spec c AMP) as [->|H1]; [reflexivity|].
  destruct (N.eqb_spec c LT) as [->|H2]; [reflexivity|].
  destruct (N.eqb_spec c GT) as [->|H3]; [reflexivity|].
  destruct (N.eqb_spec c DQ) as [->|H4]; [reflexivity|].
  destruct (N.eqb_spec c SQ) as [->|H5]; [reflexivity|].
  cbn [flat_map app].
  replace (N.eqb AMP c) with false by (symmetry; apply N.eqb_neq; congruence).
  cbn [flat_map app].
  replace (N.eqb LT c) with false by (symmetry; apply N.eqb_neq; congruence).
  cbn [flat_map app].
  replace (N.eqb GT c) with false by (symmetry; apply N.eqb_neq; congruence).
  cbn [flat_map app].
  replace (N.eqb DQ c) with false by (symmetry; apply N.eqb_neq; congruence).
  cbn [flat_map app].
  replace (N.eqb SQ c) with false by (symmetry; apply N.eqb_neq; congruence).
  reflexivity.
Qed.

Lemma escapeHtml_app (a b : jsstring) : escapeHtml (a ++ b) = escapeHtml a ++ escapeHtml b.
Proof. unfold escapeHtml. rewrite !replaceAll_chr_const. now rewrite !flat_map_app. Qed.

(** The five replacements amount to one pass that renders each code
    unit on its own. *)
Lemma escapeHtml_flat_map (s : jsstring) : escapeHtml s = flat_map entity s.
Proof.
  induction s as [|c s IH]; [reflexivity|].
  change (c :: s) with ([c] ++ s). rewrite escapeHtml_app, escape_one, IH. reflexivity.
Qed.

Lemma entity_cases (c : N) :
  (c = AMP /\ entity c = lit "&amp;") \/ (c = LT /\ entity c = lit "&lt;") \/
  (c = GT /\ entity c = lit "&gt;") \/ (c = DQ /\ entity c = lit "&quot;") \/
  (c = SQ /\ entity c = lit "&#039;") \/
  (c <> AMP /\ harmless c /\ entity c = [c]).
Proof.
  unfold entity, harmless.
  destruct (N.eqb_spec c AMP) as [->|H1]; [tauto|].
  destruct (N.eqb_spec c LT) as [->|H2]; [tauto|].
  destruct (N.eqb_spec c GT) as [->|H3]; [tauto|].
  destruct (N.eqb_spec c DQ) as [->|H4]; [tauto|].
  destruct (N.eqb_spec c SQ) as [->|H5]; tauto.
Qed.

Lemma entity_harmless (c : N) : Forall harmless (entity c).
Proof.
  destruct (entity_cases c)
    as [[_ ->] | [[_ ->] | [[_ ->] | [[_ ->] | [[_ ->] | (_ & H & ->)]]]]].
  1-5: cbn [lit List.map list_ascii_of_string N_of_ascii];
    repeat (apply Forall_cons; [unfold harmless, LT, GT, DQ, SQ; repeat split; discriminate|]);
    apply Forall_nil.
  apply Forall_cons; [exact H | apply Forall_nil].
Qed.

Lemma flat_map_entity_inj (a : jsstring) :
  forall b, flat_map entity a = flat_map entity b -> a = b.
Proof.
  induction a as [|x a IH]; intros [|y b]; cbn [flat_map].
  - reflexivity.
  - intros H. exfalso.
    destruct (entity_cases y)
      as [[_ E] | [[_ E] | [[_ E] | [[_ E] | [[_ E] | (_ & _ & E)]]]]];
      rewrite E in H; discriminate H.
  - intros H. exfalso.
    destruct (entity_cases x)
      as [[_ E] | [[_ E] | [[_ E] | [[_ E] | [[_ E] | (_ & _ & E)]]]]];
      rewrite E in H; discriminate H.
  - intros H.
    destruct (entity_cases x)
      as [[Hx E] | [[Hx E] | [[Hx E] | [[Hx E] | [[Hx E] | (Hx & _ & E)]]]]];
      destruct (entity_cases y)
        as [[Hy F] | [[Hy F] | [[Hy F] | [[Hy F] | [[Hy F] | (Hy & _ & F)]]]]];
      rewrite E, F in H; cbn [lit List.map list_ascii_of_string N_of_ascii app] in H;
      try discriminate H;
      try (injection H as H; subst; f_equal; now apply IH);
      try (injection H as H0 H; exfalso; unfold AMP in *; congruence).
Qed.

End Escaping.

(** X19.  The popup's [escapeHtml] renders every code unit on its own
    (an entity produced for one character is never escaped again), its
    result contains none of the characters that open or close a tag or
    a quoted attribute value, and it loses nothing: different texts have
    different renderings. *)
Theorem X19_escapeHtml_safe_and_faithful :
  (forall s, escapeHtml s = flat_map entity s) /\
  (forall s, Forall harmless (escapeHtml s)) /\
  (forall a b, escapeHtml a = escapeHtml b -> a = b).
Proof.
  split; [apply escapeHtml_flat_map|]. split.
  - intros s. rewrite escapeHtml_flat_map. apply Forall_flat_map.
    apply Forall_forall. intros c _. apply entity_harmless.
  - intros a b. rewrite !escapeHtml_flat_map. apply flat_map_entity_inj.
Qed.

Lemma X19_escapeHtml_witness :
  escapeHtml (lit "a<b&c") = lit "a&lt;b&amp;c" /\ lit "<" = [LT].
Proof.
  split; [reflexivity|].
  apply (proj2 (proj2 X19_escapeHtml_safe_and_faithful) (lit "<") [LT]). reflexivity.
Defined.

(** X20.  [DOMProcessor.escapeHtml] escapes the ampersand, the angle
    brackets and the no-break space and nothing else: its result has no
    angle bracket in it, and a text without these four characters, quotes
    included, comes back unchanged. *)
Theorem X20_DOMProcessor_escapeHtml :
  (forall text, DOMProcessor_escapeHtml text = escape false text) /\
  (forall text, ~ In LT (DOMProcessor_escapeHtml text) /\
                ~ In GT (DOMProcessor_escapeHtml text)) /\
  (forall text,
      (forall c, In c text -> c <> AMP /\ c <> 160%N /\ c <> LT /\ c <> GT) ->
      DOMProcessor_escapeHtml text = text).
Proof.
  assert (H : forall text, DOMProcessor_escapeHtml text = escape false text).
  { intros [|c text]; [reflexivity|]. unfold DOMProcessor_escapeHtml.
    cbn [innerHTML List.map List.concat outerHTML]. now rewrite app_nil_r. }
  split; [exact H|]. split.
  - intros text. rewrite H. unfold escape.
    split; intros Hin; apply in_flat_map in Hin as (c & _ & Hc); revert Hc; unfold LT, GT.
    all: destruct (N.eqb_spec c 38) as [E1|E1]; [cbn; intuition discriminate|].
    all: destruct (N.eqb_spec c 160) as [E2|E2]; [cbn; intuition discriminate|].
    all: destruct (N.eqb_spec c 60) as [E3|E3]; [cbn; intuition discriminate|].
    all: destruct (N.eqb_spec c 62) as [E4|E4]; [cbn; intuition discriminate|].
    all: cbn [andb]; intros [Hc|[]]; congruence.
  - intros text Ht. rewrite H. unfold escape.
    induction text as [|c text IH]; [reflexivity|]. cbn [flat_map].
    destruct (Ht c (or_introl eq_refl)) as (H1 & H2 & H3 & H4).
    unfold AMP, LT, GT in *.
    destruct (N.eqb_spec c 38) as [E1|E1]; [contradiction|].
    destruct (N.eqb_spec c 160) as [E2|E2]; [contradiction|].
    destruct (N.eqb_spec c 60) as [E3|E3]; [contradiction|].
    destruct (N.eqb_spec c 62) as [E4|E4]; [contradiction|].
    cbn [andb app]. f_equal. apply IH. intros x Hx. apply Ht. now right.
Qed.

Lemma X20_DOMProcessor_escapeHtml_witness : DOMProcessor_escapeHtml [DQ; SQ] = [DQ; SQ].
Proof.
  apply (proj2 (proj2 X20_DOMProcessor_escapeHtml)).
  intros c [<-|[<-|[]]]; repeat split; discriminate.
Defined.

(** X21.  [truncate] returns a text of at most [length + 3] code units
    that agrees with the input on the first [length] code units; a text
    that is short enough is returned as it is, and truncating twice is
    truncating once. *)
Theorem X21_truncate_bounded :
  forall text length,
    List.length (truncate text length) <= length + 3 /\
    firstn length (truncate text length) = firstn length text /\
    (List.length text <= length -> truncate text length = text) /\
    truncate (truncate text length) length = truncate text length.
Proof.
  intros text n.
  destruct (Nat.ltb n (List.length text)) eqn:E.
  - assert (Hlong : truncate text n = firstn n text ++ lit "...")
      by (unfold truncate; now rewrite E).
    apply Nat.ltb_lt in E.
    assert (Hl : List.length (firstn n text) = n) by (apply firstn_length_le; lia).
    assert (Hf : firstn n (firstn n text ++ lit "...") = firstn n text).
    { rewrite firstn_app, Hl, Nat.sub_diag, firstn_firstn, Nat.min_id.
      cbn [firstn]. now rewrite app_nil_r. }
    rewrite !Hlong. split; [|split; [exact Hf|split; [lia|]]].
    + rewrite length_app, Hl. cbn. lia.
    + unfold truncate.
      assert (Hlt : Nat.ltb n (List.length (firstn n text ++ lit "...")) = true).
      { apply Nat.ltb_lt. rewrite length_app, Hl. cbn. lia. }
      now rewrite Hlt, Hf.
  - assert (Hid : truncate text n = text) by (unfold truncate; now rewrite E).
    apply Nat.ltb_ge in E. rewrite !Hid.
    split; [lia|]. split; [reflexivity|]. split; reflexivity.
Qed.

Lemma X21_truncate_witness : truncate (lit "x+y") 40 = lit "x+y".
Proof.
  apply (proj1 (proj2 (proj2 (X21_truncate_bounded (lit "x+y") 40)))). cbn. lia.
Defined.

(* ================================================================== *)
(** * The history of the background script *)

Section History.

Lemma history_updateStats (now : N) (action format : jsfield) (bg : Background) :
  mathCopyHistory (snd (updateStats now action format bg)) = mathCopyHistory bg.
Proof. reflexivity. Qed.

(** What a successful [addToHistory] stores. *)
Lemma addToHistory_cases (clock : Clock) (data : option CopyData) (bg : Background) :
  (exists e, addToHistory clock data bg = (Failure e, bg)) \/
  (exists d f item,
      data = Some d /\
      field_or (data_formula d) (data_content d) = FString f /\
      item_formula item = trim f /\
      item_format item = match data_format d with
                         | FString fmt => if mem fmt VALID_FORMATS then fmt else MATHML
                         | FOther _ _ => MATHML
                         end /\
      item_source item
      = firstn 100 match field_or (data_source d) (FString (lit "Unknown")) with
                   | FString s => s
                   | FOther _ rendering => rendering
                   end /\
      item_id item = (id_time clock, S (historyIdCounter bg)) /\
      item_ok item /\
      fst (addToHistory clock data bg) = Success /\
      mathCopyHistory (snd (addToHistory clock data bg))
      = firstn MAX_HISTORY_ITEMS (item :: mathCopyHistory bg)).
Proof.
  unfold addToHistory. destruct data as [d|]; [|left; eauto].
  destruct (field_or (data_formula d) (data_content d)) as [[|x f]|t r] eqn:Ef;
    [left; eauto| |left; eauto].
  cbv zeta.
  destruct (N.eqb (len (trim (x :: f))) 0) eqn:E0; [left; eauto|].
  destruct (N.ltb 1000000 (len (trim (x :: f)))) eqn:E1; [left; eauto|].
  right. exists d, (x :: f). eexists. split; [reflexivity|]. split; [exact Ef|].
  repeat match goal with |- _ /\ _ => split end.
  7: { cbn [snd updateStats send_broadcast with_stats with_history mathCopyHistory].
       reflexivity. }
  - reflexivity.
  - cbn [item_format]. destruct (data_format d) as [[|y fmt]|]; reflexivity.
  - reflexivity.
  - reflexivity.
  - unfold item_ok. cbn [item_formula item_format item_source].
    apply N.eqb_neq in E0. apply N.ltb_ge in E1. repeat split.
    + intros H. rewrite H in E0. now apply E0.
    + apply trim_idem.
    + exact E1.
    + destruct (data_format d) as [fmt|]; [|now left].
      destruct (field_truthy (FString fmt) && mem fmt VALID_FORMATS)%bool eqn:Ev;
        [|now left].
      apply andb_true_iff in Ev as [_ Ev]. now apply mem_In.
    + rewrite length_firstn. lia.
  - reflexivity.
Qed.

(** A formula that is a string, not blank and within the bound is
    accepted. *)
Lemma addToHistory_accepts (clock : Clock) (d : CopyData) (bg : Background) (f : jsstring) :
  field_or (data_formula d) (data_content d) = FString f ->
  trim f <> [] -> (len (trim f) <= 1000000)%N ->
  fst (addToHistory clock (Some d) bg) = Success.
Proof.
  intros Ef Hne Hlen. unfold addToHistory. rewrite Ef.
  destruct f as [|x f]; [now contradiction Hne|]. cbv zeta.
  assert (E0 : N.eqb (len (trim (x :: f))) 0 = false).
  { apply N.eqb_neq. unfold len. destruct (trim (x :: f)); [contradiction|].
    cbn [List.length]. lia. }
  assert (E1 : N.ltb 1000000 (len (trim (x :: f))) = false) by now apply N.ltb_ge.
  now rewrite E0, E1.
Qed.

Lemma hd_error_In (A : Type) (x : A) (l : list A) : hd_error l = Some x -> In x l.
Proof. destruct l as [|y l]; [discriminate|]. intros [= ->]. now left. Qed.

Lemma Forall_firstn (A : Type) (P : A -> Prop) (n : nat) (l : list A) :
  Forall P l -> Forall P (firstn n l).
Proof.
  intros H. apply Forall_forall. intros x Hx. apply In_firstn in Hx.
  revert x Hx. now apply Forall_forall.
Qed.

End History.

(** X22.  [addToHistory] either refuses, and then changes nothing, or
    stores one new item in front of the older ones and keeps the first
    [MAX_HISTORY_ITEMS] of them.  The new item holds the formula of the
    data (its [formula], or else its [content]) trimmed, which is not
    empty and has at most 1,000,000 code units; the format of the data
    when that is one of the four valid ones and [mathml] otherwise; and
    the first 100 code units of the source, [Unknown] standing in for a
    missing one.  So a history of at most 50 such items stays one. *)
Theorem X22_addToHistory_keeps_history :
  forall clock data bg,
    ((exists e, addToHistory clock data bg = (Failure e, bg)) \/
     (exists d f item,
         data = Some d /\
         field_or (data_formula d) (data_content d) = FString f /\
         item_formula item = trim f /\
         item_format item = match data_format d with
                            | FString fmt => if mem fmt VALID_FORMATS then fmt else MATHML
                            | FOther _ _ => MATHML
                            end /\
         item_source item
         = firstn 100 match field_or (data_source d) (FString (lit "Unknown")) with
                      | FString s => s
                      | FOther _ rendering => rendering
                      end /\
         item_ok item /\
         fst (addToHistory clock data bg) = Success /\
         mathCopyHistory (snd (addToHistory clock data bg))
         = firstn MAX_HISTORY_ITEMS (item :: mathCopyHistory bg))) /\
    (Forall item_ok (mathCopyHistory bg) ->
     Forall item_ok (mathCopyHistory (snd (addToHistory clock data bg)))) /\
    (List.length (mathCopyHistory bg) <= MAX_HISTORY_ITEMS ->
     List.length (mathCopyHistory (snd (addToHistory clock data bg))) <= MAX_HISTORY_ITEMS).
Proof.
  intros clock data bg.
  destruct (addToHistory_cases clock data bg)
    as [(e & He) | (d & f & item & Hd & Hf & H1 & H2 & H3 & _ & Hok & Hs & Hh)].
  - split; [left; eauto|]. rewrite He. cbn [snd]. tauto.
  - split.
    + right. exists d, f, item. repeat (split; [assumption|]). assumption.
    + rewrite Hh. split.
      * intros Hall. apply Forall_firstn. now constructor.
      * intros _. apply firstn_le_length.
Qed.

Lemma X22_addToHistory_witness :
  Forall item_ok
    (mathCopyHistory
       (snd (addToHistory (mkClock 5 5 5)
               (Some (mkCopyData (FString (lit " x ")) Fundefined (FString (lit "svg"))
                                 Fundefined))
               (mkBackground [] zero_stats [] [] 0 [])))) /\
  List.length
    (mathCopyHistory
       (snd (addToHistory (mkClock 5 5 5)
               (Some (mkCopyData (FString (lit " x ")) Fundefined (FString (lit "svg"))
                                 Fundefined))
               (mkBackground [] zero_stats [] [] 0 [])))) <= MAX_HISTORY_ITEMS.
Proof.
  split.
  - apply (proj1 (proj2 (X22_addToHistory_keeps_history _ _ _))). constructor.
  - apply (proj2 (proj2 (X22_addToHistory_keeps_history _ _ _))). cbn. lia.
Defined.

(** X23.  What [addToHistory] accepts and what [getHistory] returns
    differ at the bound.  A formula whose trimmed length is exactly
    1,000,000 code units is accepted and stored as the first item of
    the history, and [getHistory] does not return that item; one code
    unit more and [addToHistory] refuses.  In general a stored item
    comes back first from [getHistory] exactly when its formula is
    shorter than 1,000,000 code units. *)
Theorem X23_history_bound_off_by_one :
  (forall clock d f bg,
      field_or (data_formula d) (data_content d) = FString f ->
      (len (trim f) = 1000000)%N ->
      fst (addToHistory clock (Some d) bg) = Success /\
      exists item,
        hd_error (mathCopyHistory (snd (addToHistory clock (Some d) bg))) = Some item /\
        item_formula item = trim f /\
        ~ In item (getHistory (snd (addToHistory clock (Some d) bg)))) /\
  (forall clock d f bg,
      field_or (data_formula d) (data_content d) = FString f ->
      (1000000 < len (trim f))%N ->
      addToHistory clock (Some d) bg = (Failure (lit "Formula too large (max 1MB)"), bg)) /\
  (forall clock data bg,
      fst (addToHistory clock data bg) = Success ->
      exists item,
        hd_error (mathCopyHistory (snd (addToHistory clock data bg))) = Some item /\
        (len (item_formula item) <= 1000000)%N /\
        (hd_error (getHistory (snd (addToHistory clock data bg))) = Some item <->
         (len (item_formula item) < 1000000)%N)).
Proof.
  assert (Hgen : forall clock data bg,
             fst (addToHistory clock data bg) = Success ->
             exists d f item,
               data = Some d /\
               field_or (data_formula d) (data_content d) = FString f /\
               item_formula item = trim f /\
               hd_error (mathCopyHistory (snd (addToHistory clock data bg))) = Some item /\
               (len (item_formula item) <= 1000000)%N /\
               (hd_error (getHistory (snd (addToHistory clock data bg))) = Some item <->
                (len (item_formula item) < 1000000)%N) /\
               ((len (item_formula item) = 1000000)%N ->
                ~ In item (getHistory (snd (addToHistory clock data bg))))).
  { intros clock data bg Hs.
    destruct (addToHistory_cases clock data bg)
      as [(e & He) | (d & f & item & Hd & Hf & Hform & _ & _ & _ & Hok & _ & Hh)].
    - rewrite He in Hs. discriminate.
    - exists d, f, item. split; [exact Hd|]. split; [exact Hf|]. split; [exact Hform|].
      unfold getHistory. rewrite Hh. cbn [MAX_HISTORY_ITEMS firstn hd_error filter].
      destruct Hok as (Hne & _ & Hlen & _).
      assert (Ht : truthy (Some (item_formula item)) = true)
        by (destruct (item_formula item); [contradiction | reflexivity]).
      assert (H0 : N.ltb 0 (len (item_formula item)) = true).
      { apply N.ltb_lt. unfold len. destruct (item_formula item); [contradiction|].
        cbn [List.length]. lia. }
      rewrite Ht, H0. cbn [andb].
      split; [reflexivity|]. split; [exact Hlen|]. split; [split|].
      + destruct (N.ltb (len (item_formula item)) 1000000) eqn:E;
          [now apply N.ltb_lt in E|].
        intros Hhd. exfalso. apply hd_error_In in Hhd.
        apply filter_In in Hhd as [_ Hin]. rewrite Ht, H0, E in Hin. discriminate.
      + intros Hlt. apply N.ltb_lt in Hlt. now rewrite Hlt.
      + intros Heq Hin.
        assert (E : N.ltb (len (item_formula item)) 1000000 = false)
          by (apply N.ltb_ge; lia).
        rewrite E in Hin. apply filter_In in Hin as [_ Hin].
        rewrite Ht, H0, E in Hin. discriminate. }
  split; [|split].
  - intros clock d f bg Hf Hlen.
    assert (Hs : fst (addToHistory clock (Some d) bg) = Success).
    { apply (@addToHistory_accepts clock d bg f Hf); [|lia].
      intros H. rewrite H in Hlen. discriminate. }
    split; [exact Hs|].
    destruct (Hgen clock (Some d) bg Hs)
      as (d' & f' & item & Hd & Hf' & Hform & Hhd & _ & _ & Hout).
    injection Hd as <-. rewrite Hf in Hf'. injection Hf' as <-.
    exists item. split; [exact Hhd|]. split; [exact Hform|].
    apply Hout. now rewrite Hform.
  - intros clock d f bg Hf Hlen. unfold addToHistory. rewrite Hf.
    destruct f as [|x f]; [vm_compute in Hlen; discriminate|]. cbv zeta.
    assert (E0 : N.eqb (len (trim (x :: f))) 0 = false) by (apply N.eqb_neq; lia).
    assert (E1 : N.ltb 1000000 (len (trim (x :: f))) = true) by now apply N.ltb_lt.
    now rewrite E0, E1.
  - intros clock data bg Hs.
    destruct (Hgen clock data bg Hs) as (d & f & item & _ & _ & _ & Hhd & Hlen & Hiff & _).
    exists item. auto.
Qed.

(** At the bound: a formula of 1,000,000 letters. *)
Lemma X23_history_bound_witness :
  fst (addToHistory (mkClock 5 5 5)
         (Some (mkCopyData (FString (repeat 120%N (N.to_nat 1000000))) Fundefined
                           Fundefined Fundefined))
         (mkBackground [] zero_stats [] [] 0 [])) = Success /\
  exists item,
    hd_error (mathCopyHistory
                (snd (addToHistory (mkClock 5 5 5)
                        (Some (mkCopyData (FString (repeat 120%N (N.to_nat 1000000)))
                                          Fundefined Fundefined Fundefined))
                        (mkBackground [] zero_stats [] [] 0 []))))
    = Some item /\
    item_formula item = trim (repeat 120%N (N.to_nat 1000000)) /\
    ~ In item (getHistory
                 (snd (addToHistory (mkClock 5 5 5)
                         (Some (mkCopyData (FString (repeat 120%N (N.to_nat 1000000)))
                                           Fundefined Fundefined Fundefined))
                         (mkBackground [] zero_stats [] [] 0 [])))).
Proof.
  assert (Hf : field_or (FString (repeat 120%N (N.to_nat 1000000))) Fundefined
               = FString (repeat 120%N (N.to_nat 1000000))).
  { unfold field_or, field_truthy.
    replace (N.to_nat 1000000) with (S (N.to_nat 999999)) by (symmetry; apply (N2Nat.inj_succ 999999)).
    reflexivity. }
  assert (Hlen : len (trim (repeat 120%N (N.to_nat 1000000))) = 1000000%N).
  { rewrite trim_repeat by reflexivity. apply len_repeat. }
  exact (proj1 X23_history_bound_off_by_one (mkClock 5 5 5)
           (mkCopyData (FString (repeat 120%N (N.to_nat 1000000))) Fundefined
                       Fundefined Fundefined)
           (repeat 120%N (N.to_nat 1000000))
           (mkBackground [] zero_stats [] [] 0 []) Hf Hlen).
Defined.

(* ================================================================== *)
(** * Switching the extension off and on *)

Section Switch.

Lemma mem_snoc_self (u : jsstring) (l : list jsstring) : mem u (l ++ [u]) = true.
Proof. rewrite mem_app. cbn [mem existsb]. now rewrite streq_refl, orb_true_r. Qed.

Lemma mem_snoc_other (u v : jsstring) (l : list jsstring) :
  u <> v -> mem u (l ++ [v]) = mem u l.
Proof.
  intros H. rewrite mem_app. cbn [mem existsb].
  now rewrite (streq_neq H), !orb_false_r.
Qed.

Lemma streq_sym (a b : jsstring) : streq a b = streq b a.
Proof.
  destruct (streq a b) eqn:E.
  - apply streq_eq in E. subst. now rewrite streq_refl.
  - destruct (streq b a) eqn:F; [|reflexivity].
    apply streq_eq in F. subst. now rewrite streq_refl in E.
Qed.

Lemma mem_remove_self (u : jsstring) (l : list jsstring) :
  mem u (filter (fun x => negb (streq x u)) l) = false.
Proof. now rewrite mem_filter, streq_refl, andb_false_r. Qed.

Lemma mem_remove_other (u v : jsstring) (l : list jsstring) :
  u <> v -> mem u (filter (fun x => negb (streq x v)) l) = mem u l.
Proof. intros H. now rewrite mem_filter, (streq_neq H), andb_true_r. Qed.

Lemma remove_absent (u : jsstring) (l : list jsstring) :
  mem u l = false -> filter (fun x => negb (streq x u)) l = l.
Proof.
  induction l as [|x l IH]; [reflexivity|]. rewrite mem_cons. intros H.
  apply orb_false_iff in H as [H1 H2]. cbn [filter].
  rewrite streq_sym, H1. cbn [negb]. now rewrite IH.
Qed.

Lemma NoDup_snoc (u : jsstring) (l : list jsstring) :
  mem u l = false -> NoDup l -> NoDup (l ++ [u]).
Proof.
  intros Hm Hn. apply NoDup_app; [exact Hn | repeat constructor; intros [] |].
  intros x Hx [<-|[]]. apply mem_In in Hx. congruence.
Qed.

End Switch.

(** X24.  [disableOnPage] and [enableOnPage] keep the list of switched
    off pages as a set: after [disableOnPage] the page is on the list,
    after [enableOnPage] it is not, neither changes the standing of any
    other page or of any site, duplicates are never introduced, a second
    [disableOnPage] changes nothing, and switching a page off and on
    again restores the store.  The same holds for sites. *)
Theorem X24_disable_enable_round_trip :
  forall url bg,
    (mem url (disabledPages (snd (disableOnPage url bg))) = true /\
     mem url (disabledPages (snd (enableOnPage url bg))) = false /\
     (forall u, u <> url ->
                mem u (disabledPages (snd (disableOnPage url bg))) = mem u (disabledPages bg) /\
                mem u (disabledPages (snd (enableOnPage url bg))) = mem u (disabledPages bg)) /\
     disabledSites (snd (disableOnPage url bg)) = disabledSites bg /\
     disabledSites (snd (enableOnPage url bg)) = disabledSites bg /\
     (NoDup (disabledPages bg) ->
      NoDup (disabledPages (snd (disableOnPage url bg))) /\
      NoDup (disabledPages (snd (enableOnPage url bg)))) /\
     snd (disableOnPage url (snd (disableOnPage url bg))) = snd (disableOnPage url bg) /\
     (mem url (disabledPages bg) = false ->
      snd (enableOnPage url (snd (disableOnPage url bg))) = bg)) /\
    (mem url (disabledSites (snd (disableOnSite url bg))) = true /\
     mem url (disabledSites (snd (enableOnSite url bg))) = false /\
     (forall u, u <> url ->
                mem u (disabledSites (snd (disableOnSite url bg))) = mem u (disabledSites bg) /\
                mem u (disabledSites (snd (enableOnSite url bg))) = mem u (disabledSites bg)) /\
     disabledPages (snd (disableOnSite url bg)) = disabledPages bg /\
     disabledPages (snd (enableOnSite url bg)) = disabledPages bg /\
     (NoDup (disabledSites bg) ->
      NoDup (disabledSites (snd (disableOnSite url bg))) /\
      NoDup (disabledSites (snd (enableOnSite url bg)))) /\
     snd (disableOnSite url (snd (disableOnSite url bg))) = snd (disableOnSite url bg) /\
     (mem url (disabledSites bg) = false ->
      snd (enableOnSite url (snd (disableOnSite url bg))) = bg)).
Proof.
  intros url bg. split.
  - unfold disableOnPage, enableOnPage. cbv zeta.
    destruct (mem url (disabledPages bg)) eqn:E;
      cbn [negb snd with_disabledPages disabledPages disabledSites].
    + rewrite E. cbn [negb snd].
      repeat split; auto using mem_remove_self, mem_remove_other, NoDup_filter.
      discriminate.
    + rewrite mem_snoc_self. cbn [negb snd].
      repeat split; auto using mem_snoc_self, mem_snoc_other, mem_remove_self,
                    mem_remove_other, NoDup_filter, NoDup_snoc.
      intros _. rewrite filter_app. cbn [filter]. rewrite streq_refl. cbn [negb].
      rewrite app_nil_r, (remove_absent _ _ E). now destruct bg.
  - unfold disableOnSite, enableOnSite. cbv zeta.
    destruct (mem url (disabledSites bg)) eqn:E;
      cbn [negb snd with_disabledSites disabledPages disabledSites].
    + rewrite E. cbn [negb snd].
      repeat split; auto using mem_remove_self, mem_remove_other, NoDup_filter.
      discriminate.
    + rewrite mem_snoc_self. cbn [negb snd].
      repeat split; auto using mem_snoc_self, mem_snoc_other, mem_remove_self,
                    mem_remove_other, NoDup_filter, NoDup_snoc.
      intros _. rewrite filter_app. cbn [filter]. rewrite streq_refl. cbn [negb].
      rewrite app_nil_r, (remove_absent _ _ E). now destruct bg.
Qed.

Lemma X24_disable_enable_witness :
  mem (lit "https://a.example/x")
      (disabledPages (snd (disableOnPage (lit "https://b.example/")
                             (mkBackground [] zero_stats [lit "https://a.example/x"]
                                           [] 0 []))))
  = true /\
  snd (enableOnPage (lit "https://b.example/")
         (snd (disableOnPage (lit "https://b.example/")
                 (mkBackground [] zero_stats [lit "https://a.example/x"] [] 0 []))))
  = mkBackground [] zero_stats [lit "https://a.example/x"] [] 0 [].
Proof.
  split.
  - rewrite (proj1 (proj1 (proj2 (proj2 (proj1
               (X24_disable_enable_round_trip (lit "https://b.example/")
                  (mkBackground [] zero_stats [lit "https://a.example/x"] [] 0 [])))))
               (lit "https://a.example/x") ltac:(discriminate))).
    reflexivity.
  - apply (proj2 (proj2 (proj2 (proj2 (proj2 (proj2 (proj2 (proj1
             (X24_disable_enable_round_trip (lit "https://b.example/")
                (mkBackground [] zero_stats [lit "https://a.example/x"] [] 0 [])))))))))).
    reflexivity.
Defined.

(** X25.  The two checks agree: for an address that the URL parser
    accepts, [checkIfDisabled] of the content script answers true
    exactly when [checkDisabled] of the background script reports the
    page or its site as switched off.  After [disableOnSite] every such
    address of that site is switched off, and after [disableOnPage] the
    page is. *)
Theorem X25_disabled_checks_agree :
  forall site_of url siteUrl bg,
    site_of url = Some siteUrl ->
    checkIfDisabled site_of url bg
    = (fst (checkDisabled site_of url bg) || snd (checkDisabled site_of url bg))%bool /\
    checkIfDisabled site_of url (snd (disableOnSite siteUrl bg)) = true /\
    checkIfDisabled site_of url (snd (disableOnPage url bg)) = true.
Proof.
  intros site_of url siteUrl bg Hs. unfold checkIfDisabled, checkDisabled. rewrite Hs.
  cbn [fst snd]. split; [|split].
  - destruct (mem url (disabledPages bg)); [reflexivity|].
    now destruct (mem siteUrl (disabledSites bg)).
  - destruct (mem url (disabledPages (snd (disableOnSite siteUrl bg)))); [reflexivity|].
    unfold disableOnSite. cbv zeta.
    destruct (mem siteUrl (disabledSites bg)) eqn:E;
      cbn [negb snd with_disabledSites disabledSites].
    + now rewrite E.
    + now rewrite mem_snoc_self.
  - unfold disableOnPage. cbv zeta.
    destruct (mem url (disabledPages bg)) eqn:E;
      cbn [negb snd with_disabledPages disabledPages].
    + now rewrite E.
    + now rewrite mem_snoc_self.
Qed.

Lemma X25_disabled_checks_witness :
  checkIfDisabled (fun _ => Some (lit "https://a.example")) (lit "https://a.example/x")
    (snd (disableOnSite (lit "https://a.example")
            (mkBackground [] zero_stats [] [] 0 []))) = true.
Proof.
  apply (proj1 (proj2 (@X25_disabled_checks_agree
                         (fun _ => Some (lit "https://a.example"))
                         (lit "https://a.example/x") (lit "https://a.example")
                         (mkBackground [] zero_stats [] [] 0 []) eq_refl))).
Defined.

(* ================================================================== *)
(** * Statistics *)

Section Statistics.

Lemma valid_format_cases (f : jsstring) :
  In f VALID_FORMATS -> f = MATHML \/ f = LATEX \/ f = UNICODE \/ f = ASCIIMATH.
Proof. cbn. intuition. Qed.

Lemma formatUsage_MATHML (s : Stats) : formatUsage s MATHML = usage_mathml s.
Proof. reflexivity. Qed.
Lemma formatUsage_LATEX (s : Stats) : formatUsage s LATEX = usage_latex s.
Proof. reflexivity. Qed.
Lemma formatUsage_UNICODE (s : Stats) : formatUsage s UNICODE = usage_unicode s.
Proof. reflexivity. Qed.
Lemma formatUsage_ASCIIMATH (s : Stats) : formatUsage s ASCIIMATH = usage_asciimath s.
Proof. reflexivity. Qed.

Lemma set_formatUsage_MATHML (n : N) (s : Stats) :
  set_formatUsage MATHML n s
  = mkStats (totalCopies s) n (usage_latex s) (usage_unicode s) (usage_asciimath s)
            (lastUsed s).
Proof. reflexivity. Qed.
Lemma set_formatUsage_LATEX (n : N) (s : Stats) :
  set_formatUsage LATEX n s
  = mkStats (totalCopies s) (usage_mathml s) n (usage_unicode s) (usage_asciimath s)
            (lastUsed s).
Proof. reflexivity. Qed.
Lemma set_formatUsage_UNICODE (n : N) (s : Stats) :
  set_formatUsage UNICODE n s
  = mkStats (totalCopies s) (usage_mathml s) (usage_latex s) n (usage_asciimath s)
            (lastUsed s).
Proof. reflexivity. Qed.
Lemma set_formatUsage_ASCIIMATH (n : N) (s : Stats) :
  set_formatUsage ASCIIMATH n s
  = mkStats (totalCopies s) (usage_mathml s) (usage_latex s) (usage_unicode s) n
            (lastUsed s).
Proof. reflexivity. Qed.

(** One copy in the format [f], below the bound. *)
Lemma counted_once (now : N) (f : jsstring) (s : Stats) :
  In f VALID_FORMATS -> stats_ok s -> (totalCopies s < MAX_SAFE_INTEGER)%N ->
  let s' := updated_stats now (FString (lit "copy")) (FString f) s in
  stats_ok s' /\
  totalCopies s' = (totalCopies s + 1)%N /\
  formatUsage s' f = (formatUsage s f + 1)%N /\
  (forall g, In g VALID_FORMATS -> g <> f -> formatUsage s' g = formatUsage s g) /\
  lastUsed s' = Some now.
Proof.
  intros Hf (Hmax & Hsum) Hlt s'. unfold s', updated_stats.
  assert (Ht : field_truthy (FString f) = true).
  { apply valid_format_cases in Hf as [-> | [-> | [-> | ->]]]; reflexivity. }
  assert (Hm : mem f VALID_FORMATS = true) by now apply mem_In.
  rewrite streq_refl, Ht, Hm. cbn [andb].
  destruct s as [t a b c d l].
  cbn [totalCopies usage_mathml usage_latex usage_unicode usage_asciimath lastUsed] in *.
  unfold MAX_SAFE_INTEGER in *.
  assert (B : forall n, (n <= t)%N -> bump n = (n + 1)%N).
  { intros n Hn. unfold bump, MAX_SAFE_INTEGER.
    assert (E : N.ltb 9007199254740991 (n + 1) = false) by (apply N.ltb_ge; lia).
    now rewrite E. }
  apply valid_format_cases in Hf as [-> | [-> | [-> | ->]]];
    rewrite ?formatUsage_MATHML, ?formatUsage_LATEX, ?formatUsage_UNICODE,
      ?formatUsage_ASCIIMATH, ?set_formatUsage_MATHML, ?set_formatUsage_LATEX,
      ?set_formatUsage_UNICODE, ?set_formatUsage_ASCIIMATH;
    cbn [totalCopies usage_mathml usage_latex usage_unicode usage_asciimath lastUsed];
    rewrite !B by lia; unfold stats_ok, MAX_SAFE_INTEGER;
    cbn [totalCopies usage_mathml usage_latex usage_unicode usage_asciimath lastUsed];
    (split; [split; lia|]); (split; [reflexivity|]); (split; [reflexivity|]);
    (split; [|reflexivity]);
    intros g Hg Hne; apply valid_format_cases in Hg as [-> | [-> | [-> | ->]]];
    try contradiction; reflexivity.
Qed.

End Statistics.

(** X26.  [updateStats] for a copy in a valid format counts it once in
    the total and once under its format, leaves the other counts as
    they are and records the instant; for anything that is not a valid
    format it leaves the statistics unchanged; a reset sets everything
    to zero.  While the total is below [Number.MAX_SAFE_INTEGER], it
    stays the sum of the counts by format. *)
Theorem X26_updateStats_counts :
  forall now bg,
    (forall f, In f VALID_FORMATS ->
               stats_ok (mathCopyStats bg) ->
               (totalCopies (mathCopyStats bg) < MAX_SAFE_INTEGER)%N ->
       let s' := mathCopyStats (snd (updateStats now (FString (lit "copy")) (FString f) bg)) in
       stats_ok s' /\
       totalCopies s' = (totalCopies (mathCopyStats bg) + 1)%N /\
       formatUsage s' f = (formatUsage (mathCopyStats bg) f + 1)%N /\
       (forall g, In g VALID_FORMATS -> g <> f ->
                  formatUsage s' g = formatUsage (mathCopyStats bg) g) /\
       lastUsed s' = Some now) /\
    (forall f, ~ In f VALID_FORMATS ->
       mathCopyStats (snd (updateStats now (FString (lit "copy")) (FString f) bg))
       = mathCopyStats bg) /\
    (forall v, mathCopyStats (snd (updateStats now (FString (lit "reset")) v bg))
               = zero_stats) /\
    stats_ok zero_stats.
Proof.
  intros now bg. split; [|split; [|split]].
  - intros f Hf Hok Hlt. apply (@counted_once now f (mathCopyStats bg) Hf Hok Hlt).
  - intros f Hf. unfold updateStats. cbv zeta.
    cbn [snd send_broadcast with_stats mathCopyStats]. unfold updated_stats.
    rewrite streq_refl.
    assert (Hm : mem f VALID_FORMATS = false).
    { destruct (mem f VALID_FORMATS) eqn:E; [|reflexivity]. now apply mem_In in E. }
    rewrite Hm. destruct (field_truthy (FString f)); reflexivity.
  - intros v. unfold updateStats. cbv zeta.
    cbn [snd send_broadcast with_stats mathCopyStats]. unfold updated_stats.
    reflexivity.
  - unfold stats_ok, zero_stats, MAX_SAFE_INTEGER. cbn. split; [lia | reflexivity].
Qed.

Lemma X26_updateStats_witness :
  totalCopies (mathCopyStats (snd (updateStats 7 (FString (lit "copy")) (FString LATEX)
                                               (mkBackground [] zero_stats [] [] 0 []))))
  = 1%N /\
  mathCopyStats (snd (updateStats 7 (FString (lit "copy")) (FString (lit "svg"))
                                  (mkBackground [] zero_stats [] [] 0 [])))
  = zero_stats.
Proof.
  split.
  - apply (proj1 (X26_updateStats_counts 7 (mkBackground [] zero_stats [] [] 0 []))
             LATEX).
    + cbn. tauto.
    + apply (proj2 (proj2 (proj2
               (X26_updateStats_counts 7 (mkBackground [] zero_stats [] [] 0 []))))).
    + reflexivity.
  - apply (proj1 (proj2 (X26_updateStats_counts 7 (mkBackground [] zero_stats [] [] 0 [])))).
    cbn. intuition discriminate.
Defined.

(* ================================================================== *)
(** * From the click to the history *)

Section EndToEnd.

Variable env : Env.

(** The content script's report of a copy is accepted by the background
    script and recorded with the content unchanged. *)
Lemma onMessage_records (clock : Clock) (bg : Background)
      (c format source : jsstring) (count : option nat) :
  c <> [] -> trim c = c -> (len c <= 1000000)%N ->
  fst (onMessage clock (equationCopied c format source count) bg) = Success /\
  exists item,
    hd_error (mathCopyHistory (snd (onMessage clock (equationCopied c format source count) bg)))
    = Some item /\
    item_formula item = c.
Proof.
  intros Hne Htrim Hlen. destruct c as [|x c]; [contradiction|].
  unfold onMessage. cbn [data_formula data_content field_truthy truthy negb andb].
  unfold addToHistory. cbn [data_formula data_content field_or field_truthy truthy].
  cbv zeta. rewrite Htrim.
  assert (E0 : N.eqb (len (x :: c)) 0 = false).
  { apply N.eqb_neq. unfold len. cbn [List.length]. lia. }
  assert (E1 : N.ltb 1000000 (len (x :: c)) = false) by now apply N.ltb_ge.
  rewrite E0, E1. split; [reflexivity|]. eexists. split; reflexivity.
Qed.

Lemma copy_body_report (p : path) (format : jsstring) (st0 : State) :
  runtime_alive env = true ->
  let st' :=
    let '(content, st) := getEquationContent env st0 (Some p) format in
    if truthy content then
      match copyToClipboard env (sval content) format st with
      | (Ok _, st) =>
          let st := addToClipboardHistory (sval content) format st in
          let st := update_element p (classList_remove [lit "math-copy-copying"]) st in
          let st := update_element p (classList_add (lit "math-copy-success")) st in
          let st := notifyBackground env
                      (equationCopied (sval content) format
                                      (getMathSource (document st) p) None) st in
          setTimeout (RemoveClassTask p (lit "math-copy-success"))
                     SUCCESS_FEEDBACK_DURATION st
      | (Throw _, st) => copy_failed p st
      end
    else copy_failed p st in
  (clipboard st' = clipboard st0 /\ sent st' = sent st0) \/
  (exists c source,
      c <> [] /\ trim c = c /\ (len c <= 100000)%N /\
      clipboard st' = clipboard st0 ++ [c] /\
      sent st' = sent st0 ++ [equationCopied c format source None]).
Proof.
  intros Ha. cbv zeta.
  destruct (getEquationContent env st0 (Some p) format) as [content st1] eqn:E.
  destruct (getEquationContent_state env st0 (Some p) format) as (n & _ & Hs).
  rewrite E in Hs. cbn [snd] in Hs. subst st1.
  destruct content as [c|]; [|left; now split].
  assert (Hc : fst (getEquationContent env st0 (Some p) format) = Some c) by now rewrite E.
  apply getEquationContent_content in Hc as (Hne & Htrim & Hlen & _).
  destruct c as [|x c]; [contradiction|]. cbn [truthy sval].
  destruct (fst (copyToClipboard env (x :: c) format (with_errorCount n st0)))
    as [u|err] eqn:Hcopy.
  2:{ left.
      destruct (copyToClipboard_throw _ _ _ _ Hcopy) as [H|H];
        destruct (copyToClipboard env (x :: c) format (with_errorCount n st0)) as [r st2];
        cbn [fst snd] in *; subst r st2; now split. }
  rewrite (@copyToClipboard_ok env _ _ _ u Hcopy).
  right. exists (x :: c). eexists. unfold notifyBackground. rewrite Ha.
  repeat split; try assumption; reflexivity.
Qed.

End EndToEnd.

(** X27.  What a click puts on the clipboard is what the history gets.
    While the extension context is alive, [copyEquation] either leaves
    the clipboard alone and reports nothing, or writes one content to
    the clipboard and sends one message about it, which the background
    script accepts and records as the first item of its history with
    that same content as the formula. *)
Theorem X27_copied_content_is_recorded :
  forall env override p st clock bg,
    runtime_alive env = true ->
    let st' := copyEquation env override p st in
    (clipboard st' = clipboard st /\ sent st' = sent st) \/
    (exists c m,
        clipboard st' = clipboard st ++ [c] /\
        sent st' = sent st ++ [m] /\
        fst (onMessage clock m bg) = Success /\
        exists item,
          hd_error (mathCopyHistory (snd (onMessage clock m bg))) = Some item /\
          item_formula item = c).
Proof.
  intros env override p st clock bg Ha st'.
  destruct (@copy_body_report env p (sval (jsor override (Some (currentFormat st))))
              (update_element p (classList_add (lit "math-copy-copying")) st) Ha)
    as [H | (c & source & Hne & Htrim & Hlen & Hclip & Hsent)].
  - left. exact H.
  - right. exists c. eexists. split; [exact Hclip|]. split; [exact Hsent|].
    apply onMessage_records; [exact Hne | exact Htrim | lia].
Qed.

Lemma X27_copied_content_witness :
  exists c m,
    clipboard (copyEquation plain_env None [0] (initial_state katex_page)) = [c] /\
    sent (copyEquation plain_env None [0] (initial_state katex_page)) = [m] /\
    fst (onMessage (mkClock 5 5 5) m (mkBackground [] zero_stats [] [] 0 [])) = Success.
Proof.
  destruct (X27_copied_content_is_recorded plain_env None [0] (initial_state katex_page)
              (mkClock 5 5 5) (mkBackground [] zero_stats [] [] 0 []) eq_refl)
    as [[H _] | (c & m & H1 & H2 & H3 & _)].
  - discriminate H.
  - exists c, m. now repeat split.
Defined.
